(* ===== verification/_CoqProject ===== *)
-Q . S2P
Prelude.v
External.v
ValidatorTypes.v
SlashingDb.v
SlashingInv.v
SlashingDecision.v
Interchange.v
SlashingSafety.v
Eots.v
EthereumValidator.v
EthereumSafety.v
ValidatorService.v
ValidatorWitness.v
Ttlv.v
TtlvCorrect.v
AuditEvent.v
HashChain.v
MerkleTree.v
AuditVerifier.v
TamperDetection.v
AuditStorage.v
AuditLogger.v
AuditRecovery.v
AuditWitness.v
Shamir.v
Platform.v
AesGcm.v
SecretPath.v
SecretVersions.v
SecretStore.v
SecretSpec.v
SecretRefine.v
Leases.v
SecretsManager.v
SecretWitness.v
FileSystem.v
Journal.v
EncryptedFs.v
CrashLogic.v
CrashRecovery.v
CrashSafety.v
DurableStore.v
FsWitness.v
KeyTypes.v
KeyStore.v
KeyManager.v
KeyManagerCorrect.v
FileKeys.v
KeyWitness.v
FileKeysWitness.v
AccessControl.v
Sessions.v
SessionManager.v
SessionSafety.v
SessionLimits.v
SessionWitness.v
PolicyTypes.v
PolicyEvaluator.v
Approval.v
PolicyStore.v
PolicyWitness.v
Recovery.v
RecoveryCorrect.v
Otp.v
AccountWitness.v
AsyncAudit.v
Signing.v
RestApi.v
RestSafety.v
RestAudit.v
RestKeys.v
Webhooks.v
WebhookCorrect.v
CircuitBreaker.v
GrpcApi.v
GrpcCorrect.v
ApiWitness.v
RaftLog.v
ClusterNode.v
ClusterWitness.v
