(* ===== verification/Prelude.v ===== *)
(** * A verification development for the hsm workspace

    The repository is a hardware-security-module service in Rust
    ([src/crates]).  This library models the parts of it whose correctness is
    a matter of program logic and proves what they promise.  The definitions
    are translated from the source, keep its names where they are Rocq
    identifiers, and are executable, so that the witnesses evaluate them.

    ** The program and how its parts interact

    Clients reach the service through an interface (REST, gRPC, KMIP).  The
    interface authenticates a session ([auth]), asks three layers of
    authorization (roles, namespaces, access lists of keys), calls the key
    manager ([key-manager]), which keeps keys in memory and writes them
    through to a storage backend ([storage]), runs the cryptographic engines
    ([crypto-engine]) and records what it did in a tamper-evident log
    ([audit]).  The secrets engine ([secrets]) stores versioned secrets and
    hands them out under leases.  The validator service ([validator]) signs
    for Ethereum and Babylon validators and never signs what would be
    slashed.  Master keys are backed up in shares ([backup]).  Transactions are
    checked against spending policies and approved by several people
    ([auth/src/policy]).  Users recover their accounts and log in with
    one-time passwords.  Nodes replicate commands through a Raft log
    ([cluster]).  The gRPC interface ([grpc-api]) reaches the key
    manager through a circuit breaker.

    ** Conventions

    - [Result<T, E>] is [result T E].  A method that changes shared state is
      a value of [M S E A], a function from the state to a result and the
      state after it; the changes made before an error are kept.
    - The clock ([now]), random bytes, generated keys and identifiers are
      arguments.  Machine integers are [Z] with their wrap-around written
      out; [None] as an outcome is a panic.
    - A lock held for a whole method makes the method one step.  Where the
      source lets go of a lock in the middle, the halves are definitions of
      their own, and theorems run other operations in between.
    - Third-party code is a type class with the operations the source calls
      and their documented laws ([External], [Platform], [Signing]); every
      class has a concrete instance, which the witnesses use.  Of JSON only
      types whose values all read back have that law ([Serde]); for secrets and
      audit events it is a condition ([reads_back]) or part of the result.
    - Logging, metrics and tracing are left out.

    ** The files

    - [Prelude]: results and the state-and-error monad with its frame rules
      ([keeps], the hint database [hsm]), machine integers, bytes, text.
    - [External], [Platform]: the packages the program calls.
    - [validator]: [ValidatorTypes] (types.rs, error.rs), [SlashingDb]
      (slashing_db.rs) with [SlashingInv], [SlashingDecision] and
      [SlashingSafety]; [Interchange] (interchange.rs);
      [Eots] (babylon.rs); [EthereumValidator] (ethereum.rs) with
      [EthereumSafety]; [ValidatorService] (service.rs); [ValidatorWitness].
    - [kmip-server]: [Ttlv] (ttlv/) with [TtlvCorrect].
    - [audit]: [AuditEvent], [HashChain] (with checkpoint.rs), [MerkleTree],
      [AuditVerifier], [TamperDetection], [AuditStorage], [AuditLogger] and
      [AsyncAudit] (the source files of these names); [AuditRecovery] and
      [AuditWitness].
    - [backup]: [Shamir] (shamir.rs).
    - [crypto-engine]: [AesGcm] (symmetric/aes_gcm.rs), [Signing]
      (asymmetric/ed25519.rs, ecdsa.rs, rsa.rs).
    - [secrets]: [SecretPath] (secret.rs), [SecretVersions] (version.rs),
      [SecretStore] and [SecretsManager] (store.rs), [Leases] (lease.rs);
      [SecretSpec] is the abstract vault and [SecretRefine] the proof that
      both stores implement it; [SecretWitness].
    - [storage]: [FileSystem] (the directory tree, with disk steps that can
      fail or tear a write; checksum.rs, master_key.rs), [Journal]
      (journal.rs), [EncryptedFs] (encrypted_fs.rs); [CrashLogic] is a Hoare
      logic with a crash condition, [CrashRecovery] and [CrashSafety] prove
      recovery and the operations in it, [DurableStore] refines the storage to
      a map; [FsWitness].
    - [key-manager]: [KeyTypes] (key.rs, metadata.rs, namespace.rs),
      [KeyStore] (store.rs), [KeyManager] (lib.rs, and the storage trait of
      storage/src/backend.rs), [KeyManagerCorrect], [KeyWitness];
      [FileKeys] and [FileKeysWitness] put the manager on the file storage.
    - [auth]: [AccessControl] (rbac/, namespace.rs, acl.rs,
      mtls/identity.rs), [Sessions] and [SessionManager] (session/),
      [SessionSafety], [SessionLimits], [SessionWitness]; [PolicyTypes] (with
      tracker.rs), [PolicyEvaluator], [Approval], [PolicyStore] (policy/) with
      [PolicyWitness]; [Recovery] (recovery/mod.rs) with [RecoveryCorrect];
      [Otp] (passwordless/otp.rs); [AccountWitness].
    - [rest-api]: [RestApi] (handlers.rs, middleware.rs, routes.rs,
      types.rs), [RestSafety], [RestAudit], [RestKeys].
    - [webhooks]: [Webhooks] (all files, and the webhook handlers of rest-api)
      with [WebhookCorrect].
    - [grpc-api]: [CircuitBreaker] (circuit_breaker.rs), [GrpcApi]
      (handlers_simple.rs, validation.rs, error.rs, middleware/auth.rs and
      auth/src/lib.rs), [GrpcCorrect]; [ApiWitness] for both interfaces and the
      webhooks.
    - [cluster]: [RaftLog] (consensus/log.rs), [ClusterNode] (node.rs,
      consensus/state.rs, membership/, replication/, routing/, transport.rs),
      [ClusterWitness].

    ** What the theorems show

    - Slashing: in every run of the database, with imports and store failures at
      any point, no two approved votes or proposals are slashable
      ([no_double_vote], [no_surround_vote], [no_double_proposal]), also across
      crashes if signatures are requested only while the records are on disk
      ([crash_safety]); for surround votes one signing root must not come with
      two source epochs; legitimate requests are approved
      ([attestation_accepted_iff]); the signers add nothing
      ([ethereum_no_slashable_signature], [eots_no_double_sign],
      [signing_roots_separated]) and the service hands out exactly the
      signatures of these machines ([service_refines]).
    - Wire format: encoding and decoding are inverse, and decoding terminates
      on all input within its nesting limit.
    - Audit: tampering with a chain is evident up to a hash collision, proofs
      of inclusion are sound and complete, an event is on disk before it is
      acknowledged, and a restart recovers the log (before the first rotation,
      and if the events read back from JSON as themselves).
    - Secrets: both stores refine the vault (the encrypted one up to what
      serialisation makes of the data), a deleted secret leaves nothing
      behind, leases end and never come back.
    - Storage: whatever crashes, I/O errors and torn writes happen within
      operations on keys and within recovery, the file storage is the map of
      the acknowledged requests, a request that failed took effect entirely or
      not at all ([durable_map]), and a restart on a working disk succeeds
      ([restart_succeeds]).  This is for regular histories ([DurableStore]):
      names are plain file names, the process is restarted after an I/O error,
      and creating or deleting a namespace meets none.
    - Keys: the cache of the store is transparent up to one error
      ([key_store_transparent]), a restart recovers the keys, also through the
      file storage ([keys_survive_restart], with plain file names), rotation
      does what it says.
    - Policies: a spending limit bounds every window of its length
      ([window_respected]); what is executed was approved by a quorum of
      distinct authorised people ([approval_quorum]), a quorum that votes
      succeeds ([quorum_approves]), the highest tier reached governs
      ([tier_highest]); the store finds exactly the policies of a key
      ([policies_for_key]) and its export restores it ([export_import]).
    - Recovery: an approved recovery has a matching code, a quorum of
      guardians or an elapsed delay behind it, provided [check_time_lock] is
      asked about time-locked requests only ([recovery_justified]); codes are
      limited ([codes_exhausted]) and backup codes work once
      ([backup_code_once]).
    - One-time passwords: which TOTP codes are accepted ([totp_verify_iff]); no
      HOTP counter is used twice ([hotp_no_replay]); base32 is inverted
      ([base32_roundtrip]); recovery codes work once.
    - Cluster: a running node votes once in a term, so at most one candidate
      gets the votes of a quorum ([vote_safety]); a
      follower that is sent the rest of the log has the log of the leader
      ([replication_converges]); acknowledged entries survive a crash
      ([appended_entry_survives]); no signing attempt is accepted twice
      ([attempts_accepted_once]); messages decrypt ([transport_roundtrip]).
    - Sessions: delegation never adds authority, revocation reaches exactly
      the descendants, limits hold.
    - REST: no effect without authentication and authorization, tenants are
      isolated, operations are recorded in the hash chain of the logger
      ([success_is_recorded]), which only grows ([audit_chain_grows]),
      signatures verify.
    - gRPC: the breaker is an abstract machine ([breaker_refines],
      [open_until_timeout]); signatures verify and ciphertexts decrypt
      ([grpc_signed_verifies], [grpc_encrypted_decrypts]); accepted namespaces
      are safe directory names ([namespace_is_directory_name]); what a session
      id is checked for ([authorize_session_iff]).
    - Webhooks: deliveries end with bounded pauses ([delivery_outcome]) after at
      most five requests ([breaker_limits_attempts]), receivers can check them
      ([requests_authentic]), every event is recorded once for each webhook it
      matches ([event_recorded_once]); handlers require the permission
      ([webhooks_need_permission]).
    - Where the code does not do what it means to, a theorem shows the run: a
      retry after a failed flush signs twice
      ([retry_after_failed_flush_double_vote]), a root with two source epochs
      is approved twice ([repeated_root_surround]), a deletion stays when its
      record fails ([unrecorded_deletion]), rotation drops the access rules
      of a key ([rotation_drops_rules]), a key id that is no file name makes
      the storage unusable ([invalid_id_blocks_restart]), a torn journal write
      loses later updates ([acknowledged_write_lost]), amounts beyond 128 bits
      pass every limit ([oversized_value_is_zero]), ten requests for an unknown
      key take the gRPC service down ([unknown_keys_lock_service]), an email
      recovery completes without its code ([email_recovery_without_code]), a
      follower keeps an entry the leader has replaced
      ([conflict_keeps_old_entry]), no node ever leads ([proposals_refused]),
      webhooks reach addresses that the check of URLs refuses
      ([metadata_service_reached]), and more in the files.

    ** Bounds and fuel

    - [Ttlv.decode_item] takes the nesting levels that are left, at first the
      limit of 64 of the source, and [Ttlv.decode_all] fuel for the loop over
      the children; [ttlv_decode_total] shows that both suffice.
    - [Journal.read_frames] takes the length of the file as fuel; every frame
      has at least the four bytes of its length.
    - [Otp.take_groups] takes three rounds, more than the two a byte needs;
      [RaftLog.truncate_loop] and [RaftLog.compact_loop] the number of entries
      and of indices they pass.
    - [SessionManager.revoke_session_cascade] takes fuel for its worklist;
      one more than the number of sessions suffices
      ([revoke_cascade_exact]).
    - [Webhooks.retry_loop] takes one round for each allowed request
      ([delivery_outcome]); delays are below 2^63 seconds, where doubling them
      cannot overflow.
    - Operation counters are 64-bit; [scope_operation_limit] assumes that a
      run is shorter than their range.
    - The storage theorems assume entries below 4 GiB, the range of a frame
      length; [window_respected] assumes that the history of the tracker holds
      the transactions, values below 2^128 and a limit below the largest
      [u128].
    - Crashes keep the writes that were completed, in order: the loss of
      unsynced data at a power failure is not part of the disk.

    ** Not modelled

    Hardware backends, PKCS#11, the network servers, configuration loading,
    metrics, WebAssembly policies, zero-knowledge proofs and the client
    libraries are calls into packages, sockets and devices with little logic
    of their own.  Threshold signatures, DKG, post-quantum and blind
    signatures are arithmetic of external packages; their protocols are not
    covered.  OIDC, WebAuthn and certificate handling parse formats through
    packages.  HD key derivation, transaction formats, KMIP
    operations, backups other than shares and the bridge monitor are
    not covered. *)

From Stdlib Require Import ZArith Lia Strings.Byte Ascii DecimalString DecimalN DecimalPos.
From stdpp Require Import base gmap strings list sorting.

Set Default Goal Selector "!".
#[export] Set Warnings "-clear-no-such-hyp".

Declare Scope hsm_scope.
Delimit Scope hsm_scope with hsm.
Open Scope Z_scope.

Create HintDb hsm.

(** ** Results and the state-and-error monad

    Rust's [Result<T, E>] is [result]; a [&self] method that mutates shared
    state and may fail is a value of [M S E A], a function from the state to
    a result and the state afterwards.  Note that, as in the source, the
    state changes made before an error are kept. *)

Inductive result (A E : Type) : Type :=
| Ok (a : A)
| Err (e : E).
Arguments Ok {A E} _.
Arguments Err {A E} _.

Definition is_ok {A E} (r : result A E) : bool :=
  match r with Ok _ => true | Err _ => false end.

Definition ok_or {A E} (e : E) (o : option A) : result A E :=
  match o with Some a => Ok a | None => Err e end.

Definition rmap_err {A E F} (f : E -> F) (r : result A E) : result A F :=
  match r with Ok a => Ok a | Err e => Err (f e) end.

(** The [?] operator on a plain [Result]. *)
Definition rbind {A B E} (r : result A E) (f : A -> result B E) : result B E :=
  match r with Ok a => f a | Err e => Err e end.
Notation "'let?' x := r 'in' k" := (rbind r (fun x => k))
  (at level 10, x name, r at level 100, k at level 200) : hsm_scope.

Lemma rbind_Ok {A B E} (r : result A E) (f : A -> result B E) b :
  rbind r f = Ok b <-> exists a, r = Ok a /\ f a = Ok b.
Proof.
  destruct r as [a|e]; simpl; split.
  - intros H. by exists a.
  - by intros (? & [= <-] & ?).
  - done.
  - by intros (? & ? & _).
Qed.

Lemma rmap_err_Ok {A E F} (f : E -> F) (r : result A E) a : rmap_err f r = Ok a <-> r = Ok a.
Proof. destruct r as [a'|e]; simpl; split; congruence. Qed.

#[export] Instance result_eq_dec `{EqDecision A, EqDecision E} : EqDecision (result A E).
Proof. solve_decision. Defined.

#[export] Instance Ok_inj {A E} : Inj (=) (=) (@Ok A E).
Proof. by intros a b [= ->]. Qed.

Definition M (S E A : Type) : Type := S -> result A E * S.

Section monad.
Context {S E : Type}.

Definition ret {A} (a : A) : M S E A := fun s => (Ok a, s).
Definition throw {A} (e : E) : M S E A := fun s => (Err e, s).
Definition bind {A B} (c : M S E A) (k : A -> M S E B) : M S E B := fun s =>
  match c s with
  | (Ok a, s') => k a s'
  | (Err e, s') => (Err e, s')
  end.
Definition lift {A} (r : result A E) : M S E A := fun s => (r, s).
Definition modify (f : S -> S) : M S E unit := fun s => (Ok tt, f s).
End monad.

Definition map_err {S E F A} (f : E -> F) (c : M S E A) : M S F A := fun s =>
  match c s with
  | (Ok a, s') => (Ok a, s')
  | (Err e, s') => (Err (f e), s')
  end.

(** [c?] with the error of [c] kept as a value: Rust's [match c { .. }]. *)
Definition attempt {S E F A} (c : M S E A) : M S F (result A E) := fun s =>
  let '(r, s') := c s in (Ok r, s').

Notation "'let!' x := c 'in' k" := (bind c (fun x => k))
  (at level 10, x name, c at level 100, k at level 200) : hsm_scope.
Notation "'let!' ' p := c 'in' k" := (bind c (fun x => match x with p => k end))
  (at level 10, p pattern, c at level 100, k at level 200) : hsm_scope.
Notation "c1 ;! c2" := (bind c1 (fun _ => c2))
  (at level 100, right associativity) : hsm_scope.
Open Scope hsm_scope.

Section monad_facts.
Context {S E : Type}.

Lemma bind_inv {A B} (c : M S E A) (k : A -> M S E B) s r s' :
  bind c k s = (r, s') ->
  (exists a s1, c s = (Ok a, s1) /\ k a s1 = (r, s')) \/
  (exists e, c s = (Err e, s') /\ r = Err e).
Proof.
  unfold bind. destruct (c s) as [[a|e] s1]; intros H.
  - left. by exists a, s1.
  - right. exists e. by simplify_eq.
Qed.

Lemma bind_inv_Ok {A B} (c : M S E A) (k : A -> M S E B) s b s' :
  bind c k s = (Ok b, s') ->
  exists a s1, c s = (Ok a, s1) /\ k a s1 = (Ok b, s').
Proof. intros [?|(e & _ & ?)]%bind_inv; [done|discriminate]. Qed.

Lemma map_err_inv {F A} (f : E -> F) (c : M S E A) s r s' :
  map_err f c s = (r, s') ->
  exists r0, c s = (r0, s') /\ r = rmap_err f r0.
Proof.
  unfold map_err. destruct (c s) as [[a|e] s1]; intros H; simplify_eq; eauto.
Qed.

Lemma map_err_inv_Ok {F A} (f : E -> F) (c : M S E A) s a s' :
  map_err f c s = (Ok a, s') -> c s = (Ok a, s').
Proof.
  intros ([a0|e] & Hc & Hr)%map_err_inv; simpl in Hr; [|discriminate].
  by simplify_eq.
Qed.

Lemma bind_Ok {A B} (c : M S E A) (k : A -> M S E B) s a s1 :
  c s = (Ok a, s1) -> bind c k s = k a s1.
Proof. unfold bind. by intros ->. Qed.
End monad_facts.

(** ** Frames

    [keeps R c]: every run of [c], failing ones included, relates the state
    before to the state after by [R].  For a preorder the rules follow the
    structure of the computation, so [auto with hsm] proves most frames. *)
Definition keeps {S E A} (R : relation S) (c : M S E A) : Prop := forall s, R s (c s).2.

Section frames.
Context {S E : Type} (R : relation S) `{!PreOrder R}.

(** The continuation may rely on what the first computation returned. *)
Lemma keeps_bind_post {A B} (c : M S E A) (k : A -> M S E B) :
  keeps R c -> (forall s a s', c s = (Ok a, s') -> keeps R (k a)) -> keeps R (bind c k).
Proof.
  intros Hc Hk s. unfold bind. specialize (Hc s). destruct (c s) as [[a|e] s1] eqn:H; [|done].
  etrans; [exact Hc|]. by eapply Hk.
Qed.

Lemma keeps_bind {A B} (c : M S E A) (k : A -> M S E B) :
  keeps R c -> (forall a, keeps R (k a)) -> keeps R (bind c k).
Proof. intros Hc Hk. by apply keeps_bind_post. Qed.

Lemma keeps_ret {A} (a : A) : keeps R (@ret S E A a).
Proof. intros s. by cbn. Qed.

Lemma keeps_throw {A} (e : E) : keeps R (@throw S E A e).
Proof. intros s. by cbn. Qed.

Lemma keeps_lift {A} (r : result A E) : keeps R (lift r).
Proof. intros s. by cbn. Qed.

Lemma keeps_attempt {F A} (c : M S F A) : keeps R c -> keeps R (@attempt S F E A c).
Proof. intros Hc s. specialize (Hc s). unfold attempt. by destruct (c s). Qed.

Lemma keeps_map_err {F A} (f : F -> E) (c : M S F A) : keeps R c -> keeps R (map_err f c).
Proof. intros Hc s. specialize (Hc s). unfold map_err. by destruct (c s) as [[]]. Qed.

Lemma keeps_modify (f : S -> S) : (forall s, R s (f s)) -> keeps R (@modify S E f).
Proof. intros Hf s. apply Hf. Qed.
End frames.

#[export] Hint Resolve keeps_bind keeps_ret keeps_throw keeps_lift keeps_attempt keeps_map_err keeps_modify : hsm.

(** ** Machine integers

    An unsigned integer of width [w] is a [Z] in [0 <= x < 2^w]; arithmetic
    that may overflow wraps, as in a release build. *)

Definition in_u (w x : Z) : Prop := 0 <= x < 2 ^ w.
Definition in_ub (w x : Z) : bool := (0 <=? x) && (x <? 2 ^ w).
Definition wrap (w x : Z) : Z := x mod 2 ^ w.
Abbreviation u8 := (in_u 8).
Abbreviation u32 := (in_u 32).
Abbreviation u64 := (in_u 64).
Definition in_i (w x : Z) : Prop := - 2 ^ (w - 1) <= x < 2 ^ (w - 1).
(** Two's complement reading of a [w]-bit word. *)
Definition to_signed (w x : Z) : Z := if x <? 2 ^ (w - 1) then x else x - 2 ^ w.

Lemma in_ub_spec w x : in_ub w x = true <-> in_u w x.
Proof. unfold in_ub, in_u. rewrite andb_true_iff, Z.leb_le, Z.ltb_lt. lia. Qed.

Lemma wrap_small w x : in_u w x -> wrap w x = x.
Proof. intros H. unfold wrap. by apply Z.mod_small. Qed.

Lemma wrap_range w x : 0 <= w -> in_u w (wrap w x).
Proof. intros H. apply Z.mod_pos_bound. lia. Qed.

Lemma to_signed_wrap w x : 0 < w -> in_i w x -> to_signed w (wrap w x) = x.
Proof.
  intros Hw [Hl Hu]. unfold to_signed, wrap.
  assert (2 ^ w = 2 * 2 ^ (w - 1)) as Hp.
  { rewrite <- Z.pow_succ_r by lia. f_equal. lia. }
  destruct (decide (0 <= x)).
  - rewrite Z.mod_small by lia. destruct (Z.ltb_spec x (2 ^ (w - 1))); lia.
  - assert (x mod 2 ^ w = x + 2 ^ w) as ->.
    { symmetry. apply (Z.mod_unique_pos _ _ (-1)); lia. }
    destruct (Z.ltb_spec (x + 2 ^ w) (2 ^ (w - 1))); lia.
Qed.

Lemma to_signed_range w x : 0 < w -> in_u w x -> in_i w (to_signed w x).
Proof.
  intros Hw [Hl Hu]. unfold to_signed, in_i.
  assert (2 ^ w = 2 * 2 ^ (w - 1)) as Hp.
  { rewrite <- Z.pow_succ_r by lia. f_equal. lia. }
  destruct (Z.ltb_spec x (2 ^ (w - 1))); lia.
Qed.

(** Disjoint bits: assembling a number by shifts and disjunctions adds. *)
Lemma lor_shiftl_add a n x : 0 <= n -> 0 <= x < 2 ^ n -> Z.lor (Z.shiftl a n) x = a * 2 ^ n + x.
Proof.
  intros Hn Hx. rewrite <- Z.add_nocarry_lor, Z.shiftl_mul_pow2; [done..|].
  apply Z.bits_inj'. intros k Hk. rewrite Z.land_spec, Z.bits_0, Z.shiftl_spec by done.
  destruct (decide (k < n)) as [|Hkn]; [by rewrite (Z.testbit_neg_r a) by lia|].
  rewrite <- (Z.mod_small x (2 ^ n)), Z.mod_pow2_bits_high by lia. apply andb_false_r.
Qed.

(** ** Bytes *)

Abbreviation byte := Byte.byte.
Abbreviation bytes := (list Byte.byte).

#[export] Instance byte_eq_dec : EqDecision byte := Byte.byte_eq_dec.
#[export] Instance byte_countable : Countable byte :=
  inj_countable Byte.to_N Byte.of_N Byte.of_to_N.

Definition byte_to_Z (b : byte) : Z := Z.of_N (Byte.to_N b).
Definition byte_of_Z (z : Z) : byte :=
  match Byte.of_N (Z.to_N (z mod 256)) with Some b => b | None => Byte.x00 end.

Lemma byte_to_Z_range b : 0 <= byte_to_Z b < 256.
Proof. unfold byte_to_Z. pose proof (Byte.to_N_bounded b). lia. Qed.

Lemma byte_of_to b : byte_of_Z (byte_to_Z b) = b.
Proof.
  unfold byte_of_Z, byte_to_Z. pose proof (Byte.to_N_bounded b).
  rewrite Z.mod_small by lia. by rewrite N2Z.id, Byte.of_to_N.
Qed.

Lemma byte_to_of z : byte_to_Z (byte_of_Z z) = z mod 256.
Proof.
  unfold byte_of_Z, byte_to_Z.
  pose proof (Z.mod_pos_bound z 256 ltac:(lia)) as Hb.
  destruct (Byte.of_N _) as [b|] eqn:Hn.
  - apply Byte.to_of_N in Hn. rewrite Hn. lia.
  - apply Byte.of_N_None_iff in Hn. lia.
Qed.

Lemma byte_of_Z_mod z : byte_of_Z (z mod 256) = byte_of_Z z.
Proof. unfold byte_of_Z. by rewrite Zmod_mod. Qed.

(** Lexicographic order on byte strings, the key order of an ordered tree. *)
Fixpoint bytes_ltb (a b : bytes) : bool :=
  match a, b with
  | _, [] => false
  | [], _ :: _ => true
  | x :: a', y :: b' =>
      if byte_to_Z x <? byte_to_Z y then true
      else if byte_to_Z x =? byte_to_Z y then bytes_ltb a' b' else false
  end.
Definition bytes_lt (a b : bytes) : Prop := bytes_ltb a b = true.
Definition bytes_le (a b : bytes) : Prop := a = b \/ bytes_lt a b.

#[export] Instance bytes_le_dec : RelDecision bytes_le.
Proof. unfold bytes_le, bytes_lt. intros a b. apply _. Defined.

Lemma byte_to_Z_inj a b : byte_to_Z a = byte_to_Z b -> a = b.
Proof. intros H. rewrite <- (byte_of_to a), <- (byte_of_to b). by f_equal. Qed.

Lemma bytes_lt_irrefl a : ~ bytes_lt a a.
Proof.
  unfold bytes_lt. induction a as [|x a IH]; simpl; [done|].
  by rewrite Z.ltb_irrefl, Z.eqb_refl.
Qed.

Lemma bytes_lt_trans a b c : bytes_lt a b -> bytes_lt b c -> bytes_lt a c.
Proof.
  unfold bytes_lt. revert b c.
  induction a as [|x a IH]; intros [|y b] [|z c]; simpl; try done.
  destruct (Z.ltb_spec (byte_to_Z x) (byte_to_Z y)),
    (Z.ltb_spec (byte_to_Z y) (byte_to_Z z)),
    (Z.ltb_spec (byte_to_Z x) (byte_to_Z z)),
    (Z.eqb_spec (byte_to_Z x) (byte_to_Z y)),
    (Z.eqb_spec (byte_to_Z y) (byte_to_Z z)),
    (Z.eqb_spec (byte_to_Z x) (byte_to_Z z)); try done; try lia.
  apply IH.
Qed.

Lemma bytes_lt_total a b : bytes_lt a b \/ a = b \/ bytes_lt b a.
Proof.
  unfold bytes_lt. revert b.
  induction a as [|x a IH]; intros [|y b]; simpl; eauto.
  destruct (Z.ltb_spec (byte_to_Z x) (byte_to_Z y)),
    (Z.ltb_spec (byte_to_Z y) (byte_to_Z x)),
    (Z.eqb_spec (byte_to_Z x) (byte_to_Z y)),
    (Z.eqb_spec (byte_to_Z y) (byte_to_Z x)); eauto; try lia.
  rewrite (byte_to_Z_inj x y) by done.
  destruct (IH b) as [?|[->|?]]; eauto.
Qed.

#[export] Instance bytes_le_trans : Transitive bytes_le.
Proof. intros a b c [->|?] [->|?]; unfold bytes_le; eauto using bytes_lt_trans. Qed.
#[export] Instance bytes_le_total : Total bytes_le.
Proof.
  intros a b. unfold bytes_le. destruct (bytes_lt_total a b) as [?|[->|?]]; eauto.
Qed.
#[export] Instance bytes_le_antisym : AntiSymm (=) bytes_le.
Proof.
  intros a b [->|H1] [H2|H2]; try done.
  destruct (bytes_lt_irrefl a). eauto using bytes_lt_trans.
Qed.

(** [u64::to_le_bytes], [u32::to_be_bytes] and their inverses, at any width
    of [n] bytes. *)
Fixpoint le_bytes (n : nat) (v : Z) : bytes :=
  match n with
  | O => []
  | S n' => byte_of_Z v :: le_bytes n' (v / 256)
  end.
Fixpoint from_le_bytes (bs : bytes) : Z :=
  match bs with
  | [] => 0
  | b :: bs' => byte_to_Z b + 256 * from_le_bytes bs'
  end.
Definition be_bytes (n : nat) (v : Z) : bytes := reverse (le_bytes n v).
Definition from_be_bytes (bs : bytes) : Z := from_le_bytes (reverse bs).

Lemma length_le_bytes n v : length (le_bytes n v) = n.
Proof. revert v. induction n; intros; simpl; auto. Qed.

Lemma length_be_bytes n v : length (be_bytes n v) = n.
Proof. unfold be_bytes. by rewrite length_reverse, length_le_bytes. Qed.

Lemma from_le_le_bytes n v : from_le_bytes (le_bytes n v) = v mod 256 ^ Z.of_nat n.
Proof.
  revert v. induction n as [|n IH]; intros v; simpl.
  - by rewrite Z.mod_1_r.
  - rewrite IH, byte_to_of.
    rewrite Nat2Z.inj_succ, Z.pow_succ_r by lia.
    rewrite Z.rem_mul_r by lia. lia.
Qed.

Lemma le_bytes_from_le bs : le_bytes (length bs) (from_le_bytes bs) = bs.
Proof.
  induction bs as [|b bs IH]; simpl; [done|].
  pose proof (byte_to_Z_range b).
  f_equal.
  - rewrite <- byte_of_Z_mod, Z.mul_comm, Z_mod_plus_full, byte_of_Z_mod.
    apply byte_of_to.
  - rewrite Z.mul_comm, Z_div_plus_full, Z.div_small by lia. apply IH.
Qed.

Lemma from_le_bytes_range bs : 0 <= from_le_bytes bs < 256 ^ Z.of_nat (length bs).
Proof.
  induction bs as [|b bs IH]; simpl length; simpl from_le_bytes.
  - lia.
  - pose proof (byte_to_Z_range b).
    rewrite Nat2Z.inj_succ, Z.pow_succ_r by lia. lia.
Qed.

Lemma from_be_be_bytes n v : from_be_bytes (be_bytes n v) = v mod 256 ^ Z.of_nat n.
Proof. unfold from_be_bytes, be_bytes. by rewrite reverse_involutive, from_le_le_bytes. Qed.

Lemma be_bytes_from_be bs : be_bytes (length bs) (from_be_bytes bs) = bs.
Proof.
  unfold from_be_bytes, be_bytes.
  rewrite <- (length_reverse bs), le_bytes_from_le. apply reverse_involutive.
Qed.

Lemma from_be_bytes_range bs : 0 <= from_be_bytes bs < 256 ^ Z.of_nat (length bs).
Proof.
  unfold from_be_bytes. rewrite <- (length_reverse bs). apply from_le_bytes_range.
Qed.

Lemma le_bytes_inj n v w :
  0 <= v < 256 ^ Z.of_nat n -> 0 <= w < 256 ^ Z.of_nat n ->
  le_bytes n v = le_bytes n w -> v = w.
Proof.
  intros Hv Hw H%(f_equal from_le_bytes).
  rewrite !from_le_le_bytes, !Z.mod_small in H by done. done.
Qed.

Lemma be_bytes_inj n v w :
  0 <= v < 256 ^ Z.of_nat n -> 0 <= w < 256 ^ Z.of_nat n ->
  be_bytes n v = be_bytes n w -> v = w.
Proof. intros Hv Hw H%(inj reverse). eauto using le_bytes_inj. Qed.

(** ** Strings

    A Rust [String] is a [string] whose characters are its UTF-8 bytes. *)

Definition as_bytes (s : string) : bytes := String.list_byte_of_string s.
Definition of_bytes (bs : bytes) : string := String.string_of_list_byte bs.

Lemma of_as_bytes s : of_bytes (as_bytes s) = s.
Proof. apply String.string_of_list_byte_of_string. Qed.

Lemma as_of_bytes bs : as_bytes (of_bytes bs) = bs.
Proof. apply String.list_byte_of_string_of_list_byte. Qed.

Lemma as_bytes_inj s t : as_bytes s = as_bytes t -> s = t.
Proof. intros H. rewrite <- (of_as_bytes s), <- (of_as_bytes t). by f_equal. Qed.

Lemma as_bytes_app (s t : string) : as_bytes (s +:+ t) = as_bytes s ++ as_bytes t.
Proof.
  unfold as_bytes. induction s as [|c s IH]; [done|].
  unfold String.list_byte_of_string in *. simpl. by rewrite IH.
Qed.

Lemma length_as_bytes (s : string) : length (as_bytes s) = String.length s.
Proof.
  unfold as_bytes, String.list_byte_of_string. rewrite length_map.
  induction s as [|c s IH]; simpl; auto.
Qed.

(** [String::from_utf8]: the well-formed byte sequences of Unicode 3.9. *)
Definition in_range (lo hi : Z) (b : byte) : bool := (lo <=? byte_to_Z b) && (byte_to_Z b <=? hi).
Fixpoint utf8_valid (bs : bytes) : bool :=
  match bs with
  | [] => true
  | b0 :: rest0 =>
      if in_range 0x00 0x7F b0 then utf8_valid rest0
      else match rest0 with
      | [] => false
      | b1 :: rest1 =>
          if in_range 0xC2 0xDF b0 then in_range 0x80 0xBF b1 && utf8_valid rest1
          else match rest1 with
          | [] => false
          | b2 :: rest2 =>
              if in_range 0xE0 0xEF b0 then
                in_range (if in_range 0xE0 0xE0 b0 then 0xA0 else 0x80)
                         (if in_range 0xED 0xED b0 then 0x9F else 0xBF) b1 &&
                in_range 0x80 0xBF b2 && utf8_valid rest2
              else match rest2 with
              | [] => false
              | b3 :: rest3 =>
                  in_range 0xF0 0xF4 b0 &&
                  in_range (if in_range 0xF0 0xF0 b0 then 0x90 else 0x80)
                           (if in_range 0xF4 0xF4 b0 then 0x8F else 0xBF) b1 &&
                  in_range 0x80 0xBF b2 && in_range 0x80 0xBF b3 && utf8_valid rest3
              end
          end
      end
  end.
Definition from_utf8 (bs : bytes) : option string :=
  if utf8_valid bs then Some (of_bytes bs) else None.

(** [str::trim().is_empty()]: only characters with the Unicode property
    White_Space, given by their UTF-8 encodings. *)
Definition is_ascii_space (b : byte) : bool := in_range 0x09 0x0D b || in_range 0x20 0x20 b.
Definition is_space2 (b0 b1 : byte) : bool :=
  in_range 0xC2 0xC2 b0 && (in_range 0x85 0x85 b1 || in_range 0xA0 0xA0 b1).
Definition is_space3 (b0 b1 b2 : byte) : bool :=
  (in_range 0xE1 0xE1 b0 && in_range 0x9A 0x9A b1 && in_range 0x80 0x80 b2) ||
  (in_range 0xE2 0xE2 b0 && in_range 0x80 0x80 b1 &&
   (in_range 0x80 0x8A b2 || in_range 0xA8 0xA9 b2 || in_range 0xAF 0xAF b2)) ||
  (in_range 0xE2 0xE2 b0 && in_range 0x81 0x81 b1 && in_range 0x9F 0x9F b2) ||
  (in_range 0xE3 0xE3 b0 && in_range 0x80 0x80 b1 && in_range 0x80 0x80 b2).
Fixpoint is_blank (bs : bytes) : bool :=
  match bs with
  | [] => true
  | b0 :: rest0 =>
      if is_ascii_space b0 then is_blank rest0
      else match rest0 with
      | [] => false
      | b1 :: rest1 =>
          if is_space2 b0 b1 then is_blank rest1
          else match rest1 with
          | [] => false
          | b2 :: rest2 => is_space3 b0 b1 b2 && is_blank rest2
          end
      end
  end.

(** [str::strip_prefix(p).unwrap_or(s)] *)
Fixpoint strip_prefix (p s : string) : option string :=
  match p, s with
  | EmptyString, _ => Some s
  | String a p', String b s' => if Ascii.ascii_dec a b then strip_prefix p' s' else None
  | String _ _, EmptyString => None
  end.
Definition strip_prefix_or (p s : string) : string := default s (strip_prefix p s).

Lemma strip_prefix_app p s : strip_prefix p (p +:+ s) = Some s.
Proof. induction p as [|a p IH]; simpl; [done|]. by destruct (Ascii.ascii_dec a a). Qed.

(** [s.contains(p)] and [s.strip_suffix(p)]. *)
Definition contains (p s : string) : bool :=
  match String.index 0 p s with Some _ => true | None => false end.
Fixpoint strip_suffix (p s : string) : option string :=
  if decide (s = p) then Some EmptyString
  else match s with EmptyString => None | String c s' => String c <$> strip_suffix p s' end.

Lemma strip_suffix_Some (p s r : string) : strip_suffix p s = Some r <-> s = r +:+ p.
Proof.
  revert r. induction s as [|a s IH]; intros r; simpl; case_decide as Hd.
  - subst p. split; [by intros [= <-]|]. destruct r; [done|intros [=]].
  - split; [done|]. destruct r as [|b r]; [intros E; by destruct Hd|intros [=]].
  - subst p. split; [by intros [= <-]|]. intros E. destruct r as [|b r]; [done|].
    exfalso. apply (f_equal (fun x => length (as_bytes x))) in E. rewrite as_bytes_app, length_app in E. cbn in E. lia.
  - rewrite fmap_Some. split.
    + intros (r' & ->%IH & ->). done.
    + destruct r as [|b r]; intros E; [by destruct Hd|]. injection E as -> E. exists r. by rewrite IH.
Qed.

Lemma strip_prefix_Some (p s r : string) : strip_prefix p s = Some r <-> s = p +:+ r.
Proof.
  split; [|intros ->; apply strip_prefix_app]. revert s. induction p as [|a p IH]; intros s; cbn; [by intros [= ->]|].
  destruct s as [|b s]; [done|]. case_match; [|done]. intros ->%IH. by subst.
Qed.

Lemma NoDup_omap {A B} (f : A -> option B) l :
  (forall x y b, x ∈ l -> y ∈ l -> f x = Some b -> f y = Some b -> x = y) -> NoDup l -> NoDup (omap f l).
Proof.
  intros Hf Hl. induction Hl as [|x l Hx Hl IH]; csimpl; [constructor|].
  assert (NoDup (omap f l)) by (apply IH; intros; eapply Hf; eauto; by right).
  destruct (f x) as [b|] eqn:Hb; [|done]. constructor; [|done].
  rewrite list_elem_of_omap. intros (y & Hy & Hyb). assert (x = y) as -> by (eapply Hf; eauto; [by left|by right]). done.
Qed.

(** [slice::sort_by_key] with a descending key; the sort is stable. *)
Section sort_desc.
Context {A : Type} (key : A -> Z).

Fixpoint insert_desc (x : A) (l : list A) : list A :=
  match l with
  | [] => [x]
  | y :: rest => if key y <=? key x then x :: l else y :: insert_desc x rest
  end.
Definition sort_desc (l : list A) : list A := foldr insert_desc [] l.
Definition descending (l : list A) : Prop := StronglySorted (fun x y => key y <= key x) l.

Lemma insert_desc_perm x l : insert_desc x l ≡ₚ x :: l.
Proof.
  induction l as [|y l IH]; simpl; [done|]. case_match; [done|]. rewrite IH. apply Permutation_swap.
Qed.

Lemma sort_desc_perm l : sort_desc l ≡ₚ l.
Proof. induction l as [|x l IH]; simpl; [done|]. by rewrite insert_desc_perm, IH. Qed.

Lemma insert_desc_descending x l : descending l -> descending (insert_desc x l).
Proof.
  unfold descending. induction 1 as [|y l Hs IH Hall]; simpl; [repeat constructor|].
  destruct (Z.leb_spec (key y) (key x)) as [Hle|Hlt].
  - constructor; [by constructor|]. constructor; [done|]. eapply Forall_impl; [exact Hall|]. simpl. lia.
  - constructor; [done|]. rewrite insert_desc_perm. constructor; [lia|done].
Qed.

Lemma sort_desc_descending l : descending (sort_desc l).
Proof. induction l as [|x l IH]; simpl; [constructor|]. by apply insert_desc_descending. Qed.
End sort_desc.

(** [u64::to_string] and [str::parse::<u64>]: decimal digits, with the
    optional leading [+] the standard library accepts, and an error for the
    empty string, any other character, or a value that does not fit. *)
Definition to_decimal (n : Z) : string := NilZero.string_of_uint (N.to_uint (Z.to_N n)).
Definition parse_uint (w : Z) (s : string) : option Z :=
  let digits := match s with String "+" s' => s' | _ => s end in
  match NilZero.uint_of_string digits with
  | Some d => let v := Z.of_N (N.of_uint d) in if v <? 2 ^ w then Some v else None
  | None => None
  end.

Lemma uint_string_no_plus d s : NilEmpty.string_of_uint d <> String "+" s.
Proof. by destruct d. Qed.

Lemma parse_to_decimal w n : in_u w n -> parse_uint w (to_decimal n) = Some n.
Proof.
  intros [H0 H1]. unfold parse_uint, to_decimal.
  assert (NilZero.uint_of_string (NilZero.string_of_uint (N.to_uint (Z.to_N n)))
          = Some (N.to_uint (Z.to_N n))) as Hrt.
  { apply NilZero.usu. destruct (Z.to_N n) as [|p]; [done|]. simpl.
    apply DecimalPos.Unsigned.to_uint_nonnil. }
  assert (forall s, NilZero.string_of_uint (N.to_uint (Z.to_N n)) <> String "+" s) as Hp.
  { intros s. unfold NilZero.string_of_uint.
    destruct (N.to_uint (Z.to_N n)); [done|apply uint_string_no_plus..]. }
  assert (match NilZero.string_of_uint (N.to_uint (Z.to_N n)) with
          | String "+" s' => s'
          | _ => NilZero.string_of_uint (N.to_uint (Z.to_N n))
          end = NilZero.string_of_uint (N.to_uint (Z.to_N n))) as ->.
  { repeat case_match; subst; try done. by destruct (Hp _ eq_refl). }
  rewrite Hrt, DecimalN.Unsigned.of_to, Z2N.id by done.
  by rewrite (proj2 (Z.ltb_lt _ _) H1).
Qed.

Lemma to_decimal_inj n m : 0 <= n -> 0 <= m -> to_decimal n = to_decimal m -> n = m.
Proof.
  intros Hn Hm E. set (w := Z.max n m + 1).
  assert (Z.max n m < 2 ^ w).
  { apply Z.lt_trans with w; [lia|]. apply Z.pow_gt_lin_r; lia. }
  pose proof (parse_to_decimal w n ltac:(unfold in_u; lia)) as Hpn.
  rewrite E, parse_to_decimal in Hpn by (unfold in_u; lia). by simplify_eq.
Qed.

Lemma parse_uint_range w s n : parse_uint w s = Some n -> in_u w n.
Proof.
  unfold parse_uint. destruct (NilZero.uint_of_string _) as [d|]; [|done].
  destruct (Z.ltb_spec (Z.of_N (N.of_uint d)) (2 ^ w)); [|done]. intros [= <-].
  split; lia.
Qed.

(** ** Byte buffers *)

(** [buf[off..off + src.len()].copy_from_slice(src)] on a fixed-size buffer
    that is long enough. *)
Definition copy_at (off : nat) (src buf : bytes) : bytes :=
  take off buf ++ src ++ drop (off + length src) buf.

Definition zeros (n : nat) : bytes := replicate n Byte.x00.

Lemma length_copy_at off src buf :
  (off + length src <= length buf)%nat -> length (copy_at off src buf) = length buf.
Proof. intros H. unfold copy_at. rewrite !length_app, length_take, length_drop. lia. Qed.

(** Filling a zeroed buffer with two halves concatenates them. *)
Lemma copy_halves (a b : bytes) :
  copy_at (length a) b (copy_at 0 a (zeros (length a + length b))) = a ++ b.
Proof.
  unfold copy_at at 2, zeros. simpl.
  rewrite drop_replicate. replace (length a + length b - length a)%nat with (length b) by lia.
  unfold copy_at. rewrite take_app_length, drop_app_add. f_equal.
  rewrite drop_replicate, Nat.sub_diag. simpl. apply app_nil_r.
Qed.
