(* ===== verification/External.v ===== *)
(** * The crates the program calls

    Interfaces for the third-party code the modelled crates use, each a type
    class with the operations the source calls and the documented behaviour
    it relies on:

    - [Sled]/[SledLaws]: the embedded ordered key-value store [sled].  Every
      call may fail; the laws speak of the volatile contents ([sled_view])
      and of what survives a crash ([sled_durable]);
    - [SerdeCodec], [Serde], [JsonText]: [serde_json::to_vec] / [from_slice] at one type;
    - [Hex]: [hex::encode] / [hex::decode];
    - [Sha256], [Hmac]: SHA-256 and HMAC-SHA-256;
    - [Secp256k1]: ECDSA keys and recoverable signatures of [k256];
    - [Bls]: BLS keys and signatures of [blst];
    - [Sharks]: Shamir's secret sharing of [sharks];
    - [Chrono]: [DateTime::to_rfc3339].

    The second half of the file gives one concrete instance of each, used by
    the witnesses to run the model: an in-memory store with an explicit
    schedule of faults, a codec for any countable type, plain base-16, and a
    toy 32-byte checksum. *)

From Stdlib Require Import ZArith Lia Strings.Byte Ascii.
From stdpp Require Import base gmap strings list sorting.
From S2P Require Import Prelude.

(** ** Ordered trees of byte strings *)

(** The entries of a tree whose keys start with [p], in key order. *)
Definition tree_scan (p : bytes) (m : gmap bytes bytes) : list (bytes * bytes) :=
  omap (fun k => (fun v => (k, v)) <$> m !! k)
    (merge_sort bytes_le (filter (fun k => p `prefix_of` k) (elements (dom m)))).

Section tree_scan.
Implicit Types (m : gmap bytes bytes) (p k v : bytes).

Lemma elem_of_tree_scan p m k v :
  (k, v) ∈ tree_scan p m <-> m !! k = Some v /\ p `prefix_of` k.
Proof.
  unfold tree_scan. rewrite list_elem_of_omap. split.
  - intros (k' & Hk & Hv). rewrite merge_sort_Permutation, list_elem_of_filter in Hk.
    destruct (m !! k') eqn:Hm; simplify_eq/=. by destruct Hk.
  - intros [Hm Hp]. exists k. rewrite merge_sort_Permutation, list_elem_of_filter.
    rewrite elem_of_elements, elem_of_dom. rewrite Hm. by eauto.
Qed.

Lemma tree_scan_keys p m :
  (tree_scan p m).*1 =
  merge_sort bytes_le (filter (fun k => p `prefix_of` k) (elements (dom m))).
Proof.
  unfold tree_scan.
  set (ks := merge_sort _ _).
  assert (Forall (fun k => is_Some (m !! k)) ks) as Hks.
  { apply Forall_forall. intros k. unfold ks.
    rewrite merge_sort_Permutation, list_elem_of_filter, elem_of_elements, elem_of_dom.
    by intros [_ ?]. }
  clearbody ks. induction Hks as [|k ks [v Hv] _ IH]; csimpl; [done|].
  rewrite Hv. csimpl. by rewrite IH.
Qed.

Lemma tree_scan_NoDup_keys p m : NoDup (tree_scan p m).*1.
Proof.
  rewrite tree_scan_keys, merge_sort_Permutation.
  apply NoDup_filter, NoDup_elements.
Qed.

Lemma tree_scan_sorted p m : StronglySorted bytes_le (tree_scan p m).*1.
Proof. rewrite tree_scan_keys. apply (StronglySorted_merge_sort bytes_le). Qed.
End tree_scan.

(** ** sled *)

Class Sled (db : Type) := {
  sled_get : string -> bytes -> M db string (option bytes);
  sled_contains_key : string -> bytes -> M db string bool;
  sled_insert : string -> bytes -> bytes -> M db string unit;
  sled_scan_prefix : string -> bytes -> db -> list (result (bytes * bytes) string) * db;
  sled_flush : M db string unit;
  (** The process dies and the database directory is opened again. *)
  sled_reopen : db -> db;
  sled_view : db -> string -> gmap bytes bytes;
  sled_durable : db -> string -> gmap bytes bytes
}.

(** [tree.iter()] is a scan with the empty prefix. *)
Definition sled_iter {db} `{Sled db} (t : string) (d : db) := sled_scan_prefix t [] d.

(** Between two states, what is on disk for a key either stays what it was
    or becomes the volatile value. *)
Definition sled_settles {db} `{Sled db} (d d' : db) : Prop :=
  forall t k, sled_durable d' t !! k = sled_durable d t !! k \/
              sled_durable d' t !! k = sled_view d' t !! k.

Definition sled_quiet {db} `{Sled db} (d d' : db) : Prop :=
  (forall t, sled_view d' t = sled_view d t) /\ sled_settles d d'.

Definition sled_put {db} `{Sled db} (t : string) (k v : bytes) (d d' : db) : Prop :=
  forall t', sled_view d' t' = if decide (t' = t) then <[k:=v]> (sled_view d t) else sled_view d t'.

Class SledLaws (db : Type) `{Sled db} : Prop := {
  sled_get_law t k d r d' :
    sled_get t k d = (r, d') ->
    sled_quiet d d' /\ (forall o, r = Ok o -> o = sled_view d t !! k);
  sled_contains_key_law t k d r d' :
    sled_contains_key t k d = (r, d') ->
    sled_quiet d d' /\ (forall b, r = Ok b -> b = bool_decide (is_Some (sled_view d t !! k)));
  sled_insert_law t k v d r d' :
    sled_insert t k v d = (r, d') ->
    sled_settles d d' /\
    (sled_put t k v d d' \/ (is_ok r = false /\ forall t', sled_view d' t' = sled_view d t'));
  sled_scan_law t p d items d' :
    sled_scan_prefix t p d = (items, d') ->
    sled_quiet d d' /\
    (forall es, items = Ok <$> es -> es = tree_scan p (sled_view d t));
  sled_flush_law d r d' :
    sled_flush d = (r, d') ->
    sled_quiet d d' /\ (r = Ok tt -> forall t, sled_durable d' t = sled_view d t);
  sled_reopen_law d t :
    sled_view (sled_reopen d) t = sled_durable d t /\
    sled_durable (sled_reopen d) t = sled_durable d t
}.

Lemma sled_quiet_refl {db} `{Sled db} (d : db) : sled_quiet d d.
Proof. split; [done|]. by left. Qed.

Lemma sled_quiet_trans {db} `{Sled db} (d1 d2 d3 : db) :
  sled_quiet d1 d2 -> sled_quiet d2 d3 -> sled_quiet d1 d3.
Proof.
  intros [V1 S1] [V2 S2]. split.
  - intros t. by rewrite V2, V1.
  - intros t k. destruct (S2 t k) as [->| ->]; [|by right].
    rewrite V2. apply S1.
Qed.

(** ** serde_json at a type *)

Class SerdeCodec (A : Type) := {
  to_vec : A -> result bytes string;
  from_slice : bytes -> result A string
}.

(** Reading what was written gives the value back.  This is not so for every
    value of every type: an untagged enum is read as its first variant that
    fits, and [Some(Null)] of an optional JSON value as [None]. *)
Definition reads_back `{SerdeCodec A} (a : A) : Prop := forall b, to_vec a = Ok b -> from_slice b = Ok a.

(** A type all of whose values read back. *)
Class Serde (A : Type) := {
  serde_codec :: SerdeCodec A;
  from_slice_to_vec a b : to_vec a = Ok b -> from_slice b = Ok a
}.

Lemma serde_reads_back `{Serde A} (a : A) : reads_back a.
Proof. intros b. apply from_slice_to_vec. Qed.

(** JSON text of a type whose serialisation cannot fail: UTF-8, and not only
    white space. *)
Class JsonText (A : Type) {SA : SerdeCodec A} := {
  to_vec_total a : exists b, to_vec a = Ok b;
  to_vec_text a b : to_vec a = Ok b -> utf8_valid b = true /\ is_blank b = false
}.

(** ** hex *)

Class Hex := {
  hex_encode : bytes -> string;
  hex_decode : string -> result bytes string;
  hex_decode_encode b : hex_decode (hex_encode b) = Ok b;
  length_hex_encode b : String.length (hex_encode b) = (2 * length b)%nat
}.

Lemma hex_encode_inj `{Hex} b c : hex_encode b = hex_encode c -> b = c.
Proof.
  intros E%(f_equal hex_decode). rewrite !hex_decode_encode in E. by simplify_eq.
Qed.

(** Only a non-empty string can fail to decode. *)
Lemma hex_decode_empty `{Hex} : hex_decode EmptyString = Ok [].
Proof.
  rewrite <- (hex_decode_encode []). f_equal. pose proof (length_hex_encode []) as Hl.
  by destruct (hex_encode []).
Qed.

(** ** SHA-256, HMAC-SHA-256 and RFC 3339 timestamps *)

Class Sha256 := {
  sha256 : bytes -> bytes;
  length_sha256 m : length (sha256 m) = 32%nat
}.

(** Two different messages with one digest, the first from [xs], the second
    from [ys].  Theorems about tamper evidence end in the alternative of such
    a collision between messages that were really hashed. *)
Definition collision `{Sha256} (xs ys : list bytes) : Prop :=
  exists x y, x ∈ xs /\ y ∈ ys /\ x <> y /\ sha256 x = sha256 y.

#[export] Instance collision_dec `{Sha256} xs ys : Decision (collision xs ys).
Proof.
  refine (cast_if (decide (Exists (fun x => Exists (fun y => x <> y /\ sha256 x = sha256 y) ys) xs))).
  - abstract (setoid_rewrite Exists_exists in e; setoid_rewrite Exists_exists in e;
      destruct e as (x & ? & y & ? & ? & ?); by exists x, y).
  - abstract (intros (x & y & Hx & Hy & Hne & E); apply n, Exists_exists; exists x; split; [done|];
      apply Exists_exists; by exists y).
Defined.

Lemma digest_eq `{Hex, Sha256} xs ys x y :
  x ∈ xs -> y ∈ ys -> hex_encode (sha256 x) = hex_encode (sha256 y) -> x = y \/ collision xs ys.
Proof.
  intros Hx Hy E%hex_encode_inj. destruct (decide (x = y)) as [|Hne]; [by left|].
  right. by exists x, y.
Qed.

Lemma collision_mono `{Sha256} xs xs' ys ys' :
  xs ⊆ xs' -> ys ⊆ ys' -> collision xs ys -> collision xs' ys'.
Proof. intros Hx Hy (x & y & ? & ? & ? & ?). exists x, y. set_solver. Qed.

(** A key shorter than a block of 64 bytes is padded with zeros (RFC 2104). *)
Class Hmac := {
  hmac_sha256 : bytes -> bytes -> bytes;
  length_hmac k m : length (hmac_sha256 k m) = 32%nat;
  hmac_pad k m : (length k < 64)%nat -> hmac_sha256 (k ++ [Byte.x00]) m = hmac_sha256 k m
}.

(** [sharks]: secret sharing with a threshold.  [sharks_dealer] is the whole
    sequence of shares of a dealer, whose randomness is [Rng]; any [t] distinct
    of them recover the secret, and fewer distinct shares are refused. *)
Class Sharks := {
  Share : Type;
  #[global] Share_eq_dec :: EqDecision Share;
  Rng : Type;
  share_to_vec : Share -> bytes;
  share_try_from : bytes -> result Share string;
  share_try_from_to_vec s : share_try_from (share_to_vec s) = Ok s;
  sharks_dealer : Z -> bytes -> Rng -> list Share;
  sharks_recover : Z -> list Share -> result bytes string;
  length_sharks_dealer t secret r : length (sharks_dealer t secret r) = 255%nat;
  NoDup_sharks_dealer t secret r : NoDup (sharks_dealer t secret r);
  sharks_recover_dealt t secret r shares :
    1 <= t <= Z.of_nat (length shares) -> secret <> [] -> NoDup shares ->
    shares ⊆ sharks_dealer t secret r -> sharks_recover t shares = Ok secret;
  sharks_recover_few t shares :
    Z.of_nat (length (remove_dups shares)) < t -> is_ok (sharks_recover t shares) = false
}.

(** [k256::ecdsa]: a key from its 32 bytes, the compressed public key, and a
    recoverable signature of a digest with its recovery id. *)
Class Secp256k1 := {
  SigningKey : Type;
  signing_key_from_slice : bytes -> result SigningKey string;
  to_sec1_bytes : SigningKey -> bytes;
  length_to_sec1_bytes k : length (to_sec1_bytes k) = 33%nat;
  sign_prehash_recoverable : SigningKey -> bytes -> result (bytes * Z) string
}.

(** [blst::min_pk]: keys and signatures of 48 and 96 compressed bytes; a
    signature made with a key verifies under its public key. *)
Class Bls := {
  SecretKey : Type;
  PublicKey : Type;
  Signature : Type;
  secret_key_from_bytes : bytes -> result SecretKey string;
  public_key_from_bytes : bytes -> result PublicKey string;
  signature_from_bytes : bytes -> result Signature string;
  compressed_public_key : SecretKey -> bytes;
  length_compressed_public_key k : length (compressed_public_key k) = 48%nat;
  (** message, domain separation tag, augmentation *)
  bls_sign : SecretKey -> bytes -> bytes -> bytes -> bytes;
  bls_verify : Signature -> bytes -> bytes -> bytes -> PublicKey -> bool;
  bls_verify_sign k msg dst aug : exists pk sig,
    public_key_from_bytes (compressed_public_key k) = Ok pk /\
    signature_from_bytes (bls_sign k msg dst aug) = Ok sig /\
    bls_verify sig msg dst aug pk = true
}.

Class Chrono := { to_rfc3339 : Z -> string }.

(** ** Concrete instances

    [mem_sled] keeps both maps and consumes one element of [ms_faults] per
    call ([true]: the call fails and does nothing); an exhausted schedule
    never fails.  Importing [Concrete] makes all of them the default. *)

Module Concrete.

Record mem_sled := MemSled {
  ms_vol : gmap string (gmap bytes bytes);
  ms_dur : gmap string (gmap bytes bytes);
  ms_faults : list bool
}.

Definition ms_empty (faults : list bool) : mem_sled := MemSled ∅ ∅ faults.

Definition ms_faulty {A} (f : mem_sled -> A * mem_sled) : M mem_sled string A := fun d =>
  match ms_faults d with
  | true :: fs => (Err "io error"%string, MemSled (ms_vol d) (ms_dur d) fs)
  | false :: fs => let '(a, d') := f (MemSled (ms_vol d) (ms_dur d) fs) in (Ok a, d')
  | [] => let '(a, d') := f d in (Ok a, d')
  end.

Definition ms_tree (m : gmap string (gmap bytes bytes)) (t : string) : gmap bytes bytes :=
  default ∅ (m !! t).

#[export] Instance mem_sled_ops : Sled mem_sled := {
  sled_get t k := ms_faulty (fun d => (ms_tree (ms_vol d) t !! k, d));
  sled_contains_key t k :=
    ms_faulty (fun d => (bool_decide (is_Some (ms_tree (ms_vol d) t !! k)), d));
  sled_insert t k v :=
    ms_faulty (fun d =>
      (tt, MemSled (<[t := <[k := v]> (ms_tree (ms_vol d) t)]> (ms_vol d)) (ms_dur d) (ms_faults d)));
  sled_scan_prefix t p d :=
    match ms_faulty (fun d => (tree_scan p (ms_tree (ms_vol d) t), d)) d with
    | (Ok es, d') => (Ok <$> es, d')
    | (Err e, d') => ([Err e], d')
    end;
  sled_flush := ms_faulty (fun d => (tt, MemSled (ms_vol d) (ms_vol d) (ms_faults d)));
  sled_reopen d := MemSled (ms_dur d) (ms_dur d) (ms_faults d);
  sled_view d t := ms_tree (ms_vol d) t;
  sled_durable d t := ms_tree (ms_dur d) t
}.

Lemma ms_faulty_inv {A} (f : mem_sled -> A * mem_sled) d r d' :
  ms_faulty f d = (r, d') ->
  exists d0, ms_vol d0 = ms_vol d /\ ms_dur d0 = ms_dur d /\
    ((exists a, r = Ok a /\ f d0 = (a, d')) \/ (exists e, r = Err e /\ d' = d0)).
Proof.
  unfold ms_faulty. destruct (ms_faults d) as [|[] fs]; intros H.
  - destruct (f d) eqn:E. simplify_eq. exists d. eauto 10.
  - simplify_eq. eexists (MemSled _ _ _). simpl. eauto 10.
  - destruct (f _) eqn:E. simplify_eq. eexists (MemSled _ _ _). simpl. eauto 10.
Qed.

Lemma ms_quiet d d' : ms_vol d' = ms_vol d -> ms_dur d' = ms_dur d -> sled_quiet d d'.
Proof.
  intros Hv Hd. split; [intros t|intros t k; left]; simpl; by rewrite ?Hv, ?Hd.
Qed.

#[export] Instance mem_sled_laws : SledLaws mem_sled.
Proof.
  split.
  - intros t k d r d' (d0 & Hv & Hd & [(a & -> & E)|(e & -> & ->)])%ms_faulty_inv;
      simplify_eq/=; (split; [by apply ms_quiet|]); intros; simplify_eq/=.
    by rewrite Hv.
  - intros t k d r d' (d0 & Hv & Hd & [(a & -> & E)|(e & -> & ->)])%ms_faulty_inv;
      simplify_eq/=; (split; [by apply ms_quiet|]); intros; simplify_eq/=.
    by rewrite Hv.
  - intros t k v d r d' (d0 & Hv & Hd & [(a & -> & E)|(e & -> & ->)])%ms_faulty_inv;
      simplify_eq/=.
    + split; [intros t' k'; left; simpl; by rewrite Hd|]. left. intros t'. simpl.
      unfold ms_tree at 1. rewrite lookup_insert.
      destruct (decide (t = t')), (decide (t' = t)); simplify_eq/=; rewrite ?Hv; done.
    + split; [by apply ms_quiet|]. right. split; [done|]. intros t'. simpl. by rewrite Hv.
  - intros t p d items d'. simpl. destruct (ms_faulty _ d) as [[a|e] d1] eqn:E;
      intros [= <- <-]; apply ms_faulty_inv in E
        as (d0 & Hv & Hd & [(b & Hb & E)|(e' & He & ->)]); simplify_eq/=.
    + split; [by apply ms_quiet|]. intros es Hes. apply (inj _) in Hes. subst.
      by rewrite Hv.
    + split; [by apply ms_quiet|]. by intros [|? ?] Hes.
  - intros d r d' (d0 & Hv & Hd & [(a & -> & E)|(e & -> & ->)])%ms_faulty_inv; simplify_eq/=.
    + split; [|intros _ t; simpl; by rewrite Hv].
      split; [intros t; simpl; by rewrite Hv|]. intros t k. by right.
    + split; [by apply ms_quiet|]. done.
  - by intros d t.
Qed.

(** Any countable type has a codec: the bits of its code. *)
Fixpoint positive_to_bytes (p : positive) : bytes :=
  match p with
  | xH => []
  | xO p => Byte.x00 :: positive_to_bytes p
  | xI p => Byte.x01 :: positive_to_bytes p
  end.
Fixpoint bytes_to_positive (bs : bytes) : option positive :=
  match bs with
  | [] => Some xH
  | Byte.x00 :: bs => xO <$> bytes_to_positive bs
  | Byte.x01 :: bs => xI <$> bytes_to_positive bs
  | _ => None
  end.

Lemma bytes_positive p : bytes_to_positive (positive_to_bytes p) = Some p.
Proof. induction p as [p IH|p IH|]; simpl; [by rewrite IH..|done]. Qed.

Definition countable_codec {A} `{Countable A} : SerdeCodec A := {|
  to_vec a := Ok (positive_to_bytes (encode a));
  from_slice bs :=
    ok_or "decode error"%string (bytes_to_positive bs ≫= decode)
|}.
Program Definition countable_serde {A} `{Countable A} : Serde A := {| serde_codec := countable_codec |}.
Next Obligation.
  intros A ? ? a b [= <-]. simpl. by rewrite bytes_positive; simpl; rewrite decode_encode.
Qed.

(** Base-16, lower case, two digits per byte. *)
Definition hex_digit (n : Z) : Ascii.ascii :=
  Ascii.ascii_of_N (Z.to_N (if n <? 10 then 48 + n else 87 + n)).
Definition hex_value (c : Ascii.ascii) : option Z :=
  let n := Z.of_N (Ascii.N_of_ascii c) in
  if (48 <=? n) && (n <=? 57) then Some (n - 48)
  else if (97 <=? n) && (n <=? 102) then Some (n - 87)
  else if (65 <=? n) && (n <=? 70) then Some (n - 55)
  else None.
Fixpoint base16_encode (bs : bytes) : string :=
  match bs with
  | [] => EmptyString
  | b :: bs =>
      String (hex_digit (byte_to_Z b / 16))
        (String (hex_digit (byte_to_Z b mod 16)) (base16_encode bs))
  end.
Fixpoint base16_decode (s : string) : option bytes :=
  match s with
  | EmptyString => Some []
  | String a (String b s) =>
      h ← hex_value a; l ← hex_value b; bs ← base16_decode s;
      Some (byte_of_Z (16 * h + l) :: bs)
  | String _ EmptyString => None
  end.

Lemma hex_value_digits b :
  hex_value (hex_digit (byte_to_Z b / 16)) = Some (byte_to_Z b / 16) /\
  hex_value (hex_digit (byte_to_Z b mod 16)) = Some (byte_to_Z b mod 16).
Proof. by destruct b. Qed.

Lemma base16_decode_encode bs : base16_decode (base16_encode bs) = Some bs.
Proof.
  induction bs as [|b bs IH]; [done|]. cbn [base16_encode base16_decode].
  destruct (hex_value_digits b) as [-> ->]. rewrite IH. simpl.
  rewrite <- Z.div_mod by done. by rewrite byte_of_to.
Qed.

Lemma length_base16 bs : String.length (base16_encode bs) = (2 * length bs)%nat.
Proof. induction bs as [|b bs IH]; [done|]. cbn [base16_encode String.length length]. lia. Qed.

#[export] Instance base16 : Hex := {|
  hex_encode := base16_encode;
  hex_decode s := ok_or "invalid hex"%string (base16_decode s);
  hex_decode_encode b := f_equal (ok_or "invalid hex"%string) (base16_decode_encode b);
  length_hex_encode := length_base16
|}.

(** A 32-byte position-weighted checksum, standing in for SHA-256 when a
    witness is evaluated. *)
Definition checksum_byte (i : nat) (m : bytes) : byte :=
  byte_of_Z
    (foldr (fun b acc => (byte_to_Z b + (2 * Z.of_nat i + 3) * acc + 1) mod 65521) (Z.of_nat i) m).
Definition checksum (m : bytes) : bytes := (fun i => checksum_byte i m) <$> seq 0 32.

#[export] Instance toy_sha256 : Sha256 := {|
  sha256 := checksum;
  length_sha256 m := eq_trans (length_fmap _ _) (length_seq _ _)
|}.

Definition pad_key (k : bytes) : bytes := k ++ zeros (64 - length k).
Lemma pad_key_zero k : (length k < 64)%nat -> pad_key (k ++ [Byte.x00]) = pad_key k.
Proof.
  intros Hk. unfold pad_key. rewrite length_app. simpl.
  replace (64 - length k)%nat with (S (64 - (length k + 1))) by lia. by rewrite <- app_assoc.
Qed.

#[export] Instance toy_hmac : Hmac := {|
  hmac_sha256 k m := checksum (pad_key k ++ m);
  length_hmac k m := length_sha256 (pad_key k ++ m);
  hmac_pad k m Hk := f_equal (fun k' => checksum (k' ++ m)) (pad_key_zero k Hk)
|}.

(** A share is its number and the secret itself. *)
Definition toy_dealer (secret : bytes) : list (byte * bytes) :=
  (fun x => (byte_of_Z (Z.of_nat x), secret)) <$> seq 1 255.

Definition toy_recover (t : Z) (shares : list (byte * bytes)) : result bytes string :=
  if Z.of_nat (length (remove_dups shares)) <? t then Err "not enough shares"%string
  else match shares with [] => Err "no shares"%string | (_, secret) :: _ => Ok secret end.

Lemma NoDup_toy_dealer secret : NoDup (toy_dealer secret).
Proof.
  unfold toy_dealer. apply NoDup_fmap_2_strong; [|apply NoDup_seq].
  intros x y Hx%elem_of_seq Hy%elem_of_seq [= E%(f_equal byte_to_Z)].
  rewrite !byte_to_of, !Z.mod_small in E by lia. lia.
Qed.

Lemma remove_dups_NoDup {A} `{EqDecision A} (l : list A) : NoDup l -> remove_dups l = l.
Proof. induction 1 as [|x l Hx _ IH]; simpl; [done|]. case_decide; [done|by rewrite IH]. Qed.

Program Definition toy_sharks_def : Sharks := {|
  Share := byte * bytes;
  Rng := unit;
  share_to_vec s := s.1 :: s.2;
  share_try_from b := match b with [] => Err "too short"%string | x :: y => Ok (x, y) end;
  sharks_dealer _ secret _ := toy_dealer secret;
  sharks_recover := toy_recover
|}.
Next Obligation. by intros []. Qed.
Next Obligation. intros. unfold toy_dealer. by rewrite length_fmap, length_seq. Qed.
Next Obligation. intros. apply NoDup_toy_dealer. Qed.
Next Obligation.
  intros t secret r shares Ht _ Hnd Hsub. unfold toy_recover. rewrite remove_dups_NoDup by done.
  rewrite (proj2 (Z.ltb_ge _ _)) by lia. destruct shares as [|[x s] shares]; [simpl in Ht; lia|].
  assert ((x, s) ∈ toy_dealer secret) as Hin by (apply Hsub; left).
  apply list_elem_of_fmap in Hin as (n & [= _ ->] & _). done.
Qed.
Next Obligation.
  intros t shares Hlt. unfold toy_recover. by rewrite (proj2 (Z.ltb_lt _ _)).
Qed.
#[export] Instance toy_sharks : Sharks := toy_sharks_def.

(** A key is its 32 bytes; a signature is the key and a checksum of what is
    signed. *)
Definition exactly (n : nat) (b : bytes) : result bytes string :=
  if (length b =? n)%nat then Ok b else Err "invalid length"%string.

Lemma length_pad n m (b : bytes) : (length (take n b ++ zeros (n - length b)) + m = n + m)%nat.
Proof. unfold zeros. rewrite length_app, length_take, length_replicate. lia. Qed.

Program Definition toy_secp256k1_def : Secp256k1 := {|
  SigningKey := bytes;
  signing_key_from_slice := exactly 32;
  to_sec1_bytes k := (take 32 k ++ zeros (32 - length k)) ++ [Byte.x02];
  sign_prehash_recoverable k digest := Ok (checksum k ++ checksum (k ++ digest), 0)
|}.
Next Obligation. intros k. simpl. rewrite length_app. apply (length_pad 32 1). Qed.
#[export] Instance toy_secp256k1 : Secp256k1 := toy_secp256k1_def.

Program Definition toy_bls_def : Bls := {|
  SecretKey := bytes;
  PublicKey := bytes;
  Signature := bytes;
  secret_key_from_bytes := exactly 32;
  public_key_from_bytes := exactly 48;
  signature_from_bytes := Ok;
  compressed_public_key k := (take 32 k ++ zeros (32 - length k)) ++ zeros 16;
  bls_sign k msg dst aug :=
    checksum (((take 32 k ++ zeros (32 - length k)) ++ zeros 16) ++ msg ++ dst ++ aug);
  bls_verify sig msg dst aug pk := bool_decide (sig = checksum (pk ++ msg ++ dst ++ aug))
|}.
Next Obligation. intros k. simpl. rewrite length_app. apply (length_pad 32 16). Qed.
Next Obligation.
  intros k msg dst aug. eexists _, _. split; [|split; [done|by apply bool_decide_eq_true]].
  unfold exactly. simpl. by rewrite length_app, (length_pad 32 16).
Qed.
#[export] Instance toy_bls : Bls := toy_bls_def.

#[export] Instance toy_chrono : Chrono := {| to_rfc3339 := to_decimal |}.

End Concrete.
