(* ===== verification/ValidatorTypes.v ===== *)
(** * Types and errors of the validator crate

    [crates/validator/src/types.rs] and [error.rs]: signing roots and public
    keys with their hexadecimal forms, the signing domains, the records kept
    about validators, and the two error types.  Fixed-size arrays are byte
    lists; [root_wf] states the length the Rust type enforces. *)

From Stdlib Require Import ZArith Lia Strings.Byte.
From stdpp Require Import base gmap strings list.
From S2P Require Import Prelude External.

(** ** Identifiers *)

Abbreviation Epoch := Z (only parsing).
Abbreviation Slot := Z (only parsing).
Abbreviation BlockHeight := Z (only parsing).
Abbreviation ValidatorIndex := Z (only parsing).
Abbreviation CommitteeIndex := Z (only parsing).
Abbreviation DateTime := Z (only parsing).

(** ** Signing roots *)

Record SigningRoot := MkSigningRoot { root_bytes : bytes }.

#[export] Instance SigningRoot_eq_dec : EqDecision SigningRoot.
Proof. solve_decision. Defined.

Definition root_wf (r : SigningRoot) : Prop := length (root_bytes r) = 32%nat.

Section signing_root.
Context `{Hex}.

Definition SigningRoot_from_slice (slice : bytes) : option SigningRoot :=
  if (length slice =? 32)%nat then Some (MkSigningRoot (copy_at 0 slice (zeros 32))) else None.

Definition SigningRoot_to_hex (r : SigningRoot) : string :=
  "0x" +:+ hex_encode (root_bytes r).

Definition SigningRoot_from_hex (s : string) : option SigningRoot :=
  let s := strip_prefix_or "0x" s in
  match hex_decode s with
  | Ok b => SigningRoot_from_slice b
  | Err _ => None
  end.

Lemma SigningRoot_from_slice_wf b r :
  SigningRoot_from_slice b = Some r -> root_wf r /\ root_bytes r = b.
Proof.
  unfold SigningRoot_from_slice, root_wf. destruct (Nat.eqb_spec (length b) 32) as [Hl|]; [|done].
  intros [= <-]. unfold copy_at. rewrite Hl. simpl. by rewrite app_nil_r.
Qed.

Lemma SigningRoot_from_slice_Some r :
  root_wf r -> SigningRoot_from_slice (root_bytes r) = Some r.
Proof.
  destruct r as [b]. unfold root_wf, SigningRoot_from_slice, copy_at. simpl. intros Hl.
  rewrite Hl. simpl. by rewrite app_nil_r.
Qed.

Lemma SigningRoot_hex_round r :
  root_wf r -> SigningRoot_from_hex (SigningRoot_to_hex r) = Some r.
Proof.
  intros Hr. unfold SigningRoot_from_hex, SigningRoot_to_hex, strip_prefix_or.
  rewrite strip_prefix_app. simpl. rewrite hex_decode_encode.
  by apply SigningRoot_from_slice_Some.
Qed.
End signing_root.

(** ** BLS public keys *)

Record BlsPublicKey := MkBlsPublicKey { pk_bytes : bytes }.

#[export] Instance BlsPublicKey_eq_dec : EqDecision BlsPublicKey.
Proof. solve_decision. Defined.

Section bls_public_key.
Context `{Hex}.

Definition BlsPublicKey_new (b : bytes) : option BlsPublicKey :=
  if (length b =? 48)%nat then Some (MkBlsPublicKey b) else None.

Definition BlsPublicKey_to_hex (k : BlsPublicKey) : string :=
  "0x" +:+ hex_encode (pk_bytes k).

Definition BlsPublicKey_from_hex (s : string) : option BlsPublicKey :=
  let s := strip_prefix_or "0x" s in
  match hex_decode s with
  | Ok b => BlsPublicKey_new b
  | Err _ => None
  end.

Lemma BlsPublicKey_hex_round k :
  BlsPublicKey_from_hex (BlsPublicKey_to_hex k) = BlsPublicKey_new (pk_bytes k).
Proof.
  unfold BlsPublicKey_from_hex, BlsPublicKey_to_hex, strip_prefix_or.
  rewrite strip_prefix_app. simpl. by rewrite hex_decode_encode.
Qed.
End bls_public_key.

(** ** Signing domains *)

Inductive DomainType :=
| BeaconProposer | BeaconAttester | Randao | Deposit | DVoluntaryExit | SelectionProof
| AggregateAndProof | SyncCommittee | SyncCommitteeSelectionProof | ContributionAndProof
| BlsToExecutionChange | ApplicationBuilder.

#[export] Instance DomainType_eq_dec : EqDecision DomainType.
Proof. solve_decision. Defined.

(** The [repr(u32)] discriminant. *)
Definition DomainType_repr (d : DomainType) : Z :=
  match d with
  | BeaconProposer => 0 | BeaconAttester => 1 | Randao => 2 | Deposit => 3
  | DVoluntaryExit => 4 | SelectionProof => 5 | AggregateAndProof => 6 | SyncCommittee => 7
  | SyncCommitteeSelectionProof => 8 | ContributionAndProof => 9
  | BlsToExecutionChange => 10 | ApplicationBuilder => 11
  end.

Definition DomainType_to_bytes (d : DomainType) : bytes := le_bytes 4 (DomainType_repr d).

Record ForkInfo := MkForkInfo {
  fork_version : bytes;
  genesis_validators_root : bytes
}.

Definition fork_wf (f : ForkInfo) : Prop :=
  length (fork_version f) = 4%nat /\ length (genesis_validators_root f) = 32%nat.

Section domains.
Context `{Sha256}.

Definition compute_domain (f : ForkInfo) (d : DomainType) : bytes :=
  let fork_data := zeros 64 in
  let fork_data := copy_at 0 (fork_version f) fork_data in
  let fork_data := copy_at 32 (genesis_validators_root f) fork_data in
  let fork_data_root := sha256 fork_data in
  let domain := zeros 32 in
  let domain := copy_at 0 (DomainType_to_bytes d) domain in
  copy_at 4 (take 28 fork_data_root) domain.

Lemma compute_domain_eq f d :
  compute_domain f d =
  DomainType_to_bytes d ++
  take 28 (sha256 (copy_at 32 (genesis_validators_root f) (copy_at 0 (fork_version f) (zeros 64)))).
Proof.
  unfold compute_domain. set (h := sha256 _).
  assert (length (take 28 h) = 28%nat) as Hh.
  { rewrite length_take. unfold h. by rewrite length_sha256. }
  rewrite <- (copy_halves (DomainType_to_bytes d) (take 28 h)).
  unfold DomainType_to_bytes. by rewrite length_le_bytes, Hh.
Qed.

Lemma length_compute_domain f d : length (compute_domain f d) = 32%nat.
Proof.
  rewrite compute_domain_eq, length_app, length_take, length_sha256.
  unfold DomainType_to_bytes. by rewrite length_le_bytes.
Qed.

Lemma compute_domain_type f d : take 4 (compute_domain f d) = DomainType_to_bytes d.
Proof. rewrite compute_domain_eq. by apply take_app_length'. Qed.

Lemma DomainType_to_bytes_inj d d' : DomainType_to_bytes d = DomainType_to_bytes d' -> d = d'.
Proof.
  intros E. apply le_bytes_inj in E; [|destruct d, d'; simpl; lia..].
  by destruct d, d'.
Qed.
End domains.

(** ** Records kept about validators *)

Record AttestationRecord := MkAttestationRecord {
  ar_source_epoch : Epoch;
  ar_target_epoch : Epoch;
  ar_signing_root : SigningRoot;
  ar_signed_at : DateTime
}.

Record BlockRecord := MkBlockRecord {
  br_slot : Slot;
  br_signing_root : SigningRoot;
  br_signed_at : DateTime
}.

Inductive ValidatorStatus := Active | Disabled | Slashed | Exiting | Exited.

#[export] Instance ValidatorStatus_eq_dec : EqDecision ValidatorStatus.
Proof. solve_decision. Defined.

Record ValidatorSummary := MkValidatorSummary {
  vs_public_key : BlsPublicKey;
  vs_status : ValidatorStatus;
  vs_min_source_epoch : option Epoch;
  vs_min_target_epoch : option Epoch;
  vs_min_slot : option Slot;
  vs_attestation_count : Z;
  vs_block_count : Z;
  vs_last_activity : option DateTime
}.

Record SlashingStats := MkSlashingStats {
  attestations_signed : Z;
  blocks_signed : Z;
  slashable_prevented : Z;
  double_votes_prevented : Z;
  surrounding_votes_prevented : Z;
  surrounded_votes_prevented : Z;
  double_blocks_prevented : Z
}.

Definition SlashingStats_default : SlashingStats := MkSlashingStats 0 0 0 0 0 0 0.

(** ** Errors *)

Inductive SlashingError :=
| DoubleVote (target_epoch : Z) (existing_root attempted_root : string)
| SurroundingVote (new_source new_target existing_source existing_target : Z)
| SurroundedVote (new_source new_target existing_source existing_target : Z)
| DoubleBlockProposal (slot : Z) (existing_root attempted_root : string)
| EotsDoubleSign (height : Z)
| SourceEpochTooLow (source_epoch min_source_epoch : Z)
| TargetEpochTooLow (target_epoch min_target_epoch : Z)
| SlotTooLow (slot min_slot : Z)
| DatabaseError (msg : string).

#[export] Instance SlashingError_eq_dec : EqDecision SlashingError.
Proof. solve_decision. Defined.

Inductive ValidatorError :=
| Slashing (e : SlashingError)
| ValidatorNotFound (public_key : string)
| ValidatorAlreadyExists (public_key : string)
| InvalidPublicKey (reason : string)
| InvalidSignature (reason : string)
| Database (msg : string)
| Crypto (msg : string)
| Serialization (msg : string)
| InvalidInterchange (reason : string)
| Io (msg : string)
| Internal (msg : string).

#[export] Instance ValidatorError_eq_dec : EqDecision ValidatorError.
Proof. solve_decision. Defined.

(** The [Display] texts given by the [#[error(..)]] attributes. *)
Definition SlashingError_display (e : SlashingError) : string :=
  match e with
  | DoubleVote t ex att =>
      "SLASHING PREVENTED: Double vote detected at target epoch " +:+ to_decimal t +:+
      ". Existing root: " +:+ ex +:+ ", attempted root: " +:+ att
  | SurroundingVote ns nt es et =>
      "SLASHING PREVENTED: Surrounding vote detected. New attestation (source: " +:+ to_decimal ns +:+
      ", target: " +:+ to_decimal nt +:+ ") surrounds existing attestation (source: " +:+
      to_decimal es +:+ ", target: " +:+ to_decimal et +:+ ")"
  | SurroundedVote ns nt es et =>
      "SLASHING PREVENTED: Surrounded vote detected. New attestation (source: " +:+ to_decimal ns +:+
      ", target: " +:+ to_decimal nt +:+ ") is surrounded by existing attestation (source: " +:+
      to_decimal es +:+ ", target: " +:+ to_decimal et +:+ ")"
  | DoubleBlockProposal slot ex att =>
      "SLASHING PREVENTED: Double block proposal at slot " +:+ to_decimal slot +:+
      ". Existing root: " +:+ ex +:+ ", attempted root: " +:+ att
  | EotsDoubleSign h =>
      "SLASHING PREVENTED: Double sign at height " +:+ to_decimal h +:+
      ". EOTS key would be extractable if signed twice at same height."
  | SourceEpochTooLow s m =>
      "SLASHING PREVENTED: Attestation source epoch " +:+ to_decimal s +:+
      " is not greater than minimum source epoch " +:+ to_decimal m
  | TargetEpochTooLow t m =>
      "SLASHING PREVENTED: Attestation target epoch " +:+ to_decimal t +:+
      " is not greater than minimum target epoch " +:+ to_decimal m
  | SlotTooLow s m =>
      "SLASHING PREVENTED: Block slot " +:+ to_decimal s +:+
      " is not greater than minimum slot " +:+ to_decimal m
  | DatabaseError msg => "Database error: " +:+ msg
  end.

Definition ValidatorError_display (e : ValidatorError) : string :=
  match e with
  | Slashing e => SlashingError_display e
  | ValidatorNotFound k => "Validator not found: " +:+ k
  | ValidatorAlreadyExists k => "Validator already registered: " +:+ k
  | InvalidPublicKey r => "Invalid public key: " +:+ r
  | InvalidSignature r => "Invalid signature: " +:+ r
  | Database m => "Database error: " +:+ m
  | Crypto m => "Cryptographic error: " +:+ m
  | Serialization m => "Serialization error: " +:+ m
  | InvalidInterchange r => "Invalid EIP-3076 interchange format: " +:+ r
  | Io m => "IO error: " +:+ m
  | Internal m => "Internal error: " +:+ m
  end.
