(* ===== verification/SlashingDb.v ===== *)
(** * The slashing protection database

    [crates/validator/src/slashing_db.rs].  The state is the embedded store
    (trees [validators], [attestations], [blocks]) and the statistics.  Each
    method is one definition; [check_and_record_attestation] and
    [check_and_record_block] are composed from their numbered checks.  A
    method holds the lock of its validator from beginning to end, so it is a
    single step of the model; [now] is the clock reading it takes. *)

From Stdlib Require Import ZArith Lia Strings.Byte.
From stdpp Require Import base gmap strings list.
From S2P Require Import Prelude External ValidatorTypes.

Definition VALIDATORS_TREE : string := "validators".
Definition ATTESTATIONS_TREE : string := "attestations".
Definition BLOCKS_TREE : string := "blocks".
Definition METADATA_TREE : string := "metadata".

Record ValidatorData := MkValidatorData {
  vd_public_key : bytes;
  vd_status : ValidatorStatus;
  vd_min_source_epoch : option Epoch;
  vd_min_target_epoch : option Epoch;
  vd_min_slot : option Slot;
  vd_created_at : DateTime;
  vd_updated_at : DateTime
}.

Record AttestationData := MkAttestationData {
  ad_source_epoch : Epoch;
  ad_target_epoch : Epoch;
  ad_signing_root : bytes;
  ad_signed_at : DateTime
}.

Record BlockData := MkBlockData {
  bd_slot : Slot;
  bd_signing_root : bytes;
  bd_signed_at : DateTime
}.

Record SlashingProtectionDb (db : Type) := MkDb {
  store : db;
  stats : SlashingStats
}.
Arguments MkDb {db} _ _.
Arguments store {db} _.
Arguments stats {db} _.

(** The counters are [u64]s incremented with [+= 1]. *)
Definition inc (n : Z) : Z := wrap 64 (n + 1).
Definition inc_attestations_signed (s : SlashingStats) : SlashingStats :=
  MkSlashingStats (inc (attestations_signed s)) (blocks_signed s) (slashable_prevented s)
    (double_votes_prevented s) (surrounding_votes_prevented s) (surrounded_votes_prevented s)
    (double_blocks_prevented s).
Definition inc_blocks_signed (s : SlashingStats) : SlashingStats :=
  MkSlashingStats (attestations_signed s) (inc (blocks_signed s)) (slashable_prevented s)
    (double_votes_prevented s) (surrounding_votes_prevented s) (surrounded_votes_prevented s)
    (double_blocks_prevented s).
Definition inc_slashable_prevented (s : SlashingStats) : SlashingStats :=
  MkSlashingStats (attestations_signed s) (blocks_signed s) (inc (slashable_prevented s))
    (double_votes_prevented s) (surrounding_votes_prevented s) (surrounded_votes_prevented s)
    (double_blocks_prevented s).
Definition inc_double_votes_prevented (s : SlashingStats) : SlashingStats :=
  MkSlashingStats (attestations_signed s) (blocks_signed s) (slashable_prevented s)
    (inc (double_votes_prevented s)) (surrounding_votes_prevented s)
    (surrounded_votes_prevented s) (double_blocks_prevented s).
Definition inc_surrounding_votes_prevented (s : SlashingStats) : SlashingStats :=
  MkSlashingStats (attestations_signed s) (blocks_signed s) (slashable_prevented s)
    (double_votes_prevented s) (inc (surrounding_votes_prevented s))
    (surrounded_votes_prevented s) (double_blocks_prevented s).
Definition inc_surrounded_votes_prevented (s : SlashingStats) : SlashingStats :=
  MkSlashingStats (attestations_signed s) (blocks_signed s) (slashable_prevented s)
    (double_votes_prevented s) (surrounding_votes_prevented s)
    (inc (surrounded_votes_prevented s)) (double_blocks_prevented s).
Definition inc_double_blocks_prevented (s : SlashingStats) : SlashingStats :=
  MkSlashingStats (attestations_signed s) (blocks_signed s) (slashable_prevented s)
    (double_votes_prevented s) (surrounding_votes_prevented s) (surrounded_votes_prevented s)
    (inc (double_blocks_prevented s)).

(** Key layout: public key, a colon, and for records the big-endian epoch or
    slot. *)
Definition attestation_key_prefix (public_key : bytes) : bytes := public_key ++ [Byte.x3a].
Definition attestation_key (public_key : bytes) (target_epoch : Epoch) : bytes :=
  attestation_key_prefix public_key ++ be_bytes 8 target_epoch.
Definition block_key_prefix (public_key : bytes) : bytes := public_key ++ [Byte.x3a].
Definition block_key (public_key : bytes) (slot : Slot) : bytes :=
  block_key_prefix public_key ++ be_bytes 8 slot.

Section operations.
Context {db : Type} {SLED : Sled db} {HEX : Hex}.
Context {SV : Serde ValidatorData} {SA : Serde AttestationData} {SB : Serde BlockData}.

Abbreviation Db := (SlashingProtectionDb db).

(** Opening the directory: a fresh set of locks and zeroed statistics. *)
Definition open (d : db) : Db := MkDb d SlashingStats_default.

Definition on_store {A} (c : M db string A) : M Db string A := fun s =>
  let '(r, d) := c (store s) in (r, MkDb d (stats s)).

Definition scan {E} (t : string) (prefix : bytes) : M Db E (list (result (bytes * bytes) string)) :=
  fun s => let '(items, d) := sled_scan_prefix t prefix (store s) in (Ok items, MkDb d (stats s)).

Definition bump {E} (f : SlashingStats -> SlashingStats) : M Db E unit :=
  modify (fun s => MkDb (store s) (f (stats s))).

Definition register_validator (public_key : bytes) (now : DateTime) : M Db ValidatorError unit :=
  if negb (length public_key =? 48)%nat then
    throw (InvalidPublicKey
      ("Expected 48 bytes, got " +:+ to_decimal (Z.of_nat (length public_key))))
  else
    let! known := map_err Database (on_store (sled_contains_key VALIDATORS_TREE public_key)) in
    if known : bool then throw (ValidatorAlreadyExists (hex_encode public_key))
    else
      let data := MkValidatorData public_key Active None None None now now in
      let! encoded := lift (rmap_err Serialization (to_vec data)) in
      map_err Database (on_store (sled_insert VALIDATORS_TREE public_key encoded)).

Definition is_registered (public_key : bytes) : M Db ValidatorError bool :=
  map_err Database (on_store (sled_contains_key VALIDATORS_TREE public_key)).

Definition get_validator_data (public_key : bytes) : M Db ValidatorError ValidatorData :=
  let! found := map_err Database (on_store (sled_get VALIDATORS_TREE public_key)) in
  let! encoded := lift (ok_or (ValidatorNotFound (hex_encode public_key)) found) in
  lift (rmap_err Serialization (from_slice encoded)).

Definition update_validator_data (data : ValidatorData) : M Db ValidatorError unit :=
  let! encoded := lift (rmap_err Serialization (to_vec data)) in
  map_err Database (on_store (sled_insert VALIDATORS_TREE (vd_public_key data) encoded)).

Definition get_validator_summary (public_key : bytes) : M Db ValidatorError ValidatorSummary :=
  let! data := get_validator_data public_key in
  let! atts := scan ATTESTATIONS_TREE (attestation_key_prefix public_key) in
  let! blks := scan BLOCKS_TREE (block_key_prefix public_key) in
  ret (MkValidatorSummary (MkBlsPublicKey (vd_public_key data)) (vd_status data)
         (vd_min_source_epoch data) (vd_min_target_epoch data) (vd_min_slot data)
         (Z.of_nat (length atts)) (Z.of_nat (length blks)) (Some (vd_updated_at data))).

(** Check 3: double vote or idempotent repeat.  [true] when the very same
    attestation is already recorded. *)
Definition check_double_vote (public_key : bytes) (target_epoch : Epoch) (signing_root : SigningRoot)
  : M Db SlashingError bool :=
  let! existing :=
    attempt (on_store (sled_get ATTESTATIONS_TREE (attestation_key public_key target_epoch))) in
  match existing with
  | Ok (Some existing) =>
      match from_slice existing with
      | Err _ => throw (DoubleVote target_epoch "unknown" (SigningRoot_to_hex signing_root))
      | Ok existing_data =>
          if negb (bool_decide (ad_signing_root existing_data = root_bytes signing_root)) then
            bump inc_slashable_prevented ;!
            bump inc_double_votes_prevented ;!
            throw (DoubleVote target_epoch (hex_encode (ad_signing_root existing_data))
                     (SigningRoot_to_hex signing_root))
          else ret true
      end
  | Ok None => ret false
  | Err e =>
      bump inc_slashable_prevented ;!
      throw (DatabaseError ("Failed to read attestation record: " +:+ e))
  end.

(** Checks 1 and 2: the imported minimum epochs. *)
Definition check_min_epochs (data : ValidatorData) (source_epoch target_epoch : Epoch)
  : M Db SlashingError unit :=
  match vd_min_source_epoch data with
  | Some min_source =>
      if source_epoch <? min_source then
        bump inc_slashable_prevented ;! throw (SourceEpochTooLow source_epoch min_source)
      else ret tt
  | None => ret tt
  end ;!
  match vd_min_target_epoch data with
  | Some min_target =>
      if target_epoch <=? min_target then
        bump inc_slashable_prevented ;! throw (TargetEpochTooLow target_epoch min_target)
      else ret tt
  | None => ret tt
  end.

(** Checks 4 and 5: surrounding and surrounded votes, over the items of the
    validator's scan. *)
Fixpoint check_surround (source_epoch target_epoch : Epoch)
    (items : list (result (bytes * bytes) string)) : M Db SlashingError unit :=
  match items with
  | [] => ret tt
  | item :: rest =>
      match item with
      | Err _ => throw (SurroundingVote source_epoch target_epoch 0 0)
      | Ok (_, value) =>
          match from_slice value with
          | Err _ => throw (SurroundingVote source_epoch target_epoch 0 0)
          | Ok existing =>
              if (source_epoch <? ad_source_epoch existing) && (ad_target_epoch existing <? target_epoch) then
                bump inc_slashable_prevented ;!
                bump inc_surrounding_votes_prevented ;!
                throw (SurroundingVote source_epoch target_epoch
                         (ad_source_epoch existing) (ad_target_epoch existing))
              else if (ad_source_epoch existing <? source_epoch) && (target_epoch <? ad_target_epoch existing) then
                bump inc_slashable_prevented ;!
                bump inc_surrounded_votes_prevented ;!
                throw (SurroundedVote source_epoch target_epoch
                         (ad_source_epoch existing) (ad_target_epoch existing))
              else check_surround source_epoch target_epoch rest
          end
      end
  end.

Definition touch (data : ValidatorData) (now : DateTime) : ValidatorData :=
  MkValidatorData (vd_public_key data) (vd_status data) (vd_min_source_epoch data)
    (vd_min_target_epoch data) (vd_min_slot data) (vd_created_at data) now.

Definition persist_validator (data : ValidatorData) : M Db SlashingError unit :=
  map_err (fun e => DatabaseError ("Failed to persist validator data: " +:+ ValidatorError_display e))
    (update_validator_data data).

(** The record is written, then made durable, then counted. *)
Definition record_attestation (data : ValidatorData) (public_key : bytes)
    (source_epoch target_epoch : Epoch) (signing_root : SigningRoot) (now : DateTime)
  : M Db SlashingError unit :=
  let attestation_data :=
    MkAttestationData source_epoch target_epoch (root_bytes signing_root) now in
  let! encoded :=
    lift (rmap_err
      (fun _ => DoubleVote target_epoch "serialization error" (SigningRoot_to_hex signing_root))
      (to_vec attestation_data)) in
  map_err (fun _ => DoubleVote target_epoch "database error" (SigningRoot_to_hex signing_root))
    (on_store (sled_insert ATTESTATIONS_TREE (attestation_key public_key target_epoch) encoded)) ;!
  persist_validator (touch data now) ;!
  map_err (fun e => DatabaseError ("Failed to flush attestation record: " +:+ e))
    (on_store sled_flush) ;!
  bump inc_attestations_signed.

Definition check_and_record_attestation (public_key : bytes) (source_epoch target_epoch : Epoch)
    (signing_root : SigningRoot) (now : DateTime) : M Db SlashingError unit :=
  let! validator_data :=
    map_err (fun _ => SourceEpochTooLow source_epoch 0) (get_validator_data public_key) in
  let! already := check_double_vote public_key target_epoch signing_root in
  if already : bool then ret tt
  else
    check_min_epochs validator_data source_epoch target_epoch ;!
    let! items := scan ATTESTATIONS_TREE (attestation_key_prefix public_key) in
    check_surround source_epoch target_epoch items ;!
    record_attestation validator_data public_key source_epoch target_epoch signing_root now.

Definition check_double_block (public_key : bytes) (slot : Slot) (signing_root : SigningRoot)
  : M Db SlashingError bool :=
  let! existing := attempt (on_store (sled_get BLOCKS_TREE (block_key public_key slot))) in
  match existing with
  | Ok (Some existing) =>
      match from_slice existing with
      | Err _ => throw (DoubleBlockProposal slot "unknown" (SigningRoot_to_hex signing_root))
      | Ok existing_data =>
          if negb (bool_decide (bd_signing_root existing_data = root_bytes signing_root)) then
            bump inc_slashable_prevented ;!
            bump inc_double_blocks_prevented ;!
            throw (DoubleBlockProposal slot (hex_encode (bd_signing_root existing_data))
                     (SigningRoot_to_hex signing_root))
          else ret true
      end
  | Ok None => ret false
  | Err e =>
      bump inc_slashable_prevented ;!
      throw (DatabaseError ("Failed to read block record: " +:+ e))
  end.

Definition check_min_slot (data : ValidatorData) (slot : Slot) : M Db SlashingError unit :=
  match vd_min_slot data with
  | Some min_slot =>
      if slot <=? min_slot then
        bump inc_slashable_prevented ;! throw (SlotTooLow slot min_slot)
      else ret tt
  | None => ret tt
  end.

Definition record_block (data : ValidatorData) (public_key : bytes) (slot : Slot)
    (signing_root : SigningRoot) (now : DateTime) : M Db SlashingError unit :=
  let block_data := MkBlockData slot (root_bytes signing_root) now in
  let! encoded :=
    lift (rmap_err
      (fun _ => DoubleBlockProposal slot "serialization error" (SigningRoot_to_hex signing_root))
      (to_vec block_data)) in
  map_err (fun _ => DoubleBlockProposal slot "database error" (SigningRoot_to_hex signing_root))
    (on_store (sled_insert BLOCKS_TREE (block_key public_key slot) encoded)) ;!
  persist_validator (touch data now) ;!
  map_err (fun e => DatabaseError ("Failed to flush block record: " +:+ e))
    (on_store sled_flush) ;!
  bump inc_blocks_signed.

Definition check_and_record_block (public_key : bytes) (slot : Slot) (signing_root : SigningRoot)
    (now : DateTime) : M Db SlashingError unit :=
  let! validator_data := map_err (fun _ => SlotTooLow slot 0) (get_validator_data public_key) in
  let! already := check_double_block public_key slot signing_root in
  if already : bool then ret tt
  else
    check_min_slot validator_data slot ;!
    record_block validator_data public_key slot signing_root now.

(** Decode the items of a scan, stopping at the first error. *)
Fixpoint decode_items {A B} `{Serde A} (f : A -> B) (items : list (result (bytes * bytes) string))
  : result (list B) ValidatorError :=
  match items with
  | [] => Ok []
  | Err e :: _ => Err (Database e)
  | Ok (_, value) :: rest =>
      match from_slice value with
      | Err e => Err (Serialization e)
      | Ok data =>
          match decode_items f rest with
          | Ok records => Ok (f data :: records)
          | Err e => Err e
          end
      end
  end.

Definition get_attestation_records (public_key : bytes)
  : M Db ValidatorError (list AttestationRecord) :=
  let! items := scan ATTESTATIONS_TREE (attestation_key_prefix public_key) in
  lift (decode_items (fun data : AttestationData =>
    MkAttestationRecord (ad_source_epoch data) (ad_target_epoch data)
      (MkSigningRoot (ad_signing_root data)) (ad_signed_at data)) items).

Definition get_block_records (public_key : bytes) : M Db ValidatorError (list BlockRecord) :=
  let! items := scan BLOCKS_TREE (block_key_prefix public_key) in
  lift (decode_items (fun data : BlockData =>
    MkBlockRecord (bd_slot data) (MkSigningRoot (bd_signing_root data)) (bd_signed_at data)) items).

Definition set_min_source_epoch (public_key : bytes) (epoch : Epoch) (now : DateTime)
  : M Db ValidatorError unit :=
  let! data := get_validator_data public_key in
  update_validator_data
    (MkValidatorData (vd_public_key data) (vd_status data) (Some epoch)
       (vd_min_target_epoch data) (vd_min_slot data) (vd_created_at data) now).

Definition set_min_target_epoch (public_key : bytes) (epoch : Epoch) (now : DateTime)
  : M Db ValidatorError unit :=
  let! data := get_validator_data public_key in
  update_validator_data
    (MkValidatorData (vd_public_key data) (vd_status data) (vd_min_source_epoch data)
       (Some epoch) (vd_min_slot data) (vd_created_at data) now).

Definition set_min_slot (public_key : bytes) (slot : Slot) (now : DateTime)
  : M Db ValidatorError unit :=
  let! data := get_validator_data public_key in
  update_validator_data
    (MkValidatorData (vd_public_key data) (vd_status data) (vd_min_source_epoch data)
       (vd_min_target_epoch data) (Some slot) (vd_created_at data) now).

Fixpoint keys_of_items (items : list (result (bytes * bytes) string))
  : result (list BlsPublicKey) ValidatorError :=
  match items with
  | [] => Ok []
  | Err e :: _ => Err (Database e)
  | Ok (key, _) :: rest =>
      match keys_of_items rest with
      | Ok ks => Ok (MkBlsPublicKey key :: ks)
      | Err e => Err e
      end
  end.

Definition list_validators : M Db ValidatorError (list BlsPublicKey) :=
  let! items := scan VALIDATORS_TREE [] in
  lift (keys_of_items items).

Definition flush : M Db ValidatorError unit := map_err Database (on_store sled_flush).

(** The process dies and the service opens the directory again. *)
Definition crash_and_open (s : Db) : Db := open (sled_reopen (store s)).
End operations.
