(* ===== verification/SlashingInv.v ===== *)
(** * Invariants of the slashing protection database

    What every method of [SlashingDb] does to the store, and the invariant
    [db_inv] that all of them preserve: every tree holds well-formed entries
    under the key its contents name, what is on disk is contained in what is
    in memory, and no two attestation records of one validator surround each
    other. *)

From Stdlib Require Import ZArith Lia Strings.Byte.
From stdpp Require Import base gmap strings list.
From S2P Require Import Prelude External ValidatorTypes SlashingDb.

(** ** Keys *)

Lemma attestation_key_inj pk t pk' t' :
  length pk = length pk' -> u64 t -> u64 t' ->
  attestation_key pk t = attestation_key pk' t' -> pk = pk' /\ t = t'.
Proof.
  intros Hl Ht Ht' E. unfold attestation_key, attestation_key_prefix in E.
  rewrite <- !app_assoc in E. apply app_inj_1 in E as [-> E]; [|done].
  split; [done|]. apply app_inj_1 in E as [_ E]; [|done].
  by apply be_bytes_inj in E.
Qed.

Lemma attestation_key_prefix_of pk pk' t :
  length pk = length pk' -> attestation_key_prefix pk `prefix_of` attestation_key pk' t ->
  pk = pk'.
Proof.
  intros Hl [rest E]. unfold attestation_key, attestation_key_prefix in E.
  rewrite <- !app_assoc in E. by apply app_inj_1 in E as [<- _].
Qed.

Lemma attestation_key_has_prefix pk t : attestation_key_prefix pk `prefix_of` attestation_key pk t.
Proof. by exists (be_bytes 8 t). Qed.

(** Block keys are laid out the same way. *)
Lemma block_key_eq pk slot : block_key pk slot = attestation_key pk slot.
Proof. done. Qed.

(** ** Operations that do not write *)

Section invariant.
Context {db : Type} {SLED : Sled db} {LAWS : SledLaws db} {HEX : Hex}.
Context {SV : Serde ValidatorData} {SA : Serde AttestationData} {SB : Serde BlockData}.
Abbreviation Db := (SlashingProtectionDb db).

Definition quiet_op {E A} (c : M Db E A) : Prop :=
  forall s r s', c s = (r, s') -> sled_quiet (store s) (store s').

Lemma quiet_ret {E A} (a : A) : quiet_op (ret a : M Db E A).
Proof. intros s r s' [= _ <-]. apply sled_quiet_refl. Qed.
Lemma quiet_throw {E A} (e : E) : quiet_op (throw e : M Db E A).
Proof. intros s r s' [= _ <-]. apply sled_quiet_refl. Qed.
Lemma quiet_lift {E A} (x : result A E) : quiet_op (lift x : M Db E A).
Proof. intros s r s' [= _ <-]. apply sled_quiet_refl. Qed.
Lemma quiet_bump {E} f : quiet_op (bump f : M Db E unit).
Proof. intros s r s' [= _ <-]. apply sled_quiet_refl. Qed.
Lemma quiet_bind {E A B} (c : M Db E A) (k : A -> M Db E B) :
  quiet_op c -> (forall a, quiet_op (k a)) -> quiet_op (bind c k).
Proof.
  intros Hc Hk s r s' [(a & s1 & E1 & E2)|(e & E1 & _)]%bind_inv.
  - eapply sled_quiet_trans; [by eapply Hc|by eapply Hk].
  - by eapply Hc.
Qed.
Lemma quiet_map_err {E F A} (f : E -> F) (c : M Db E A) : quiet_op c -> quiet_op (map_err f c).
Proof. intros Hc s r s' (r0 & E1 & _)%map_err_inv. by eapply Hc. Qed.
Lemma quiet_attempt {E F A} (c : M Db E A) : quiet_op c -> quiet_op (attempt c : M Db F _).
Proof.
  intros Hc s r s'. unfold attempt. destruct (c s) eqn:E1. intros [= _ <-]. by eapply Hc.
Qed.
Lemma quiet_scan {E} t p : quiet_op (scan t p : M Db E _).
Proof.
  intros s r s'. unfold scan. destruct (sled_scan_prefix t p (store s)) eqn:E1.
  intros [= _ <-]. simpl. by eapply sled_scan_law in E1 as [? _].
Qed.
Lemma quiet_get t k : quiet_op (on_store (sled_get t k) : M Db _ _).
Proof.
  intros s r s'. unfold on_store. destruct (sled_get t k (store s)) eqn:E1.
  intros [= _ <-]. simpl. by eapply sled_get_law in E1 as [? _].
Qed.
Lemma quiet_contains t k : quiet_op (on_store (sled_contains_key t k) : M Db _ _).
Proof.
  intros s r s'. unfold on_store. destruct (sled_contains_key t k (store s)) eqn:E1.
  intros [= _ <-]. simpl. by eapply sled_contains_key_law in E1 as [? _].
Qed.
Lemma quiet_flush : quiet_op (on_store sled_flush : M Db _ _).
Proof.
  intros s r s'. unfold on_store. destruct (sled_flush (store s)) eqn:E1.
  intros [= _ <-]. simpl. by eapply sled_flush_law in E1 as [? _].
Qed.
Ltac quiet := repeat first
  [ progress intros
  | apply quiet_ret | apply quiet_throw | apply quiet_lift | apply quiet_bump
  | apply quiet_scan | apply quiet_get | apply quiet_contains | apply quiet_flush
  | apply quiet_attempt | apply quiet_map_err | apply quiet_bind
  | case_match ].

Lemma quiet_get_validator_data pk : quiet_op (get_validator_data pk).
Proof. unfold get_validator_data. quiet. Qed.
Lemma quiet_check_double_vote pk t root : quiet_op (check_double_vote pk t root).
Proof. unfold check_double_vote. quiet. Qed.
Lemma quiet_check_min_epochs d s t : quiet_op (check_min_epochs d s t).
Proof. unfold check_min_epochs. quiet. Qed.
Lemma quiet_check_surround s t items : quiet_op (check_surround s t items).
Proof. induction items as [|[[k v]|e] items IH]; simpl; quiet; done. Qed.
Lemma quiet_check_double_block pk slot root : quiet_op (check_double_block pk slot root).
Proof. unfold check_double_block. quiet. Qed.
Lemma quiet_check_min_slot d slot : quiet_op (check_min_slot d slot).
Proof. unfold check_min_slot. quiet. Qed.
Lemma quiet_is_registered pk : quiet_op (is_registered pk).
Proof. unfold is_registered. quiet. Qed.
Lemma quiet_get_attestation_records pk : quiet_op (get_attestation_records pk).
Proof. unfold get_attestation_records. quiet. Qed.
Lemma quiet_get_block_records pk : quiet_op (get_block_records pk).
Proof. unfold get_block_records. quiet. Qed.
Lemma quiet_list_validators : quiet_op list_validators.
Proof. unfold list_validators. quiet. Qed.
Lemma quiet_get_validator_summary pk : quiet_op (get_validator_summary pk).
Proof. unfold get_validator_summary. quiet; try apply quiet_get_validator_data. Qed.
Lemma quiet_db_flush : quiet_op flush.
Proof. unfold flush. quiet. Qed.

(** ** Abstract steps of the store

    The methods only ever change the store in four ways: not at all, by
    writing a validator entry under its own key, or by adding a new
    attestation or block record that does not conflict with the recorded
    ones.  [B root source] is what the caller guarantees about the source
    epoch of an attestation with a given signing root. *)

Definition rec_at (V : gmap bytes bytes) (pk : bytes) (t : Epoch) (a : AttestationData) : Prop :=
  exists v, V !! attestation_key pk t = Some v /\ from_slice v = Ok a.

Definition blk_at (V : gmap bytes bytes) (pk : bytes) (slot : Slot) (b : BlockData) : Prop :=
  exists v, V !! block_key pk slot = Some v /\ from_slice v = Ok b.

(** [a1] surrounds [a2] (Casper FFG). *)
Definition surrounds (a1 a2 : AttestationData) : Prop :=
  ad_source_epoch a1 < ad_source_epoch a2 /\ ad_target_epoch a2 < ad_target_epoch a1.

Context (B : bytes -> Epoch -> Prop).

Inductive store_step : db -> db -> Prop :=
| step_quiet d d' : sled_quiet d d' -> store_step d d'
| step_validator d d' k v data :
    sled_settles d d' -> sled_put VALIDATORS_TREE k v d d' ->
    from_slice v = Ok data -> vd_public_key data = k -> length k = 48%nat ->
    store_step d d'
| step_attestation d d' pk t v a :
    sled_settles d d' -> sled_put ATTESTATIONS_TREE (attestation_key pk t) v d d' ->
    length pk = 48%nat -> u64 t -> from_slice v = Ok a -> ad_target_epoch a = t ->
    B (ad_signing_root a) (ad_source_epoch a) ->
    sled_view d ATTESTATIONS_TREE !! attestation_key pk t = None ->
    (forall t' a', rec_at (sled_view d ATTESTATIONS_TREE) pk t' a' ->
       ~ surrounds a a' /\ ~ surrounds a' a) ->
    store_step d d'
| step_block d d' pk slot v b :
    sled_settles d d' -> sled_put BLOCKS_TREE (block_key pk slot) v d d' ->
    length pk = 48%nat -> u64 slot -> from_slice v = Ok b -> bd_slot b = slot ->
    sled_view d BLOCKS_TREE !! block_key pk slot = None ->
    store_step d d'.

Definition val_wf (V : gmap bytes bytes) : Prop := forall k v,
  V !! k = Some v -> length k = 48%nat /\ exists data, from_slice v = Ok data /\ vd_public_key data = k.

Definition att_wf (V : gmap bytes bytes) : Prop := forall k v,
  V !! k = Some v -> exists pk t a, k = attestation_key pk t /\ length pk = 48%nat /\ u64 t /\
    from_slice v = Ok a /\ ad_target_epoch a = t /\ B (ad_signing_root a) (ad_source_epoch a).

Definition blk_wf (V : gmap bytes bytes) : Prop := forall k v,
  V !! k = Some v -> exists pk slot b, k = block_key pk slot /\ length pk = 48%nat /\ u64 slot /\
    from_slice v = Ok b /\ bd_slot b = slot.

Definition no_surround (V : gmap bytes bytes) : Prop := forall pk t1 a1 t2 a2,
  length pk = 48%nat -> rec_at V pk t1 a1 -> rec_at V pk t2 a2 -> ~ surrounds a1 a2.

Record db_inv (d : db) : Prop := {
  inv_val : val_wf (sled_view d VALIDATORS_TREE);
  inv_val_disk : val_wf (sled_durable d VALIDATORS_TREE);
  inv_att : att_wf (sled_view d ATTESTATIONS_TREE);
  inv_blk : blk_wf (sled_view d BLOCKS_TREE);
  inv_no_surround : no_surround (sled_view d ATTESTATIONS_TREE);
  inv_att_disk : sled_durable d ATTESTATIONS_TREE ⊆ sled_view d ATTESTATIONS_TREE;
  inv_blk_disk : sled_durable d BLOCKS_TREE ⊆ sled_view d BLOCKS_TREE
}.

(** Writing to one tree leaves the others alone. *)
Lemma put_other t k v (d d' : db) t' : sled_put t k v d d' -> t' <> t -> sled_view d' t' = sled_view d t'.
Proof. intros Hp Hne. rewrite (Hp t'). by rewrite decide_False. Qed.
Lemma put_same t k v (d d' : db) : sled_put t k v d d' -> sled_view d' t = <[k:=v]> (sled_view d t).
Proof. intros Hp. rewrite (Hp t). by rewrite decide_True. Qed.

(** What is on disk stays contained in a growing view. *)
Lemma settles_subseteq (d d' : db) t :
  sled_settles d d' -> sled_durable d t ⊆ sled_view d t -> sled_view d t ⊆ sled_view d' t ->
  sled_durable d' t ⊆ sled_view d' t.
Proof.
  intros Hs Hd Hv. apply map_subseteq_spec. intros k v Hk.
  destruct (Hs t k) as [E|E]; rewrite E in Hk; [|done].
  eauto using lookup_weaken.
Qed.

(** What is on disk also only grows. *)
Lemma disk_mono (d d' : db) t :
  sled_durable d t ⊆ sled_view d t -> sled_view d t ⊆ sled_view d' t -> sled_settles d d' ->
  sled_durable d t ⊆ sled_durable d' t.
Proof.
  intros Hd Hv Hs. apply map_subseteq_spec. intros k v Hk.
  destruct (Hs t k) as [->|E]; [done|]. rewrite E. eauto using lookup_weaken.
Qed.

Lemma settles_val_wf (d d' : db) :
  sled_settles d d' -> val_wf (sled_durable d VALIDATORS_TREE) ->
  val_wf (sled_view d' VALIDATORS_TREE) -> val_wf (sled_durable d' VALIDATORS_TREE).
Proof.
  intros Hs Hd Hv k v Hk. destruct (Hs VALIDATORS_TREE k) as [E|E]; rewrite E in Hk; eauto.
Qed.

Lemma store_step_att_mono d d' :
  store_step d d' -> sled_view d ATTESTATIONS_TREE ⊆ sled_view d' ATTESTATIONS_TREE.
Proof.
  destruct 1 as [d d' [-> _]|d d' k v data _ Hp|d d' pk t v a _ Hp|d d' pk slot v b _ Hp]; [done| | |].
  - by rewrite (put_other _ _ _ _ _ _ Hp).
  - rewrite (put_same _ _ _ _ _ Hp). by apply insert_subseteq.
  - by rewrite (put_other _ _ _ _ _ _ Hp).
Qed.

Lemma store_step_blk_mono d d' :
  store_step d d' -> sled_view d BLOCKS_TREE ⊆ sled_view d' BLOCKS_TREE.
Proof.
  destruct 1 as [d d' [-> _]|d d' k v data _ Hp|d d' pk t v a _ Hp|d d' pk slot v b _ Hp]; [done| | |].
  - by rewrite (put_other _ _ _ _ _ _ Hp).
  - by rewrite (put_other _ _ _ _ _ _ Hp).
  - rewrite (put_same _ _ _ _ _ Hp). by apply insert_subseteq.
Qed.

Lemma store_step_settles d d' : store_step d d' -> sled_settles d d'.
Proof. by destruct 1 as [? ? []| | |]. Qed.

(** A record of a tree extended by one entry is the new one or an old one. *)
Lemma rec_at_insert V pk0 t0 v0 pk t a :
  length pk0 = length pk -> u64 t0 ->
  att_wf V -> rec_at (<[attestation_key pk0 t0 := v0]> V) pk t a ->
  (pk = pk0 /\ from_slice v0 = Ok a) \/ rec_at V pk t a.
Proof.
  intros Hl Ht0 Hwf (v & Hv & Ha).
  destruct (decide (attestation_key pk0 t0 = attestation_key pk t)) as [E|Hne].
  - rewrite E, lookup_insert_eq in Hv. simplify_eq. left. split; [|done].
    unfold attestation_key, attestation_key_prefix in E. rewrite <- !app_assoc in E.
    by apply app_inj_1 in E as [-> _].
  - rewrite lookup_insert_ne in Hv by done. right. by exists v.
Qed.

Lemma store_step_val_wf d d' :
  store_step d d' -> val_wf (sled_view d VALIDATORS_TREE) -> val_wf (sled_view d' VALIDATORS_TREE).
Proof.
  destruct 1 as [d d' [-> _]|d d' k v data _ Hp Hv Hk Hl|d d' pk t v a _ Hp|d d' pk slot v b _ Hp];
    intros Hwf; [done| |by rewrite (put_other _ _ _ _ _ _ Hp)..].
  rewrite (put_same _ _ _ _ _ Hp). intros k' v'. rewrite lookup_insert_Some.
  intros [[<- <-]|[_ Hk']]; [|eauto]. split; [done|]. by exists data.
Qed.

Lemma store_step_att_wf d d' :
  store_step d d' -> att_wf (sled_view d ATTESTATIONS_TREE) -> att_wf (sled_view d' ATTESTATIONS_TREE).
Proof.
  destruct 1 as [d d' [-> _]|d d' k v data _ Hp|d d' pk t v a _ Hp Hl Ht Hv Ht' HB _ _|d d' pk slot v b _ Hp];
    intros Hwf; [done|by rewrite (put_other _ _ _ _ _ _ Hp)| |by rewrite (put_other _ _ _ _ _ _ Hp)].
  rewrite (put_same _ _ _ _ _ Hp). intros k' v'. rewrite lookup_insert_Some.
  intros [[<- <-]|[_ Hk']]; [|eauto]. by exists pk, t, a.
Qed.

Lemma store_step_blk_wf d d' :
  store_step d d' -> blk_wf (sled_view d BLOCKS_TREE) -> blk_wf (sled_view d' BLOCKS_TREE).
Proof.
  destruct 1 as [d d' [-> _]|d d' k v data _ Hp|d d' pk t v a _ Hp|d d' pk slot v b _ Hp Hl Ht Hv Hs _];
    intros Hwf; [done|by rewrite (put_other _ _ _ _ _ _ Hp)..|].
  rewrite (put_same _ _ _ _ _ Hp). intros k' v'. rewrite lookup_insert_Some.
  intros [[<- <-]|[_ Hk']]; [|eauto]. by exists pk, slot, b.
Qed.

Lemma store_step_no_surround d d' :
  store_step d d' -> att_wf (sled_view d ATTESTATIONS_TREE) ->
  no_surround (sled_view d ATTESTATIONS_TREE) -> no_surround (sled_view d' ATTESTATIONS_TREE).
Proof.
  destruct 1 as [d d' [-> _]|d d' k v data _ Hp|d d' pk t v a _ Hp Hl Ht Hv Ht' HB _ Hc|d d' pk slot v b _ Hp];
    intros Hwf Hns; [done|by rewrite (put_other _ _ _ _ _ _ Hp)| |by rewrite (put_other _ _ _ _ _ _ Hp)].
  rewrite (put_same _ _ _ _ _ Hp). intros pk' t1 a1 t2 a2 Hl' H1 H2.
  assert (length pk = length pk') as Hll by congruence.
  destruct (rec_at_insert _ _ _ _ _ _ _ Hll Ht Hwf H1) as [[-> E1]|R1],
    (rec_at_insert _ _ _ _ _ _ _ Hll Ht Hwf H2) as [[? E2]|R2];
    try (assert (a1 = a) as -> by congruence); try (assert (a2 = a) as -> by congruence); subst.
  - unfold surrounds. lia.
  - by eapply Hc.
  - by eapply Hc.
  - by eapply Hns.
Qed.

Lemma store_step_inv d d' : store_step d d' -> db_inv d -> db_inv d'.
Proof.
  intros Hs [I1 I2 I3 I4 I5 I6 I7].
  pose proof (store_step_settles _ _ Hs) as Hset.
  split; eauto using store_step_val_wf, store_step_att_wf, store_step_blk_wf,
    store_step_no_surround, settles_val_wf, settles_subseteq,
    store_step_att_mono, store_step_blk_mono.
Qed.

Lemma store_steps_inv d d' : rtc store_step d d' -> db_inv d -> db_inv d'.
Proof. induction 1; eauto using store_step_inv. Qed.
Lemma store_steps_att_mono d d' :
  rtc store_step d d' -> sled_view d ATTESTATIONS_TREE ⊆ sled_view d' ATTESTATIONS_TREE.
Proof. induction 1; [done|]. etrans; [by eapply store_step_att_mono|done]. Qed.
Lemma store_steps_blk_mono d d' :
  rtc store_step d d' -> sled_view d BLOCKS_TREE ⊆ sled_view d' BLOCKS_TREE.
Proof. induction 1; [done|]. etrans; [by eapply store_step_blk_mono|done]. Qed.

(** A crash keeps the invariant: the reopened view is what was on disk. *)
Lemma db_inv_reopen d : db_inv d -> db_inv (sled_reopen d).
Proof.
  intros [I1 I2 I3 I4 I5 I6 I7].
  assert (forall t, sled_view (sled_reopen d) t = sled_durable d t) as Hv by apply sled_reopen_law.
  assert (forall t, sled_durable (sled_reopen d) t = sled_durable d t) as Hd by apply sled_reopen_law.
  split; rewrite ?Hv, ?Hd; try done.
  - intros k v Hk. eapply I3, lookup_weaken; eauto.
  - intros k v Hk. eapply I4, lookup_weaken; eauto.
  - intros pk t1 a1 t2 a2 Hl (v1 & H1 & E1) (v2 & H2 & E2).
    eapply I5; [done|exists v1|exists v2]; eauto using lookup_weaken.
Qed.

(** ** The methods refine abstract steps *)

Lemma on_store_insert_inv t k v (s : Db) r s' :
  on_store (sled_insert t k v) s = (r, s') ->
  (sled_settles (store s) (store s') /\ sled_put t k v (store s) (store s')) \/
  (is_ok r = false /\ sled_quiet (store s) (store s')).
Proof.
  unfold on_store. destruct (sled_insert t k v (store s)) as [r0 d] eqn:E1.
  intros [= <- <-]. simpl. apply sled_insert_law in E1 as [Hs [Hp|[Hr Hv]]]; [by left|right].
  by split.
Qed.

Lemma get_validator_data_Ok pk (s : Db) data s' :
  get_validator_data pk s = (Ok data, s') ->
  exists v, sled_view (store s) VALIDATORS_TREE !! pk = Some v /\ from_slice v = Ok data.
Proof.
  unfold get_validator_data. intros (o & s1 & E1%map_err_inv_Ok & E2)%bind_inv_Ok.
  apply bind_inv_Ok in E2 as (v & s2 & E2 & E3).
  unfold on_store in E1. destruct (sled_get _ _ _) as [r0 d] eqn:Eg. simplify_eq.
  apply sled_get_law in Eg as [_ Hget]. specialize (Hget _ eq_refl). subst o.
  unfold lift in *. destruct (sled_view _ _ !! pk) as [v'|] eqn:Hk; simplify_eq/=.
  exists v. split; [done|]. by destruct (from_slice v) eqn:Ev; simplify_eq/=.
Qed.

(** Only registered validators, whose keys are 48 bytes long, are found. *)
Lemma get_validator_data_wf pk (s : Db) data s' :
  val_wf (sled_view (store s) VALIDATORS_TREE) ->
  get_validator_data pk s = (Ok data, s') -> length pk = 48%nat /\ vd_public_key data = pk.
Proof.
  intros Hwf (v & Hv & Hd)%get_validator_data_Ok.
  apply Hwf in Hv as [Hl (data' & Hd' & Hpk)]. split; congruence.
Qed.

Lemma update_validator_data_step data (s : Db) r s' :
  length (vd_public_key data) = 48%nat ->
  update_validator_data data s = (r, s') -> store_step (store s) (store s').
Proof.
  intros Hl [(v & s1 & E1 & E2)|(e & E1 & _)]%bind_inv.
  - unfold lift in E1. destruct (to_vec data) as [v'|e'] eqn:Ev; simplify_eq/=.
    apply map_err_inv in E2 as (r0 & E2 & _).
    apply on_store_insert_inv in E2 as [[Hs Hp]|[_ Hq]]; [|by apply step_quiet].
    eapply step_validator; eauto using from_slice_to_vec.
  - unfold lift in E1. simplify_eq. apply step_quiet, sled_quiet_refl.
Qed.

Lemma register_validator_step pk now (s : Db) r s' :
  register_validator pk now s = (r, s') -> rtc store_step (store s) (store s').
Proof.
  unfold register_validator. destruct (Nat.eqb_spec (length pk) 48) as [Hl|]; simpl.
  2:{ intros [= _ <-]. done. }
  intros [(known & s1 & E1 & E2)|(e & E1 & _)]%bind_inv.
  2:{ apply rtc_once, step_quiet. by eapply (quiet_map_err Database); [apply quiet_contains|]. }
  apply (rtc_l _ _ (store s1)).
  { apply step_quiet. by eapply (quiet_map_err Database); [apply quiet_contains|]. }
  destruct known; [unfold throw in E2; by simplify_eq|].
  by eapply rtc_once, (update_validator_data_step (MkValidatorData pk Active None None None now now)).
Qed.

Lemma set_min_steps pk (f : ValidatorData -> ValidatorData) (s : Db) r s' :
  (forall data, vd_public_key (f data) = vd_public_key data) ->
  val_wf (sled_view (store s) VALIDATORS_TREE) ->
  (let! data := get_validator_data pk in update_validator_data (f data)) s = (r, s') ->
  rtc store_step (store s) (store s').
Proof.
  intros Hf Hwf [(data & s1 & E1 & E2)|(e & E1 & _)]%bind_inv.
  - pose proof (get_validator_data_wf _ _ _ _ Hwf E1) as [Hl Hpk].
    apply (rtc_l _ _ (store s1)); [by eapply step_quiet, quiet_get_validator_data|].
    apply rtc_once. eapply (update_validator_data_step (f data)); [|done]. by rewrite Hf, Hpk.
  - by eapply rtc_once, step_quiet, quiet_get_validator_data.
Qed.

Lemma persist_validator_step data (s : Db) r s' :
  length (vd_public_key data) = 48%nat ->
  persist_validator data s = (r, s') -> store_step (store s) (store s').
Proof. intros Hl (r0 & E1 & _)%map_err_inv. by eapply update_validator_data_step. Qed.

(** The records trees are exactly what is on disk. *)
Definition synced (d : db) : Prop :=
  sled_durable d ATTESTATIONS_TREE = sled_view d ATTESTATIONS_TREE /\
  sled_durable d BLOCKS_TREE = sled_view d BLOCKS_TREE.

Lemma settles_same_view (d d' : db) t :
  sled_settles d d' -> sled_view d' t = sled_view d t ->
  sled_durable d t = sled_view d t -> sled_durable d' t = sled_view d' t.
Proof.
  intros Hs Hv Hd. apply map_eq. intros k. destruct (Hs t k) as [->|]; [|done].
  by rewrite Hd, Hv.
Qed.

Lemma quiet_synced (d d' : db) : sled_quiet d d' -> synced d -> synced d'.
Proof. intros [Hv Hs] [Ha Hb]. split; eapply settles_same_view; eauto. Qed.

(** Persisting the validator entry and flushing, the common tail of both
    recording methods: it refines abstract steps, keeps the record trees, and
    on success leaves everything on disk. *)
Lemma persist_flush_inv data (g : string -> SlashingError) (f : SlashingStats -> SlashingStats)
    (s : Db) r s' :
  length (vd_public_key data) = 48%nat ->
  (persist_validator data ;! map_err g (on_store sled_flush) ;! bump f) s = (r, s') ->
  rtc store_step (store s) (store s') /\ (r = Ok tt -> synced (store s')).
Proof.
  intros Hl [([] & s1 & E1 & E2)|(e & E1 & ->)]%bind_inv.
  2:{ split; [|done]. by eapply rtc_once, persist_validator_step. }
  apply persist_validator_step in E1; [|done].
  apply bind_inv in E2 as [([] & s2 & E2 & [= <- <-])|(e & E2 & ->)].
  - apply map_err_inv_Ok in E2. simpl. split.
    + eapply rtc_l; [done|]. by eapply rtc_once, step_quiet, quiet_flush.
    + intros _. unfold on_store in E2. destruct (sled_flush (store s1)) as [r0 d] eqn:Ef.
      simplify_eq. apply sled_flush_law in Ef as [[Hv _] Hd]. specialize (Hd eq_refl).
      split; simpl; by rewrite Hd, Hv.
  - split; [|done]. eapply rtc_l; [done|].
    eapply rtc_once, step_quiet, (quiet_map_err g); [apply quiet_flush|done].
Qed.

Lemma scan_inv {E} t p (s : Db) (r : result _ E) s' :
  scan t p s = (r, s') ->
  exists items, r = Ok items /\ sled_quiet (store s) (store s') /\
    (forall es, items = Ok <$> es -> es = tree_scan p (sled_view (store s) t)).
Proof.
  unfold scan. destruct (sled_scan_prefix t p (store s)) as [items d] eqn:E1.
  intros [= <- <-]. exists items. split; [done|]. by apply sled_scan_law in E1.
Qed.

(** *** Attestations *)

Lemma check_double_vote_inv pk t root (s : Db) r s' :
  check_double_vote pk t root s = (r, s') ->
  (r = Ok true -> exists a, rec_at (sled_view (store s) ATTESTATIONS_TREE) pk t a /\
     ad_signing_root a = root_bytes root) /\
  (r = Ok false -> sled_view (store s) ATTESTATIONS_TREE !! attestation_key pk t = None).
Proof.
  unfold check_double_vote, attempt, bind at 1, on_store.
  destruct (sled_get _ _ _) as [[o|e] d] eqn:Eg; [|by intros [= <- <-]].
  apply sled_get_law in Eg as [_ Hg]. rewrite (Hg _ eq_refl). clear Hg.
  destruct (sled_view _ _ !! _) as [v|] eqn:Hv; [|by intros [= <- <-]].
  destruct (from_slice v) as [a|] eqn:Ha; [|by intros [= <- <-]].
  destruct (bool_decide_reflect (ad_signing_root a = root_bytes root)) as [Hr|];
    [|by intros [= <- <-]].
  intros [= <- <-]. split; [|done]. intros _. exists a. split; [by exists v|done].
Qed.

Lemma check_surround_Ok src t items (s : Db) s' :
  check_surround src t items s = (Ok tt, s') ->
  exists es, items = Ok <$> es /\
    Forall (fun kv => exists a, from_slice kv.2 = Ok a /\
      ~ (src < ad_source_epoch a /\ ad_target_epoch a < t) /\
      ~ (ad_source_epoch a < src /\ t < ad_target_epoch a)) es.
Proof.
  induction items as [|[[k v]|e] items IH]; simpl; intros E.
  - exists []. by split.
  - destruct (from_slice v) as [a|] eqn:Ha; [|discriminate].
    destruct (_ && _) eqn:E1 in E; [discriminate|].
    destruct (_ && _) eqn:E2 in E; [discriminate|].
    apply IH in E as (es & -> & Hes). exists ((k, v) :: es). split; [done|].
    constructor; [|done]. exists a. split; [done|].
    apply andb_false_iff in E1, E2. rewrite !Z.ltb_ge in E1, E2. lia.
  - discriminate.
Qed.

Lemma record_attestation_inv data pk src t root now (s : Db) r s' :
  length (vd_public_key data) = 48%nat ->
  record_attestation data pk src t root now s = (r, s') ->
  (is_ok r = false /\ sled_quiet (store s) (store s')) \/
  (exists v d, from_slice v = Ok (MkAttestationData src t (root_bytes root) now) /\
     sled_settles (store s) d /\ sled_put ATTESTATIONS_TREE (attestation_key pk t) v (store s) d /\
     rtc store_step d (store s') /\ (r = Ok tt -> synced (store s'))).
Proof.
  intros Hl [(v & s1 & E1 & E2)|(e & E1 & ->)]%bind_inv.
  2:{ left. unfold lift in E1. simplify_eq. split; [done|apply sled_quiet_refl]. }
  unfold lift in E1. destruct (to_vec _) as [v'|] eqn:Ev; simplify_eq/=.
  apply from_slice_to_vec in Ev.
  apply bind_inv in E2 as [([] & s2 & E2 & E3)|(e & E2 & ->)];
    apply map_err_inv in E2 as (r0 & E2 & Er).
  - apply on_store_insert_inv in E2 as [[Hs Hp]|[Hr _]]; [|by destruct r0].
    right. exists v, (store s2).
    destruct (persist_flush_inv (touch data now) _ _ _ _ _ Hl E3) as [? ?]. done.
  - apply on_store_insert_inv in E2 as [[Hs Hp]|[Hr Hq]].
    + right. by exists v, (store s').
    + by left.
Qed.

(** Either nothing was written, and success means the same vote is on
    record; or every check passed in the state before the write. *)
Lemma check_and_record_attestation_inv pk src t root now (s : Db) r s' :
  db_inv (store s) ->
  check_and_record_attestation pk src t root now s = (r, s') ->
  (sled_quiet (store s) (store s') /\
   (r = Ok tt -> length pk = 48%nat /\
      exists a, rec_at (sled_view (store s) ATTESTATIONS_TREE) pk t a /\
                ad_signing_root a = root_bytes root)) \/
  (exists data s1,
     length pk = 48%nat /\ vd_public_key data = pk /\ sled_quiet (store s) (store s1) /\
     sled_view (store s) ATTESTATIONS_TREE !! attestation_key pk t = None /\
     (forall t' a, rec_at (sled_view (store s) ATTESTATIONS_TREE) pk t' a ->
        ~ (src < ad_source_epoch a /\ ad_target_epoch a < t) /\
        ~ (ad_source_epoch a < src /\ t < ad_target_epoch a)) /\
     record_attestation data pk src t root now s1 = (r, s')).
Proof.
  intros Hinv [(data & s1 & E1 & E2)|(e & E1 & ->)]%bind_inv.
  2:{ left. split; [|done]. by eapply quiet_map_err; [apply quiet_get_validator_data|]. }
  apply map_err_inv_Ok in E1.
  destruct (get_validator_data_wf _ _ _ _ (inv_val _ Hinv) E1) as [Hl Hpk].
  apply quiet_get_validator_data in E1 as Q1.
  apply bind_inv in E2 as [(already & s2 & E2 & E3)|(e & E2 & ->)].
  2:{ left. split; [|done]. eapply sled_quiet_trans; [done|]. by eapply quiet_check_double_vote. }
  apply quiet_check_double_vote in E2 as Q2.
  apply check_double_vote_inv in E2 as [Hyes Hno]. destruct Q1 as [V1 S1]. rewrite V1 in Hyes, Hno.
  assert (sled_quiet (store s) (store s2)) as Q12 by (by eapply sled_quiet_trans).
  destruct already.
  { left. unfold ret in E3. simplify_eq. split; [done|]. intros _. split; [done|]. by apply Hyes. }
  apply bind_inv in E3 as [([] & s3 & E3 & E4)|(e & E3 & ->)].
  2:{ left. split; [|done]. eapply sled_quiet_trans; [done|]. by eapply quiet_check_min_epochs. }
  assert (sled_quiet (store s) (store s3)) as Q13
    by (eapply sled_quiet_trans; [done|]; by eapply quiet_check_min_epochs).
  apply bind_inv in E4 as [(items' & s4 & E4 & E5)|(e & E4 & ->)];
    apply scan_inv in E4 as (items & ? & Q4 & Hitems); simplify_eq.
  assert (sled_quiet (store s) (store s4)) as Q14 by (by eapply sled_quiet_trans).
  apply bind_inv in E5 as [([] & s5 & E5 & E6)|(e & E5 & ->)].
  2:{ left. split; [|done]. eapply sled_quiet_trans; [done|]. by eapply quiet_check_surround. }
  right. exists data, s5. do 2 (split; [done|]). split.
  { eapply sled_quiet_trans; [done|]. by eapply quiet_check_surround. }
  split; [by apply Hno|]. split; [|done].
  apply check_surround_Ok in E5 as (es & -> & Hes).
  rewrite (Hitems _ eq_refl), (proj1 Q13), Forall_forall in Hes.
  intros t' a (v & Hv & Ha).
  destruct (Hes (attestation_key (vd_public_key data) t', v)) as (a' & Ha' & Hc).
  { apply elem_of_tree_scan. split; [done|apply attestation_key_has_prefix]. }
  simpl in Ha'. assert (a' = a) as -> by congruence. done.
Qed.

Lemma check_and_record_attestation_steps pk src t root now (s : Db) r s' :
  db_inv (store s) -> u64 t -> B (root_bytes root) src ->
  check_and_record_attestation pk src t root now s = (r, s') ->
  rtc store_step (store s) (store s').
Proof.
  intros Hinv Ht HB [[Hq _]|(data & s1 & Hl & Hpk & Hq & Hno & Hc & E)]%check_and_record_attestation_inv;
    [by apply rtc_once, step_quiet| |done].
  apply (rtc_l _ _ (store s1)); [by apply step_quiet|].
  apply record_attestation_inv in E as [[_ ?]|(v & d & Hv & Hs & Hp & Hr & _)];
    [by apply rtc_once, step_quiet| |by rewrite Hpk].
  destruct Hq as [V _].
  eapply rtc_l; [|done].
  eapply step_attestation; eauto; rewrite V; [done|].
  intros t' a' Ha'. destruct (Hc _ _ Ha') as [H1 H2]. unfold surrounds. simpl. tauto.
Qed.

(** A successful call leaves the vote on record, and on disk if the records
    were on disk before. *)
Lemma check_and_record_attestation_Ok pk src t root now (s : Db) s' :
  db_inv (store s) ->
  check_and_record_attestation pk src t root now s = (Ok tt, s') ->
  length pk = 48%nat /\
  (exists a, rec_at (sled_view (store s') ATTESTATIONS_TREE) pk t a /\
     ad_signing_root a = root_bytes root) /\
  (synced (store s) -> synced (store s')).
Proof.
  intros Hinv [[Hq Hr]|(data & s1 & Hl & Hpk & Hq & Hno & Hc & E)]%check_and_record_attestation_inv;
    [| |done].
  - destruct (Hr eq_refl) as [Hl (a & Ha & Hroot)]. split; [done|]. split.
    + exists a. by rewrite (proj1 Hq).
    + eauto using quiet_synced.
  - split; [done|].
    apply record_attestation_inv in E as [[? _]|(v & d & Hv & Hs & Hp & Hr & Hsync)];
      [done| |by rewrite Hpk].
    split; [|eauto]. exists (MkAttestationData src t (root_bytes root) now). split; [|done].
    exists v. split; [|done]. eapply lookup_weaken; [|by eapply store_steps_att_mono].
    rewrite (put_same _ _ _ _ _ Hp). apply lookup_insert_eq.
Qed.

(** *** Blocks *)

Lemma check_double_block_inv pk slot root (s : Db) r s' :
  check_double_block pk slot root s = (r, s') ->
  (r = Ok true -> exists b, blk_at (sled_view (store s) BLOCKS_TREE) pk slot b /\
     bd_signing_root b = root_bytes root) /\
  (r = Ok false -> sled_view (store s) BLOCKS_TREE !! block_key pk slot = None).
Proof.
  unfold check_double_block, attempt, bind at 1, on_store.
  destruct (sled_get _ _ _) as [[o|e] d] eqn:Eg; [|by intros [= <- <-]].
  apply sled_get_law in Eg as [_ Hg]. rewrite (Hg _ eq_refl). clear Hg.
  destruct (sled_view _ _ !! _) as [v|] eqn:Hv; [|by intros [= <- <-]].
  destruct (from_slice v) as [b|] eqn:Hb; [|by intros [= <- <-]].
  destruct (bool_decide_reflect (bd_signing_root b = root_bytes root)) as [Hr|];
    [|by intros [= <- <-]].
  intros [= <- <-]. split; [|done]. intros _. exists b. split; [by exists v|done].
Qed.

Lemma record_block_inv data pk slot root now (s : Db) r s' :
  length (vd_public_key data) = 48%nat ->
  record_block data pk slot root now s = (r, s') ->
  (is_ok r = false /\ sled_quiet (store s) (store s')) \/
  (exists v d, from_slice v = Ok (MkBlockData slot (root_bytes root) now) /\
     sled_settles (store s) d /\ sled_put BLOCKS_TREE (block_key pk slot) v (store s) d /\
     rtc store_step d (store s') /\ (r = Ok tt -> synced (store s'))).
Proof.
  intros Hl [(v & s1 & E1 & E2)|(e & E1 & ->)]%bind_inv.
  2:{ left. unfold lift in E1. simplify_eq. split; [done|apply sled_quiet_refl]. }
  unfold lift in E1. destruct (to_vec _) as [v'|] eqn:Ev; simplify_eq/=.
  apply from_slice_to_vec in Ev.
  apply bind_inv in E2 as [([] & s2 & E2 & E3)|(e & E2 & ->)];
    apply map_err_inv in E2 as (r0 & E2 & Er).
  - apply on_store_insert_inv in E2 as [[Hs Hp]|[Hr _]]; [|by destruct r0].
    right. exists v, (store s2).
    destruct (persist_flush_inv (touch data now) _ _ _ _ _ Hl E3) as [? ?]. done.
  - apply on_store_insert_inv in E2 as [[Hs Hp]|[Hr Hq]].
    + right. by exists v, (store s').
    + by left.
Qed.

Lemma check_and_record_block_inv pk slot root now (s : Db) r s' :
  db_inv (store s) ->
  check_and_record_block pk slot root now s = (r, s') ->
  (sled_quiet (store s) (store s') /\
   (r = Ok tt -> length pk = 48%nat /\
      exists b, blk_at (sled_view (store s) BLOCKS_TREE) pk slot b /\
                bd_signing_root b = root_bytes root)) \/
  (exists data s1,
     length pk = 48%nat /\ vd_public_key data = pk /\ sled_quiet (store s) (store s1) /\
     sled_view (store s) BLOCKS_TREE !! block_key pk slot = None /\
     record_block data pk slot root now s1 = (r, s')).
Proof.
  intros Hinv [(data & s1 & E1 & E2)|(e & E1 & ->)]%bind_inv.
  2:{ left. split; [|done]. by eapply quiet_map_err; [apply quiet_get_validator_data|]. }
  apply map_err_inv_Ok in E1.
  destruct (get_validator_data_wf _ _ _ _ (inv_val _ Hinv) E1) as [Hl Hpk].
  apply quiet_get_validator_data in E1 as Q1.
  apply bind_inv in E2 as [(already & s2 & E2 & E3)|(e & E2 & ->)].
  2:{ left. split; [|done]. eapply sled_quiet_trans; [done|]. by eapply quiet_check_double_block. }
  apply quiet_check_double_block in E2 as Q2.
  apply check_double_block_inv in E2 as [Hyes Hno]. destruct Q1 as [V1 S1]. rewrite V1 in Hyes, Hno.
  assert (sled_quiet (store s) (store s2)) as Q12 by (by eapply sled_quiet_trans).
  destruct already.
  { left. unfold ret in E3. simplify_eq. split; [done|]. intros _. split; [done|]. by apply Hyes. }
  apply bind_inv in E3 as [([] & s3 & E3 & E4)|(e & E3 & ->)].
  2:{ left. split; [|done]. eapply sled_quiet_trans; [done|]. by eapply quiet_check_min_slot. }
  right. exists data, s3. do 2 (split; [done|]). split; [|by split; [apply Hno|]].
  eapply sled_quiet_trans; [done|]. by eapply quiet_check_min_slot.
Qed.

Lemma check_and_record_block_steps pk slot root now (s : Db) r s' :
  db_inv (store s) -> u64 slot ->
  check_and_record_block pk slot root now s = (r, s') ->
  rtc store_step (store s) (store s').
Proof.
  intros Hinv Ht [[Hq _]|(data & s1 & Hl & Hpk & Hq & Hno & E)]%check_and_record_block_inv;
    [by apply rtc_once, step_quiet| |done].
  apply (rtc_l _ _ (store s1)); [by apply step_quiet|].
  apply record_block_inv in E as [[_ ?]|(v & d & Hv & Hs & Hp & Hr & _)];
    [by apply rtc_once, step_quiet| |by rewrite Hpk].
  destruct Hq as [V _]. eapply rtc_l; [|done].
  eapply step_block; eauto. by rewrite V.
Qed.

Lemma check_and_record_block_Ok pk slot root now (s : Db) s' :
  db_inv (store s) ->
  check_and_record_block pk slot root now s = (Ok tt, s') ->
  length pk = 48%nat /\
  (exists b, blk_at (sled_view (store s') BLOCKS_TREE) pk slot b /\
     bd_signing_root b = root_bytes root) /\
  (synced (store s) -> synced (store s')).
Proof.
  intros Hinv [[Hq Hr]|(data & s1 & Hl & Hpk & Hq & Hno & E)]%check_and_record_block_inv;
    [| |done].
  - destruct (Hr eq_refl) as [Hl (b & Hb & Hroot)]. split; [done|]. split.
    + exists b. by rewrite (proj1 Hq).
    + eauto using quiet_synced.
  - split; [done|].
    apply record_block_inv in E as [[? _]|(v & d & Hv & Hs & Hp & Hr & Hsync)];
      [done| |by rewrite Hpk].
    split; [|eauto]. exists (MkBlockData slot (root_bytes root) now). split; [|done].
    exists v. split; [|done]. eapply lookup_weaken; [|by eapply store_steps_blk_mono].
    rewrite (put_same _ _ _ _ _ Hp). apply lookup_insert_eq.
Qed.
End invariant.
