(* ===== verification/SlashingDecision.v ===== *)
(** * What the slashing protection accepts

    The exact condition under which a request is approved, when the store
    works: no legitimate request is refused, and a refused request leaves no
    trace.  [Reliable P] describes a store whose calls succeed in the states
    satisfying [P]. *)

From Stdlib Require Import ZArith Lia Strings.Byte.
From stdpp Require Import base gmap strings list.
From S2P Require Import Prelude External ValidatorTypes SlashingDb SlashingInv.

Class Reliable {db : Type} `{Sled db} (P : db -> Prop) : Prop := {
  reliable_get t k d : P d -> exists o d', sled_get t k d = (Ok o, d') /\ P d';
  reliable_insert t k v d : P d -> exists d', sled_insert t k v d = (Ok tt, d') /\ P d';
  reliable_scan t p d : P d -> exists es d', sled_scan_prefix t p d = (Ok <$> es, d') /\ P d';
  reliable_flush d : P d -> exists d', sled_flush d = (Ok tt, d') /\ P d'
}.

(** Serialisation of a type that never fails. *)
Definition total_serde (A : Type) `{Serde A} : Prop := forall a : A, exists b, to_vec a = Ok b.

Section decision.
Context {db : Type} {SLED : Sled db} {LAWS : SledLaws db} {HEX : Hex}.
Context {SV : Serde ValidatorData} {SA : Serde AttestationData} {SB : Serde BlockData}.
Context (P : db -> Prop) {REL : Reliable P}.
Context (TV : total_serde ValidatorData) (TA : total_serde AttestationData) (TB : total_serde BlockData).
Abbreviation Db := (SlashingProtectionDb db).
Abbreviation atts s := (sled_view (store s) ATTESTATIONS_TREE).
Abbreviation blks s := (sled_view (store s) BLOCKS_TREE).

(** The stored data of a registered validator. *)
Definition registered (s : Db) (pk : bytes) (data : ValidatorData) : Prop :=
  exists v, sled_view (store s) VALIDATORS_TREE !! pk = Some v /\ from_slice v = Ok data.

(** A request whose target has no record yet: within the imported minimums and
    in no surround relation with a record. *)
Definition attestation_clear (s : Db) (pk : bytes) (data : ValidatorData) (src t : Epoch) : Prop :=
  atts s !! attestation_key pk t = None /\
  (forall m, vd_min_source_epoch data = Some m -> m <= src) /\
  (forall m, vd_min_target_epoch data = Some m -> m < t) /\
  (forall t' a, rec_at (atts s) pk t' a ->
     ~ (src < ad_source_epoch a /\ ad_target_epoch a < t) /\
     ~ (ad_source_epoch a < src /\ t < ad_target_epoch a)).

Definition attestation_acceptable (s : Db) (pk : bytes) (src t : Epoch) (root : SigningRoot) : Prop :=
  exists data, registered s pk data /\
    ((exists a, rec_at (atts s) pk t a /\ ad_signing_root a = root_bytes root) \/
     attestation_clear s pk data src t).

Definition block_acceptable (s : Db) (pk : bytes) (slot : Slot) (root : SigningRoot) : Prop :=
  exists data, registered s pk data /\
    ((exists b, blk_at (blks s) pk slot b /\ bd_signing_root b = root_bytes root) \/
     (blks s !! block_key pk slot = None /\
      forall m, vd_min_slot data = Some m -> m < slot)).

(** ** Stages of a check on a working store *)

(** Neither the view nor the reliability changed. *)
Definition calm (s s' : Db) : Prop := sled_quiet (store s) (store s') /\ P (store s').

Lemma calm_trans s1 s2 s3 : calm s1 s2 -> calm s2 s3 -> calm s1 s3.
Proof. intros [Q1 _] [Q2 H]. split; [by eapply sled_quiet_trans|done]. Qed.

Lemma calm_get t k (s : Db) :
  P (store s) -> exists s', on_store (sled_get t k) s = (Ok (sled_view (store s) t !! k), s') /\ calm s s'.
Proof.
  intros HP. destruct (reliable_get t k (store s) HP) as (o & d & E & HP').
  unfold on_store. rewrite E. apply sled_get_law in E as [Hq Ho]. rewrite (Ho o eq_refl).
  by eexists.
Qed.

Lemma calm_scan {E} t p (s : Db) :
  P (store s) -> exists s', (scan t p s : result _ E * Db) =
    (Ok (Ok <$> tree_scan p (sled_view (store s) t)), s') /\ calm s s'.
Proof.
  intros HP. destruct (reliable_scan t p (store s) HP) as (es & d & E' & HP').
  unfold scan. rewrite E'. apply sled_scan_law in E' as [Hq Hes]. rewrite (Hes es eq_refl). by eexists.
Qed.

Lemma calm_validator_data B pk (s : Db) :
  P (store s) -> db_inv B (store s) ->
  exists s', calm s s' /\
    ((exists data, registered s pk data /\ get_validator_data pk s = (Ok data, s')) \/
     ((forall data, ~ registered s pk data) /\ exists e, get_validator_data pk s = (Err e, s'))).
Proof.
  intros HP Hinv. destruct (calm_get VALIDATORS_TREE pk s HP) as (s' & E & Hc). exists s'. split; [done|].
  unfold get_validator_data, map_err. rewrite (bind_Ok _ _ _ (sled_view (store s) VALIDATORS_TREE !! pk) s')
    by (by rewrite E).
  destruct (sled_view (store s) VALIDATORS_TREE !! pk) as [v|] eqn:Hv.
  - left. destruct (inv_val _ _ Hinv _ _ Hv) as [_ (data & Hd & _)]. exists data. split; [by exists v|].
    unfold lift, bind. simpl. by rewrite Hd.
  - right. split; [intros data (v & Hv' & _); congruence|]. by eexists.
Qed.

Lemma calm_bump {E} f (s : Db) :
  P (store s) -> exists s', (bump f s : result unit E * Db) = (Ok tt, s') /\ calm s s'.
Proof. intros HP. eexists. split; [done|]. split; [apply sled_quiet_refl|done]. Qed.

(** A computation that only counts: it keeps the store as it is. *)
Definition counting {E A} (c : M Db E A) : Prop := forall s, store (c s).2 = store s.

Lemma counting_calm {E A} (c : M Db E A) s : counting c -> P (store s) -> calm s (c s).2.
Proof. intros Hc HP. unfold calm. rewrite Hc. split; [apply sled_quiet_refl|done]. Qed.

(** The minimums, one at a time. *)
Lemma check_min_spec (o : option Z) (below : Z -> bool) (e : Z -> SlashingError) :
  let c : M Db SlashingError unit :=
    match o with
    | Some m => if below m then bump inc_slashable_prevented ;! throw (e m) else ret tt
    | None => ret tt
    end in
  counting c /\ forall s, is_ok (c s).1 = true <-> (forall m, o = Some m -> below m = false).
Proof.
  destruct o as [m|]; simpl; [destruct (below m) eqn:E|]; split; intros s; try done; simpl.
  - split; [done|]. intros H. specialize (H _ eq_refl). congruence.
  - split; [|done]. intros _ m' [= <-]. done.
Qed.

Lemma counting_bind {E A C} (c : M Db E A) (k : A -> M Db E C) :
  counting c -> (forall a, counting (k a)) -> counting (bind c k).
Proof.
  intros Hc Hk s. unfold bind. specialize (Hc s). destruct (c s) as [[a|e] s1]; simpl in *; [|done].
  by rewrite Hk.
Qed.

(** Success of a sequence of checks is success of each. *)
Lemma is_ok_bind {E} (c k : M Db E unit) (Qc Qk : Prop) s :
  (forall s, is_ok (c s).1 = true <-> Qc) -> (forall s, is_ok (k s).1 = true <-> Qk) ->
  is_ok ((c ;! k) s).1 = true <-> Qc /\ Qk.
Proof.
  intros Hc Hk. unfold bind. specialize (Hc s). destruct (c s) as [[[]|e] s1]; simpl in *;
    [rewrite Hk|]; naive_solver.
Qed.

Lemma check_min_epochs_spec data src t :
  counting (check_min_epochs data src t : M Db _ _) /\
  forall s : Db, is_ok (check_min_epochs data src t s).1 = true <->
    (forall m, vd_min_source_epoch data = Some m -> m <= src) /\
    (forall m, vd_min_target_epoch data = Some m -> m < t).
Proof.
  destruct (check_min_spec (vd_min_source_epoch data) (fun m => src <? m) (SourceEpochTooLow src)) as [C1 O1].
  destruct (check_min_spec (vd_min_target_epoch data) (fun m => t <=? m) (TargetEpochTooLow t)) as [C2 O2].
  split; [by apply counting_bind|]. intros s.
  setoid_rewrite Z.ltb_ge in O1. setoid_rewrite Z.leb_gt in O2. by apply is_ok_bind.
Qed.

Lemma check_min_slot_spec data slot :
  counting (check_min_slot data slot : M Db _ _) /\
  forall s : Db, is_ok (check_min_slot data slot s).1 = true <->
    (forall m, vd_min_slot data = Some m -> m < slot).
Proof.
  destruct (check_min_spec (vd_min_slot data) (fun m => slot <=? m) (SlotTooLow slot)) as [C1 O1].
  setoid_rewrite Z.leb_gt in O1. by split.
Qed.

(** The records of a scan that conflict with a request. *)
Definition no_conflict (src t : Epoch) (kv : bytes * bytes) : Prop := forall a,
  from_slice kv.2 = Ok a ->
  ~ (src < ad_source_epoch a /\ ad_target_epoch a < t) /\
  ~ (ad_source_epoch a < src /\ t < ad_target_epoch a).

Lemma check_surround_spec src t es :
  Forall (fun kv => exists a : AttestationData, from_slice kv.2 = Ok a) es ->
  counting (check_surround src t (Ok <$> es) : M Db _ _) /\
  forall s : Db, is_ok (check_surround src t (Ok <$> es) s).1 = true <-> Forall (no_conflict src t) es.
Proof.
  induction 1 as [|[k v] es [a Ha] _ [IHc IHo]]; csimpl; [by split|]. simpl in Ha. rewrite Ha.
  assert (no_conflict src t (k, v) <->
    ~ (src < ad_source_epoch a /\ ad_target_epoch a < t) /\
    ~ (ad_source_epoch a < src /\ t < ad_target_epoch a)) as Hn.
  { unfold no_conflict. simpl. rewrite Ha. split; [intros H; by apply H|by intros H a' [= <-]]. }
  setoid_rewrite Forall_cons. setoid_rewrite Hn.
  destruct (_ && _) eqn:E1; [|destruct (_ && _) eqn:E2 in |- *];
    rewrite ?andb_true_iff, ?andb_false_iff, ?Z.ltb_lt, ?Z.ltb_ge in *.
  - split; [done|]. intros s. simpl. split; [done|]. lia.
  - split; [done|]. intros s. simpl. split; [done|]. lia.
  - split; [done|]. intros s. rewrite IHo. split; [|tauto]. intros ?. split; [lia|done].
Qed.

Lemma calm_double_vote B pk t root (s : Db) :
  P (store s) -> db_inv B (store s) ->
  exists s', calm s s' /\
    ((atts s !! attestation_key pk t = None /\ check_double_vote pk t root s = (Ok false, s')) \/
     exists a, rec_at (atts s) pk t a /\
       ((ad_signing_root a = root_bytes root /\ check_double_vote pk t root s = (Ok true, s')) \/
        (ad_signing_root a <> root_bytes root /\ exists e, check_double_vote pk t root s = (Err e, s')))).
Proof.
  intros HP Hinv. destruct (calm_get ATTESTATIONS_TREE (attestation_key pk t) s HP) as (s1 & E & Hc).
  destruct (check_double_vote pk t root s) as [r s'] eqn:Er.
  unfold check_double_vote, attempt, bind at 1 in Er. rewrite E in Er.
  destruct (atts s !! attestation_key pk t) as [v|] eqn:Hv.
  - destruct (inv_att _ _ Hinv _ _ Hv) as (_ & _ & a & _ & _ & _ & Ha & _). rewrite Ha in Er.
    exists s'. destruct (bool_decide_reflect (ad_signing_root a = root_bytes root)) as [Hr|Hr];
      injection Er as <- <-; (split; [exact Hc|]); right; exists a; (split; [by exists v|]);
      [by left|right; by split; [|eexists]].
  - injection Er as <- <-. exists s1. split; [done|]. by left.
Qed.

Lemma calm_double_block B pk slot root (s : Db) :
  P (store s) -> db_inv B (store s) ->
  exists s', calm s s' /\
    ((blks s !! block_key pk slot = None /\ check_double_block pk slot root s = (Ok false, s')) \/
     exists b, blk_at (blks s) pk slot b /\
       ((bd_signing_root b = root_bytes root /\ check_double_block pk slot root s = (Ok true, s')) \/
        (bd_signing_root b <> root_bytes root /\ exists e, check_double_block pk slot root s = (Err e, s')))).
Proof.
  intros HP Hinv. destruct (calm_get BLOCKS_TREE (block_key pk slot) s HP) as (s1 & E & Hc).
  destruct (check_double_block pk slot root s) as [r s'] eqn:Er.
  unfold check_double_block, attempt, bind at 1 in Er. rewrite E in Er.
  destruct (blks s !! block_key pk slot) as [v|] eqn:Hv.
  - destruct (inv_blk _ _ Hinv _ _ Hv) as (_ & _ & b & _ & _ & _ & Hb & _). rewrite Hb in Er.
    exists s'. destruct (bool_decide_reflect (bd_signing_root b = root_bytes root)) as [Hr|Hr];
      injection Er as <- <-; (split; [exact Hc|]); right; exists b; (split; [by exists v|]);
      [by left|right; by split; [|eexists]].
  - injection Er as <- <-. exists s1. split; [done|]. by left.
Qed.

(** Recording succeeds. *)
Lemma reliable_on_insert t k v (s : Db) :
  P (store s) -> exists s', on_store (sled_insert t k v) s = (Ok tt, s') /\ P (store s').
Proof.
  intros HP. destruct (reliable_insert t k v (store s) HP) as (d & E & HP').
  unfold on_store. rewrite E. by eexists.
Qed.

Lemma reliable_persist_flush data (g : string -> SlashingError) f (s : Db) :
  P (store s) -> exists s',
    (persist_validator data ;! map_err g (on_store sled_flush) ;! bump f) s = (Ok tt, s') /\ P (store s').
Proof.
  intros HP. destruct (TV data) as [v Ev].
  destruct (reliable_on_insert VALIDATORS_TREE (vd_public_key data) v s HP) as (s1 & E1 & HP1).
  destruct (reliable_flush (store s1) HP1) as (d & E2 & HP2).
  assert (persist_validator data s = (Ok tt, s1)) as E.
  { unfold persist_validator, update_validator_data, map_err at 1. rewrite Ev. unfold lift, bind. simpl.
    unfold map_err. by rewrite E1. }
  rewrite (bind_Ok _ _ _ _ _ E). unfold bind, map_err, on_store. rewrite E2. by eexists.
Qed.

Lemma reliable_record_attestation data pk src t root now (s : Db) :
  P (store s) -> exists s', record_attestation data pk src t root now s = (Ok tt, s') /\ P (store s').
Proof.
  intros HP. destruct (TA (MkAttestationData src t (root_bytes root) now)) as [v Ev].
  destruct (reliable_on_insert ATTESTATIONS_TREE (attestation_key pk t) v s HP) as (s1 & E1 & HP1).
  unfold record_attestation. rewrite Ev. rewrite (bind_Ok _ _ _ v s) by done.
  rewrite (bind_Ok _ _ _ tt s1) by (unfold map_err; by rewrite E1). by apply reliable_persist_flush.
Qed.

Lemma reliable_record_block data pk slot root now (s : Db) :
  P (store s) -> exists s', record_block data pk slot root now s = (Ok tt, s') /\ P (store s').
Proof.
  intros HP. destruct (TB (MkBlockData slot (root_bytes root) now)) as [v Ev].
  destruct (reliable_on_insert BLOCKS_TREE (block_key pk slot) v s HP) as (s1 & E1 & HP1).
  unfold record_block. rewrite Ev. rewrite (bind_Ok _ _ _ v s) by done.
  rewrite (bind_Ok _ _ _ tt s1) by (unfold map_err; by rewrite E1). by apply reliable_persist_flush.
Qed.

(** The records a scan returns are those of the validator. *)
Lemma scan_no_conflict (pk : bytes) (src t : Epoch) (V : gmap bytes bytes) :
  Forall (no_conflict src t) (tree_scan (attestation_key_prefix pk) V) ->
  forall t' a, rec_at V pk t' a ->
    ~ (src < ad_source_epoch a /\ ad_target_epoch a < t) /\
    ~ (ad_source_epoch a < src /\ t < ad_target_epoch a).
Proof.
  intros H t' a (v & Hv & Ha). rewrite Forall_forall in H.
  apply (H (attestation_key pk t', v)); [|done].
  apply elem_of_tree_scan. split; [done|apply attestation_key_has_prefix].
Qed.

Lemma no_conflict_scan B (pk : bytes) (src t : Epoch) (d : db) :
  db_inv B d -> length pk = 48%nat ->
  (forall t' a, rec_at (sled_view d ATTESTATIONS_TREE) pk t' a ->
    ~ (src < ad_source_epoch a /\ ad_target_epoch a < t) /\
    ~ (ad_source_epoch a < src /\ t < ad_target_epoch a)) ->
  Forall (no_conflict src t) (tree_scan (attestation_key_prefix pk) (sled_view d ATTESTATIONS_TREE)).
Proof.
  intros Hinv Hl H. apply Forall_forall. intros [k v] [Hv Hp]%elem_of_tree_scan a Ha.
  destruct (inv_att _ _ Hinv _ _ Hv) as (pk' & t' & a' & -> & Hl' & _).
  apply attestation_key_prefix_of in Hp as <-; [|congruence]. apply (H t' a). by exists v.
Qed.

Lemma calm_inv B s s' : calm s s' -> db_inv B (store s) -> db_inv B (store s').
Proof. intros [Hq _]. by apply store_step_inv, step_quiet. Qed.

Lemma calm_view s s' t : calm s s' -> sled_view (store s') t = sled_view (store s) t.
Proof. intros [[Hv _] _]. apply Hv. Qed.

Lemma registered_unique s pk d1 d2 : registered s pk d1 -> registered s pk d2 -> d1 = d2.
Proof. intros (v & Hv & H1) (v' & Hv' & H2). congruence. Qed.

(** The verdict on a request: [Q] holds exactly when it succeeds, the store
    keeps working, and a refusal leaves the store as it was. *)
Definition verdict (Q : Prop) (s : Db) (out : result unit SlashingError * Db) : Prop :=
  (is_ok out.1 = true <-> Q) /\ P (store out.2) /\
  (is_ok out.1 = false -> forall t, sled_view (store out.2) t = sled_view (store s) t).

Lemma verdict_refused Q s e s' : ~ Q -> calm s s' -> verdict Q s (Err e, s').
Proof. intros HQ Hc. split; [done|]. split; [apply Hc|]. intros _ t. by apply calm_view. Qed.

Lemma verdict_accepted Q s s' : Q -> P (store s') -> verdict Q s (Ok tt, s').
Proof. by intros HQ HP. Qed.

(** A counting check followed by the rest. *)
Lemma verdict_check (Q Q1 : Prop) s s1 (c k : M Db SlashingError unit) :
  calm s s1 -> counting c -> (forall s, is_ok (c s).1 = true <-> Q1) -> (Q -> Q1) ->
  (Q1 -> forall s2, calm s s2 -> verdict Q s (k s2)) -> verdict Q s ((c ;! k) s1).
Proof.
  intros Hc Hn Hok HQ Hk. pose proof (counting_calm c s1 Hn (proj2 Hc)) as Hc2.
  assert (calm s (c s1).2) as Hc3 by (by eapply calm_trans). specialize (Hok s1). unfold bind.
  destruct (c s1) as [[[]|e] s2]; simpl in *; [apply Hk; [by apply Hok|done]|].
  apply verdict_refused; [|done]. intros H%HQ%Hok. done.
Qed.

Lemma attestation_verdict B pk src t root now (s : Db) :
  P (store s) -> db_inv B (store s) ->
  verdict (attestation_acceptable s pk src t root) s (check_and_record_attestation pk src t root now s).
Proof.
  intros HP Hinv. unfold check_and_record_attestation.
  destruct (calm_validator_data B pk s HP Hinv) as (s1 & C1 & [(data & Hreg & E1)|(Hno & e & E1)]).
  2:{ unfold bind at 1, map_err at 1. rewrite E1. apply verdict_refused; [|done].
      intros (data & Hreg & _). by apply (Hno data). }
  rewrite (bind_Ok _ _ _ data s1) by (unfold map_err; by rewrite E1).
  assert (length pk = 48%nat) as Hl by (destruct Hreg as (v & Hv & _); by apply (inv_val _ _ Hinv) in Hv as [? _]).
  destruct (calm_double_vote B pk t root s1 (proj2 C1) (calm_inv _ _ _ C1 Hinv)) as (s2 & C2 & Hd).
  pose proof (calm_trans _ _ _ C1 C2) as C12. rewrite (calm_view _ _ _ C1) in Hd.
  destruct Hd as [[Hnone E2]|(a & Ha & [[Hr E2]|[Hr (e & E2)]])].
  - rewrite (bind_Ok _ _ _ _ _ E2). destruct (check_min_epochs_spec data src t) as [N1 O1].
    eapply verdict_check; [exact C12|exact N1|exact O1| |].
    { intros (data' & Hreg' & [(a & (v & Hv & _) & _)|Hclear]); [congruence|].
      rewrite (registered_unique _ _ _ _ Hreg Hreg'). by destruct Hclear as (_ & ? & ? & _). }
    intros [Hm1 Hm2] s3 C3.
    destruct (calm_scan (E:=SlashingError) ATTESTATIONS_TREE (attestation_key_prefix pk) s3 (proj2 C3))
      as (s4 & E4 & C4).
    rewrite (bind_Ok _ _ _ _ _ E4), (calm_view _ _ _ C3).
    destruct (check_surround_spec src t (tree_scan (attestation_key_prefix pk) (atts s))) as [N2 O2].
    { apply Forall_forall. intros [k v] [Hv _]%elem_of_tree_scan.
      destruct (inv_att _ _ Hinv _ _ Hv) as (_ & _ & a & _ & _ & _ & Ha & _). by exists a. }
    eapply verdict_check; [by eapply calm_trans|exact N2|exact O2| |].
    { intros (data' & Hreg' & [(a & (v & Hv & _) & _)|Hclear]); [congruence|].
      eapply no_conflict_scan; [done|done|]. apply Hclear. }
    intros Hsc s5 C5. destruct (reliable_record_attestation data pk src t root now s5 (proj2 C5)) as (s6 & -> & HP6).
    apply verdict_accepted; [|done]. exists data. split; [done|]. right. do 3 (split; [done|]).
    by apply scan_no_conflict.
  - rewrite (bind_Ok _ _ _ _ _ E2). apply verdict_accepted; [|apply C12].
    exists data. split; [done|]. left. by exists a.
  - unfold bind at 1. rewrite E2. apply verdict_refused; [|done].
    destruct Ha as (v & Hv & Ha). intros (data' & _ & [(a' & (v' & Hv' & Ha') & Hr')|[Hn _]]); congruence.
Qed.

Lemma block_verdict B pk slot root now (s : Db) :
  P (store s) -> db_inv B (store s) ->
  verdict (block_acceptable s pk slot root) s (check_and_record_block pk slot root now s).
Proof.
  intros HP Hinv. unfold check_and_record_block.
  destruct (calm_validator_data B pk s HP Hinv) as (s1 & C1 & [(data & Hreg & E1)|(Hno & e & E1)]).
  2:{ unfold bind at 1, map_err at 1. rewrite E1. apply verdict_refused; [|done].
      intros (data & Hreg & _). by apply (Hno data). }
  rewrite (bind_Ok _ _ _ data s1) by (unfold map_err; by rewrite E1).
  destruct (calm_double_block B pk slot root s1 (proj2 C1) (calm_inv _ _ _ C1 Hinv)) as (s2 & C2 & Hd).
  pose proof (calm_trans _ _ _ C1 C2) as C12. rewrite (calm_view _ _ _ C1) in Hd.
  destruct Hd as [[Hnone E2]|(b & Hb & [[Hr E2]|[Hr (e & E2)]])].
  - rewrite (bind_Ok _ _ _ _ _ E2). destruct (check_min_slot_spec data slot) as [N1 O1].
    eapply verdict_check; [exact C12|exact N1|exact O1| |].
    { intros (data' & Hreg' & [(b & (v & Hv & _) & _)|[_ Hm]]); [congruence|].
      by rewrite (registered_unique _ _ _ _ Hreg Hreg'). }
    intros Hm s3 C3. destruct (reliable_record_block data pk slot root now s3 (proj2 C3)) as (s4 & -> & HP4).
    apply verdict_accepted; [|done]. exists data. split; [done|]. by right.
  - rewrite (bind_Ok _ _ _ _ _ E2). apply verdict_accepted; [|apply C12].
    exists data. split; [done|]. left. by exists b.
  - unfold bind at 1. rewrite E2. apply verdict_refused; [|done].
    destruct Hb as (v & Hv & Hb). intros (data' & _ & [(b' & (v' & Hv' & Hb') & Hr')|[Hn _]]); congruence.
Qed.

(** C8: on a working store, an attestation is approved exactly when the
    validator is registered and either this very attestation is on record, or
    nothing is on record for its target, its epochs are within the imported
    minimums and it neither surrounds nor is surrounded by a record.  A
    refused attestation leaves the contents of the store unchanged. *)
Theorem attestation_accepted_iff (B : bytes -> Epoch -> Prop) (pk : bytes) (src t : Epoch)
    (root : SigningRoot) (now : DateTime) (s : Db) :
  P (store s) -> db_inv B (store s) ->
  let '(r, s') := check_and_record_attestation pk src t root now s in
  (r = Ok tt <-> attestation_acceptable s pk src t root) /\
  (r <> Ok tt -> forall tree, sled_view (store s') tree = sled_view (store s) tree).
Proof.
  intros HP Hinv. destruct (attestation_verdict B pk src t root now s HP Hinv) as (Hiff & _ & Hsame).
  destruct (check_and_record_attestation _ _ _ _ _ s) as [[[]|e] s']; simpl in *.
  - split; [|done]. by rewrite <- Hiff.
  - split; [|auto]. rewrite <- Hiff. by split.
Qed.

(** On a working store, a block is approved exactly when the validator is
    registered and either this very block is on record for the slot, or
    nothing is on record for the slot and it is above the imported minimum; a
    refused block leaves the contents of the store unchanged. *)
Theorem block_accepted_iff (B : bytes -> Epoch -> Prop) (pk : bytes) (slot : Slot)
    (root : SigningRoot) (now : DateTime) (s : Db) :
  P (store s) -> db_inv B (store s) ->
  let '(r, s') := check_and_record_block pk slot root now s in
  (r = Ok tt <-> block_acceptable s pk slot root) /\
  (r <> Ok tt -> forall tree, sled_view (store s') tree = sled_view (store s) tree).
Proof.
  intros HP Hinv. destruct (block_verdict B pk slot root now s HP Hinv) as (Hiff & _ & Hsame).
  destruct (check_and_record_block _ _ _ _ s) as [[[]|e] s']; simpl in *.
  - split; [|done]. by rewrite <- Hiff.
  - split; [|auto]. rewrite <- Hiff. by split.
Qed.
End decision.
