(* ===== verification/Interchange.v ===== *)
(** * EIP-3076 interchange of slashing protection data

    [crates/validator/src/interchange.rs]: the interchange document, its
    export from a database and its import into one.  The two loops of
    [import] are the fixpoints [import_attestations] and [import_blocks]; the
    clock reading [now] only ends up in timestamps. *)

From Stdlib Require Import ZArith Lia Strings.Byte.
From stdpp Require Import base gmap strings list.
From S2P Require Import Prelude External ValidatorTypes SlashingDb.

Definition INTERCHANGE_FORMAT_VERSION : string := "5".

Record InterchangeMetadata := MkInterchangeMetadata {
  interchange_format_version : string;
  im_genesis_validators_root : string
}.

Record SignedBlock := MkSignedBlock {
  sb_slot : string;
  sb_signing_root : option string
}.

Record SignedAttestation := MkSignedAttestation {
  sa_source_epoch : string;
  sa_target_epoch : string;
  sa_signing_root : option string
}.

(** [interchange::ValidatorData] *)
Record IValidatorData := MkIValidatorData {
  pubkey : string;
  signed_blocks : list SignedBlock;
  signed_attestations : list SignedAttestation
}.

Record Eip3076Interchange := MkEip3076Interchange {
  metadata : InterchangeMetadata;
  idata : list IValidatorData
}.

Record ImportResult := MkImportResult {
  validators_imported : Z;
  attestations_imported : Z;
  attestations_skipped : Z;
  blocks_imported : Z;
  blocks_skipped : Z
}.

Definition ImportResult_default : ImportResult := MkImportResult 0 0 0 0 0.

Definition count_validator (r : ImportResult) : ImportResult :=
  MkImportResult (inc (validators_imported r)) (attestations_imported r) (attestations_skipped r)
    (blocks_imported r) (blocks_skipped r).
Definition count_attestation (ok : bool) (r : ImportResult) : ImportResult :=
  if ok then
    MkImportResult (validators_imported r) (inc (attestations_imported r)) (attestations_skipped r)
      (blocks_imported r) (blocks_skipped r)
  else
    MkImportResult (validators_imported r) (attestations_imported r) (inc (attestations_skipped r))
      (blocks_imported r) (blocks_skipped r).
Definition count_block (ok : bool) (r : ImportResult) : ImportResult :=
  if ok then
    MkImportResult (validators_imported r) (attestations_imported r) (attestations_skipped r)
      (inc (blocks_imported r)) (blocks_skipped r)
  else
    MkImportResult (validators_imported r) (attestations_imported r) (attestations_skipped r)
      (blocks_imported r) (inc (blocks_skipped r)).

(** [Some(m.map_or(x, |m| m.max(x)))] *)
Definition track_max (m : option Z) (x : Z) : option Z :=
  Some (match m with None => x | Some m => Z.max m x end).

Section operations.
Context {db : Type} {SLED : Sled db} {HEX : Hex}.
Context {SV : Serde ValidatorData} {SA : Serde AttestationData} {SB : Serde BlockData}.
Abbreviation Db := (SlashingProtectionDb db).

Definition Eip3076Interchange_new (genesis_validators_root : string) : Eip3076Interchange :=
  MkEip3076Interchange
    (MkInterchangeMetadata INTERCHANGE_FORMAT_VERSION genesis_validators_root) [].

Definition export_block (b : BlockRecord) : SignedBlock :=
  MkSignedBlock (to_decimal (br_slot b)) (Some (SigningRoot_to_hex (br_signing_root b))).

Definition export_attestation (a : AttestationRecord) : SignedAttestation :=
  MkSignedAttestation (to_decimal (ar_source_epoch a)) (to_decimal (ar_target_epoch a))
    (Some (SigningRoot_to_hex (ar_signing_root a))).

Fixpoint export_validators (keys : list BlsPublicKey) : M Db ValidatorError (list IValidatorData) :=
  match keys with
  | [] => ret []
  | k :: keys =>
      let! attestations := get_attestation_records (pk_bytes k) in
      let! blocks := get_block_records (pk_bytes k) in
      let! rest := export_validators keys in
      ret (MkIValidatorData (BlsPublicKey_to_hex k) (export_block <$> blocks)
             (export_attestation <$> attestations) :: rest)
  end.

Definition export (genesis_validators_root : string) (public_keys : option (list BlsPublicKey))
  : M Db ValidatorError Eip3076Interchange :=
  let interchange := Eip3076Interchange_new genesis_validators_root in
  let! validators :=
    match public_keys with Some keys => ret keys | None => list_validators end in
  let! data := export_validators validators in
  ret (MkEip3076Interchange (metadata interchange) (idata interchange ++ data)).

Definition parse_hex_pubkey (hex : string) : result bytes ValidatorError :=
  let hex := strip_prefix_or "0x" hex in
  rmap_err (fun e => InvalidInterchange ("Invalid public key hex: " +:+ e)) (hex_decode hex).

Definition parse_signing_root (hex : string) : result SigningRoot ValidatorError :=
  let hex := strip_prefix_or "0x" hex in
  match hex_decode hex with
  | Err e => Err (InvalidInterchange ("Invalid signing root hex: " +:+ e))
  | Ok b =>
      ok_or (InvalidInterchange
               ("Signing root must be 32 bytes, got " +:+ to_decimal (Z.of_nat (length b))))
        (SigningRoot_from_slice b)
  end.

Definition parse_number (what : string) (s : string) : result Z ValidatorError :=
  ok_or (InvalidInterchange (what +:+ s)) (parse_uint 64 s).

(** A missing root is replaced by the zero root. *)
Definition parse_root_opt (r : option string) : result SigningRoot ValidatorError :=
  match r with
  | Some root => parse_signing_root root
  | None => Ok (MkSigningRoot (zeros 32))
  end.

(** The attestation loop: the counters and the running maxima of the epochs
    of everything parsed, recorded or not. *)
Fixpoint import_attestations (pk : bytes) (now : DateTime) (atts : list SignedAttestation)
    (max_source max_target : option Epoch) (res : ImportResult)
  : M Db ValidatorError (option Epoch * option Epoch * ImportResult) :=
  match atts with
  | [] => ret (max_source, max_target, res)
  | a :: atts =>
      let! source_epoch := lift (parse_number "Invalid source epoch: " (sa_source_epoch a)) in
      let! target_epoch := lift (parse_number "Invalid target epoch: " (sa_target_epoch a)) in
      let! signing_root := lift (parse_root_opt (sa_signing_root a)) in
      let! outcome :=
        attempt (check_and_record_attestation pk source_epoch target_epoch signing_root now) in
      import_attestations pk now atts
        (track_max max_source source_epoch) (track_max max_target target_epoch)
        (count_attestation (is_ok outcome) res)
  end.

Fixpoint import_blocks (pk : bytes) (now : DateTime) (blks : list SignedBlock)
    (max_slot : option Slot) (res : ImportResult)
  : M Db ValidatorError (option Slot * ImportResult) :=
  match blks with
  | [] => ret (max_slot, res)
  | b :: blks =>
      let! slot := lift (parse_number "Invalid slot: " (sb_slot b)) in
      let! signing_root := lift (parse_root_opt (sb_signing_root b)) in
      let! outcome := attempt (check_and_record_block pk slot signing_root now) in
      import_blocks pk now blks (track_max max_slot slot) (count_block (is_ok outcome) res)
  end.

Definition set_if {A} (m : option A) (set : A -> M Db ValidatorError unit) : M Db ValidatorError unit :=
  match m with Some x => set x | None => ret tt end.

Definition import_validator (now : DateTime) (vd : IValidatorData) (res : ImportResult)
  : M Db ValidatorError ImportResult :=
  let! pk := lift (parse_hex_pubkey (pubkey vd)) in
  let! known := is_registered pk in
  let! res :=
    if negb known then register_validator pk now ;! ret (count_validator res) else ret res in
  let! '(max_source, max_target, res) :=
    import_attestations pk now (signed_attestations vd) None None res in
  set_if max_source (fun e => set_min_source_epoch pk e now) ;!
  set_if max_target (fun e => set_min_target_epoch pk e now) ;!
  let! '(max_slot, res) := import_blocks pk now (signed_blocks vd) None res in
  set_if max_slot (fun e => set_min_slot pk e now) ;!
  ret res.

Fixpoint import_validators (now : DateTime) (vds : list IValidatorData) (res : ImportResult)
  : M Db ValidatorError ImportResult :=
  match vds with
  | [] => ret res
  | vd :: vds =>
      let! res := import_validator now vd res in
      import_validators now vds res
  end.

(** A version mismatch is only logged. *)
Definition import (i : Eip3076Interchange) (now : DateTime) : M Db ValidatorError ImportResult :=
  import_validators now (idata i) ImportResult_default.
End operations.
