(* ===== verification/SlashingSafety.v ===== *)
(** * No slashable signature

    The database as a state machine: clients register validators, ask for
    attestations and block proposals to be checked and recorded, import
    interchange files, read and flush, in any order and with any store
    failures; the process may crash and reopen the directory.  A signature is
    produced exactly when a check-and-record call succeeds, and the history
    of signatures ([w_atts], [w_blks]) survives everything.

    The theorems state that no reachable history contains a double vote or a
    double proposal, nor a surround vote unless one signing root was presented
    with two source epochs; and that this survives crashes as long as nothing
    is signed while a record is not yet on disk, which the code does not
    enforce by itself after a failed flush. *)

From Stdlib Require Import ZArith Lia Strings.Byte.
From stdpp Require Import base gmap strings list.
From S2P Require Import Prelude External ValidatorTypes SlashingDb SlashingInv Interchange.

(** ** Import refines abstract steps *)

Section import.
Context {db : Type} {SLED : Sled db} {LAWS : SledLaws db} {HEX : Hex}.
Context {SV : Serde ValidatorData} {SA : Serde AttestationData} {SB : Serde BlockData}.
Abbreviation Db := (SlashingProtectionDb db).
Context (B : bytes -> Epoch -> Prop).

(** Computations whose effect on a good store is a sequence of abstract
    steps; they compose. *)
Definition refines_steps {E A} (c : M Db E A) : Prop := forall s r s',
  db_inv B (store s) -> c s = (r, s') -> rtc (store_step B) (store s) (store s').

Lemma refines_quiet {E A} (c : M Db E A) : quiet_op c -> refines_steps c.
Proof. intros Hq s r s' _ E1. by eapply rtc_once, step_quiet, Hq. Qed.

Lemma refines_bind {E A C} (c : M Db E A) (k : A -> M Db E C) :
  refines_steps c -> (forall a, refines_steps (k a)) -> refines_steps (bind c k).
Proof.
  intros Hc Hk s r s' Hinv [(a & s1 & E1 & E2)|(e & E1 & _)]%bind_inv; [|by eapply Hc].
  apply Hc in E1; [|done]. etrans; [done|]. eapply Hk; [|done]. by eapply store_steps_inv.
Qed.

(** As [refines_bind], remembering what the first computation returned. *)
Lemma refines_bind_lift {E A C} (x : result A E) (k : A -> M Db E C) :
  (forall a, x = Ok a -> refines_steps (k a)) -> refines_steps (bind (lift x) k).
Proof.
  intros Hk s r s' Hinv. destruct x as [a|e]; [by eapply Hk|]. by intros [= _ <-].
Qed.

Lemma refines_attempt {E F A} (c : M Db E A) :
  refines_steps c -> refines_steps (attempt c : M Db F _).
Proof.
  intros Hc s r s' Hinv. unfold attempt. destruct (c s) eqn:E1. intros [= _ <-]. by eapply Hc.
Qed.

Lemma refines_register pk now : refines_steps (register_validator pk now).
Proof. intros s r s' _ E1. by eapply register_validator_step. Qed.

Lemma refines_attest pk src t root now :
  u64 t -> B (root_bytes root) src ->
  refines_steps (check_and_record_attestation pk src t root now).
Proof. intros Ht HB s r s' Hinv E1. by eapply check_and_record_attestation_steps. Qed.

Lemma refines_block pk slot root now :
  u64 slot -> refines_steps (check_and_record_block pk slot root now).
Proof. intros Ht s r s' Hinv E1. by eapply check_and_record_block_steps. Qed.

Lemma refines_set_min_source pk e now : refines_steps (set_min_source_epoch pk e now).
Proof.
  intros s r s' Hinv E1. eapply (set_min_steps _ _ (fun data => MkValidatorData (vd_public_key data)
    (vd_status data) (Some e) (vd_min_target_epoch data) (vd_min_slot data) (vd_created_at data) now));
    [|apply Hinv|apply E1]. done.
Qed.
Lemma refines_set_min_target pk e now : refines_steps (set_min_target_epoch pk e now).
Proof.
  intros s r s' Hinv E1. eapply (set_min_steps _ _ (fun data => MkValidatorData (vd_public_key data)
    (vd_status data) (vd_min_source_epoch data) (Some e) (vd_min_slot data) (vd_created_at data) now));
    [|apply Hinv|apply E1]. done.
Qed.
Lemma refines_set_min_slot pk e now : refines_steps (set_min_slot pk e now).
Proof.
  intros s r s' Hinv E1. eapply (set_min_steps _ _ (fun data => MkValidatorData (vd_public_key data)
    (vd_status data) (vd_min_source_epoch data) (vd_min_target_epoch data) (Some e)
    (vd_created_at data) now)); [|apply Hinv|apply E1]. done.
Qed.

Lemma refines_ret {E A} (a : A) : refines_steps (ret a : M Db E A).
Proof. apply refines_quiet, quiet_ret. Qed.

(** The roots an interchange file carries agree with their source epochs. *)
Definition attestation_bound (a : SignedAttestation) : Prop := forall src root,
  parse_uint 64 (sa_source_epoch a) = Some src -> parse_root_opt (sa_signing_root a) = Ok root ->
  B (root_bytes root) src.
Definition interchange_bound (i : Eip3076Interchange) : Prop :=
  Forall (fun vd => Forall attestation_bound (signed_attestations vd)) (idata i).

Lemma parse_number_Ok w s n : parse_number w s = Ok n -> parse_uint 64 s = Some n.
Proof. unfold parse_number. by destruct (parse_uint 64 s); intros [= <-]. Qed.

Lemma refines_import_attestations pk now atts ms mt res :
  Forall attestation_bound atts -> refines_steps (import_attestations pk now atts ms mt res).
Proof.
  intros Hb. revert ms mt res. induction Hb as [|a atts Ha _ IH]; intros ms mt res; simpl.
  - apply refines_ret.
  - apply refines_bind_lift; intros src Hsrc%parse_number_Ok.
    apply refines_bind_lift; intros t Ht%parse_number_Ok%parse_uint_range.
    apply refines_bind_lift; intros root Hroot.
    apply refines_bind; [|intros; apply IH].
    apply refines_attempt, refines_attest; [done|]. by apply Ha.
Qed.

Lemma refines_import_blocks pk now blks ms res :
  refines_steps (import_blocks pk now blks ms res).
Proof.
  revert ms res. induction blks as [|b blks IH]; intros ms res; simpl.
  - apply refines_ret.
  - apply refines_bind_lift; intros slot Ht%parse_number_Ok%parse_uint_range.
    apply refines_bind_lift; intros root _.
    apply refines_bind; [|intros; apply IH]. by apply refines_attempt, refines_block.
Qed.

Lemma refines_import_validator now vd res :
  Forall attestation_bound (signed_attestations vd) -> refines_steps (import_validator now vd res).
Proof.
  intros Hb. unfold import_validator. apply refines_bind_lift; intros pk _.
  apply refines_bind; [apply refines_quiet, quiet_is_registered|]. intros known.
  apply refines_bind.
  { destruct known; simpl; [apply refines_ret|].
    apply refines_bind; [apply refines_register|intros; apply refines_ret]. }
  intros res1. apply refines_bind; [by apply refines_import_attestations|]. intros [[ms mt] res2].
  apply refines_bind; [destruct ms; [apply refines_set_min_source|apply refines_ret]|]. intros _.
  apply refines_bind; [destruct mt; [apply refines_set_min_target|apply refines_ret]|]. intros _.
  apply refines_bind; [apply refines_import_blocks|]. intros [mslot res3].
  apply refines_bind; [destruct mslot; [apply refines_set_min_slot|apply refines_ret]|].
  intros _. apply refines_ret.
Qed.

Lemma refines_import i now : interchange_bound i -> refines_steps (import i now).
Proof.
  unfold interchange_bound, import. generalize ImportResult_default.
  intros res Hb. revert res. induction Hb as [|vd vds Hvd _ IH]; intros res; simpl.
  - apply refines_ret.
  - apply refines_bind; [by apply refines_import_validator|]. intros; apply IH.
Qed.

(** Export only reads. *)
Lemma quiet_export_validators keys : quiet_op (export_validators keys).
Proof.
  induction keys as [|k keys IH]; simpl; [apply quiet_ret|].
  apply quiet_bind; [apply quiet_get_attestation_records|]. intros atts.
  apply quiet_bind; [apply quiet_get_block_records|]. intros blks.
  apply quiet_bind; [done|]. intros; apply quiet_ret.
Qed.
Lemma quiet_export g keys : quiet_op (export g keys).
Proof.
  unfold export. apply quiet_bind; [destruct keys; [apply quiet_ret|apply quiet_list_validators]|].
  intros ks. apply quiet_bind; [apply quiet_export_validators|]. intros; apply quiet_ret.
Qed.
End import.

(** ** The state machine *)

Section safety.
Context {db : Type} {SLED : Sled db} {LAWS : SledLaws db} {HEX : Hex}.
Context {SV : Serde ValidatorData} {SA : Serde AttestationData} {SB : Serde BlockData}.
Abbreviation Db := (SlashingProtectionDb db).

Inductive event :=
| EvRegister (pk : bytes) (now : DateTime)
| EvAttest (pk : bytes) (src t : Epoch) (root : SigningRoot) (now : DateTime)
| EvBlock (pk : bytes) (slot : Slot) (root : SigningRoot) (now : DateTime)
| EvSetMinSource (pk : bytes) (e : Epoch) (now : DateTime)
| EvSetMinTarget (pk : bytes) (e : Epoch) (now : DateTime)
| EvSetMinSlot (pk : bytes) (slot : Slot) (now : DateTime)
| EvImport (i : Eip3076Interchange) (now : DateTime)
| EvExport (genesis : string) (keys : option (list BlsPublicKey))
| EvIsRegistered (pk : bytes)
| EvSummary (pk : bytes)
| EvFlush
| EvCrash.

Record world := MkWorld {
  w_db : Db;
  w_atts : list (bytes * Epoch * Epoch * SigningRoot);
  w_blks : list (bytes * Slot * SigningRoot)
}.

Definition with_db (w : world) (s : Db) : world := MkWorld s (w_atts w) (w_blks w).

(** The caller signs exactly when the check-and-record call returns [Ok]. *)
Definition run_event (e : event) (w : world) : world :=
  match e with
  | EvRegister pk now => with_db w (register_validator pk now (w_db w)).2
  | EvAttest pk src t root now =>
      let '(r, s) := check_and_record_attestation pk src t root now (w_db w) in
      MkWorld s (if is_ok r then (pk, src, t, root) :: w_atts w else w_atts w) (w_blks w)
  | EvBlock pk slot root now =>
      let '(r, s) := check_and_record_block pk slot root now (w_db w) in
      MkWorld s (w_atts w) (if is_ok r then (pk, slot, root) :: w_blks w else w_blks w)
  | EvSetMinSource pk x now => with_db w (set_min_source_epoch pk x now (w_db w)).2
  | EvSetMinTarget pk x now => with_db w (set_min_target_epoch pk x now (w_db w)).2
  | EvSetMinSlot pk x now => with_db w (set_min_slot pk x now (w_db w)).2
  | EvImport i now => with_db w (import i now (w_db w)).2
  | EvExport g keys => with_db w (export g keys (w_db w)).2
  | EvIsRegistered pk => with_db w (is_registered pk (w_db w)).2
  | EvSummary pk => with_db w (get_validator_summary pk (w_db w)).2
  | EvFlush => with_db w (flush (w_db w)).2
  | EvCrash => with_db w (crash_and_open (w_db w))
  end.

Definition run (evs : list event) (w : world) : world := foldl (flip run_event) w evs.

(** The arguments have the types of the Rust signatures; [A] relates the
    signing roots of requested attestations to their source epochs, [B] those
    of imported ones. *)
Definition typed (A B : bytes -> Epoch -> Prop) (e : event) : Prop :=
  match e with
  | EvAttest _ src t root _ => u64 t /\ A (root_bytes root) src
  | EvBlock _ slot _ _ => u64 slot
  | EvImport i _ => interchange_bound B i
  | _ => True
  end.

Definition is_crash (e : event) : bool := match e with EvCrash => true | _ => false end.
Definition is_signing (e : event) : bool :=
  match e with EvAttest _ _ _ _ _ | EvBlock _ _ _ _ => true | _ => false end.

(** A signature is only requested while the record trees are on disk. *)
Fixpoint disciplined (evs : list event) (w : world) : Prop :=
  match evs with
  | [] => True
  | e :: evs =>
      (is_signing e = true -> synced (store (w_db w))) /\ disciplined evs (run_event e w)
  end.

Definition fresh (w : world) : Prop :=
  (forall t, sled_view (store (w_db w)) t = ∅ /\ sled_durable (store (w_db w)) t = ∅) /\
  w_atts w = [] /\ w_blks w = [].

(** What must never be signed. *)
Definition double_vote (w : world) : Prop := exists pk s1 s2 t r1 r2,
  (pk, s1, t, r1) ∈ w_atts w /\ (pk, s2, t, r2) ∈ w_atts w /\ r1 <> r2.
Definition surround_vote (w : world) : Prop := exists pk s1 t1 r1 s2 t2 r2,
  (pk, s1, t1, r1) ∈ w_atts w /\ (pk, s2, t2, r2) ∈ w_atts w /\ s1 < s2 /\ t2 < t1.
Definition double_proposal (w : world) : Prop := exists pk slot r1 r2,
  (pk, slot, r1) ∈ w_blks w /\ (pk, slot, r2) ∈ w_blks w /\ r1 <> r2.

(** ** Invariants of the machine *)

(** Every signature of the history is recorded in the given trees. *)
Definition logged (A : bytes -> Epoch -> Prop) (w : world) (V W : gmap bytes bytes) : Prop :=
  (forall pk src t root, (pk, src, t, root) ∈ w_atts w ->
     length pk = 48%nat /\ u64 t /\ A (root_bytes root) src /\
     exists a, rec_at V pk t a /\ ad_signing_root a = root_bytes root) /\
  (forall pk slot root, (pk, slot, root) ∈ w_blks w ->
     exists b, blk_at W pk slot b /\ bd_signing_root b = root_bytes root).

Definition logged_view A w :=
  logged A w (sled_view (store (w_db w)) ATTESTATIONS_TREE) (sled_view (store (w_db w)) BLOCKS_TREE).
Definition logged_disk A w :=
  logged A w (sled_durable (store (w_db w)) ATTESTATIONS_TREE)
    (sled_durable (store (w_db w)) BLOCKS_TREE).

Lemma logged_mono A w w' V V' W W' :
  w_atts w' = w_atts w -> w_blks w' = w_blks w -> V ⊆ V' -> W ⊆ W' ->
  logged A w V W -> logged A w' V' W'.
Proof.
  intros Ea Eb HV HW [HA HB]. unfold logged. rewrite Ea, Eb. split.
  - intros pk src t root (Hl & Ht & Hb & a & (v & Hv & Ha) & Hr)%HA. do 3 (split; [done|]).
    exists a. split; [|done]. exists v. split; [|done]. by eapply lookup_weaken.
  - intros pk slot root (b & (v & Hv & Hb) & Hr)%HB.
    exists b. split; [|done]. exists v. split; [|done]. by eapply lookup_weaken.
Qed.

Lemma store_steps_disk_mono B (d d' : db) :
  rtc (store_step B) d d' -> db_inv B d ->
  sled_durable d ATTESTATIONS_TREE ⊆ sled_durable d' ATTESTATIONS_TREE /\
  sled_durable d BLOCKS_TREE ⊆ sled_durable d' BLOCKS_TREE.
Proof.
  induction 1 as [|d d1 d' Hs Hss IH]; intros Hinv; [done|].
  destruct (IH (store_step_inv _ _ _ Hs Hinv)) as [IHa IHb].
  split; (etrans; [|eassumption]); apply disk_mono;
    try apply Hinv; eauto using store_step_att_mono, store_step_blk_mono, store_step_settles.
Qed.

Section machine.
Context (A B : bytes -> Epoch -> Prop) (AB : forall root src, A root src -> B root src).

(** An event other than a signing request or a crash. *)
Lemma run_event_steps e w :
  typed A B e -> is_crash e = false -> db_inv B (store (w_db w)) ->
  rtc (store_step B) (store (w_db w)) (store (w_db (run_event e w))).
Proof.
  intros Ht Hc Hinv.
  assert (forall E X (c : M Db E X), refines_steps B c ->
    rtc (store_step B) (store (w_db w)) (store (c (w_db w)).2)) as Href.
  { intros E X c Hr. destruct (c (w_db w)) as [r1 s1] eqn:E1. exact (Hr _ _ _ Hinv E1). }
  destruct e; simpl in *; try done.
  - apply Href, refines_register.
  - pose proof (Href _ _ _ (refines_attest B pk src t root now (proj1 Ht) (AB _ _ (proj2 Ht)))) as Hx.
    by destruct (check_and_record_attestation _ _ _ _ _ _).
  - pose proof (Href _ _ _ (refines_block B pk slot root now Ht)) as Hx.
    by destruct (check_and_record_block _ _ _ _ _).
  - apply Href, refines_set_min_source.
  - apply Href, refines_set_min_target.
  - apply Href, refines_set_min_slot.
  - by apply Href, refines_import.
  - apply Href, refines_quiet, quiet_export.
  - apply Href, refines_quiet, quiet_is_registered.
  - apply Href, refines_quiet, quiet_get_validator_summary.
  - apply Href, refines_quiet, quiet_db_flush.
Qed.

Lemma run_event_logged e w :
  typed A B e -> is_crash e = false -> db_inv B (store (w_db w)) ->
  logged_view A w -> logged_view A (run_event e w).
Proof.
  intros Ht Hc Hinv Hlog.
  pose proof (run_event_steps e w Ht Hc Hinv) as Hs.
  assert (forall w', w_atts w' = w_atts w -> w_blks w' = w_blks w ->
    store (w_db w') = store (w_db (run_event e w)) -> logged_view A w') as Hkeep.
  { intros w' Ea Eb Es. unfold logged_view. rewrite Es.
    eapply logged_mono; [done|done|by eapply store_steps_att_mono|by eapply store_steps_blk_mono|done]. }
  destruct e; simpl in *; try by apply Hkeep.
  - destruct (check_and_record_attestation _ _ _ _ _ _) as [[[]|e] s] eqn:E1; simpl in *;
      [|by apply Hkeep].
    destruct (Hkeep (with_db w s) eq_refl eq_refl eq_refl) as [HA HB].
    apply (check_and_record_attestation_Ok B) in E1 as (Hl & Hrec & _); [|done].
    split; [|done]. simpl. intros pk' src' t' root' [Heq|Hin]%elem_of_cons.
    + simplify_eq. destruct Ht as [? ?]. by do 3 (split; [done|]).
    + by apply HA.
  - destruct (check_and_record_block _ _ _ _ _) as [[[]|e] s] eqn:E1; simpl in *;
      [|by apply Hkeep].
    destruct (Hkeep (with_db w s) eq_refl eq_refl eq_refl) as [HA HB].
    apply (check_and_record_block_Ok B) in E1 as (_ & Hrec & _); [|done].
    split; [done|]. simpl. intros pk' slot' root' [Heq|Hin]%elem_of_cons.
    + by simplify_eq.
    + by apply HB.
Qed.

Lemma fresh_inv w : fresh w -> db_inv B (store (w_db w)) /\ logged_view A w /\ logged_disk A w.
Proof.
  clear AB. intros (Hd & Ha & Hb). split; [|by unfold logged_view, logged_disk, logged; rewrite Ha, Hb;
    split; split; intros; set_solver].
  split; unfold val_wf, att_wf, blk_wf, no_surround, rec_at; rewrite ?(proj1 (Hd _)), ?(proj2 (Hd _));
    try done.
  by intros pk t1 a1 t2 a2 _ (v & Hv & _).
Qed.

Definition good (w : world) : Prop :=
  db_inv B (store (w_db w)) /\ logged_view A w.

Lemma run_event_good e w :
  typed A B e -> is_crash e = false -> good w -> good (run_event e w).
Proof.
  intros Ht Hc [Hinv Hlog]. split; [|by apply run_event_logged].
  eapply store_steps_inv; [|done]. by apply run_event_steps.
Qed.

Lemma run_good evs w :
  Forall (typed A B) evs -> Forall (fun e => is_crash e = false) evs -> good w -> good (run evs w).
Proof.
  intros Ht. revert w. induction Ht as [|e evs He _ IH]; intros w Hc Hg; [done|].
  apply Forall_cons in Hc as [Hc1 Hc2]. simpl. apply IH; [done|]. by apply run_event_good.
Qed.

(** With everything on disk, the view and the disk log the same history. *)
Lemma synced_logged w : synced (store (w_db w)) -> logged_view A w -> logged_disk A w.
Proof. intros [Ha Hb]. unfold logged_disk, logged_view. by rewrite Ha, Hb. Qed.

Lemma run_event_disk e w :
  typed A B e -> is_crash e = false -> (is_signing e = true -> synced (store (w_db w))) ->
  good w -> logged_disk A w -> logged_disk A (run_event e w).
Proof.
  intros Ht Hc Hsync Hg Hd. pose proof (run_event_good e w Ht Hc Hg) as [_ Hlog'].
  destruct Hg as [Hinv Hlog].
  pose proof (store_steps_disk_mono _ _ _ (run_event_steps e w Ht Hc Hinv) Hinv) as [Ma Mb].
  assert (forall w', w_atts w' = w_atts w -> w_blks w' = w_blks w ->
    store (w_db w') = store (w_db (run_event e w)) -> logged_disk A w') as Hkeep.
  { intros w' Ea Eb Es. unfold logged_disk. rewrite Es. by eapply logged_mono. }
  destruct e; simpl in *; try by apply Hkeep.
  - destruct (check_and_record_attestation _ _ _ _ _ _) as [[[]|e] s] eqn:E1; simpl in *;
      [|by apply Hkeep].
    apply (check_and_record_attestation_Ok B) in E1 as (_ & _ & Hs); [|done].
    apply synced_logged; [|done]. simpl. auto.
  - destruct (check_and_record_block _ _ _ _ _) as [[[]|e] s] eqn:E1; simpl in *;
      [|by apply Hkeep].
    apply (check_and_record_block_Ok B) in E1 as (_ & _ & Hs); [|done].
    apply synced_logged; [|done]. simpl. auto.
Qed.

Lemma run_event_crash w :
  good w -> logged_disk A w -> good (run_event EvCrash w) /\ logged_disk A (run_event EvCrash w).
Proof.
  intros [Hinv _] Hd.
  assert (forall t, sled_view (sled_reopen (store (w_db w))) t = sled_durable (store (w_db w)) t)
    as Ev by apply sled_reopen_law.
  assert (forall t, sled_durable (sled_reopen (store (w_db w))) t = sled_durable (store (w_db w)) t)
    as Ed by apply sled_reopen_law.
  unfold good, logged_view, logged_disk. simpl. rewrite !Ev, !Ed.
  split; [split; [by apply db_inv_reopen|]|]; apply Hd.
Qed.

Lemma run_disciplined evs w :
  Forall (typed A B) evs -> disciplined evs w -> good w -> logged_disk A w ->
  good (run evs w) /\ logged_disk A (run evs w).
Proof.
  intros Ht. revert w. induction Ht as [|e evs He _ IH]; intros w Hdis Hg Hd; [done|].
  destruct Hdis as [Hsync Hdis]. simpl. destruct (is_crash e) eqn:Hc.
  - destruct e; try done. destruct (run_event_crash w Hg Hd). by apply IH.
  - apply IH; [done|by apply run_event_good|by apply run_event_disk].
Qed.

(** A good world has signed nothing slashable. *)
Lemma good_no_double_vote w : good w -> ~ double_vote w.
Proof.
  intros [_ [HA _]] (pk & s1 & s2 & t & r1 & r2 & H1 & H2 & Hne). apply Hne.
  destruct (HA _ _ _ _ H1) as (_ & _ & _ & a1 & (v1 & Hv1 & Ha1) & E1).
  destruct (HA _ _ _ _ H2) as (_ & _ & _ & a2 & (v2 & Hv2 & Ha2) & E2).
  destruct r1, r2. simpl in *. congruence.
Qed.

(** The record of a signed attestation has its epochs. *)
Lemma logged_record w pk src t root a :
  (forall root x y, A root x -> B root y -> x = y) -> db_inv B (store (w_db w)) ->
  length pk = 48%nat -> u64 t -> A (root_bytes root) src ->
  rec_at (sled_view (store (w_db w)) ATTESTATIONS_TREE) pk t a ->
  ad_signing_root a = root_bytes root ->
  ad_source_epoch a = src /\ ad_target_epoch a = t.
Proof.
  intros Bfun Hinv Hl Ht HB (v & Hv & Ha) Er.
  apply (inv_att _ _ Hinv) in Hv as (pk' & t' & a' & Ek & Hl' & Ht' & Ha' & Hta & HBa).
  apply attestation_key_inj in Ek as [-> ->]; [|congruence|done|done].
  assert (a' = a) as -> by congruence. rewrite Er in HBa. split; [|done]. symmetry. eauto.
Qed.

Lemma good_no_surround_vote w :
  (forall root x y, A root x -> B root y -> x = y) -> good w -> ~ surround_vote w.
Proof.
  intros Bfun [Hinv [HA _]] (pk & s1 & t1 & r1 & s2 & t2 & r2 & H1 & H2 & Hs & Ht).
  destruct (HA _ _ _ _ H1) as (Hl & Ht1 & HB1 & a1 & R1 & E1).
  destruct (HA _ _ _ _ H2) as (_ & Ht2 & HB2 & a2 & R2 & E2).
  destruct (logged_record _ _ _ _ _ _ Bfun Hinv Hl Ht1 HB1 R1 E1).
  destruct (logged_record _ _ _ _ _ _ Bfun Hinv Hl Ht2 HB2 R2 E2).
  apply (inv_no_surround _ _ Hinv _ _ _ _ _ Hl R1 R2). unfold surrounds. lia.
Qed.

Lemma good_no_double_proposal w : good w -> ~ double_proposal w.
Proof.
  intros [_ [_ HB]] (pk & slot & r1 & r2 & H1 & H2 & Hne). apply Hne.
  destruct (HB _ _ _ H1) as (b1 & (v1 & Hv1 & Hb1) & E1).
  destruct (HB _ _ _ H2) as (b2 & (v2 & Hv2 & Hb2) & E2).
  destruct r1, r2. simpl in *. congruence.
Qed.

End machine.

(** ** The theorems *)

Definition any_source : bytes -> Epoch -> Prop := fun _ _ => True.

(** The signing roots and source epochs of the attestations a run requests,
    and of those its interchange files contain. *)
Definition requested_sources (evs : list event) : list (bytes * Epoch) :=
  e ← evs; match e with EvAttest _ src _ root _ => [(root_bytes root, src)] | _ => [] end.
Definition file_source (a : SignedAttestation) : option (bytes * Epoch) :=
  match parse_uint 64 (sa_source_epoch a), parse_root_opt (sa_signing_root a) with
  | Some src, Ok root => Some (root_bytes root, src)
  | _, _ => None
  end.
Definition file_sources (i : Eip3076Interchange) : list (bytes * Epoch) :=
  vd ← idata i; omap file_source (signed_attestations vd).
Definition imported_sources (evs : list event) : list (bytes * Epoch) :=
  e ← evs; match e with EvImport i _ => file_sources i | _ => [] end.

(** One signing root with two source epochs: a requested attestation, and
    another requested or imported one.  For roots that are hashes of
    attestations this is a collision or a file that contradicts the request. *)
Definition source_conflict (evs : list event) : Prop :=
  Exists (fun p => Exists (fun q => p.1 = q.1 /\ p.2 <> q.2) (requested_sources evs ++ imported_sources evs))
    (requested_sources evs).

Section sources.
Context (evs : list event).
Definition requests (root : bytes) (src : Epoch) : Prop := (root, src) ∈ requested_sources evs.
Definition mentions (root : bytes) (src : Epoch) : Prop :=
  (root, src) ∈ requested_sources evs ++ imported_sources evs.

Lemma requests_mentions root src : requests root src -> mentions root src.
Proof. intros H. apply elem_of_app. by left. Qed.

Lemma no_conflict_eq : ~ source_conflict evs -> forall root x y, requests root x -> mentions root y -> x = y.
Proof.
  intros Hn root x y Hx Hy. destruct (decide (x = y)) as [|Hne]; [done|]. destruct Hn.
  apply Exists_exists. exists (root, x). split; [done|]. apply Exists_exists. by exists (root, y).
Qed.

Lemma file_sources_bound i : (forall root src, (root, src) ∈ file_sources i -> mentions root src) -> interchange_bound mentions i.
Proof.
  intros H. apply Forall_forall. intros vd Hvd. apply Forall_forall. intros a Ha src root Hs Hr. apply H.
  apply list_elem_of_bind. exists vd. split; [|done]. apply list_elem_of_omap. exists a. split; [done|].
  unfold file_source. by rewrite Hs, Hr.
Qed.

Lemma typed_sources : Forall (typed any_source any_source) evs -> Forall (typed requests mentions) evs.
Proof.
  intros Ht. rewrite Forall_forall in *. intros e He. specialize (Ht e He). destruct e; try done.
  - split; [apply Ht|]. apply list_elem_of_bind. eexists. split; [|exact He]. by left.
  - apply file_sources_bound. intros r x Hx. apply elem_of_app. right. apply list_elem_of_bind.
    eexists. by split; [|exact He].
Qed.
End sources.

(** C1: in any run without a crash, whatever calls are made in whatever order
    and whichever store operations fail, no two attestations with different
    signing roots are ever signed for one validator and target epoch. *)
Theorem no_double_vote (evs : list event) (w : world) :
  fresh w -> Forall (typed any_source any_source) evs -> Forall (fun e => is_crash e = false) evs ->
  ~ double_vote (run evs w).
Proof.
  intros Hw Ht Hc. apply (good_no_double_vote any_source any_source), run_good; [done..|].
  by destruct (fresh_inv any_source any_source w Hw) as (? & ? & _).
Qed.

(** C2: in any run without a crash, no signed attestation surrounds another
    signed attestation of the same validator, or the run exhibits one signing
    root that was requested for one source epoch and requested or imported for
    another.  The exception is real: a request whose root is already recorded
    for its target is answered as a repetition without comparing the source. *)
Theorem no_surround_vote (evs : list event) (w : world) :
  fresh w -> Forall (typed any_source any_source) evs -> Forall (fun e => is_crash e = false) evs ->
  source_conflict evs \/ ~ surround_vote (run evs w).
Proof.
  intros Hw Ht Hc. destruct (decide (source_conflict evs)) as [|Hn]; [by left|right].
  apply (good_no_surround_vote (requests evs) (mentions evs)); [by apply no_conflict_eq|].
  apply run_good; [apply requests_mentions|by apply typed_sources|done|].
  by destruct (fresh_inv (requests evs) (mentions evs) w Hw) as (? & ? & _).
Qed.

(** C3: in any run without a crash no two different blocks are ever signed for
    one validator and slot. *)
Theorem no_double_proposal (evs : list event) (w : world) :
  fresh w -> Forall (typed any_source any_source) evs -> Forall (fun e => is_crash e = false) evs ->
  ~ double_proposal (run evs w).
Proof.
  intros Hw Ht Hc. apply (good_no_double_proposal any_source any_source), run_good; [done..|].
  by destruct (fresh_inv any_source any_source w Hw) as (? & ? & _).
Qed.

(** C4: with crashes at any point and any store failures, no double vote and
    no double proposal is ever signed, and no surround vote unless the run
    exhibits one signing root with two source epochs, as long as signatures
    are only requested while every record in memory is also on disk. *)
Theorem crash_safety (evs : list event) (w : world) :
  fresh w -> Forall (typed any_source any_source) evs -> disciplined evs w ->
  ~ double_vote (run evs w) /\ ~ double_proposal (run evs w) /\
  (source_conflict evs \/ ~ surround_vote (run evs w)).
Proof.
  intros Hw Ht Hd. destruct (fresh_inv (requests evs) (mentions evs) w Hw) as (Hi & Hl & Hdisk).
  destruct (run_disciplined _ _ (requests_mentions evs) evs w (typed_sources evs Ht) Hd (conj Hi Hl) Hdisk) as [Hg _].
  split; [by eapply good_no_double_vote|]. split; [by eapply good_no_double_proposal|].
  destruct (decide (source_conflict evs)) as [|Hn]; [by left|right].
  eapply good_no_surround_vote; [by apply no_conflict_eq|done].
Qed.
End safety.
