(* ===== verification/Eots.v ===== *)
(** * Babylon finality votes

    [crates/validator/src/babylon.rs]: extractable one-time signatures.  A
    second signature at one height reveals the private key, so the database
    records a height, and flushes it, before the key signs.  The state is the
    embedded store with its two trees; the lock of a key is held for the
    whole of [check_and_record_height], which is therefore one step.  Public
    keys are the 33 bytes of a compressed point, so the slices the log
    messages take of them are in range.  [now] is the clock in nanoseconds.

    The theorems state that no height is ever voted on twice by one key,
    whatever fails or crashes, that the heights listed are the recorded ones,
    and that different votes have different messages. *)

From Stdlib Require Import ZArith Lia Strings.Byte.
From stdpp Require Import base gmap strings list sorting.
From S2P Require Import Prelude External ValidatorTypes SlashingDb SlashingInv.

Definition EOTS_HEIGHTS_TREE : string := "eots_heights".
Definition EOTS_KEYS_TREE : string := "eots_keys".

Record EotsKeyData := MkEotsKeyData {
  ekd_public_key : bytes;
  ekd_chain_id : string;
  ekd_created_at : DateTime;
  ekd_last_activity : DateTime;
  ekd_signature_count : Z
}.

Record EotsSignature := MkEotsSignature {
  es_height : BlockHeight;
  es_block_hash : bytes;
  es_signature : bytes;
  es_recovery_id : Z
}.

Definition height_key (public_key : bytes) (height : BlockHeight) : bytes :=
  public_key ++ [Byte.x3a] ++ be_bytes 8 height.

(** [DateTime::timestamp]: whole seconds. *)
Definition timestamp_secs (now : DateTime) : Z := now / 1000000000.

(** The heights in the keys of a scan. *)
Fixpoint collect_heights (prefix : bytes) (items : list (result (bytes * bytes) string))
  : result (list BlockHeight) ValidatorError :=
  match items with
  | [] => Ok []
  | Err e :: _ => Err (Database e)
  | Ok (key, _) :: rest =>
      let? heights := collect_heights prefix rest in
      if (length prefix <? length key)%nat then
        let height_bytes := drop (length prefix) key in
        if (length height_bytes =? 8)%nat then Ok (from_be_bytes height_bytes :: heights)
        else Ok heights
      else Ok heights
  end.

Section operations.
Context {db : Type} {SLED : Sled db} {HEX : Hex} {SK : Serde EotsKeyData}.

Definition register_key (public_key : bytes) (chain_id : string) (now : DateTime)
  : M db ValidatorError unit :=
  let! known := map_err Database (sled_contains_key EOTS_KEYS_TREE public_key) in
  if known : bool then throw (ValidatorAlreadyExists (hex_encode public_key))
  else
    let data := MkEotsKeyData public_key chain_id now now 0 in
    let! encoded := lift (rmap_err Serialization (to_vec data)) in
    map_err Database (sled_insert EOTS_KEYS_TREE public_key encoded).

(** The best-effort update at the end of [check_and_record_height]: every
    error is dropped. *)
Definition update_key_metadata (public_key : bytes) (now : DateTime) : M db SlashingError unit :=
  let! found := attempt (sled_get EOTS_KEYS_TREE public_key) in
  match found with
  | Ok (Some data) =>
      match from_slice data with
      | Ok key_data =>
          match to_vec (MkEotsKeyData (ekd_public_key key_data) (ekd_chain_id key_data)
                  (ekd_created_at key_data) now (wrap 64 (ekd_signature_count key_data + 1))) with
          | Ok encoded => attempt (sled_insert EOTS_KEYS_TREE public_key encoded) ;! ret tt
          | Err _ => ret tt
          end
      | Err _ => ret tt
      end
  | _ => ret tt
  end.

Definition check_and_record_height (public_key : bytes) (height : BlockHeight) (now : DateTime)
  : M db SlashingError unit :=
  let! signed := attempt (sled_contains_key EOTS_HEIGHTS_TREE (height_key public_key height)) in
  match signed with
  | Ok true => throw (EotsDoubleSign height)
  | Ok false =>
      map_err (fun e => DatabaseError ("Failed to record EOTS height: " +:+ e))
        (sled_insert EOTS_HEIGHTS_TREE (height_key public_key height)
           (le_bytes 8 (timestamp_secs now))) ;!
      map_err (fun e => DatabaseError ("Failed to flush EOTS height record: " +:+ e)) sled_flush ;!
      update_key_metadata public_key now
  | Err e => throw (DatabaseError ("Failed to read EOTS height record: " +:+ e))
  end.

Definition is_height_signed (public_key : bytes) (height : BlockHeight) : M db ValidatorError bool :=
  map_err Database (sled_contains_key EOTS_HEIGHTS_TREE (height_key public_key height)).

Definition get_signed_heights (public_key : bytes) : M db ValidatorError (list BlockHeight) := fun d =>
  let prefix := public_key ++ [Byte.x3a] in
  let '(items, d') := sled_scan_prefix EOTS_HEIGHTS_TREE prefix d in
  (let? heights := collect_heights prefix items in Ok (merge_sort Z.le heights), d').

Definition flush : M db ValidatorError unit := map_err Database sled_flush.

(** ** Keys and votes *)

Context {SECP : Secp256k1} {SHA : Sha256}.

Record EotsKey := MkEotsKey {
  ek_signing_key : SigningKey;
  ek_public_key : bytes;
  ek_chain_id : string
}.

Definition new (secret_key_bytes : bytes) (chain_id : string) (now : DateTime)
  : M db ValidatorError EotsKey :=
  let! signing_key :=
    lift (rmap_err (fun e => InvalidPublicKey ("Invalid secp256k1 secret key: " +:+ e))
            (signing_key_from_slice secret_key_bytes)) in
  let public_key := to_sec1_bytes signing_key in
  let! known := attempt (sled_contains_key EOTS_KEYS_TREE public_key) in
  (if match known with Ok known => known | Err _ => false end then ret tt
   else register_key public_key chain_id now) ;!
  ret (MkEotsKey signing_key public_key chain_id).

(** [signing_key] is the random key drawn. *)
Definition generate (signing_key : SigningKey) (chain_id : string) (now : DateTime)
  : M db ValidatorError EotsKey :=
  let public_key := to_sec1_bytes signing_key in
  register_key public_key chain_id now ;!
  ret (MkEotsKey signing_key public_key chain_id).

Definition create_vote_message (chain_id : string) (height : BlockHeight) (block_hash : bytes) : bytes :=
  le_bytes 8 height ++ block_hash ++ as_bytes chain_id.

Definition sign_finality_vote (k : EotsKey) (height : BlockHeight) (block_hash : bytes)
    (now : DateTime) : M db ValidatorError EotsSignature :=
  map_err Slashing (check_and_record_height (ek_public_key k) height now) ;!
  let message := create_vote_message (ek_chain_id k) height block_hash in
  let message_hash := sha256 message in
  let! '(signature, recovery_id) :=
    lift (rmap_err Crypto (sign_prehash_recoverable (ek_signing_key k) message_hash)) in
  ret (MkEotsSignature height block_hash signature recovery_id).

(** [BabylonValidator] wraps one key. *)
Record BabylonValidator := MkBabylonValidator { eots_key : EotsKey }.
Definition babylon_sign_finality_vote (v : BabylonValidator) (height : BlockHeight)
    (block_hash : bytes) (now : DateTime) : M db ValidatorError EotsSignature :=
  sign_finality_vote (eots_key v) height block_hash now.
Definition babylon_get_signed_heights (v : BabylonValidator) : M db ValidatorError (list BlockHeight) :=
  get_signed_heights (ek_public_key (eots_key v)).

Definition to_bytes (s : EotsSignature) : bytes :=
  le_bytes 8 (es_height s) ++ es_block_hash s ++ es_signature s ++ [byte_of_Z (es_recovery_id s)].

Definition to_hex (s : EotsSignature) : string := hex_encode (to_bytes s).
End operations.
Arguments EotsKey {SECP}.
Arguments BabylonValidator {SECP}.

(** ** Effect on the store *)

Section effects.
Context {db : Type} {SLED : Sled db} {LAWS : SledLaws db} {HEX : Hex} {SK : Serde EotsKeyData}.
Abbreviation heights d := (sled_view d EOTS_HEIGHTS_TREE).
Abbreviation heights_disk d := (sled_durable d EOTS_HEIGHTS_TREE).

(** The methods change the tree of heights in two ways: not at all, or by
    adding a height that was not there. *)
Inductive height_step (d d' : db) : Prop :=
| height_same : sled_settles d d' -> heights d' = heights d -> height_step d d'
| height_new pk h v :
    sled_settles d d' -> heights d' = <[height_key pk h := v]> (heights d) ->
    heights d !! height_key pk h = None -> length pk = 33%nat -> u64 h -> height_step d d'.

Definition heights_wf (V : gmap bytes bytes) : Prop := forall k v,
  V !! k = Some v -> exists pk h, k = height_key pk h /\ length pk = 33%nat /\ u64 h.

Record heights_inv (d : db) : Prop := {
  inv_heights : heights_wf (heights d);
  inv_heights_disk : heights_disk d ⊆ heights d
}.

Lemma height_step_mono d d' : height_step d d' -> heights d ⊆ heights d'.
Proof. intros [_ ->|pk h v _ -> Hn _ _]; [done|]. by apply insert_subseteq. Qed.

Lemma height_step_settles d d' : height_step d d' -> sled_settles d d'.
Proof. by destruct 1. Qed.

Lemma height_step_inv d d' : height_step d d' -> heights_inv d -> heights_inv d'.
Proof.
  intros Hs [Hwf Hd]. split.
  - destruct Hs as [_ ->|pk h v _ -> Hn Hl Hh]; [done|]. intros k v' Hk.
    rewrite lookup_insert_Some in Hk. destruct Hk as [[<- _]|[_ Hk]]; [by exists pk, h|by eapply Hwf].
  - eapply settles_subseteq; [by apply height_step_settles|done|by apply height_step_mono].
Qed.

(** Recorded heights are never forgotten, in memory or on disk. *)
Lemma height_steps_mono d d' :
  rtc height_step d d' -> heights_inv d ->
  heights_inv d' /\ heights d ⊆ heights d' /\ heights_disk d ⊆ heights_disk d'.
Proof.
  induction 1 as [d|d d1 d' Hs _ IH]; intros Hinv; [done|].
  destruct (IH (height_step_inv _ _ Hs Hinv)) as (? & Hv & Hd).
  split; [done|]. pose proof (height_step_mono _ _ Hs). split; (etrans; [|eassumption]); [done|].
  apply disk_mono; [apply Hinv|done|by apply height_step_settles].
Qed.

Lemma quiet_height d d' : sled_quiet d d' -> height_step d d'.
Proof. intros [Hv Hs]. by apply height_same. Qed.

(** Writing to the tree of keys. *)
Lemma insert_keys_height k v d r d' :
  sled_insert EOTS_KEYS_TREE k v d = (r, d') -> height_step d d'.
Proof.
  by intros [Hs [Hp|[_ Hv]]]%sled_insert_law; apply height_same.
Qed.

Lemma register_key_steps pk chain now d r d' :
  register_key pk chain now d = (r, d') -> rtc height_step d d'.
Proof.
  unfold register_key. intros [(known & d1 & E1 & E2)|(e & E1 & _)]%bind_inv;
    apply map_err_inv in E1 as (r1 & [Hq _]%sled_contains_key_law & _);
    [|by apply rtc_once, quiet_height].
  eapply rtc_l; [by apply quiet_height|]. destruct known; [by injection E2 as _ <-|].
  apply bind_inv in E2 as [(enc & d2 & E2 & E3)|(e & E2 & _)]; unfold lift in E2; simplify_eq; [|done].
  apply map_err_inv in E3 as (r3 & E3 & _). by eapply rtc_once, insert_keys_height.
Qed.

Lemma update_key_metadata_steps pk now d r d' :
  update_key_metadata pk now d = (r, d') -> r = Ok tt /\ rtc height_step d d'.
Proof.
  unfold update_key_metadata, attempt, bind.
  destruct (sled_get EOTS_KEYS_TREE pk d) as [found d1] eqn:E1.
  apply sled_get_law in E1 as [Hq%quiet_height _].
  destruct found as [[data|]|]; [destruct (from_slice data); [destruct (to_vec _)|]|..];
    try (intros [= <- <-]; split; [done|by apply rtc_once]).
  destruct (sled_insert _ _ _ d1) eqn:E2. intros [= <- <-].
  split; [done|]. eapply rtc_l; [done|]. by eapply rtc_once, insert_keys_height.
Qed.

(** The three outcomes of the check: the height was recorded before; some
    call of the store failed; or the height is new and now on disk. *)
Lemma check_and_record_height_inv pk h now d r d' :
  length pk = 33%nat -> u64 h -> heights_inv d ->
  check_and_record_height pk h now d = (r, d') ->
  rtc height_step d d' /\
  match r with
  | Ok _ => heights d !! height_key pk h = None /\ is_Some (heights_disk d' !! height_key pk h)
  | Err (EotsDoubleSign h') => h' = h /\ is_Some (heights d !! height_key pk h)
  | Err e => exists msg, e = DatabaseError msg
  end.
Proof.
  intros Hl Hh Hinv. unfold check_and_record_height, attempt at 1, bind at 1.
  destruct (sled_contains_key _ _ d) as [signed d1] eqn:E1.
  apply sled_contains_key_law in E1 as [Hq1 Hr]. pose proof (quiet_height _ _ Hq1) as Hs1.
  destruct signed as [[|]|e]; [intros [= <- <-]|intros E2|intros [= <- <-]].
  - split; [by apply rtc_once|]. split; [done|]. by eapply bool_decide_eq_true, symmetry, Hr.
  - assert (heights d !! height_key pk h = None) as Hnone.
    { apply eq_None_not_Some. by eapply bool_decide_eq_false, symmetry, Hr. }
    assert (heights d1 = heights d) as Hv1 by apply Hq1.
    apply bind_inv in E2 as [([] & d2 & E2 & E3)|(e & E2 & ->)];
      apply map_err_inv in E2 as (r2 & [Hs2 Hp2]%sled_insert_law & Hr2).
    + destruct r2 as [[]|]; [|done]. destruct Hp2 as [Hp2|[? _]]; [|done].
      apply put_same in Hp2. rewrite Hv1 in Hp2.
      assert (height_step d1 d2) as Hs12.
      { eapply (height_new _ _ pk h); [done|by rewrite Hv1|by rewrite Hv1|done|done]. }
      apply bind_inv in E3 as [([] & d3 & E3 & E4)|(e & E3 & ->)];
        apply map_err_inv in E3 as (r3 & [Hq3 Hf3]%sled_flush_law & Hr3);
        pose proof (quiet_height _ _ Hq3) as Hs3.
      * destruct r3 as [[]|]; [|done]. apply update_key_metadata_steps in E4 as [-> Hs4].
        assert (rtc height_step d d3) as Hd3 by (do 3 (eapply rtc_l; [eassumption|]); done).
        split; [by etrans|]. split; [done|].
        destruct (height_steps_mono _ _ Hs4 (proj1 (height_steps_mono _ _ Hd3 Hinv))) as (_ & _ & Hsub).
        eapply lookup_weaken_is_Some; [|exact Hsub].
        rewrite (Hf3 eq_refl), Hp2, lookup_insert_eq. by eexists.
      * destruct r3 as [[]|]; [done|]. injection Hr3 as ->.
        split; [do 3 (eapply rtc_l; [eassumption|]); done|]. by eexists.
    + destruct r2 as [[]|e2]; [done|]. injection Hr2 as ->. split; [|by eexists].
      eapply rtc_l; [done|]. apply rtc_once.
      destruct Hp2 as [Hp2%put_same|[_ Hp2]]; [|by apply height_same].
      eapply (height_new _ _ pk h); [done|done|by rewrite Hv1|done|done].
  - split; [by apply rtc_once|]. by eexists.
Qed.
End effects.

(** ** The state machine

    Clients load or generate keys, ask for votes, read and flush in any order;
    any call of the store may fail and the process may crash and reopen the
    directory.  [v_votes] is the history of votes whose signature left the
    key. *)

Section machine.
Context {db : Type} {SLED : Sled db} {LAWS : SledLaws db} {HEX : Hex} {SK : Serde EotsKeyData}.
Context {SECP : Secp256k1} {SHA : Sha256}.
Abbreviation heights d := (sled_view d EOTS_HEIGHTS_TREE).
Abbreviation heights_disk d := (sled_durable d EOTS_HEIGHTS_TREE).

Inductive event :=
| EvNew (secret : bytes) (chain_id : string) (now : DateTime)
| EvGenerate (key : SigningKey) (chain_id : string) (now : DateTime)
| EvVote (k : EotsKey) (height : BlockHeight) (block_hash : bytes) (now : DateTime)
| EvIsSigned (pk : bytes) (height : BlockHeight)
| EvList (pk : bytes)
| EvFlush
| EvCrash.

Record world := MkWorld {
  v_db : db;
  v_votes : list (bytes * EotsSignature)
}.

Definition run_event (e : event) (w : world) : world :=
  match e with
  | EvNew secret chain now => MkWorld (new secret chain now (v_db w)).2 (v_votes w)
  | EvGenerate key chain now => MkWorld (generate key chain now (v_db w)).2 (v_votes w)
  | EvVote k height block_hash now =>
      let '(r, d) := sign_finality_vote k height block_hash now (v_db w) in
      MkWorld d (match r with Ok s => (ek_public_key k, s) :: v_votes w | Err _ => v_votes w end)
  | EvIsSigned pk h => MkWorld (is_height_signed pk h (v_db w)).2 (v_votes w)
  | EvList pk => MkWorld (get_signed_heights pk (v_db w)).2 (v_votes w)
  | EvFlush => MkWorld (flush (v_db w)).2 (v_votes w)
  | EvCrash => MkWorld (sled_reopen (v_db w)) (v_votes w)
  end.

Definition run (evs : list event) (w : world) : world := foldl (flip run_event) w evs.

(** A key carries its own public key, as [new] and [generate] construct it. *)
Definition key_wf (k : EotsKey) : Prop := ek_public_key k = to_sec1_bytes (ek_signing_key k).
Definition typed (e : event) : Prop :=
  match e with EvVote k h _ _ => key_wf k /\ u64 h | _ => True end.

Definition fresh (w : world) : Prop :=
  (forall t, sled_view (v_db w) t = ∅ /\ sled_durable (v_db w) t = ∅) /\ v_votes w = [].

Definition voted_heights (w : world) : list (bytes * BlockHeight) :=
  (fun v => (v.1, es_height v.2)) <$> v_votes w.

Lemma eots_new_wf secret chain now d k d' : new secret chain now d = (Ok k, d') -> key_wf k.
Proof.
  unfold new. intros (sk & d1 & _ & (known & d2 & _ & ([] & d3 & _ & E)%bind_inv_Ok)%bind_inv_Ok)%bind_inv_Ok.
  by injection E as <- _.
Qed.

Lemma generate_wf key chain now d k d' : generate key chain now d = (Ok k, d') -> key_wf k.
Proof. unfold generate. intros ([] & d1 & _ & E)%bind_inv_Ok. by injection E as <- _. Qed.

Lemma new_steps secret chain now d r d' :
  new secret chain now d = (r, d') -> rtc height_step d d'.
Proof.
  unfold new, lift, attempt. unfold bind at 1.
  destruct (rmap_err _ _) as [sk|e]; [|by intros [= _ <-]]. unfold bind at 1.
  destruct (sled_contains_key _ _ d) as [known d1] eqn:E1.
  apply sled_contains_key_law in E1 as [Hq%quiet_height _]. intros E2.
  eapply rtc_l; [done|]. revert E2. unfold bind.
  destruct (match known with Ok known => known | Err _ => false end); [by intros [= _ <-]|].
  destruct (register_key _ _ _ d1) as [[[]|e] d2] eqn:E3; intros [= _ <-];
    by eapply register_key_steps.
Qed.

Lemma generate_steps key chain now d r d' :
  generate key chain now d = (r, d') -> rtc height_step d d'.
Proof.
  unfold generate, bind. destruct (register_key _ _ _ d) as [[[]|e] d2] eqn:E3; intros [= _ <-];
    by eapply register_key_steps.
Qed.

(** Every vote of the history is on disk, and no height occurs twice. *)
Record votes_inv (w : world) : Prop := {
  inv_db : heights_inv (v_db w);
  inv_voted : forall pk h, (pk, h) ∈ voted_heights w ->
    is_Some (heights_disk (v_db w) !! height_key pk h);
  inv_once : NoDup (voted_heights w)
}.

Lemma votes_inv_steps d w :
  rtc height_step (v_db w) d -> votes_inv w -> votes_inv (MkWorld d (v_votes w)).
Proof.
  intros Hs [Hd Hv Hn]. destruct (height_steps_mono _ _ Hs Hd) as (? & _ & Hsub).
  split; [done| |done]. intros pk h Hin. eapply lookup_weaken_is_Some; [by apply Hv|done].
Qed.

Lemma sign_finality_vote_inv k h hash now d r d' :
  sign_finality_vote k h hash now d = (r, d') ->
  exists r0, check_and_record_height (ek_public_key k) h now d = (r0, d') /\
    forall s, r = Ok s -> r0 = Ok tt /\ es_height s = h /\ es_block_hash s = hash.
Proof.
  unfold sign_finality_vote, bind, lift, map_err.
  destruct (check_and_record_height _ _ _ d) as [[[]|e] d1] eqn:E.
  - destruct (sign_prehash_recoverable _ _) as [[sig rid]|e]; simpl; intros [= <- <-];
      eexists; (split; [done|]); intros s; by intros [= <-].
  - intros [= <- <-]. eexists. split; [done|]. intros s; by intros [= ].
Qed.

Lemma vote_inv k h hash now w :
  key_wf k -> u64 h -> votes_inv w -> votes_inv (run_event (EvVote k h hash now) w).
Proof.
  intros Hk Hh Hw. simpl. destruct (sign_finality_vote _ _ _ _ _) as [r d] eqn:E.
  apply sign_finality_vote_inv in E as (r0 & E & Hr).
  apply check_and_record_height_inv in E as [Hs Hres]; [|by rewrite Hk, length_to_sec1_bytes|done|apply Hw].
  apply (votes_inv_steps d) in Hw as Hw'; [|done].
  destruct r as [s|e]; [|done]. destruct (Hr s eq_refl) as (-> & Es & _). destruct Hres as [Hnone Hsome].
  destruct Hw' as [Hd Hv Hn]. split; [done| |].
  - intros pk h' [Heq|Hin]%elem_of_cons; [|by apply Hv]. simpl in Heq. by simplify_eq.
  - apply NoDup_cons. split; [|done]. simpl. rewrite Es. intros Hin.
    apply (inv_voted _ Hw) in Hin as [x Hx].
    pose proof (lookup_weaken _ _ _ _ Hx (inv_heights_disk _ (inv_db _ Hw))). congruence.
Qed.

Lemma crash_inv w : votes_inv w -> votes_inv (run_event EvCrash w).
Proof.
  intros [[Hwf Hd] Hv Hn]. destruct (sled_reopen_law (v_db w) EOTS_HEIGHTS_TREE) as [Ev Ed].
  split; [split|..]; simpl; rewrite ?Ev, ?Ed; try done.
  intros k v Hk. eapply Hwf, lookup_weaken; eauto.
Qed.

Lemma run_event_inv e w : typed e -> votes_inv w -> votes_inv (run_event e w).
Proof.
  intros Ht Hw. destruct e; [| |destruct Ht; by apply vote_inv| | | |by apply crash_inv];
    (apply votes_inv_steps; [|done]); simpl.
  - destruct (new _ _ _ _) eqn:E. by eapply new_steps.
  - destruct (generate _ _ _ _) eqn:E. by eapply generate_steps.
  - unfold is_height_signed. destruct (map_err _ _ _) eqn:E.
    apply map_err_inv in E as (? & [? _]%sled_contains_key_law & _). by apply rtc_once, quiet_height.
  - unfold get_signed_heights. destruct (sled_scan_prefix _ _ _) eqn:E.
    apply sled_scan_law in E as [? _]. by apply rtc_once, quiet_height.
  - unfold flush. destruct (map_err _ _ _) eqn:E.
    apply map_err_inv in E as (? & [? _]%sled_flush_law & _). by apply rtc_once, quiet_height.
Qed.

Lemma run_inv evs w : Forall typed evs -> votes_inv w -> votes_inv (run evs w).
Proof.
  intros Ht. revert w. induction Ht as [|e evs He _ IH]; intros w Hw; [done|].
  by apply IH, run_event_inv.
Qed.

Lemma fresh_votes_inv w : fresh w -> votes_inv w.
Proof.
  intros [Hd Hv]. destruct (Hd EOTS_HEIGHTS_TREE) as [Ev Ed].
  split; [split|..]; unfold voted_heights, heights_wf; rewrite ?Ev, ?Ed, ?Hv; try done.
  - intros pk h Hin. by apply elem_of_nil in Hin.
  - apply NoDup_nil_2.
Qed.

(** C6: in every run, with any store failures, crashes and restarts at any
    point and several instances of one key, no key ever signs two votes at
    one height, and the record of every vote that was signed is on disk. *)
Theorem eots_no_double_sign (evs : list event) (w : world) :
  fresh w -> Forall typed evs ->
  NoDup (voted_heights (run evs w)) /\
  forall pk h, (pk, h) ∈ voted_heights (run evs w) ->
    is_Some (heights_disk (v_db (run evs w)) !! height_key pk h).
Proof.
  intros Hw Ht. by destruct (run_inv evs w Ht (fresh_votes_inv w Hw)).
Qed.

(** *** Listed heights *)

Lemma height_key_eq pk h : height_key pk h = attestation_key pk h.
Proof. unfold height_key, attestation_key, attestation_key_prefix. by rewrite <- app_assoc. Qed.

(** A successful listing met no error and decoded every key. *)
Lemma collect_items p items l : collect_heights p items = Ok l -> exists es, items = Ok <$> es.
Proof.
  revert l. induction items as [|[[k v]|e] items IH]; intros l; simpl; [by exists []| |done].
  unfold rbind. destruct (collect_heights p items) as [l0|]; [|done]. intros _.
  destruct (IH l0 eq_refl) as [es ->]. by exists ((k, v) :: es).
Qed.

Lemma collect_heights_keys pk es l :
  Forall (fun k => exists h, k = height_key pk h /\ u64 h) es.*1 ->
  collect_heights (pk ++ [Byte.x3a]) (Ok <$> es) = Ok l ->
  Forall u64 l /\ es.*1 = height_key pk <$> l.
Proof.
  revert l. induction es as [|[k v] es IH]; intros l Hwf; csimpl in *.
  - by intros [= <-].
  - apply Forall_cons in Hwf as [(h & -> & Hh) Hwf]. unfold rbind.
    destruct (collect_heights _ _) as [l0|]; [|done]. destruct (IH l0 Hwf eq_refl) as [Hu ->].
    unfold height_key at 1 2 3. rewrite app_assoc, drop_app_length, !length_app, length_be_bytes.
    rewrite (proj2 (Nat.ltb_lt _ _)) by lia. simpl. intros [= <-].
    rewrite from_be_be_bytes, Z.mod_small by (unfold in_u in Hh; lia). by split; [constructor|].
Qed.

Lemma get_signed_heights_Ok pk d l d' :
  length pk = 33%nat -> heights_wf (heights d) -> get_signed_heights pk d = (Ok l, d') ->
  StronglySorted Z.le l /\ NoDup l /\
  forall h, u64 h -> h ∈ l <-> is_Some (heights d !! height_key pk h).
Proof.
  intros Hl Hwf. unfold get_signed_heights.
  destruct (sled_scan_prefix _ _ d) as [items d1] eqn:E. unfold rbind.
  destruct (collect_heights _ items) as [l0|] eqn:Ec; intros [= <- _].
  destruct (collect_items _ _ _ Ec) as [es ->].
  apply sled_scan_law in E as [_ Hes]. specialize (Hes es eq_refl).
  assert (Forall (fun k => exists h, k = height_key pk h /\ u64 h) es.*1) as Hkeys.
  { apply Forall_forall. intros k ([k' v] & -> & Hin)%list_elem_of_fmap. subst es.
    apply elem_of_tree_scan in Hin as [(pk' & h & -> & Hl' & Hh)%Hwf Hp]. simpl in *.
    rewrite height_key_eq in Hp. apply attestation_key_prefix_of in Hp as <-; [eauto|congruence]. }
  destruct (collect_heights_keys pk es l0 Hkeys Ec) as [Hu Hk].
  split; [apply (StronglySorted_merge_sort Z.le)|]. setoid_rewrite merge_sort_Permutation. split.
  - apply (NoDup_fmap_1 (height_key pk)). rewrite <- Hk, Hes. apply tree_scan_NoDup_keys.
  - intros h Hh. split.
    + intros Hin. assert (height_key pk h ∈ es.*1) as Hin' by (rewrite Hk; by apply list_elem_of_fmap_2).
      apply list_elem_of_fmap in Hin' as ([k v] & Ek & Hin'). subst es.
      apply elem_of_tree_scan in Hin' as [Hv _]. simpl in Ek. subst k. by exists v.
    + intros [v Hv]. assert (height_key pk h ∈ es.*1) as Hin.
      { apply list_elem_of_fmap. exists (height_key pk h, v). split; [done|]. subst es.
        apply elem_of_tree_scan. split; [done|]. rewrite height_key_eq. apply attestation_key_has_prefix. }
      rewrite Hk in Hin. apply list_elem_of_fmap in Hin as (h' & E' & Hin).
      rewrite !height_key_eq in E'. rewrite Forall_forall in Hu.
      apply attestation_key_inj in E' as [_ ->]; [done|done|done|by apply Hu].
Qed.

(** A successful listing of a key's heights, in any state the database can
    reach, is sorted and without repetitions, consists of exactly the heights
    recorded for the key, and contains every height the key has signed. *)
Theorem eots_heights_listed (evs : list event) (w : world) (pk : bytes) (l : list BlockHeight) (d : db) :
  fresh w -> Forall typed evs -> length pk = 33%nat ->
  get_signed_heights pk (v_db (run evs w)) = (Ok l, d) ->
  StronglySorted Z.le l /\ NoDup l /\
  (forall h, u64 h -> h ∈ l <-> is_Some (heights (v_db (run evs w)) !! height_key pk h)) /\
  (forall h, (pk, h) ∈ voted_heights (run evs w) -> u64 h -> h ∈ l).
Proof.
  intros Hw Ht Hl E. destruct (run_inv evs w Ht (fresh_votes_inv w Hw)) as [[Hwf Hsub] Hv _].
  apply get_signed_heights_Ok in E as (Hs & Hn & Hiff); [|done..].
  do 3 (split; [done|]). intros h Hin Hh. apply Hiff; [done|].
  eapply lookup_weaken_is_Some; [by apply Hv|done].
Qed.

(** Votes that differ in height, block or chain have different messages,
    and their digests, the values that are signed, differ unless the two
    messages are a collision of the hash. *)
Theorem eots_vote_message_binding (c1 c2 : string) (h1 h2 : BlockHeight) (b1 b2 : bytes) :
  u64 h1 -> u64 h2 -> length b1 = 32%nat -> length b2 = 32%nat ->
  sha256 (create_vote_message c1 h1 b1) = sha256 (create_vote_message c2 h2 b2) ->
  (h1 = h2 /\ b1 = b2 /\ c1 = c2) \/
  collision [create_vote_message c1 h1 b1] [create_vote_message c2 h2 b2].
Proof.
  intros Hh1 Hh2 Hb1 Hb2 E.
  destruct (decide (create_vote_message c1 h1 b1 = create_vote_message c2 h2 b2)) as [Em|Hne].
  - left. unfold create_vote_message in Em.
    apply app_inj_1 in Em as [Eh Em]; [|by rewrite !length_le_bytes].
    apply app_inj_1 in Em as [-> Ec]; [|congruence]. apply as_bytes_inj in Ec.
    by apply le_bytes_inj in Eh.
  - right. eexists _, _. rewrite !list_elem_of_singleton. done.
Qed.
End machine.
