(* ===== verification/EthereumValidator.v ===== *)
(** * Ethereum validators

    [crates/validator/src/ethereum.rs]: the messages a validator signs, their
    signing roots, and the signing methods.  [sign_attestation] and
    [sign_block] first check and record the signing root in the slashing
    protection database; the other methods sign without it.

    The theorems state that signatures verify, that a signing root belongs to
    one kind of message and one message, up to a hash collision, and (in
    [EthereumSafety]) that nothing slashable is ever signed. *)

From Stdlib Require Import ZArith Lia Strings.Byte.
From stdpp Require Import base gmap strings list.
From S2P Require Import Prelude External ValidatorTypes SlashingDb.

Definition ETH2_DST : bytes := as_bytes "BLS_SIG_BLS12381G2_XMD:SHA-256_SSWU_RO_POP_".

(** ** Messages *)

Record Checkpoint := MkCheckpoint {
  epoch : Epoch;
  cp_root : bytes
}.

Record AttestationData := MkAttestation {
  att_slot : Slot;
  att_index : CommitteeIndex;
  att_beacon_block_root : bytes;
  source : Checkpoint;
  target : Checkpoint
}.

Record BeaconBlockHeader := MkBeaconBlockHeader {
  slot : Slot;
  proposer_index : ValidatorIndex;
  parent_root : bytes;
  state_root : bytes;
  body_root : bytes
}.

Record VoluntaryExit := MkVoluntaryExit {
  exit_epoch : Epoch;
  validator_index : ValidatorIndex
}.

Record SyncCommitteeMessage := MkSyncCommitteeMessage {
  sync_slot : Slot;
  sync_beacon_block_root : bytes
}.

(** The bytes the two [hash_tree_root]s hash. *)
Definition attestation_preimage (d : AttestationData) : bytes :=
  le_bytes 8 (att_slot d) ++ le_bytes 8 (att_index d) ++ att_beacon_block_root d ++
  le_bytes 8 (epoch (source d)) ++ cp_root (source d) ++
  le_bytes 8 (epoch (target d)) ++ cp_root (target d).
Definition block_preimage (b : BeaconBlockHeader) : bytes :=
  le_bytes 8 (slot b) ++ le_bytes 8 (proposer_index b) ++
  parent_root b ++ state_root b ++ body_root b.

(** Two numbers in a 16-byte buffer. *)
Definition pair_data (a b : Z) : bytes :=
  copy_at 8 (le_bytes 8 b) (copy_at 0 (le_bytes 8 a) (zeros 16)).

(** The 64-byte buffer every signing root is the digest of. *)
Definition combined (data_root domain : bytes) : bytes :=
  copy_at 32 domain (copy_at 0 data_root (zeros 64)).

Section roots.
Context {SHA : Sha256}.

Definition attestation_hash_tree_root (d : AttestationData) : bytes := sha256 (attestation_preimage d).
Definition attestation_signing_root (d : AttestationData) (domain : bytes) : SigningRoot :=
  MkSigningRoot (sha256 (combined (attestation_hash_tree_root d) domain)).

Definition block_hash_tree_root (b : BeaconBlockHeader) : bytes := sha256 (block_preimage b).
Definition block_signing_root (b : BeaconBlockHeader) (domain : bytes) : SigningRoot :=
  MkSigningRoot (sha256 (combined (block_hash_tree_root b) domain)).

Definition exit_signing_root (x : VoluntaryExit) (domain : bytes) : SigningRoot :=
  let data_root := sha256 (pair_data (exit_epoch x) (validator_index x)) in
  MkSigningRoot (sha256 (combined data_root domain)).

Definition sync_signing_root (m : SyncCommitteeMessage) (domain : bytes) : SigningRoot :=
  MkSigningRoot (sha256 (combined (sync_beacon_block_root m) domain)).

(** ** The validator *)

Context {BLS : Bls} {db : Type} {SLED : Sled db} {HEX : Hex}.
Context {SV : Serde ValidatorData} {SA : Serde SlashingDb.AttestationData} {SB : Serde BlockData}.
Abbreviation Db := (SlashingProtectionDb db).

Record EthereumValidator := MkEthereumValidator {
  public_key : BlsPublicKey;
  secret_key : SecretKey;
  fork_info : ForkInfo
}.

Definition new (secret_key_bytes : bytes) (fork : ForkInfo) (now : DateTime)
  : M Db ValidatorError EthereumValidator :=
  let! sk := lift (rmap_err (fun e => InvalidPublicKey ("Invalid BLS secret key: " +:+ e))
                     (secret_key_from_bytes secret_key_bytes)) in
  let public_key_bytes := compressed_public_key sk in
  let! known := is_registered public_key_bytes in
  (if known : bool then ret tt else register_validator public_key_bytes now) ;!
  ret (MkEthereumValidator (MkBlsPublicKey public_key_bytes) sk fork).

Definition sign_root (v : EthereumValidator) (root : SigningRoot) : bytes :=
  bls_sign (secret_key v) (root_bytes root) ETH2_DST [].

Definition sign_attestation (v : EthereumValidator) (attestation : AttestationData) (now : DateTime)
  : M Db ValidatorError bytes :=
  let domain := compute_domain (fork_info v) BeaconAttester in
  let signing_root := attestation_signing_root attestation domain in
  map_err Slashing
    (check_and_record_attestation (pk_bytes (public_key v)) (epoch (source attestation))
       (epoch (target attestation)) signing_root now) ;!
  ret (sign_root v signing_root).

Definition sign_block (v : EthereumValidator) (block : BeaconBlockHeader) (now : DateTime)
  : M Db ValidatorError bytes :=
  let domain := compute_domain (fork_info v) BeaconProposer in
  let signing_root := block_signing_root block domain in
  map_err Slashing
    (check_and_record_block (pk_bytes (public_key v)) (slot block) signing_root now) ;!
  ret (sign_root v signing_root).

(** The remaining methods cannot fail and leave the database alone. *)
Definition sign_randao (v : EthereumValidator) (epoch : Epoch) : bytes :=
  let domain := compute_domain (fork_info v) Randao in
  let epoch_root := sha256 (le_bytes 8 epoch) in
  sign_root v (MkSigningRoot (sha256 (combined epoch_root domain))).

Definition sign_voluntary_exit (v : EthereumValidator) (exit : VoluntaryExit) : bytes :=
  let domain := compute_domain (fork_info v) DVoluntaryExit in
  sign_root v (exit_signing_root exit domain).

Definition sign_sync_committee (v : EthereumValidator) (message : SyncCommitteeMessage) : bytes :=
  let domain := compute_domain (fork_info v) SyncCommittee in
  sign_root v (sync_signing_root message domain).

Definition sign_selection_proof (v : EthereumValidator) (slot : Slot) : bytes :=
  let domain := compute_domain (fork_info v) SelectionProof in
  let slot_root := sha256 (le_bytes 8 slot) in
  sign_root v (MkSigningRoot (sha256 (combined slot_root domain))).

Definition sign_sync_committee_selection_proof (v : EthereumValidator) (slot : Slot)
    (subcommittee_index : Z) : bytes :=
  let domain := compute_domain (fork_info v) SyncCommitteeSelectionProof in
  let data_root := sha256 (pair_data slot subcommittee_index) in
  sign_root v (MkSigningRoot (sha256 (combined data_root domain))).

Definition summary (v : EthereumValidator) : M Db ValidatorError ValidatorSummary :=
  get_validator_summary (pk_bytes (public_key v)).

Definition verify_signature (public_key message signature : bytes) : result bool ValidatorError :=
  let? pk := rmap_err (fun e => InvalidPublicKey ("Invalid BLS public key: " +:+ e))
               (public_key_from_bytes public_key) in
  let? sig := rmap_err (fun e => InvalidSignature ("Invalid BLS signature: " +:+ e))
                (signature_from_bytes signature) in
  Ok (bls_verify sig message ETH2_DST [] pk).
End roots.
Arguments EthereumValidator {BLS}.

(** ** Well-formed messages: what the Rust types enforce *)

Definition checkpoint_wf (c : Checkpoint) : Prop := u64 (epoch c) /\ length (cp_root c) = 32%nat.
Definition attestation_wf (d : AttestationData) : Prop :=
  u64 (att_slot d) /\ u64 (att_index d) /\ length (att_beacon_block_root d) = 32%nat /\
  checkpoint_wf (source d) /\ checkpoint_wf (target d).
Definition block_wf (b : BeaconBlockHeader) : Prop :=
  u64 (slot b) /\ u64 (proposer_index b) /\ length (parent_root b) = 32%nat /\
  length (state_root b) = 32%nat /\ length (body_root b) = 32%nat.

(** Splitting equal concatenations of fixed-size fields. *)
Ltac split_fields E :=
  repeat match type of E with
  | _ ++ _ = _ ++ _ =>
      let F := fresh "F" in
      apply app_inj_1 in E as [F E]; [|by rewrite ?length_le_bytes; congruence];
      try (apply le_bytes_inj in F; [|done..])
  end.

Lemma attestation_preimage_inj d1 d2 :
  attestation_wf d1 -> attestation_wf d2 ->
  attestation_preimage d1 = attestation_preimage d2 -> d1 = d2.
Proof.
  destruct d1 as [sl1 i1 b1 [e1 r1] [e1' r1']], d2 as [sl2 i2 b2 [e2 r2] [e2' r2']].
  intros (? & ? & ? & [? ?] & [? ?]) (? & ? & ? & [? ?] & [? ?]) E.
  unfold attestation_preimage in E.
  cbn [att_slot att_index att_beacon_block_root source target epoch cp_root] in *. split_fields E. by subst.
Qed.

Lemma block_preimage_inj b1 b2 :
  block_wf b1 -> block_wf b2 -> block_preimage b1 = block_preimage b2 -> b1 = b2.
Proof.
  destruct b1, b2. intros (? & ? & ? & ? & ?) (? & ? & ? & ? & ?) E.
  unfold block_preimage in E.
  cbn [slot proposer_index parent_root state_root body_root] in *. split_fields E. by subst.
Qed.

Lemma pair_data_eq a b : pair_data a b = le_bytes 8 a ++ le_bytes 8 b.
Proof. apply (copy_halves (le_bytes 8 a) (le_bytes 8 b)). Qed.

Lemma pair_data_inj a b a' b' :
  u64 a -> u64 b -> u64 a' -> u64 b' -> pair_data a b = pair_data a' b' -> a = a' /\ b = b'.
Proof.
  intros ? ? ? ? E. rewrite !pair_data_eq in E. split_fields E. by apply le_bytes_inj in E.
Qed.

Lemma combined_eq r d : length r = 32%nat -> length d = 32%nat -> combined r d = r ++ d.
Proof. intros Hr Hd. rewrite <- copy_halves, Hr, Hd. done. Qed.

(** ** Requests: everything a validator can be asked to sign *)

Inductive request :=
| RAttestation (d : AttestationData)
| RBlock (b : BeaconBlockHeader)
| RRandao (e : Epoch)
| RExit (x : VoluntaryExit)
| RSync (m : SyncCommitteeMessage)
| RSelection (s : Slot)
| RSyncSelection (s : Slot) (subcommittee_index : Z).

Definition request_domain (r : request) : DomainType :=
  match r with
  | RAttestation _ => BeaconAttester
  | RBlock _ => BeaconProposer
  | RRandao _ => Randao
  | RExit _ => DVoluntaryExit
  | RSync _ => SyncCommittee
  | RSelection _ => SelectionProof
  | RSyncSelection _ _ => SyncCommitteeSelectionProof
  end.

(** The bytes a request is identified by: what is hashed first, or the block
    root that a synchronisation message signs directly. *)
Definition request_bytes (r : request) : bytes :=
  match r with
  | RAttestation d => attestation_preimage d
  | RBlock b => block_preimage b
  | RRandao e => le_bytes 8 e
  | RExit x => pair_data (exit_epoch x) (validator_index x)
  | RSync m => sync_beacon_block_root m
  | RSelection s => le_bytes 8 s
  | RSyncSelection s i => pair_data s i
  end.

Definition request_wf (r : request) : Prop :=
  match r with
  | RAttestation d => attestation_wf d
  | RBlock b => block_wf b
  | RRandao e => u64 e
  | RExit x => u64 (exit_epoch x) /\ u64 (validator_index x)
  | RSync m => length (sync_beacon_block_root m) = 32%nat
  | RSelection s => u64 s
  | RSyncSelection s i => u64 s /\ u64 i
  end.

(** Equal, up to the slot of a synchronisation message, which is not signed. *)
Definition same_content (r1 r2 : request) : Prop :=
  match r1, r2 with
  | RSync m1, RSync m2 => sync_beacon_block_root m1 = sync_beacon_block_root m2
  | _, _ => r1 = r2
  end.

Lemma request_bytes_inj r1 r2 :
  request_wf r1 -> request_wf r2 -> request_domain r1 = request_domain r2 ->
  request_bytes r1 = request_bytes r2 -> same_content r1 r2.
Proof.
  destruct r1 as [d1|b1|e1|[e1 i1]|m1|s1|s1 i1], r2 as [d2|b2|e2|[e2 i2]|m2|s2|s2 i2];
    cbn [request_wf request_domain request_bytes same_content exit_epoch validator_index];
    intros H1 H2 Hd E; try discriminate Hd; clear Hd.
  - f_equal. by apply attestation_preimage_inj.
  - f_equal. by apply block_preimage_inj.
  - f_equal. by apply le_bytes_inj in E.
  - destruct H1, H2. by destruct (pair_data_inj e1 i1 e2 i2) as [-> ->].
  - done.
  - f_equal. by apply le_bytes_inj in E.
  - destruct H1, H2. by destruct (pair_data_inj s1 i1 s2 i2) as [-> ->].
Qed.

Section signing.
Context {SHA : Sha256} {BLS : Bls} {db : Type} {SLED : Sled db} {HEX : Hex}.
Context {SV : Serde ValidatorData} {SA : Serde SlashingDb.AttestationData} {SB : Serde BlockData}.
Abbreviation Db := (SlashingProtectionDb db).

(** A validator carries the public key of its secret key, as [new] constructs
    it. *)
Definition validator_wf (v : EthereumValidator) : Prop :=
  pk_bytes (public_key v) = compressed_public_key (secret_key v).

Lemma validator_new_wf secret fork now (s : Db) v s' : new secret fork now s = (Ok v, s') -> validator_wf v.
Proof.
  unfold new. intros (sk & s1 & _ & (known & s2 & _ & ([] & s3 & _ & E)%bind_inv_Ok)%bind_inv_Ok)%bind_inv_Ok.
  by injection E as <- _.
Qed.

(** The method that serves a request. *)
Definition sign (v : EthereumValidator) (r : request) (now : DateTime) : M Db ValidatorError bytes :=
  match r with
  | RAttestation d => sign_attestation v d now
  | RBlock b => sign_block v b now
  | RRandao e => ret (sign_randao v e)
  | RExit x => ret (sign_voluntary_exit v x)
  | RSync m => ret (sign_sync_committee v m)
  | RSelection s => ret (sign_selection_proof v s)
  | RSyncSelection s i => ret (sign_sync_committee_selection_proof v s i)
  end.

Definition request_data_root (r : request) : bytes :=
  match r with RSync m => sync_beacon_block_root m | r => sha256 (request_bytes r) end.

(** The 64 bytes and all messages hashed for a request. *)
Definition request_combined (fork : ForkInfo) (r : request) : bytes :=
  combined (request_data_root r) (compute_domain fork (request_domain r)).
Definition request_messages (fork : ForkInfo) (r : request) : list bytes :=
  [request_bytes r; request_combined fork r].

(** The root a request is signed under: the code's own functions where it has
    one, else the digest its method computes in place. *)
Definition request_root (fork : ForkInfo) (r : request) : SigningRoot :=
  let in_place data_root t := MkSigningRoot (sha256 (combined data_root (compute_domain fork t))) in
  match r with
  | RAttestation d => attestation_signing_root d (compute_domain fork BeaconAttester)
  | RBlock b => block_signing_root b (compute_domain fork BeaconProposer)
  | RRandao e => in_place (sha256 (le_bytes 8 e)) Randao
  | RExit x => exit_signing_root x (compute_domain fork DVoluntaryExit)
  | RSync m => sync_signing_root m (compute_domain fork SyncCommittee)
  | RSelection s => in_place (sha256 (le_bytes 8 s)) SelectionProof
  | RSyncSelection s i => in_place (sha256 (pair_data s i)) SyncCommitteeSelectionProof
  end.

Lemma request_root_combined fork r : request_root fork r = MkSigningRoot (sha256 (request_combined fork r)).
Proof. by destruct r. Qed.

Lemma sign_Ok v r now (s : Db) sig s' :
  sign v r now s = (Ok sig, s') -> sig = sign_root v (request_root (fork_info v) r).
Proof.
  destruct r; try (by intros [= <- _]); intros ([] & s1 & _ & E)%bind_inv_Ok; by injection E as <- _.
Qed.

Lemma length_request_data_root r : request_wf r -> length (request_data_root r) = 32%nat.
Proof. intros Hr. destruct r; try apply length_sha256. exact Hr. Qed.

Lemma request_combined_eq fork r :
  request_wf r ->
  request_combined fork r = request_data_root r ++ compute_domain fork (request_domain r).
Proof.
  intros Hr. apply combined_eq; [by apply length_request_data_root|apply length_compute_domain].
Qed.

(** Every signature a validator hands out, of whatever kind, verifies under
    its public key against the signing root of the request; the database is
    touched, and the request can fail, only for attestations and blocks, and
    then only with a slashing error. *)
Theorem signatures_verify (v : EthereumValidator) (r : request) (now : DateTime) (s : Db) :
  validator_wf v ->
  match sign v r now s with
  | (Ok sig, s') =>
      verify_signature (pk_bytes (public_key v)) (root_bytes (request_root (fork_info v) r)) sig = Ok true
  | (Err e, s') => exists e', e = Slashing e'
  end /\
  match r with
  | RAttestation _ | RBlock _ => True
  | _ => exists sig, sign v r now s = (Ok sig, s)
  end.
Proof.
  intros Hv. split; [|by destruct r; try eexists].
  destruct (sign v r now s) as [[sig|e] s'] eqn:E.
  - apply sign_Ok in E as ->. unfold verify_signature, sign_root. rewrite Hv.
    destruct (bls_verify_sign (secret_key v) (root_bytes (request_root (fork_info v) r)) ETH2_DST [])
      as (pk & sg & -> & -> & Hok). cbn [rmap_err rbind]. by rewrite Hok.
  - destruct r; try discriminate E; apply bind_inv in E as [([] & s1 & _ & E)|(e' & E & [= ->])];
      try discriminate E; apply map_err_inv in E as ([[]|e0] & _ & [= ->]); by eexists.
Qed.

(** Equal signing roots: equal requests or a collision among what is hashed. *)
Lemma request_root_inj f1 f2 r1 r2 :
  request_wf r1 -> request_wf r2 -> request_root f1 r1 = request_root f2 r2 ->
  (request_domain r1 = request_domain r2 /\ same_content r1 r2) \/
  collision (request_messages f1 r1) (request_messages f2 r2).
Proof.
  intros H1 H2. rewrite !request_root_combined. intros [= E].
  destruct (decide (request_combined f1 r1 = request_combined f2 r2)) as [Ec|Hne];
    [|right; eexists _, _; split; [|split; [|by split; [apply Hne|apply E]]]; set_solver].
  rewrite !request_combined_eq in Ec by done.
  apply app_inj_1 in Ec as [Er Ed]; [|by rewrite !length_request_data_root].
  apply (f_equal (take 4)) in Ed. rewrite !compute_domain_type in Ed. apply DomainType_to_bytes_inj in Ed.
  destruct (decide (request_bytes r1 = request_bytes r2)) as [Eb|Hne];
    [left; split; [done|by apply request_bytes_inj]|].
  right. exists (request_bytes r1), (request_bytes r2). unfold request_messages.
  split; [set_solver|]. split; [set_solver|]. split; [done|].
  by destruct r1, r2.
Qed.

(** C9: two signatures that validators have handed out, for whatever kinds of
    message, keys and forks, are signatures over the signing roots of their
    requests, and these roots are different, unless the requests are of the
    same kind and have the same content or a collision among the messages
    hashed for them is exhibited.  So a signature for one duty can not be
    presented as one for another.  (The slot of a synchronisation message is
    not part of what is signed.) *)
Theorem signing_roots_separated v1 v2 r1 r2 now1 now2 (s1 s2 : Db) sig1 sig2 s1' s2' :
  request_wf r1 -> request_wf r2 ->
  sign v1 r1 now1 s1 = (Ok sig1, s1') -> sign v2 r2 now2 s2 = (Ok sig2, s2') ->
  let root1 := request_root (fork_info v1) r1 in
  let root2 := request_root (fork_info v2) r2 in
  sig1 = sign_root v1 root1 /\ sig2 = sign_root v2 root2 /\
  (root1 <> root2 \/ same_content r1 r2 \/
   collision (request_messages (fork_info v1) r1) (request_messages (fork_info v2) r2)).
Proof.
  intros H1 H2 E1%sign_Ok E2%sign_Ok root1 root2. split; [done|]. split; [done|].
  destruct (decide (root1 = root2)) as [E|]; [right|by left].
  destruct (request_root_inj _ _ _ _ H1 H2 E) as [[_ ?]|?]; auto.
Qed.
End signing.
