(* ===== verification/EthereumSafety.v ===== *)
(** * Nothing slashable is signed

    The validators of [ethereum.rs] on top of the state machine of
    [SlashingSafety]: validators are created from secret keys, several of
    them possibly for one key, and serve requests of every kind, interleaved
    with everything else that can happen to the database, including imports,
    store failures and crashes.  The history collects the attestations and
    blocks for which a signature was handed out.

    The theorem is Ethereum's own slashing condition on that history; it
    reduces to the safety of the database, because signing roots determine
    what was signed. *)

From Stdlib Require Import ZArith Lia Strings.Byte.
From stdpp Require Import base gmap strings list.
From S2P Require Import Prelude External ValidatorTypes SlashingDb SlashingInv Interchange SlashingSafety.
From S2P Require Import EthereumValidator.

(** The two cases of [is_slashable_attestation_data] of the consensus
    specification. *)
Definition double_attestation (d1 d2 : AttestationData) : Prop :=
  d1 <> d2 /\ epoch (target d1) = epoch (target d2).
Definition surround_attestation (d1 d2 : AttestationData) : Prop :=
  epoch (source d1) < epoch (source d2) /\ epoch (target d2) < epoch (target d1).

Section safety.
Context {SHA : Sha256} {BLS : Bls} {db : Type} {SLED : Sled db} {LAWS : SledLaws db} {HEX : Hex}.
Context {SV : Serde ValidatorData} {SA : Serde SlashingDb.AttestationData} {SB : Serde BlockData}.
Abbreviation Db := (SlashingProtectionDb db).

Inductive vevent :=
| VNew (secret : bytes) (fork : ForkInfo) (now : DateTime)
| VSign (v : EthereumValidator) (r : request) (now : DateTime)
| VDb (e : event).

Record vworld := MkVWorld {
  vw_db : Db;
  vw_atts : list (EthereumValidator * AttestationData);
  vw_blks : list (EthereumValidator * BeaconBlockHeader)
}.

Definition vrun_event (e : vevent) (w : vworld) : vworld :=
  match e with
  | VNew secret fork now => MkVWorld (new secret fork now (vw_db w)).2 (vw_atts w) (vw_blks w)
  | VSign v r now =>
      let '(res, s) := sign v r now (vw_db w) in
      match res, r with
      | Ok _, RAttestation d => MkVWorld s ((v, d) :: vw_atts w) (vw_blks w)
      | Ok _, RBlock b => MkVWorld s (vw_atts w) ((v, b) :: vw_blks w)
      | _, _ => MkVWorld s (vw_atts w) (vw_blks w)
      end
  | VDb e => MkVWorld (w_db (run_event e (MkWorld (vw_db w) [] []))) (vw_atts w) (vw_blks w)
  end.

Definition vrun (evs : list vevent) (w : vworld) : vworld := foldl (flip vrun_event) w evs.

Definition vfresh (w : vworld) : Prop :=
  (forall t, sled_view (store (vw_db w)) t = ∅ /\ sled_durable (store (vw_db w)) t = ∅) /\
  vw_atts w = [] /\ vw_blks w = [].

(** ** Conditions on a run *)

Definition attestation_root (v : EthereumValidator) (d : AttestationData) : SigningRoot :=
  request_root (fork_info v) (RAttestation d).
Definition block_root (v : EthereumValidator) (b : BeaconBlockHeader) : SigningRoot :=
  request_root (fork_info v) (RBlock b).

(** Arguments have the types of the Rust signatures, signatures are made
    through the validators only. *)
Definition vtyped (e : vevent) : Prop :=
  match e with
  | VNew _ _ _ => True
  | VSign v r _ => validator_wf v /\ request_wf r
  | VDb e => is_signing e = false
  end.

Definition vcrash (e : vevent) : bool := match e with VDb e => is_crash e | _ => false end.
Definition vsigning (e : vevent) : bool :=
  match e with VSign _ (RAttestation _) _ | VSign _ (RBlock _) _ => true | _ => false end.

Fixpoint vdisciplined (evs : list vevent) (w : vworld) : Prop :=
  match evs with
  | [] => True
  | e :: evs =>
      (vsigning e = true -> synced (store (vw_db w))) /\ vdisciplined evs (vrun_event e w)
  end.

(** All messages hashed for the requests of a run. *)
Definition requested_messages (evs : list vevent) : list bytes :=
  e ← evs; match e with VSign v r _ => request_messages (fork_info v) r | _ => [] end.

(** The signing roots and source epochs of the attestations that are requested,
    and of those in the imported documents (a document may leave a root out,
    the code then takes 32 zero bytes). *)
Definition vrequested (evs : list vevent) : list (bytes * Epoch) :=
  e ← evs; match e with
           | VSign v (RAttestation d) _ => [(root_bytes (attestation_root v d), epoch (source d))]
           | _ => []
           end.
Definition vimported (evs : list vevent) : list (bytes * Epoch) :=
  e ← evs; match e with VDb (EvImport i _) => file_sources i | _ => [] end.

(** A document records the signing root of a requested attestation with
    another source epoch than that attestation has. *)
Definition import_conflict (evs : list vevent) : Prop :=
  Exists (fun p => Exists (fun q => p.1 = q.1 /\ p.2 <> q.2) (vimported evs)) (vrequested evs).

(** ** The database events behind a run *)

Definition project (w : vworld) : world :=
  MkWorld (vw_db w)
    ((fun '(v, d) => (pk_bytes (public_key v), epoch (source d), epoch (target d), attestation_root v d))
       <$> vw_atts w)
    ((fun '(v, b) => (pk_bytes (public_key v), slot b, block_root v b)) <$> vw_blks w).

Lemma project_att v d w :
  (v, d) ∈ vw_atts w ->
  (pk_bytes (public_key v), epoch (source d), epoch (target d), attestation_root v d) ∈ w_atts (project w).
Proof. intros H. apply list_elem_of_fmap. by exists (v, d). Qed.

Lemma project_blk v b w :
  (v, b) ∈ vw_blks w -> (pk_bytes (public_key v), slot b, block_root v b) ∈ w_blks (project w).
Proof. intros H. apply list_elem_of_fmap. by exists (v, b). Qed.

Lemma run_event_db e s a b a' b' :
  w_db (run_event e (MkWorld s a b)) = w_db (run_event e (MkWorld s a' b')).
Proof.
  destruct e; try done; simpl;
    [by destruct (check_and_record_attestation _ _ _ _ _ _)|by destruct (check_and_record_block _ _ _ _ _)].
Qed.

Lemma run_event_quiet e w :
  is_signing e = false -> w_atts (run_event e w) = w_atts w /\ w_blks (run_event e w) = w_blks w.
Proof. by destruct e. Qed.

Section project.
Context (A B : bytes -> Epoch -> Prop).

(** What an event of the validators does is what some events of the database
    do, under the same discipline. *)
Definition simulated (e : vevent) (w : vworld) : Prop := exists es,
  project (vrun_event e w) = run es (project w) /\
  Forall (typed A B) es /\
  (vcrash e = false -> Forall (fun e => is_crash e = false) es) /\
  ((vsigning e = true -> synced (store (vw_db w))) -> disciplined es (project w)).

Lemma simulated_nil e w : project (vrun_event e w) = project w -> simulated e w.
Proof. intros E. by exists []. Qed.

Lemma simulated_one e w e' :
  project (vrun_event e w) = run_event e' (project w) -> typed A B e' ->
  (vcrash e = false -> is_crash e' = false) -> (is_signing e' = true -> vsigning e = true) ->
  simulated e w.
Proof.
  intros E Ht Hc Hs. exists [e']. split; [done|]. split; [by constructor|].
  split; [intros H; constructor; [auto|constructor]|]. simpl. auto.
Qed.

Lemma simulate_new secret fork now w : simulated (VNew secret fork now) w.
Proof.
  destruct w as [s atts blks]. unfold simulated, project, vrun_event, new, lift, bind. cbn [vw_db vw_atts vw_blks].
  destruct (secret_key_from_bytes secret) as [sk|e]; cbn [rmap_err]; [|by exists []].
  destruct (is_registered (compressed_public_key sk) s) as [[[]|e] s1] eqn:E1.
  1,3: exists [EvIsRegistered (compressed_public_key sk)]; simpl; unfold with_db; simpl; rewrite E1;
    (split; [done|]); (split; [by repeat constructor|]); (split; [by repeat constructor|]); naive_solver.
  exists [EvIsRegistered (compressed_public_key sk); EvRegister (compressed_public_key sk) now]. simpl. unfold with_db; simpl. rewrite E1. simpl.
  destruct (register_validator _ _ s1) as [[[]|e] s2] eqn:E2;
    (split; [done|]); (split; [by repeat constructor|]); (split; [by repeat constructor|]); naive_solver.
Qed.

Lemma simulate_sign v r now w :
  request_wf r ->
  (forall d, r = RAttestation d -> A (root_bytes (attestation_root v d)) (epoch (source d))) ->
  simulated (VSign v r now) w.
Proof.
  intros Hr HA. destruct r as [d|b|e|x|m|sl|sl i];
    try (apply simulated_nil; by destruct w).
  - apply (simulated_one _ _ (EvAttest (pk_bytes (public_key v)) (epoch (source d)) (epoch (target d))
             (attestation_root v d) now)); [|split; [apply Hr|by apply HA]|done|done].
    destruct w as [s atts blks]. simpl. unfold sign_attestation, map_err, bind.
    change (attestation_signing_root d _) with (attestation_root v d).
    by destruct (check_and_record_attestation _ _ _ _ _ s) as [[[]|e] s1].
  - apply (simulated_one _ _ (EvBlock (pk_bytes (public_key v)) (slot b) (block_root v b) now));
      [|apply Hr|done|done].
    destruct w as [s atts blks]. simpl. unfold sign_block, map_err, bind.
    change (block_signing_root b _) with (block_root v b).
    by destruct (check_and_record_block _ _ _ _ s) as [[[]|e] s1].
Qed.

Lemma simulate_db e w : is_signing e = false -> typed A B e -> simulated (VDb e) w.
Proof.
  intros Hs Ht. apply (simulated_one _ _ e); [|done..|congruence].
  destruct (run_event_quiet e (project w) Hs) as [Ea Eb].
  pose proof (run_event_db e (vw_db w) [] [] (w_atts (project w)) (w_blks (project w))) as Ed.
  unfold project at 1. cbn [vrun_event vw_db vw_atts vw_blks]. rewrite Ed.
  change (MkWorld (vw_db w) _ _) with (project w). destruct (run_event e (project w)).
  simpl in *. by subst.
Qed.

Lemma disciplined_app es1 es2 (w : world) :
  disciplined es1 w -> disciplined es2 (run es1 w) -> disciplined (es1 ++ es2) w.
Proof.
  revert w. induction es1 as [|e es1 IH]; intros w H1 H2; [done|].
  destruct H1 as [Hs H1]. split; [done|]. by apply IH.
Qed.

Lemma simulate_run evs w :
  (forall e, e ∈ evs -> forall w, simulated e w) ->
  exists es, project (vrun evs w) = run es (project w) /\ Forall (typed A B) es /\
    (Forall (fun e => vcrash e = false) evs -> Forall (fun e => is_crash e = false) es) /\
    (vdisciplined evs w -> disciplined es (project w)).
Proof.
  revert w. induction evs as [|e evs IH]; intros w Hsim; [by exists []|].
  destruct (Hsim e ltac:(left) w) as (es1 & E1 & T1 & C1 & D1).
  destruct (IH (vrun_event e w)) as (es2 & E2 & T2 & C2 & D2); [intros e' He'; apply Hsim; by right|].
  exists (es1 ++ es2). rewrite Forall_app, Forall_app, Forall_cons. simpl.
  split; [|split; [done|split; [naive_solver|]]].
  - unfold run. rewrite foldl_app. fold (run es1 (project w)). by rewrite <- E1.
  - intros [Hd Hds]. apply disciplined_app; [by apply D1|]. rewrite <- E1. by apply D2.
Qed.
End project.

(** ** The theorem *)

(** The history consists of requests of the run. *)
Lemma history_requested evs w :
  (forall v d, (v, d) ∈ vw_atts (vrun evs w) ->
     (v, d) ∈ vw_atts w \/ exists now, VSign v (RAttestation d) now ∈ evs) /\
  (forall v b, (v, b) ∈ vw_blks (vrun evs w) ->
     (v, b) ∈ vw_blks w \/ exists now, VSign v (RBlock b) now ∈ evs).
Proof.
  revert w. induction evs as [|e evs IH]; intros w; [by split; left|].
  destruct (IH (vrun_event e w)) as [IHa IHb]. simpl.
  split; [intros v d H%IHa|intros v b H%IHb];
    (destruct H as [H|[now H]]; [|right; exists now; by right]);
    (destruct e as [| v' r now|]; cbn [vrun_event] in H;
      try (destruct (sign v' r now _) as [[] ?], r; simpl in H));
    try (by left); try (apply elem_of_cons in H as [[= -> ->]|H]; [right; exists now; by left|by left]).
Qed.

Section theorem.
Context (evs : list vevent).
Context (FREE : ~ collision (requested_messages evs) (requested_messages evs)).
Context (TYPED : Forall vtyped evs).

Definition vrequests (root : bytes) (src : Epoch) : Prop := (root, src) ∈ vrequested evs.
Definition vmentions (root : bytes) (src : Epoch) : Prop := (root, src) ∈ vrequested evs ++ vimported evs.

Lemma vrequests_mentions root src : vrequests root src -> vmentions root src.
Proof. clear. intros H. apply elem_of_app. by left. Qed.

Lemma vrequests_inv root src : vrequests root src -> exists v d now,
  VSign v (RAttestation d) now ∈ evs /\ root_bytes (attestation_root v d) = root /\ epoch (source d) = src.
Proof.
  clear. intros (e & Hin & He)%list_elem_of_bind. destruct e as [|v [d| | | | | |] now|]; try by apply elem_of_nil in Hin.
  apply list_elem_of_singleton in Hin as [= -> ->]. by exists v, d, now.
Qed.

Lemma requested_messages_of v r now :
  VSign v r now ∈ evs -> request_messages (fork_info v) r ⊆ requested_messages evs.
Proof. clear. intros H m Hm. apply list_elem_of_bind. exists (VSign v r now). by split. Qed.

Lemma requested_wf v r now : VSign v r now ∈ evs -> validator_wf v /\ request_wf r.
Proof. intros H. rewrite Forall_forall in TYPED. by apply (TYPED _ H). Qed.

(** Requests of the run with one signing root have one content. *)
Lemma requested_root_inj v1 r1 n1 v2 r2 n2 :
  VSign v1 r1 n1 ∈ evs -> VSign v2 r2 n2 ∈ evs ->
  request_root (fork_info v1) r1 = request_root (fork_info v2) r2 -> same_content r1 r2.
Proof.
  intros H1 H2 E. destruct (requested_wf _ _ _ H1) as [_ W1], (requested_wf _ _ _ H2) as [_ W2].
  destruct (request_root_inj _ _ _ _ W1 W2 E) as [[_ ?]|Hc]; [done|].
  destruct FREE.
  exact (collision_mono _ _ _ _ (requested_messages_of _ _ _ H1) (requested_messages_of _ _ _ H2) Hc).
Qed.

Lemma vrequests_eq root x y :
  ~ import_conflict evs -> vrequests root x -> vmentions root y -> x = y.
Proof.
  intros Hn Hx [Hy|Hy]%elem_of_app.
  - apply vrequests_inv in Hx as (v & d & n & Hin & E & <-), Hy as (v' & d' & n' & Hin' & E' & <-).
    assert (attestation_root v d = attestation_root v' d') as Er
      by (destruct (attestation_root v d), (attestation_root v' d'); simpl in *; congruence).
    by injection (requested_root_inj _ _ _ _ _ _ Hin Hin' Er) as ->.
  - destruct (decide (x = y)) as [|Hne]; [done|]. destruct Hn.
    apply Exists_exists. exists (root, x). split; [done|]. apply Exists_exists. by exists (root, y).
Qed.

Lemma import_bound i now : VDb (EvImport i now) ∈ evs -> interchange_bound vmentions i.
Proof.
  clear. intros H. apply Forall_forall. intros vd Hvd. apply Forall_forall. intros a Ha src root Hs Hr.
  apply elem_of_app. right. apply list_elem_of_bind. exists (VDb (EvImport i now)). split; [|done].
  apply list_elem_of_bind. exists vd. split; [|done]. apply list_elem_of_omap. exists a. split; [done|].
  unfold file_source. by rewrite Hs, Hr.
Qed.

Lemma requested_simulated e w : e ∈ evs -> simulated vrequests vmentions e w.
Proof.
  intros He. pose proof (proj1 (Forall_forall _ _) TYPED e He) as Ht. destruct e as [|v r now|e].
  - apply simulate_new.
  - apply simulate_sign; [apply Ht|]. intros d ->. apply list_elem_of_bind. eexists. split; [|exact He]. by left.
  - apply simulate_db; [done|]. destruct e; try done. by eapply import_bound.
Qed.

Lemma vrun_good w :
  vfresh w -> Forall (fun e => vcrash e = false) evs \/ vdisciplined evs w ->
  good vrequests vmentions (project (vrun evs w)).
Proof.
  intros (Hd & Ha & Hb) Hsafe.
  destruct (simulate_run _ _ evs w (fun e He w => requested_simulated e w He)) as (es & -> & Ht & Hc & Hdis).
  assert (fresh (project w)) as Hf by (split; [done|]; simpl; by rewrite Ha, Hb).
  destruct (fresh_inv vrequests vmentions _ Hf) as (Hi & Hl & Hk).
  destruct Hsafe as [Hn|Hs].
  - apply run_good; [apply vrequests_mentions|done|auto|done].
  - apply run_disciplined; [apply vrequests_mentions|done|auto|done|done].
Qed.

Context (w : vworld) (FRESH : vfresh w).
Context (SAFE : Forall (fun e => vcrash e = false) evs \/ vdisciplined evs w).

Lemma signed_no_double v1 d1 v2 d2 :
  (v1, d1) ∈ vw_atts (vrun evs w) -> (v2, d2) ∈ vw_atts (vrun evs w) ->
  public_key v1 = public_key v2 -> ~ double_attestation d1 d2.
Proof.
  pose proof (vrun_good w FRESH SAFE) as Hg. destruct FRESH as (_ & Ha0 & _).
  destruct (history_requested evs w) as [Hra _]. rewrite Ha0 in Hra.
  intros H1 H2 Epk [Hne Et]. apply Hne.
  destruct (Hra _ _ H1) as [[]%elem_of_nil|[n1 R1]], (Hra _ _ H2) as [[]%elem_of_nil|[n2 R2]].
  destruct (decide (attestation_root v1 d1 = attestation_root v2 d2)) as [E|Hr].
  - by injection (requested_root_inj _ _ _ _ _ _ R1 R2 E).
  - destruct (good_no_double_vote _ _ _ Hg). pose proof (project_att _ _ _ H1) as P1.
    pose proof (project_att _ _ _ H2) as P2. rewrite Epk, Et in P1.
    do 6 eexists. split; [exact P1|]. split; [exact P2|done].
Qed.

Lemma signed_no_surround v1 d1 v2 d2 :
  ~ import_conflict evs ->
  (v1, d1) ∈ vw_atts (vrun evs w) -> (v2, d2) ∈ vw_atts (vrun evs w) ->
  public_key v1 = public_key v2 -> ~ surround_attestation d1 d2.
Proof.
  intros Hn H1 H2 Epk [Hs Ht]. pose proof (vrun_good w FRESH SAFE) as Hg.
  pose proof (project_att _ _ _ H1) as P1. pose proof (project_att _ _ _ H2) as P2. rewrite Epk in P1.
  destruct (good_no_surround_vote _ _ _ (fun root x y => vrequests_eq root x y Hn) Hg). do 7 eexists.
  split; [exact P1|]. split; [exact P2|done].
Qed.

Lemma signed_no_double_block v1 b1 v2 b2 :
  (v1, b1) ∈ vw_blks (vrun evs w) -> (v2, b2) ∈ vw_blks (vrun evs w) ->
  public_key v1 = public_key v2 -> slot b1 = slot b2 -> b1 = b2.
Proof.
  pose proof (vrun_good w FRESH SAFE) as Hg. destruct FRESH as (_ & _ & Hb0).
  destruct (history_requested evs w) as [_ Hrb]. rewrite Hb0 in Hrb. intros H1 H2 Epk Es.
  destruct (Hrb _ _ H1) as [[]%elem_of_nil|[n1 R1]], (Hrb _ _ H2) as [[]%elem_of_nil|[n2 R2]].
  destruct (decide (block_root v1 b1 = block_root v2 b2)) as [E|Hr].
  - by injection (requested_root_inj _ _ _ _ _ _ R1 R2 E).
  - destruct (good_no_double_proposal _ _ _ Hg). pose proof (project_blk _ _ _ H1) as P1.
    pose proof (project_blk _ _ _ H2) as P2. rewrite Epk, Es in P1.
    do 4 eexists. split; [exact P1|]. split; [exact P2|done].
Qed.
End theorem.

(** C5: validators, for whatever forks, are created and asked to sign, in any
    order and interleaved with imports, failures of the store and all other
    uses of the database.  Then either two of the messages hashed for the
    requests collide, or: no two different attestations are signed with one
    public key for one target epoch; no two different blocks for one slot; and
    no signed attestation surrounds another one of that key, unless an
    imported document records the signing root of a requested attestation with
    another source epoch.  There is no crash in the run, or else signatures
    are only requested while every record is on disk. *)
Theorem ethereum_no_slashable_signature (evs : list vevent) (w : vworld) :
  vfresh w -> Forall vtyped evs ->
  Forall (fun e => vcrash e = false) evs \/ vdisciplined evs w ->
  collision (requested_messages evs) (requested_messages evs) \/
  (forall v1 d1 v2 d2,
     (v1, d1) ∈ vw_atts (vrun evs w) -> (v2, d2) ∈ vw_atts (vrun evs w) ->
     public_key v1 = public_key v2 ->
     ~ double_attestation d1 d2 /\ (import_conflict evs \/ ~ surround_attestation d1 d2)) /\
  (forall v1 b1 v2 b2,
     (v1, b1) ∈ vw_blks (vrun evs w) -> (v2, b2) ∈ vw_blks (vrun evs w) ->
     public_key v1 = public_key v2 -> slot b1 = slot b2 -> b1 = b2).
Proof.
  intros Hw Ht Hsafe.
  destruct (decide (collision (requested_messages evs) (requested_messages evs))) as [|Hfree]; [by left|right].
  split; [|by apply signed_no_double_block].
  intros v1 d1 v2 d2 H1 H2 Epk. split; [by eapply (signed_no_double evs)|].
  destruct (decide (import_conflict evs)) as [|Hn]; [by left|right]. by eapply (signed_no_surround evs).
Qed.
End safety.
