(* ===== verification/ValidatorService.v ===== *)
(** * The validator service

    [crates/validator/src/service.rs]: the two databases and the validators
    created on them.  A validator holds a reference to the database of the
    service, so signing through it is an operation of the service's state.
    The results of creating directories and opening stores are arguments of
    [new_with_options]; the sources are built with the [babylon] feature. *)

From Stdlib Require Import ZArith Lia Strings.Byte.
From stdpp Require Import base gmap strings list.
From S2P Require Import Eots EthereumValidator EthereumSafety.
From S2P Require Import Prelude External ValidatorTypes SlashingDb SlashingInv Interchange SlashingSafety.

Section service.
Context {SHA : Sha256} {BLS : Bls} {SECP : Secp256k1} {db : Type} {SLED : Sled db} {HEX : Hex}.
Context {SV : Serde ValidatorData} {SA : Serde AttestationData} {SB : Serde BlockData}.
Context {SK : Serde EotsKeyData}.

Record ValidatorService := MkValidatorService {
  base_dir : string;
  eth_slashing_db : SlashingProtectionDb db;
  babylon_slashing_db : option db;
  eth_validators : gmap bytes EthereumValidator;
  babylon_validators : gmap bytes BabylonValidator
}.

(** Opening the service: each step is the outcome of a call of the file
    system or of [sled]. *)
Definition new_with_options (dir : string) (enable_babylon : bool)
    (create_base create_eth : result unit string) (open_eth : result db string)
    (create_babylon : result unit string) (open_babylon : result db string)
  : result ValidatorService ValidatorError :=
  let? _ := rmap_err Io create_base in
  let? _ := rmap_err Io create_eth in
  let? eth := rmap_err Database open_eth in
  let? babylon :=
    if enable_babylon then
      let? _ := rmap_err Io create_babylon in
      let? d := rmap_err Database open_babylon in
      Ok (Some d)
    else Ok None in
  Ok (MkValidatorService dir (open eth) babylon ∅ ∅).

Record ValidatorServiceBuilder := MkBuilder { b_base_dir : string; enable_babylon : bool }.
Definition builder_new (dir : string) : ValidatorServiceBuilder := MkBuilder dir false.
Definition with_babylon (b : ValidatorServiceBuilder) : ValidatorServiceBuilder :=
  MkBuilder (b_base_dir b) true.
Definition build (b : ValidatorServiceBuilder) :=
  new_with_options (b_base_dir b) (enable_babylon b).

(** Calls of the two databases. *)
Definition on_eth {E A} (c : M (SlashingProtectionDb db) E A) : M ValidatorService E A := fun s =>
  let '(r, d) := c (eth_slashing_db s) in
  (r, MkValidatorService (base_dir s) d (babylon_slashing_db s) (eth_validators s) (babylon_validators s)).

Definition not_enabled : ValidatorError :=
  Internal "Babylon support is not enabled on this validator service".

Definition on_babylon {A} (c : M db ValidatorError A) : M ValidatorService ValidatorError A := fun s =>
  match babylon_slashing_db s with
  | None => (Err not_enabled, s)
  | Some d =>
      let '(r, d') := c d in
      (r, MkValidatorService (base_dir s) (eth_slashing_db s) (Some d') (eth_validators s) (babylon_validators s))
  end.

Definition create_ethereum_validator (secret_key : bytes) (fork : ForkInfo) (now : DateTime)
  : M ValidatorService ValidatorError EthereumValidator :=
  let! validator := on_eth (EthereumValidator.new secret_key fork now) in
  let pubkey := pk_bytes (public_key validator) in
  modify (fun s => MkValidatorService (base_dir s) (eth_slashing_db s) (babylon_slashing_db s)
    (<[pubkey := validator]> (eth_validators s)) (babylon_validators s)) ;!
  ret validator.

Definition get_ethereum_validator (pk : bytes) (s : ValidatorService) : option EthereumValidator :=
  eth_validators s !! pk.

(** In the unspecified order of the hash map. *)
Definition list_ethereum_validators (s : ValidatorService) : list BlsPublicKey :=
  MkBlsPublicKey <$> elements (dom (eth_validators s)).

Definition insert_babylon (key : EotsKey) : M ValidatorService ValidatorError BabylonValidator :=
  let validator := MkBabylonValidator key in
  modify (fun s => MkValidatorService (base_dir s) (eth_slashing_db s) (babylon_slashing_db s)
    (eth_validators s) (<[ek_public_key key := validator]> (babylon_validators s))) ;!
  ret validator.

Definition create_babylon_validator (secret_key : bytes) (chain_id : string) (now : DateTime)
  : M ValidatorService ValidatorError BabylonValidator :=
  let! key := on_babylon (Eots.new secret_key chain_id now) in insert_babylon key.

(** [key] is the random key drawn. *)
Definition generate_babylon_validator (key : SigningKey) (chain_id : string) (now : DateTime)
  : M ValidatorService ValidatorError BabylonValidator :=
  let! key := on_babylon (Eots.generate key chain_id now) in insert_babylon key.

Definition get_babylon_validator (pk : bytes) (s : ValidatorService) : option BabylonValidator :=
  babylon_validators s !! pk.

Definition export_ethereum_slashing_protection (genesis_validators_root : string)
    (public_keys : option (list BlsPublicKey)) : M ValidatorService ValidatorError Eip3076Interchange :=
  on_eth (export genesis_validators_root public_keys).

Definition import_ethereum_slashing_protection (i : Eip3076Interchange) (now : DateTime)
  : M ValidatorService ValidatorError ImportResult :=
  on_eth (import i now).

Definition ethereum_stats (s : ValidatorService) : SlashingStats := stats (eth_slashing_db s).

Definition get_ethereum_validator_summary (pk : bytes)
  : M ValidatorService ValidatorError ValidatorSummary := on_eth (get_validator_summary pk).

Definition flush : M ValidatorService ValidatorError unit :=
  on_eth SlashingDb.flush ;!
  fun s => match babylon_slashing_db s with
           | None => (Ok tt, s)
           | Some _ => on_babylon Eots.flush s
           end.
End service.
Arguments ValidatorService {BLS SECP} db.

(** ** The registry *)

Section registry.
Context {SHA : Sha256} {BLS : Bls} {SECP : Secp256k1} {db : Type} {SLED : Sled db} {LAWS : SledLaws db}.
Context {HEX : Hex} {SV : Serde ValidatorData} {SA : Serde AttestationData} {SB : Serde BlockData}.
Context {SK : Serde EotsKeyData}.
Abbreviation Service := (ValidatorService db).

(** The calls of the service's interface; signing goes through a validator
    obtained from it. *)
Inductive call :=
| CreateEthereum (secret : bytes) (fork : ForkInfo) (now : DateTime)
| CreateBabylon (secret : bytes) (chain_id : string) (now : DateTime)
| GenerateBabylon (key : SigningKey) (chain_id : string) (now : DateTime)
| SignEthereum (pk : bytes) (r : request) (now : DateTime)
| SignBabylon (pk : bytes) (height : BlockHeight) (block_hash : bytes) (now : DateTime)
| Export (genesis : string) (keys : option (list BlsPublicKey))
| Import (i : Eip3076Interchange) (now : DateTime)
| Summary (pk : bytes)
| Flush.

(** What a call answers. *)
Inductive answer :=
| CreatedEthereum (v : EthereumValidator)
| CreatedBabylon (v : BabylonValidator)
| Signed (signature : bytes)
| Voted (signature : EotsSignature)
| Exported (i : Eip3076Interchange)
| Imported (r : ImportResult)
| Summarised (x : ValidatorSummary)
| Flushed
| NoSuchValidator
| Failed (e : ValidatorError).

Definition answered {A} (f : A -> answer) (x : result A ValidatorError * Service) : answer * Service :=
  (match x.1 with Ok a => f a | Err e => Failed e end, x.2).

Definition perform (c : call) (s : Service) : answer * Service :=
  match c with
  | CreateEthereum secret fork now => answered CreatedEthereum (create_ethereum_validator secret fork now s)
  | CreateBabylon secret chain now => answered CreatedBabylon (create_babylon_validator secret chain now s)
  | GenerateBabylon key chain now => answered CreatedBabylon (generate_babylon_validator key chain now s)
  | SignEthereum pk r now =>
      match get_ethereum_validator pk s with
      | Some v => answered Signed (on_eth (sign v r now) s)
      | None => (NoSuchValidator, s)
      end
  | SignBabylon pk height hash now =>
      match get_babylon_validator pk s with
      | Some v => answered Voted (on_babylon (babylon_sign_finality_vote v height hash now) s)
      | None => (NoSuchValidator, s)
      end
  | Export g keys => answered Exported (export_ethereum_slashing_protection g keys s)
  | Import i now => answered Imported (import_ethereum_slashing_protection i now s)
  | Summary pk => answered Summarised (get_ethereum_validator_summary pk s)
  | Flush => answered (fun _ => Flushed) (flush s)
  end.

(** A sequence of calls: the state it leaves and what it answers. *)
Definition performs (cs : list call) (s : Service) : Service := foldl (fun s c => (perform c s).2) s cs.
Fixpoint answers (cs : list call) (s : Service) : list answer :=
  match cs with [] => [] | c :: cs => (perform c s).1 :: answers cs (perform c s).2 end.

(** Every validator is filed under the public key of its own secret key; there
    are Babylon validators only with a Babylon database. *)
Record service_wf (s : Service) : Prop := {
  wf_eth : forall pk v, get_ethereum_validator pk s = Some v ->
    pk_bytes (public_key v) = pk /\ validator_wf v;
  wf_babylon : forall pk v, get_babylon_validator pk s = Some v ->
    ek_public_key (eots_key v) = pk /\ key_wf (eots_key v) /\ is_Some (babylon_slashing_db s)
}.

Lemma new_with_options_wf dir en r1 r2 r3 r4 r5 s :
  new_with_options dir en r1 r2 r3 r4 r5 = Ok s -> service_wf s.
Proof.
  unfold new_with_options, rbind. intros E. repeat case_match; simplify_eq/=;
    split; intros pk v; unfold get_ethereum_validator, get_babylon_validator; simpl; by rewrite lookup_empty.
Qed.

Lemma on_eth_same {E A} (c : M (SlashingProtectionDb db) E A) s :
  eth_validators (on_eth c s).2 = eth_validators s /\
  babylon_validators (on_eth c s).2 = babylon_validators s /\
  babylon_slashing_db (on_eth c s).2 = babylon_slashing_db s.
Proof. unfold on_eth. by destruct (c _). Qed.

Lemma on_babylon_same {A} (c : M db ValidatorError A) s :
  eth_validators (on_babylon c s).2 = eth_validators s /\
  babylon_validators (on_babylon c s).2 = babylon_validators s /\
  (is_Some (babylon_slashing_db s) -> is_Some (babylon_slashing_db (on_babylon c s).2)).
Proof. unfold on_babylon. destruct (babylon_slashing_db s); [by destruct (c _)|]. by intuition. Qed.

Lemma same_wf s s' :
  eth_validators s' = eth_validators s -> babylon_validators s' = babylon_validators s ->
  (is_Some (babylon_slashing_db s) -> is_Some (babylon_slashing_db s')) -> service_wf s -> service_wf s'.
Proof.
  intros E1 E2 E3 [H1 H2].
  split; unfold get_ethereum_validator, get_babylon_validator in *; rewrite ?E1, ?E2; [done|].
  naive_solver.
Qed.

Lemma on_eth_wf {E A} (c : M (SlashingProtectionDb db) E A) s : service_wf s -> service_wf (on_eth c s).2.
Proof. destruct (on_eth_same c s) as (? & ? & E3). apply same_wf; [done..|by rewrite E3]. Qed.

Lemma on_babylon_wf {A} (c : M db ValidatorError A) s : service_wf s -> service_wf (on_babylon c s).2.
Proof. destruct (on_babylon_same c s) as (? & ? & ?). by apply same_wf. Qed.

Lemma insert_babylon_wf key s :
  key_wf key -> is_Some (babylon_slashing_db s) -> service_wf s -> service_wf (insert_babylon key s).2.
Proof.
  intros Hk Hb [H1 H2]. split; [done|]. unfold get_babylon_validator. simpl.
  intros pk v. rewrite lookup_insert_Some. intros [[<- <-]|[_ Hv]]; [done|]. by apply H2.
Qed.

Lemma create_babylon_wf (c : M db ValidatorError EotsKey) s :
  (forall d k d', c d = (Ok k, d') -> key_wf k) -> service_wf s ->
  service_wf (bind (on_babylon c) insert_babylon s).2.
Proof.
  intros Hc Hs. apply (on_babylon_wf c) in Hs as Hs'. revert Hs'. unfold bind, on_babylon.
  destruct (babylon_slashing_db s); [|done]. destruct (c _) as [[k|e] d'] eqn:E; [|done].
  intros Hs'. apply insert_babylon_wf; [by eapply Hc|done|done].
Qed.

Lemma create_ethereum_wf secret fork now s :
  service_wf s -> service_wf (create_ethereum_validator secret fork now s).2.
Proof.
  intros Hs. apply (on_eth_wf (EthereumValidator.new secret fork now)) in Hs as Hs'. revert Hs'.
  unfold create_ethereum_validator, bind, on_eth.
  destruct (EthereumValidator.new _ _ _ _) as [[v|e] d'] eqn:E; [|done]. intros [H1 H2].
  split; [|done]. unfold get_ethereum_validator. simpl. intros pk v'.
  rewrite lookup_insert_Some. intros [[<- <-]|[_ Hv]]; [|by apply H1].
  split; [done|]. by eapply validator_new_wf.
Qed.

Lemma perform_wf c s : service_wf s -> service_wf (perform c s).2.
Proof.
  intros Hs. destruct c; simpl.
  - by apply create_ethereum_wf.
  - apply create_babylon_wf; [apply eots_new_wf|done].
  - apply create_babylon_wf; [apply generate_wf|done].
  - destruct (get_ethereum_validator pk s); [by apply on_eth_wf|done].
  - destruct (get_babylon_validator pk s); [by apply on_babylon_wf|done].
  - by apply on_eth_wf.
  - by apply on_eth_wf.
  - by apply on_eth_wf.
  - apply (on_eth_wf SlashingDb.flush) in Hs. unfold flush, bind. revert Hs.
    destruct (on_eth SlashingDb.flush s) as [[[]|e] s1]; [|done]. simpl. intros Hs.
    destruct (babylon_slashing_db s1) eqn:E; [|done]. by apply on_babylon_wf.
Qed.

(** ** The service as an interleaving of the two machines *)

Definition eth_events (c : call) (s : Service) : list vevent :=
  match c with
  | CreateEthereum secret fork now => [VNew secret fork now]
  | SignEthereum pk r now =>
      match get_ethereum_validator pk s with Some v => [VSign v r now] | None => [] end
  | Export g keys => [VDb (EvExport g keys)]
  | Import i now => [VDb (EvImport i now)]
  | Summary pk => [VDb (EvSummary pk)]
  | Flush => [VDb EvFlush]
  | _ => []
  end.

(** A flush that fails on the first database does not reach the second. *)
Definition babylon_events (c : call) (s : Service) : list Eots.event :=
  match c with
  | CreateBabylon secret chain now => [Eots.EvNew secret chain now]
  | GenerateBabylon key chain now => [Eots.EvGenerate key chain now]
  | SignBabylon pk height hash now =>
      match get_babylon_validator pk s with
      | Some v => [Eots.EvVote (eots_key v) height hash now]
      | None => []
      end
  | Flush => if is_ok (SlashingDb.flush (eth_slashing_db s)).1 then [Eots.EvFlush] else []
  | _ => []
  end.

Fixpoint eth_trace (cs : list call) (s : Service) : list vevent :=
  match cs with [] => [] | c :: cs => eth_events c s ++ eth_trace cs (perform c s).2 end.
Fixpoint babylon_trace (cs : list call) (s : Service) : list Eots.event :=
  match cs with [] => [] | c :: cs => babylon_events c s ++ babylon_trace cs (perform c s).2 end.

Definition call_typed (c : call) : Prop :=
  match c with
  | SignEthereum _ r _ => request_wf r
  | SignBabylon _ height _ _ => u64 height
  | _ => True
  end.

(** Every call is a composition of calls of the two databases. *)
Ltac perform_cases :=
  unfold perform, answered, create_ethereum_validator, create_babylon_validator, generate_babylon_validator,
    export_ethereum_slashing_protection, import_ethereum_slashing_protection,
    get_ethereum_validator_summary, flush, babylon_sign_finality_vote, insert_babylon,
    bind, on_eth, on_babylon, modify, ret in *;
  repeat case_match; simplify_eq/=; try done; try congruence;
  match goal with H : _ = (_, _) |- _ => rewrite H; by repeat case_match end.

Lemma perform_eth c s (w : vworld) :
  vw_db w = eth_slashing_db s -> vw_db (vrun (eth_events c s) w) = eth_slashing_db (perform c s).2.
Proof.
  destruct w as [d atts blks]. simpl. intros ->.
  destruct c; unfold eth_events, vrun, flip; cbn [foldl vrun_event vw_db run_event w_db with_db];
    perform_cases.
Qed.

Lemma perform_babylon c s (w : Eots.world) :
  babylon_slashing_db s = Some (v_db w) ->
  babylon_slashing_db (perform c s).2 = Some (v_db (Eots.run (babylon_events c s) w)).
Proof.
  destruct w as [d votes]. simpl. intros E.
  destruct c; unfold babylon_events, Eots.run, flip; cbn [foldl Eots.run_event v_db]; perform_cases.
Qed.

Lemma perform_no_babylon c s :
  babylon_slashing_db s = None -> babylon_slashing_db (perform c s).2 = None.
Proof. intros E. destruct c; perform_cases. Qed.

(** The same for sequences of calls. *)
Lemma performs_wf cs s : service_wf s -> service_wf (performs cs s).
Proof. revert s. induction cs as [|c cs IH]; intros s Hs; [done|]. by apply IH, perform_wf. Qed.

Lemma performs_eth cs s (w : vworld) :
  vw_db w = eth_slashing_db s ->
  eth_slashing_db (performs cs s) = vw_db (vrun (eth_trace cs s) w).
Proof.
  revert s w. induction cs as [|c cs IH]; intros s w E; [done|]. simpl.
  unfold vrun. rewrite foldl_app. apply IH. by apply perform_eth.
Qed.

Lemma performs_babylon cs s (w : Eots.world) :
  babylon_slashing_db s = Some (v_db w) ->
  babylon_slashing_db (performs cs s) = Some (v_db (Eots.run (babylon_trace cs s) w)).
Proof.
  revert s w. induction cs as [|c cs IH]; intros s w E; [done|]. simpl.
  unfold Eots.run. rewrite foldl_app. apply IH. by apply perform_babylon.
Qed.

Lemma performs_no_babylon cs s :
  babylon_slashing_db s = None -> babylon_slashing_db (performs cs s) = None.
Proof. revert s. induction cs as [|c cs IH]; intros s E; [done|]. by apply IH, perform_no_babylon. Qed.

Lemma eth_trace_typed cs s : service_wf s -> Forall call_typed cs -> Forall vtyped (eth_trace cs s).
Proof.
  intros Hs Ht. revert s Hs. induction Ht as [|c cs Hc _ IH]; intros s Hs; simpl; [done|].
  apply Forall_app. split; [|by apply IH, perform_wf].
  destruct c as [| | |pk r now| | | | |]; simpl; repeat constructor.
  destruct (get_ethereum_validator pk s) as [v|] eqn:E; [|done].
  apply (wf_eth _ Hs) in E as [_ ?]. by apply list.Forall_singleton.
Qed.

Lemma eth_trace_crash cs s : Forall (fun e => vcrash e = false) (eth_trace cs s).
Proof.
  revert s. induction cs as [|c cs IH]; intros s; simpl; [done|]. apply Forall_app. split; [|apply IH].
  destruct c; simpl; repeat constructor. destruct (get_ethereum_validator _ _); repeat constructor.
Qed.

Lemma babylon_trace_typed cs s :
  service_wf s -> Forall call_typed cs -> Forall Eots.typed (babylon_trace cs s).
Proof.
  intros Hs Ht. revert s Hs. induction Ht as [|c cs Hc _ IH]; intros s Hs; simpl; [done|].
  apply Forall_app. split; [|by apply IH, perform_wf].
  destruct c as [| | | |pk height hash now| | | |]; simpl; repeat constructor.
  - destruct (get_babylon_validator pk s) as [v|] eqn:E; [|done].
    apply (wf_babylon _ Hs) in E as (_ & ? & _). by apply list.Forall_singleton.
  - destruct (is_ok _); repeat constructor.
Qed.

(** ** The signatures handed out *)

(** The validator, content and signature of an attestation, a block or a vote
    that a call has answered with a signature. *)
Definition attestation_out (x : call * answer) : option (bytes * EthereumValidator.AttestationData * bytes) :=
  match x with
  | (SignEthereum pk (RAttestation d) _, Signed sig) => Some (pk, d, sig)
  | _ => None
  end.
Definition block_out (x : call * answer) : option (bytes * BeaconBlockHeader * bytes) :=
  match x with
  | (SignEthereum pk (RBlock b) _, Signed sig) => Some (pk, b, sig)
  | _ => None
  end.
Definition vote_out (x : call * answer) : option (bytes * EotsSignature) :=
  match x with
  | (SignBabylon pk _ _ _, Voted sig) => Some (pk, sig)
  | _ => None
  end.

(** Those of a sequence of calls, the latest first. *)
Definition out {X} (f : call * answer -> option X) (cs : list call) (s : Service) : list X :=
  reverse (omap f (zip cs (answers cs s))).

(** The histories of the machines, with the signatures made. *)
Definition attestation_history (w : vworld (db := db)) : list (bytes * EthereumValidator.AttestationData * bytes) :=
  (fun '(v, d) => (pk_bytes (public_key v), d, sign_root v (attestation_root v d))) <$> vw_atts w.
Definition block_history (w : vworld (db := db)) : list (bytes * BeaconBlockHeader * bytes) :=
  (fun '(v, b) => (pk_bytes (public_key v), b, sign_root v (block_root v b))) <$> vw_blks w.

Lemma out_cons {X} (f : call * answer -> option X) c cs s :
  out f (c :: cs) s = out f cs (perform c s).2 ++ option_list (f (c, (perform c s).1)).
Proof. unfold out. simpl. by destruct (f _); simpl; rewrite ?reverse_cons, ?app_nil_r. Qed.

Lemma perform_signs c s (w : vworld) :
  service_wf s -> vw_db w = eth_slashing_db s ->
  let w' := vrun (eth_events c s) w in
  attestation_history w' = option_list (attestation_out (c, (perform c s).1)) ++ attestation_history w /\
  block_history w' = option_list (block_out (c, (perform c s).1)) ++ block_history w.
Proof.
  destruct w as [d atts blks]. simpl. intros Hs ->.
  destruct c as [| | |pk r now| | | | |]; try done. unfold eth_events, perform.
  destruct (get_ethereum_validator pk s) as [v|] eqn:E; [|by destruct r]. destruct (wf_eth _ Hs _ _ E) as [<- _].
  unfold vrun, flip, answered, on_eth. cbn [foldl vrun_event vw_db].
  destruct (sign v r now (eth_slashing_db s)) as [[sig|e] s1] eqn:Es; [|by destruct r].
  apply sign_Ok in Es as ->. by destruct r.
Qed.

Lemma perform_votes c s (w : Eots.world) :
  service_wf s -> babylon_slashing_db s = Some (v_db w) ->
  v_votes (Eots.run (babylon_events c s) w) = option_list (vote_out (c, (perform c s).1)) ++ v_votes w.
Proof.
  destruct w as [d votes]. simpl. intros Hs Ed.
  destruct c as [| | | |pk height hash now| | | |]; try done; simpl.
  - destruct (get_babylon_validator pk s) as [v|] eqn:E; [|done]. destruct (wf_babylon _ Hs _ _ E) as [<- _].
    unfold flip, Eots.run_event, answered, on_babylon, babylon_sign_finality_vote. simpl. rewrite Ed.
    by destruct (sign_finality_vote _ _ _ _ d) as [[] ?].
  - by destruct (is_ok _).
Qed.

Lemma performs_sign cs s (w : vworld) :
  service_wf s -> vw_db w = eth_slashing_db s ->
  attestation_history (vrun (eth_trace cs s) w) = out attestation_out cs s ++ attestation_history w /\
  block_history (vrun (eth_trace cs s) w) = out block_out cs s ++ block_history w.
Proof.
  revert s w. induction cs as [|c cs IH]; intros s w Hs E; [done|]. rewrite !out_cons, <- !app_assoc.
  destruct (perform_signs c s w Hs E) as [<- <-]. simpl. unfold vrun. rewrite foldl_app.
  apply IH; [by apply perform_wf|by apply perform_eth].
Qed.

Lemma performs_vote cs s (w : Eots.world) :
  service_wf s -> babylon_slashing_db s = Some (v_db w) ->
  v_votes (Eots.run (babylon_trace cs s) w) = out vote_out cs s ++ v_votes w.
Proof.
  revert s w. induction cs as [|c cs IH]; intros s w Hs E; [done|]. rewrite out_cons, <- app_assoc.
  rewrite <- (perform_votes c s w Hs E). simpl. unfold Eots.run. rewrite foldl_app.
  apply IH; [by apply perform_wf|by apply perform_babylon].
Qed.

Lemma performs_no_vote cs s : service_wf s -> babylon_slashing_db s = None -> out vote_out cs s = [].
Proof.
  revert s. induction cs as [|c cs IH]; intros s Hs E; [done|]. rewrite out_cons.
  rewrite IH; [|by apply perform_wf|by apply perform_no_babylon].
  destruct c as [| | | |pk height hash now| | | |]; try done; simpl.
  destruct (get_babylon_validator pk s) as [v|] eqn:Ev; [|done].
  destruct (wf_babylon _ Hs _ _ Ev) as (_ & _ & [d Hd]). congruence.
Qed.

(** C7: a service used through any sequence of calls is an interleaving of the
    two protected databases.  The Ethereum database is in the state its own
    machine reaches on the trace of the calls, and the attestations and blocks
    for which calls have answered a signature, with these signatures, are
    exactly the history of that machine.  The same holds of the Babylon
    database and its votes if it is enabled; otherwise there is none and no
    vote is ever answered.  The traces satisfy the conditions under which the
    machines are safe, and contain no crash. *)
Theorem service_refines (cs : list call) (s : Service) :
  service_wf s -> Forall call_typed cs ->
  let w := vrun (eth_trace cs s) (MkVWorld (eth_slashing_db s) [] []) in
  service_wf (performs cs s) /\
  eth_slashing_db (performs cs s) = vw_db w /\
  out attestation_out cs s = attestation_history w /\ out block_out cs s = block_history w /\
  Forall vtyped (eth_trace cs s) /\ Forall (fun e => vcrash e = false) (eth_trace cs s) /\
  match babylon_slashing_db s with
  | Some d =>
      let b := Eots.run (babylon_trace cs s) (Eots.MkWorld d []) in
      babylon_slashing_db (performs cs s) = Some (v_db b) /\ out vote_out cs s = v_votes b /\
      Forall Eots.typed (babylon_trace cs s)
  | None => babylon_slashing_db (performs cs s) = None /\ out vote_out cs s = []
  end.
Proof.
  intros Hs Ht w. split; [by apply performs_wf|]. split; [by apply performs_eth|].
  destruct (performs_sign cs s (MkVWorld (eth_slashing_db s) [] []) Hs eq_refl) as [Ea Eb].
  simpl in Ea, Eb. rewrite app_nil_r in Ea, Eb. do 2 (split; [done|]).
  split; [by apply eth_trace_typed|]. split; [apply eth_trace_crash|].
  destruct (babylon_slashing_db s) as [d|] eqn:E.
  - split; [by apply (performs_babylon cs s (Eots.MkWorld d []))|]. split; [|by apply babylon_trace_typed].
    rewrite (performs_vote cs s (Eots.MkWorld d []) Hs E). by rewrite app_nil_r.
  - split; [by apply performs_no_babylon|by apply performs_no_vote].
Qed.
End registry.
