(* ===== verification/ValidatorWitness.v ===== *)
(** * Runs of the slashing protection database and of the validators

    Concrete executions of the model on the in-memory store: the witnesses of
    the safety theorems, the runs that show where the protection has a gap,
    and keys, votes and requests for the theorems of [Eots],
    [EthereumValidator], [EthereumSafety] and [ValidatorService]. *)

From Stdlib Require Import ZArith Lia Strings.Byte.
From stdpp Require Import base gmap strings list countable.
From S2P Require Import Prelude External ValidatorTypes SlashingDb SlashingInv SlashingDecision Interchange.
From S2P Require Import SlashingSafety.
Import Concrete.

(** ** Codecs for the stored records *)

#[export] Instance ValidatorStatus_countable : Countable ValidatorStatus.
Proof.
  refine (inj_countable'
    (fun s => match s with Active => 0%nat | Disabled => 1%nat | Slashed => 2%nat | Exiting => 3%nat | Exited => 4%nat end)
    (fun n => match n with 0%nat => Active | 1%nat => Disabled | 2%nat => Slashed | 3%nat => Exiting | _ => Exited end) _).
  by intros [].
Defined.

#[export] Instance ValidatorData_eq_dec : EqDecision ValidatorData.
Proof. solve_decision. Defined.
#[export] Instance ValidatorData_countable : Countable ValidatorData.
Proof.
  refine (inj_countable'
    (fun d => (vd_public_key d, vd_status d, vd_min_source_epoch d, vd_min_target_epoch d, vd_min_slot d, vd_created_at d, vd_updated_at d))
    (fun '(a, b, c, d, e, f, g) => MkValidatorData a b c d e f g) _).
  by intros [].
Defined.

#[export] Instance AttestationData_eq_dec : EqDecision AttestationData.
Proof. solve_decision. Defined.
#[export] Instance AttestationData_countable : Countable AttestationData.
Proof.
  refine (inj_countable'
    (fun d => (ad_source_epoch d, ad_target_epoch d, ad_signing_root d, ad_signed_at d))
    (fun '(a, b, c, d) => MkAttestationData a b c d) _).
  by intros [].
Defined.

#[export] Instance BlockData_eq_dec : EqDecision BlockData.
Proof. solve_decision. Defined.
#[export] Instance BlockData_countable : Countable BlockData.
Proof.
  refine (inj_countable'
    (fun d => (bd_slot d, bd_signing_root d, bd_signed_at d))
    (fun '(a, b, c) => MkBlockData a b c) _).
  by intros [].
Defined.

#[export] Instance serde_ValidatorData : Serde ValidatorData := countable_serde.
#[export] Instance serde_AttestationData : Serde AttestationData := countable_serde.
#[export] Instance serde_BlockData : Serde BlockData := countable_serde.

(** ** Example data *)

Definition pk0 : bytes := replicate 48 Byte.x01.
Definition root_of (b : byte) : SigningRoot := MkSigningRoot (replicate 32 b).
Definition start (faults : list bool) : world := MkWorld (open (ms_empty faults)) [] [].

Lemma start_fresh faults : fresh (start faults).
Proof.
  split; [|done]. intros t. simpl. unfold ms_tree. by rewrite lookup_empty.
Defined.

(** Two refused conflicting requests among accepted ones, no fault. *)
Definition honest_run : list (event) :=
  [ EvRegister pk0 0;
    EvAttest pk0 1 5 (root_of Byte.x01) 1;
    EvAttest pk0 2 5 (root_of Byte.x02) 2;
    EvAttest pk0 2 4 (root_of Byte.x02) 3;
    EvAttest pk0 2 6 (root_of Byte.x02) 4;
    EvBlock pk0 7 (root_of Byte.x01) 5;
    EvBlock pk0 7 (root_of Byte.x02) 6;
    EvBlock pk0 8 (root_of Byte.x02) 7 ].

(** Each event of a closed run is typed. *)
Ltac typed_event :=
  simpl; unfold interchange_bound; simpl;
  repeat first [split | apply Forall_cons | apply Forall_nil]; first [lia | done].
Ltac typed_run := repeat (apply Forall_cons_2; [typed_event|]); apply Forall_nil_2.

Lemma honest_typed : Forall (typed any_source any_source) honest_run.
Proof. typed_run. Defined.

Lemma no_double_vote_witness :
  ~ double_vote (run honest_run (start [])) /\
  length (w_atts (run honest_run (start []))) = 2%nat.
Proof.
  split; [|by vm_compute].
  apply (no_double_vote honest_run (start [])).
  - apply start_fresh.
  - apply honest_typed.
  - repeat constructor.
Defined.

Lemma no_surround_vote_witness :
  ~ source_conflict honest_run /\ ~ surround_vote (run honest_run (start [])).
Proof.
  assert (~ source_conflict honest_run) as Hn by (apply (bool_decide_unpack _); vm_compute; exact I).
  split; [exact Hn|].
  destruct (no_surround_vote honest_run (start [])) as [Hc|H].
  - apply start_fresh.
  - apply honest_typed.
  - repeat constructor.
  - destruct (Hn Hc).
  - exact H.
Defined.

(** The check recognises a repeated request by its signing root alone.  A
    caller that presents one root with two source epochs is answered [Ok]
    for a vote that surrounds an earlier one. *)
Definition repeated_root_run : list event :=
  [ EvRegister pk0 0;
    EvAttest pk0 7 9 (root_of Byte.x02) 1;
    EvAttest pk0 10 10 (root_of Byte.x01) 2;
    EvAttest pk0 5 10 (root_of Byte.x01) 3 ].

Example repeated_root_surround :
  Forall (typed any_source any_source) repeated_root_run /\
  source_conflict repeated_root_run /\ surround_vote (run repeated_root_run (start [])).
Proof.
  split; [typed_run|]. split; [apply (bool_decide_unpack _); vm_compute; exact I|].
  exists pk0, 5, 10, (root_of Byte.x01), 7, 9, (root_of Byte.x02).
  split; [|split; [|lia]]; vm_compute; set_solver.
Qed.

Lemma no_double_proposal_witness :
  ~ double_proposal (run honest_run (start [])) /\
  length (w_blks (run honest_run (start []))) = 2%nat.
Proof.
  split; [|by vm_compute].
  apply (no_double_proposal honest_run (start [])).
  - apply start_fresh.
  - apply honest_typed.
  - repeat constructor.
Defined.

(** ** Decisions on a store without faults *)

#[export] Instance mem_sled_reliable : Reliable (fun d : mem_sled => ms_faults d = []).
Proof.
  split; intros; simpl; unfold ms_faulty; rewrite ?H; simpl; repeat eexists; done.
Qed.

Lemma countable_total {A} `{Countable A} : @total_serde A countable_serde.
Proof. intros a. by eexists. Qed.

Lemma honest_inv : db_inv any_source (store (w_db (run honest_run (start [])))).
Proof.
  apply (run_good any_source any_source); [done|apply honest_typed|repeat constructor|].
  destruct (fresh_inv any_source any_source _ (start_fresh [])) as (? & ? & _). by split.
Qed.

(** The vote at target 5 is on record: repeating it is approved, another one
    is not. *)
Lemma attestation_accepted_iff_witness :
  attestation_acceptable (w_db (run honest_run (start []))) pk0 1 5 (root_of Byte.x01) /\
  ~ attestation_acceptable (w_db (run honest_run (start []))) pk0 2 5 (root_of Byte.x02).
Proof.
  set (s := w_db (run honest_run (start []))).
  assert (ms_faults (store s) = []) as Hf by (vm_compute; reflexivity).
  split.
  - pose proof (attestation_accepted_iff _ countable_total countable_total any_source pk0 1 5
      (root_of Byte.x01) 9 s Hf honest_inv) as H.
    assert (is_ok (check_and_record_attestation pk0 1 5 (root_of Byte.x01) 9 s).1 = true) as E
      by (vm_compute; reflexivity).
    destruct (check_and_record_attestation _ _ _ _ _ s) as [[[]|e] s']; [|discriminate E]. by apply H.
  - pose proof (attestation_accepted_iff _ countable_total countable_total any_source pk0 2 5
      (root_of Byte.x02) 9 s Hf honest_inv) as H.
    assert (is_ok (check_and_record_attestation pk0 2 5 (root_of Byte.x02) 9 s).1 = false) as E
      by (vm_compute; reflexivity).
    destruct (check_and_record_attestation _ _ _ _ _ s) as [[[]|e] s']; [discriminate E|].
    intros Ha. destruct H as [H _]. apply H in Ha. discriminate Ha.
Defined.

Lemma block_accepted_iff_witness :
  block_acceptable (w_db (run honest_run (start []))) pk0 7 (root_of Byte.x01).
Proof.
  set (s := w_db (run honest_run (start []))).
  assert (ms_faults (store s) = []) as Hf by (vm_compute; reflexivity).
  pose proof (block_accepted_iff _ countable_total countable_total any_source pk0 7
      (root_of Byte.x01) 9 s Hf honest_inv) as H.
  assert (is_ok (check_and_record_block pk0 7 (root_of Byte.x01) 9 s).1 = true) as E
    by (vm_compute; reflexivity).
  destruct (check_and_record_block _ _ _ _ s) as [[[]|e] s']; [|discriminate E]. by apply H.
Defined.

(** A crash between two votes: the registration and the first vote were made
    durable by the flush of the vote, so the conflicting one is refused. *)
Definition crash_run : list event :=
  [ EvRegister pk0 0;
    EvAttest pk0 1 5 (root_of Byte.x01) 1;
    EvCrash;
    EvAttest pk0 2 5 (root_of Byte.x02) 2;
    EvAttest pk0 2 6 (root_of Byte.x02) 3 ].

Lemma crash_safety_witness :
  ~ double_vote (run crash_run (start [])) /\
  length (w_atts (run crash_run (start []))) = 2%nat.
Proof.
  split; [|by vm_compute].
  apply (crash_safety crash_run (start [])).
  - apply start_fresh.
  - typed_run.
  - split; [done|].
    split; [intros _; split; apply (bool_decide_unpack _); vm_compute; exact I|].
    split; [done|].
    split; [intros _; split; apply (bool_decide_unpack _); vm_compute; exact I|].
    split; [intros _; split; apply (bool_decide_unpack _); vm_compute; exact I|].
    exact I.
Defined.

(** The eighth store call after the registration, the flush of the vote,
    fails. *)
Definition retry_faults : list bool := replicate 8 false ++ [true].
Definition retry_run : list event :=
  [ EvRegister pk0 0;
    EvFlush;
    EvAttest pk0 1 5 (root_of Byte.x01) 1;
    EvAttest pk0 1 5 (root_of Byte.x01) 2;
    EvCrash;
    EvAttest pk0 2 5 (root_of Byte.x02) 3 ].

(** When the flush of a new record fails the caller gets an error, but the
    record stays in memory; a retry of the same attestation is answered [Ok]
    from memory without a flush, so a crash can then lose the record of a
    signed attestation and a conflicting one is signed afterwards. *)
Theorem retry_after_failed_flush_double_vote :
  fresh (start retry_faults) /\
  Forall (typed any_source any_source) retry_run /\ ~ source_conflict retry_run /\
  double_vote (run retry_run (start retry_faults)).
Proof.
  split; [apply start_fresh|]. split; [typed_run|].
  split; [apply (bool_decide_unpack _); vm_compute; exact I|].
  exists pk0, 2, 1, 5, (root_of Byte.x02), (root_of Byte.x01).
  split; [|split; [|done]]; vm_compute; set_solver.
Qed.

(** ** Imports that lower the protection *)

(** An interchange document for [pk0] with one attestation. *)
Definition document (src t : Epoch) (root : SigningRoot) : Eip3076Interchange :=
  MkEip3076Interchange (MkInterchangeMetadata INTERCHANGE_FORMAT_VERSION "0x00")
    [MkIValidatorData (BlsPublicKey_to_hex (MkBlsPublicKey pk0)) []
       [MkSignedAttestation (to_decimal src) (to_decimal t) (Some (SigningRoot_to_hex root))]].

(** The second document is skipped because of the minimum the first one set;
    the third one then lowers that minimum. *)
Definition import_run : list event :=
  [ EvImport (document 50 60 (root_of Byte.x32)) 0;
    EvImport (document 40 55 (root_of Byte.x28)) 1;
    EvImport (document 1 2 (root_of Byte.x01)) 2;
    EvAttest pk0 39 56 (root_of Byte.x27) 3 ].

(** Whether each import of a run was answered [Ok]. *)
Fixpoint import_answers (evs : list event) (w : world) : list bool :=
  match evs with
  | [] => []
  | EvImport i now as e :: evs =>
      is_ok (import i now (w_db w)).1 :: import_answers evs (run_event e w)
  | e :: evs => import_answers evs (run_event e w)
  end.

(** The imports of three documents, all answered [Ok], leave the database
    ready to sign an attestation that surrounds one the documents contain: the
    import sets the minimum epochs to the maxima of the document at hand even
    when that lowers them, and keeps no record of what it skips. *)
Theorem import_lowers_minimum :
  fresh (start []) /\
  Forall (typed any_source any_source) import_run /\ ~ source_conflict import_run /\
  import_answers import_run (start []) = [true; true; true] /\
  (exists now, EvImport (document 40 55 (root_of Byte.x28)) now ∈ import_run) /\
  w_atts (run import_run (start [])) = [(pk0, 39, 56, root_of Byte.x27)].
Proof.
  split; [apply start_fresh|]. split; [typed_run|].
  split; [apply (bool_decide_unpack _); vm_compute; exact I|].
  split; [by vm_compute|]. split; [exists 1; set_solver|by vm_compute].
Qed.

From S2P Require Import Eots EthereumValidator EthereumSafety ValidatorService.
Import ValidatorTypes SlashingDb SlashingInv Interchange SlashingSafety.

#[export] Instance EotsKeyData_eq_dec : EqDecision EotsKeyData.
Proof. solve_decision. Defined.
#[export] Instance EotsKeyData_countable : Countable EotsKeyData.
Proof.
  refine (inj_countable'
    (fun d => (ekd_public_key d, ekd_chain_id d, ekd_created_at d, ekd_last_activity d, ekd_signature_count d))
    (fun '(a, b, c, d, e) => MkEotsKeyData a b c d e) _).
  by intros [].
Defined.
#[export] Instance serde_EotsKeyData : Serde EotsKeyData := countable_serde.

(** ** Finality votes *)

Definition secret0 : bytes := replicate 32 Byte.x07.
Definition eots0 : EotsKey := MkEotsKey secret0 (to_sec1_bytes secret0) "bbn-1".
Definition eots_pk0 : bytes := ek_public_key eots0.
Definition hash_a : bytes := replicate 32 Byte.x0a.
Definition hash_b : bytes := replicate 32 Byte.x0b.

(** A second vote at height 7 is refused, also after a crash; the flush of the
    vote at height 9 fails, so that vote is not signed, and neither is its
    retry. *)
Definition vote_faults : list bool :=
  replicate 17 false ++ [true].
Definition vote_run : list Eots.event :=
  [ Eots.EvNew secret0 "bbn-1" 0;
    Eots.EvVote eots0 7 hash_a 1;
    Eots.EvVote eots0 7 hash_b 2;
    Eots.EvCrash;
    Eots.EvVote eots0 7 hash_b 3;
    Eots.EvVote eots0 8 hash_b 4;
    Eots.EvVote eots0 9 hash_a 5;
    Eots.EvVote eots0 9 hash_a 6 ].
Definition vote_start (faults : list bool) : Eots.world := Eots.MkWorld (ms_empty faults) [].

Lemma vote_start_fresh faults : Eots.fresh (vote_start faults).
Proof. split; [|done]. intros t. simpl. unfold ms_tree. by rewrite lookup_empty. Defined.

Lemma vote_typed : Forall Eots.typed vote_run.
Proof. repeat (apply Forall_cons_2; [simpl; try done|]); [..|apply Forall_nil_2]; split; done. Defined.

Lemma eots_no_double_sign_witness :
  NoDup (voted_heights (Eots.run vote_run (vote_start vote_faults))) /\
  voted_heights (Eots.run vote_run (vote_start vote_faults)) =
    [(eots_pk0, 8); (eots_pk0, 7)].
Proof.
  split; [|vm_compute; reflexivity].
  apply (eots_no_double_sign vote_run (vote_start vote_faults)).
  - apply vote_start_fresh.
  - apply vote_typed.
Defined.

Lemma eots_heights_listed_witness : NoDup [7; 8; 9].
Proof.
  apply (eots_heights_listed vote_run (vote_start vote_faults) eots_pk0 [7; 8; 9]
    (get_signed_heights eots_pk0 (v_db (Eots.run vote_run (vote_start vote_faults)))).2).
  - apply vote_start_fresh.
  - apply vote_typed.
  - reflexivity.
  - refine (eq_trans (surjective_pairing _) (f_equal (fun r => (r, _)) _)). vm_compute. reflexivity.
Defined.

Lemma eots_vote_message_binding_witness :
  (7 = 7 /\ hash_a = hash_a /\ "bbn-1" = "bbn-1")%string \/
  collision [create_vote_message "bbn-1" 7 hash_a] [create_vote_message "bbn-1" 7 hash_a].
Proof. apply (eots_vote_message_binding "bbn-1" "bbn-1" 7 7 hash_a hash_a); done. Defined.

(** ** Ethereum validators *)

Definition fork0 : ForkInfo := MkForkInfo (zeros 4) (replicate 32 Byte.x05).
Definition validator0 : EthereumValidator :=
  MkEthereumValidator (MkBlsPublicKey (compressed_public_key secret0)) secret0 fork0.
Definition attest (src tgt : Epoch) (root : byte) : request :=
  RAttestation (MkAttestation 100 1 (replicate 32 root)
    (MkCheckpoint src (zeros 32)) (MkCheckpoint tgt (replicate 32 root))).
Definition propose (s : Slot) (root : byte) : request :=
  RBlock (MkBeaconBlockHeader s 3 (zeros 32) (replicate 32 root) (replicate 32 root)).

(** A double vote, a surrounded vote and a double proposal are refused; duties
    of other kinds are served in between. *)
Definition duties : list vevent :=
  [ VNew secret0 fork0 0;
    VSign validator0 (attest 1 5 Byte.x01) 1;
    VSign validator0 (attest 1 5 Byte.x02) 2;
    VSign validator0 (RRandao 5) 3;
    VSign validator0 (attest 2 4 Byte.x01) 4;
    VSign validator0 (propose 9 Byte.x01) 5;
    VSign validator0 (propose 9 Byte.x02) 6;
    VDb (EvFlush);
    VSign validator0 (attest 5 6 Byte.x03) 7 ].
Definition duties_start : vworld := MkVWorld (open (ms_empty [])) [] [].

(** Absence of collisions in a list of messages, by comparing all pairs. *)
Definition collision_free (ms : list bytes) : bool :=
  let hs := (fun x => (x, sha256 x)) <$> ms in
  forallb (fun a => forallb (fun b => bool_decide (a.1 = b.1) || negb (bool_decide (a.2 = b.2))) hs) hs.

Lemma collision_free_spec ms : collision_free ms = true -> ~ collision ms ms.
Proof.
  unfold collision_free. intros H (x & y & Hx & Hy & Hne & E).
  assert (forall z, z ∈ ms -> In (z, sha256 z) ((fun x => (x, sha256 x)) <$> ms)) as Hin.
  { intros z Hz. apply list_elem_of_In, list_elem_of_fmap. by exists z. }
  rewrite forallb_forall in H. specialize (H _ (Hin x Hx)).
  rewrite forallb_forall in H. specialize (H _ (Hin y Hy)).
  simpl in H. rewrite (bool_decide_eq_false_2 _ Hne), (bool_decide_eq_true_2 _ E) in H. discriminate H.
Qed.

Ltac request_bounds := repeat split; simpl; first [lia | reflexivity].

Lemma ethereum_no_slashable_signature_witness :
  (forall v1 d1 v2 d2,
     (v1, d1) ∈ vw_atts (vrun duties duties_start) -> (v2, d2) ∈ vw_atts (vrun duties duties_start) ->
     public_key v1 = public_key v2 -> ~ double_attestation d1 d2 /\ ~ surround_attestation d1 d2) /\
  length (vw_atts (vrun duties duties_start)) = 2%nat /\
  length (vw_blks (vrun duties duties_start)) = 1%nat.
Proof.
  split; [|split; vm_compute; reflexivity].
  destruct (ethereum_no_slashable_signature duties duties_start) as [Hc|[H _]].
  - split; [|split; reflexivity]. intros t. simpl. unfold ms_tree. by rewrite lookup_empty.
  - repeat (apply Forall_cons_2; [first [exact I | reflexivity | split; [reflexivity|]; request_bounds]|]).
    apply Forall_nil_2.
  - left. repeat constructor.
  - exfalso. revert Hc. apply collision_free_spec. vm_compute. reflexivity.
  - intros v1 d1 v2 d2 H1 H2 E. destruct (H v1 d1 v2 d2 H1 H2 E) as [Hd [Hi|Hs]]; [|by split].
    exfalso. revert Hi. apply Forall_not_Exists, Forall_true. intros x Hx. by apply Exists_nil in Hx.
Defined.

Lemma signatures_verify_witness :
  verify_signature (pk_bytes (public_key validator0))
    (root_bytes (request_root fork0 (RRandao 5))) (sign_randao validator0 5) = Ok true.
Proof.
  exact (proj1 (signatures_verify validator0 (RRandao 5) 0 (open (ms_empty [])) eq_refl)).
Defined.

(** An attestation and a block, signed one after the other by one validator. *)
Definition duty_store : SlashingProtectionDb mem_sled := (EthereumValidator.new secret0 fork0 0 (open (ms_empty []))).2.
Definition after_vote : SlashingProtectionDb mem_sled := (sign validator0 (attest 1 5 Byte.x01) 1 duty_store).2.
Definition vote_root : SigningRoot := request_root fork0 (attest 1 5 Byte.x01).
Definition proposal_root : SigningRoot := request_root fork0 (propose 9 Byte.x02).

Lemma signing_roots_separated_witness :
  vote_root <> proposal_root \/ same_content (attest 1 5 Byte.x01) (propose 9 Byte.x02) \/
  collision (request_messages fork0 (attest 1 5 Byte.x01)) (request_messages fork0 (propose 9 Byte.x02)).
Proof.
  apply (signing_roots_separated validator0 validator0 (attest 1 5 Byte.x01) (propose 9 Byte.x02) 1 2
    duty_store after_vote (sign_root validator0 vote_root) (sign_root validator0 proposal_root)
    after_vote (sign validator0 (propose 9 Byte.x02) 2 after_vote).2).
  - request_bounds.
  - request_bounds.
  - refine (eq_trans (surjective_pairing _) (f_equal (fun r => (r, _)) _)). vm_compute. reflexivity.
  - refine (eq_trans (surjective_pairing _) (f_equal (fun r => (r, _)) _)). vm_compute. reflexivity.
Defined.

(** ** The service *)

Definition service0 : ValidatorService mem_sled :=
  MkValidatorService "/var/lib/hsm" (open (ms_empty [])) (Some (ms_empty [])) ∅ ∅.
Definition calls : list call :=
  [ CreateEthereum secret0 fork0 0;
    CreateBabylon secret0 "bbn-1" 1;
    SignEthereum (pk_bytes (public_key validator0)) (attest 1 5 Byte.x01) 2;
    SignBabylon eots_pk0 7 hash_a 3;
    SignBabylon eots_pk0 7 hash_b 4;
    Flush ].

Lemma service_refines_witness :
  out attestation_out calls service0 =
    attestation_history (vrun (eth_trace calls service0) (MkVWorld (eth_slashing_db service0) [] [])) /\
  length (out attestation_out calls service0) = 1%nat /\ length (out vote_out calls service0) = 1%nat.
Proof.
  split; [|split; vm_compute; reflexivity].
  apply (service_refines calls service0).
  - apply (new_with_options_wf "/var/lib/hsm" true (Ok tt) (Ok tt) (Ok (ms_empty [])) (Ok tt) (Ok (ms_empty []))).
    reflexivity.
  - repeat (apply Forall_cons_2; [first [exact I | request_bounds]|]). apply Forall_nil_2.
Defined.
