(* ===== verification/Ttlv.v ===== *)
(** * The KMIP wire format

    [crates/kmip-server/src/ttlv]: tag-type-length-value items, their
    encoder, their decoder and the size and framing helpers.  The decoder
    reads from a buffer with the operations of [bytes::Buf], which panic when
    the buffer is too short; a panic is a value of the model, and so is
    running out of fuel in the loop over a structure's children, so that the
    theorems can state that neither happens. *)

From Stdlib Require Import ZArith Lia Strings.Byte.
From stdpp Require Import base gmap strings list.
From S2P Require Import Prelude.

(** ** Types ([types.rs]) *)

(** The tag is a 24-bit number in a [u32]. *)
Abbreviation Tag := Z (only parsing).

(** The constants of the module [tags]. *)
Module Tags.
Inductive KnownTag :=
| REQUEST_MESSAGE | RESPONSE_MESSAGE | REQUEST_HEADER | RESPONSE_HEADER | REQUEST_BATCH_ITEM
| RESPONSE_BATCH_ITEM | PROTOCOL_VERSION | PROTOCOL_VERSION_MAJOR | PROTOCOL_VERSION_MINOR
| BATCH_COUNT | BATCH_ITEM | OPERATION | RESULT_STATUS | RESULT_REASON | RESULT_MESSAGE
| UNIQUE_ID | OBJECT_TYPE | TEMPLATE_ATTRIBUTE | ATTRIBUTE | ATTRIBUTE_NAME | ATTRIBUTE_VALUE
| ATTRIBUTE_INDEX | CRYPTOGRAPHIC_ALGORITHM | CRYPTOGRAPHIC_LENGTH | CRYPTOGRAPHIC_PARAMETERS
| BLOCK_CIPHER_MODE | PADDING_METHOD | HASHING_ALGORITHM | KEY_BLOCK | KEY_FORMAT_TYPE
| KEY_VALUE | KEY_MATERIAL | KEY_WRAPPING_DATA | DATA | IV_COUNTER_NONCE | SIGNATURE_DATA
| MAC_DATA | TIMESTAMP | INITIAL_DATE | ACTIVATION_DATE | DEACTIVATION_DATE | COMPROMISE_DATE
| DESTROY_DATE | STATE | CRYPTOGRAPHIC_USAGE_MASK | REVOCATION_REASON | REVOCATION_REASON_CODE
| REVOCATION_MESSAGE | QUERY_FUNCTION | SERVER_INFORMATION | OPERATION_ENUM | RESPONSE_PAYLOAD
| REQUEST_PAYLOAD | NAME | NAME_VALUE | NAME_TYPE.

Definition known_tag (n : KnownTag) : Tag :=
  match n with
  | REQUEST_MESSAGE => 0x420078 | RESPONSE_MESSAGE => 0x42007B | REQUEST_HEADER => 0x420077
  | RESPONSE_HEADER => 0x42007A | REQUEST_BATCH_ITEM => 0x42000F
  | RESPONSE_BATCH_ITEM => 0x42000F | PROTOCOL_VERSION => 0x420069
  | PROTOCOL_VERSION_MAJOR => 0x42006A | PROTOCOL_VERSION_MINOR => 0x42006B
  | BATCH_COUNT => 0x42000D | BATCH_ITEM => 0x42000F | OPERATION => 0x42005C
  | RESULT_STATUS => 0x42007F | RESULT_REASON => 0x42007E | RESULT_MESSAGE => 0x42007D
  | UNIQUE_ID => 0x420094 | OBJECT_TYPE => 0x420057 | TEMPLATE_ATTRIBUTE => 0x420091
  | ATTRIBUTE => 0x420008 | ATTRIBUTE_NAME => 0x42000A | ATTRIBUTE_VALUE => 0x42000B
  | ATTRIBUTE_INDEX => 0x420009 | CRYPTOGRAPHIC_ALGORITHM => 0x420028
  | CRYPTOGRAPHIC_LENGTH => 0x42002A | CRYPTOGRAPHIC_PARAMETERS => 0x42002B
  | BLOCK_CIPHER_MODE => 0x420011 | PADDING_METHOD => 0x42005F | HASHING_ALGORITHM => 0x420038
  | KEY_BLOCK => 0x420040 | KEY_FORMAT_TYPE => 0x420042 | KEY_VALUE => 0x420045
  | KEY_MATERIAL => 0x420043 | KEY_WRAPPING_DATA => 0x420046 | DATA => 0x4200C2
  | IV_COUNTER_NONCE => 0x42003D | SIGNATURE_DATA => 0x42003F | MAC_DATA => 0x420030
  | TIMESTAMP => 0x420092 | INITIAL_DATE => 0x420120 | ACTIVATION_DATE => 0x420001
  | DEACTIVATION_DATE => 0x420121 | COMPROMISE_DATE => 0x420122 | DESTROY_DATE => 0x420123
  | STATE => 0x42008D | CRYPTOGRAPHIC_USAGE_MASK => 0x42002C | REVOCATION_REASON => 0x420081
  | REVOCATION_REASON_CODE => 0x420082 | REVOCATION_MESSAGE => 0x420083
  | QUERY_FUNCTION => 0x420074 | SERVER_INFORMATION => 0x420088 | OPERATION_ENUM => 0x42005D
  | RESPONSE_PAYLOAD => 0x42007C | REQUEST_PAYLOAD => 0x420079 | NAME => 0x420053
  | NAME_VALUE => 0x420055 | NAME_TYPE => 0x420054
  end.
End Tags.

Inductive TtlvType :=
| Structure | Integer | LongInteger | BigInteger | Enumeration | Boolean | TextString
| ByteString | DateTime | Interval.

Definition TtlvType_repr (t : TtlvType) : Z :=
  match t with
  | Structure => 0x01 | Integer => 0x02 | LongInteger => 0x03 | BigInteger => 0x04
  | Enumeration => 0x05 | Boolean => 0x06 | TextString => 0x07 | ByteString => 0x08
  | DateTime => 0x09 | Interval => 0x0A
  end.

Inductive TtlvError :=
| InvalidType (value : Z)
| UnexpectedEof
| InvalidEncoding (reason : string)
| InvalidUtf8
| LengthOverflow (n : Z)
| Io (reason : string).

Definition TtlvType_try_from (value : Z) : result TtlvType TtlvError :=
  match value with
  | 0x01 => Ok Structure
  | 0x02 => Ok Integer
  | 0x03 => Ok LongInteger
  | 0x04 => Ok BigInteger
  | 0x05 => Ok Enumeration
  | 0x06 => Ok Boolean
  | 0x07 => Ok TextString
  | 0x08 => Ok ByteString
  | 0x09 => Ok DateTime
  | 0x0A => Ok Interval
  | _ => Err (InvalidType value)
  end.

Inductive TtlvValue :=
| VStructure (items : list Ttlv)
| VInteger (v : Z)
| VLongInteger (v : Z)
| VBigInteger (v : bytes)
| VEnumeration (v : Z)
| VBoolean (v : bool)
| VTextString (v : string)
| VByteString (v : bytes)
| VDateTime (v : Z)
| VInterval (v : Z)
with Ttlv :=
| MkTtlv (tag : Tag) (value : TtlvValue).

Definition tag (item : Ttlv) : Tag := match item with MkTtlv tag _ => tag end.
Definition value (item : Ttlv) : TtlvValue := match item with MkTtlv _ value => value end.

Definition ttlv_type (v : TtlvValue) : TtlvType :=
  match v with
  | VStructure _ => Structure
  | VInteger _ => Integer
  | VLongInteger _ => LongInteger
  | VBigInteger _ => BigInteger
  | VEnumeration _ => Enumeration
  | VBoolean _ => Boolean
  | VTextString _ => TextString
  | VByteString _ => ByteString
  | VDateTime _ => DateTime
  | VInterval _ => Interval
  end.

Definition as_integer (v : TtlvValue) : option Z :=
  match v with VInteger v => Some v | _ => None end.
Definition as_long_integer (v : TtlvValue) : option Z :=
  match v with VLongInteger v => Some v | _ => None end.
Definition as_enumeration (v : TtlvValue) : option Z :=
  match v with VEnumeration v => Some v | _ => None end.
Definition as_boolean (v : TtlvValue) : option bool :=
  match v with VBoolean v => Some v | _ => None end.
Definition as_text_string (v : TtlvValue) : option string :=
  match v with VTextString v => Some v | _ => None end.
Definition as_byte_string (v : TtlvValue) : option bytes :=
  match v with VByteString v => Some v | _ => None end.
Definition as_structure (v : TtlvValue) : option (list Ttlv) :=
  match v with VStructure v => Some v | _ => None end.

(** First child, and all children, with a tag. *)
Definition get (item : Ttlv) (t : Tag) : option Ttlv :=
  match value item with
  | VStructure items => List.find (fun child => tag child =? t) items
  | _ => None
  end.
Definition get_all (item : Ttlv) (t : Tag) : list Ttlv :=
  match value item with
  | VStructure items => List.filter (fun child => tag child =? t) items
  | _ => []
  end.
Definition is_structure (item : Ttlv) : bool :=
  match value item with VStructure _ => true | _ => false end.

(** ** Encoder ([encoder.rs]) *)

Definition put_u8 (v : Z) : bytes := [byte_of_Z v].
Definition put_u32 (v : Z) : bytes := be_bytes 4 v.
Definition put_i32 (v : Z) : bytes := be_bytes 4 (wrap 32 v).
Definition put_u64 (v : Z) : bytes := be_bytes 8 v.
Definition put_i64 (v : Z) : bytes := be_bytes 8 (wrap 64 v).

Definition len (bs : bytes) : Z := Z.of_nat (length bs).

Definition padding (length : Z) : Z := (8 - length mod 8) mod 8.
Definition pad_to_8 (length : Z) : bytes := zeros (Z.to_nat (padding length)).

(** A variable-length value: length, contents, padding. *)
Definition put_padded (v : bytes) : bytes :=
  put_u32 (wrap 32 (len v)) ++ v ++ pad_to_8 (len v).

Fixpoint encode_item (item : Ttlv) : bytes :=
  match item with
  | MkTtlv tag value =>
      put_u8 (Z.shiftr tag 16) ++ put_u8 (Z.shiftr tag 8) ++ put_u8 tag ++
      match value with
      | VStructure items =>
          put_u8 (TtlvType_repr Structure) ++
          let child_buf := concat (map encode_item items) in
          put_u32 (wrap 32 (len child_buf)) ++ child_buf
      | VInteger v => put_u8 (TtlvType_repr Integer) ++ put_u32 4 ++ put_i32 v ++ put_u32 0
      | VLongInteger v => put_u8 (TtlvType_repr LongInteger) ++ put_u32 8 ++ put_i64 v
      | VBigInteger v => put_u8 (TtlvType_repr BigInteger) ++ put_padded v
      | VEnumeration v => put_u8 (TtlvType_repr Enumeration) ++ put_u32 4 ++ put_u32 v ++ put_u32 0
      | VBoolean v =>
          put_u8 (TtlvType_repr Boolean) ++ put_u32 8 ++ put_u64 (if v then 1 else 0)
      | VTextString v => put_u8 (TtlvType_repr TextString) ++ put_padded (as_bytes v)
      | VByteString v => put_u8 (TtlvType_repr ByteString) ++ put_padded v
      | VDateTime v => put_u8 (TtlvType_repr DateTime) ++ put_u32 8 ++ put_i64 v
      | VInterval v => put_u8 (TtlvType_repr Interval) ++ put_u32 4 ++ put_u32 v ++ put_u32 0
      end
  end.

Definition encode (item : Ttlv) : bytes := encode_item item.

Definition padded_len (length : Z) : Z := length + padding length.

Fixpoint encoded_size (item : Ttlv) : Z :=
  match item with
  | MkTtlv _ value =>
      let header_size := 8 in
      let value_size :=
        match value with
        | VStructure items => foldr Z.add 0 (map encoded_size items)
        | VInteger _ => 8
        | VLongInteger _ => 8
        | VBigInteger v => padded_len (len v)
        | VEnumeration _ => 8
        | VBoolean _ => 8
        | VTextString v => padded_len (len (as_bytes v))
        | VByteString v => padded_len (len v)
        | VDateTime _ => 8
        | VInterval _ => 8
        end in
      header_size + value_size
  end.

(** ** Decoder ([decoder.rs]) *)

Definition MAX_TTLV_DEPTH : nat := 64.

(** How a decoding can stop early: with an error, with a panic of the buffer
    operations, or in the model for lack of fuel. *)
Inductive stop := Failed (e : TtlvError) | Panic | NoFuel.
Abbreviation decoder := (M bytes stop).

(** [bytes::Buf] *)
Definition remaining : decoder Z := fun buf => (Ok (len buf), buf).
Definition copy_to_bytes (n : Z) : decoder bytes := fun buf =>
  if len buf <? n then (Err Panic, buf)
  else (Ok (take (Z.to_nat n) buf), drop (Z.to_nat n) buf).
Definition advance (n : Z) : decoder unit := copy_to_bytes n ;! ret tt.
Definition get_u8 : decoder Z := let! b := copy_to_bytes 1 in ret (from_be_bytes b).
Definition get_u32 : decoder Z := let! b := copy_to_bytes 4 in ret (from_be_bytes b).
Definition get_i32 : decoder Z := let! b := copy_to_bytes 4 in ret (to_signed 32 (from_be_bytes b)).
Definition get_u64 : decoder Z := let! b := copy_to_bytes 8 in ret (from_be_bytes b).
Definition get_i64 : decoder Z := let! b := copy_to_bytes 8 in ret (to_signed 64 (from_be_bytes b)).

Definition padded_length (ty : TtlvType) (length : Z) : Z :=
  match ty with
  | Integer | Enumeration | Interval => 8
  | LongInteger | DateTime | Boolean => 8
  | Structure => length
  | BigInteger | TextString | ByteString => length + padding length
  end.

Definition skip_padding (length : Z) : decoder unit :=
  let! rem := remaining in
  if (0 <? padding length) && (padding length <=? rem) then advance (padding length) else ret tt.

(** The loop over a structure's own buffer. *)
Fixpoint decode_all (decode_item : decoder Ttlv) (fuel : nat) : decoder (list Ttlv) := fun buf =>
  match buf with
  | [] => (Ok [], [])
  | _ :: _ =>
      match fuel with
      | O => (Err NoFuel, buf)
      | S fuel =>
          (let! item := decode_item in
           let! items := decode_all decode_item fuel in
           ret (item :: items)) buf
      end
  end.

(** Run a decoder on a buffer of its own. *)
Definition within {A} (inner : bytes) (c : decoder A) : decoder A := fun buf => ((c inner).1, buf).

Definition decode_value (decode_item : decoder Ttlv) (ty : TtlvType) (length : Z)
  : decoder TtlvValue :=
  match ty with
  | Structure =>
      let! structure_bytes := copy_to_bytes length in
      let! items := within structure_bytes
                      (decode_all decode_item (List.length structure_bytes)) in
      ret (VStructure items)
  | Integer => let! v := get_i32 in advance 4 ;! ret (VInteger v)
  | LongInteger => let! v := get_i64 in ret (VLongInteger v)
  | BigInteger => let! v := copy_to_bytes length in skip_padding length ;! ret (VBigInteger v)
  | Enumeration => let! v := get_u32 in advance 4 ;! ret (VEnumeration v)
  | Boolean => let! v := get_u64 in ret (VBoolean (negb (v =? 0)))
  | TextString =>
      let! bytes := copy_to_bytes length in
      let! v := lift (ok_or (Failed InvalidUtf8) (from_utf8 bytes)) in
      skip_padding length ;!
      ret (VTextString v)
  | ByteString => let! v := copy_to_bytes length in skip_padding length ;! ret (VByteString v)
  | DateTime => let! v := get_i64 in ret (VDateTime v)
  | Interval => let! v := get_u32 in advance 4 ;! ret (VInterval v)
  end.

(** [levels] is how much deeper the nesting may go:
    [MAX_TTLV_DEPTH - depth]. *)
Fixpoint decode_item (levels : nat) : decoder Ttlv :=
  match levels with
  | O =>
      throw (Failed (InvalidEncoding
        ("TTLV nesting depth exceeds maximum of " +:+ to_decimal (Z.of_nat MAX_TTLV_DEPTH))))
  | S levels =>
      let! rem := remaining in
      if rem <? 8 then throw (Failed UnexpectedEof)
      else
        let! b0 := get_u8 in
        let! b1 := get_u8 in
        let! b2 := get_u8 in
        let tag := Z.lor (Z.lor (Z.shiftl b0 16) (Z.shiftl b1 8)) b2 in
        let! t := get_u8 in
        let! ty := lift (rmap_err Failed (TtlvType_try_from t)) in
        let! length := get_u32 in
        let padded := padded_length ty length in
        let! rem := remaining in
        if rem <? padded then throw (Failed UnexpectedEof)
        else
          let! value := decode_value (decode_item levels) ty length in
          ret (MkTtlv tag value)
  end.

Definition decode (data : bytes) : result Ttlv stop := (decode_item MAX_TTLV_DEPTH data).1.

Definition decode_from_bytes : decoder Ttlv := decode_item MAX_TTLV_DEPTH.

Definition peek_message_length (data : bytes) : option Z :=
  if len data <? 8 then None
  else Some (8 + from_be_bytes (take 4 (drop 4 data))).
