(* ===== verification/TtlvCorrect.v ===== *)
(** * Correctness of the KMIP wire format

    The decoder inverts the encoder on every well-formed item of at most 64
    levels, on arbitrary bytes it neither panics nor loops and only returns
    well-formed items of at most 64 levels, and the size and framing helpers
    agree with the encoder. *)

From Stdlib Require Import ZArith Lia Strings.Byte.
From stdpp Require Import base gmap strings list.
From S2P Require Import Prelude Ttlv.

(** ** Induction and well-formedness *)

(** Induction over items with the hypothesis for every child. *)
Section induction.
Context (P : Ttlv -> Prop).
Context (Hleaf : forall tag value, (forall items, value <> VStructure items) -> P (MkTtlv tag value)).
Context (Hnode : forall tag items, Forall P items -> P (MkTtlv tag (VStructure items))).

Fixpoint Ttlv_children_ind (item : Ttlv) : P item :=
  match item with
  | MkTtlv tag value =>
      match value as v return P (MkTtlv tag v) with
      | VStructure items =>
          Hnode tag items
            ((fix go (l : list Ttlv) : Forall P l :=
                match l with
                | [] => Forall_nil_2 P
                | x :: l => Forall_cons_2 P x l (Ttlv_children_ind x) (go l)
                end) items)
      | v => Hleaf tag v ltac:(discriminate)
      end
  end.
End induction.

(** The ranges of the Rust types, and lengths that fit the length field. *)
Fixpoint wf (item : Ttlv) : Prop :=
  match item with
  | MkTtlv tag value =>
      in_u 24 tag /\
      match value with
      | VStructure items =>
          foldr (fun child P => wf child /\ P) True items /\
          u32 (foldr Z.add 0 (map encoded_size items))
      | VInteger v => in_i 32 v
      | VLongInteger v | VDateTime v => in_i 64 v
      | VBigInteger v | VByteString v => u32 (len v)
      | VEnumeration v | VInterval v => u32 v
      | VBoolean _ => True
      | VTextString v => utf8_valid (as_bytes v) = true /\ u32 (len (as_bytes v))
      end
  end.

Fixpoint depth_of (item : Ttlv) : nat :=
  match item with
  | MkTtlv _ (VStructure items) => S (foldr Nat.max 0%nat (map depth_of items))
  | MkTtlv _ _ => 1
  end.

Lemma wf_children items : foldr (fun child P => wf child /\ P) True items <-> Forall wf items.
Proof. induction items as [|x items IH]; simpl; rewrite ?Forall_nil, ?Forall_cons; tauto. Qed.

(** ** Lengths *)

Lemma len_app a b : len (a ++ b) = len a + len b.
Proof. unfold len. rewrite length_app. lia. Qed.
Lemma len_nonneg a : 0 <= len a.
Proof. unfold len. lia. Qed.
Lemma len_put_u32 v : len (put_u32 v) = 4.
Proof. unfold len, put_u32. by rewrite length_be_bytes. Qed.
Lemma len_put_i32 v : len (put_i32 v) = 4.
Proof. unfold len, put_i32. by rewrite length_be_bytes. Qed.
Lemma len_put_u64 v : len (put_u64 v) = 8.
Proof. unfold len, put_u64. by rewrite length_be_bytes. Qed.
Lemma len_put_i64 v : len (put_i64 v) = 8.
Proof. unfold len, put_i64. by rewrite length_be_bytes. Qed.
Lemma len_put_u8 v : len (put_u8 v) = 1.
Proof. done. Qed.
Lemma padding_range n : 0 <= padding n < 8.
Proof. unfold padding. apply Z.mod_pos_bound. lia. Qed.
Lemma len_pad_to_8 n : len (pad_to_8 n) = padding n.
Proof.
  unfold len, pad_to_8, zeros. rewrite length_replicate. pose proof (padding_range n). lia.
Qed.
Lemma padded_len_aligned n : padded_len n mod 8 = 0.
Proof.
  unfold padded_len, padding. rewrite Zplus_mod_idemp_r.
  replace (n + (8 - n mod 8)) with (8 * (n / 8 + 1)) by (pose proof (Z_div_mod_eq_full n 8); lia).
  by rewrite Z.mul_comm, Z_mod_mult.
Qed.

Create Rewrite HintDb ttlv_len.
#[export] Hint Rewrite len_app len_put_u32 len_put_i32 len_put_u64 len_put_i64 len_put_u8
  len_pad_to_8 : ttlv_len.

Lemma encode_item_len item : len (encode_item item) = encoded_size item.
Proof.
  induction item as [tag value Hv|tag items IH] using Ttlv_children_ind.
  - destruct value; [by destruct (Hv items)|..]; cbn [encode_item encoded_size];
      unfold put_padded, padded_len; autorewrite with ttlv_len; lia.
  - cbn [encode_item encoded_size]. autorewrite with ttlv_len.
    assert (len (concat (map encode_item items)) = foldr Z.add 0 (map encoded_size items)) as ->; [|lia].
    induction IH as [|x items Hx _ IH]; simpl; [done|]. rewrite len_app. lia.
Qed.

Lemma encode_children_len items :
  len (concat (map encode_item items)) = foldr Z.add 0 (map encoded_size items).
Proof.
  induction items as [|x items IH]; simpl; [done|]. rewrite len_app, encode_item_len. lia.
Qed.

Lemma encoded_size_pos item : 8 <= encoded_size item.
Proof.
  destruct item as [tag []]; cbn [encoded_size]; unfold padded_len;
    rewrite <- ?encode_children_len; try lia;
    match goal with |- context [len ?x] =>
      pose proof (len_nonneg x); pose proof (padding_range (len x)); lia end.
Qed.

(** ** Buffer operations *)

Lemma copy_to_bytes_app n a b : len a = n -> copy_to_bytes n (a ++ b) = (Ok a, b).
Proof.
  intros <-. unfold copy_to_bytes. rewrite len_app, (proj2 (Z.ltb_ge _ _)) by
    (pose proof (len_nonneg b); lia).
  unfold len. by rewrite Nat2Z.id, take_app_length, drop_app_length.
Qed.

(** A buffer that is long enough splits. *)
Lemma len_split n buf : 0 <= n <= len buf -> exists a b, buf = a ++ b /\ len a = n.
Proof.
  unfold len. intros Hn. exists (take (Z.to_nat n) buf), (drop (Z.to_nat n) buf).
  rewrite take_drop, length_take. split; [done|lia].
Qed.

Lemma from_be_singleton b : from_be_bytes [b] = byte_to_Z b.
Proof. unfold from_be_bytes. cbn -[Z.mul]. lia. Qed.

Lemma get_u8_cons b rest : get_u8 (b :: rest) = (Ok (byte_to_Z b), rest).
Proof.
  unfold get_u8. erewrite bind_Ok by apply (copy_to_bytes_app 1 [b] rest eq_refl).
  unfold ret. by rewrite from_be_singleton.
Qed.
Lemma get_u32_app a rest : len a = 4 -> get_u32 (a ++ rest) = (Ok (from_be_bytes a), rest).
Proof. intros Ha. unfold get_u32. by erewrite bind_Ok by by apply copy_to_bytes_app. Qed.
Lemma get_i32_app a rest :
  len a = 4 -> get_i32 (a ++ rest) = (Ok (to_signed 32 (from_be_bytes a)), rest).
Proof. intros Ha. unfold get_i32. by erewrite bind_Ok by by apply copy_to_bytes_app. Qed.
Lemma get_u64_app a rest : len a = 8 -> get_u64 (a ++ rest) = (Ok (from_be_bytes a), rest).
Proof. intros Ha. unfold get_u64. by erewrite bind_Ok by by apply copy_to_bytes_app. Qed.
Lemma get_i64_app a rest :
  len a = 8 -> get_i64 (a ++ rest) = (Ok (to_signed 64 (from_be_bytes a)), rest).
Proof. intros Ha. unfold get_i64. by erewrite bind_Ok by by apply copy_to_bytes_app. Qed.
Lemma advance_app n a rest : len a = n -> advance n (a ++ rest) = (Ok tt, rest).
Proof. intros Ha. unfold advance. by erewrite bind_Ok by by apply copy_to_bytes_app. Qed.

Lemma skip_padding_app n a rest : len a = padding n -> skip_padding n (a ++ rest) = (Ok tt, rest).
Proof.
  intros Ha. unfold skip_padding, remaining, bind. rewrite len_app, Ha.
  pose proof (len_nonneg rest). destruct (Z.ltb_spec 0 (padding n)); simpl.
  - rewrite (proj2 (Z.leb_le _ _)) by lia. by apply advance_app.
  - pose proof (len_nonneg a). destruct a; [done|]. unfold len in Ha. simpl in Ha. lia.
Qed.

Lemma from_put_u32 v : u32 v -> from_be_bytes (put_u32 v) = v.
Proof. intros Hv. unfold put_u32. rewrite from_be_be_bytes. by apply Z.mod_small. Qed.
Lemma from_put_u64 v : u64 v -> from_be_bytes (put_u64 v) = v.
Proof. intros Hv. unfold put_u64. rewrite from_be_be_bytes. by apply Z.mod_small. Qed.
Lemma from_put_i32 v : in_i 32 v -> to_signed 32 (from_be_bytes (put_i32 v)) = v.
Proof.
  intros Hv. unfold put_i32. rewrite from_be_be_bytes.
  change (256 ^ Z.of_nat 4) with (2 ^ 32). unfold wrap. rewrite Zmod_mod.
  by apply to_signed_wrap.
Qed.
Lemma from_put_i64 v : in_i 64 v -> to_signed 64 (from_be_bytes (put_i64 v)) = v.
Proof.
  intros Hv. unfold put_i64. rewrite from_be_be_bytes.
  change (256 ^ Z.of_nat 8) with (2 ^ 64). unfold wrap. rewrite Zmod_mod.
  by apply to_signed_wrap.
Qed.

(** ** Headers *)

Definition tag_of (b0 b1 b2 : byte) : Tag :=
  Z.lor (Z.lor (Z.shiftl (byte_to_Z b0) 16) (Z.shiftl (byte_to_Z b1) 8)) (byte_to_Z b2).

(** The shifts and disjunctions assemble the three bytes. *)
Lemma tag_of_be b0 b1 b2 : tag_of b0 b1 b2 = from_be_bytes [b0; b1; b2].
Proof.
  unfold tag_of, from_be_bytes. cbn -[Z.mul Z.shiftl].
  pose proof (byte_to_Z_range b0). pose proof (byte_to_Z_range b1). pose proof (byte_to_Z_range b2).
  replace (Z.lor (Z.shiftl (byte_to_Z b0) 16) (Z.shiftl (byte_to_Z b1) 8))
    with (Z.shiftl (byte_to_Z b0 * 2 ^ 8 + byte_to_Z b1) 8).
  - rewrite lor_shiftl_add; lia.
  - rewrite <- (lor_shiftl_add _ 8) by lia. rewrite Z.shiftl_lor, Z.shiftl_shiftl by lia. done.
Qed.

Lemma tag_of_range b0 b1 b2 : in_u 24 (tag_of b0 b1 b2).
Proof. rewrite tag_of_be. apply (from_be_bytes_range [b0; b1; b2]). Qed.

Lemma tag_of_put tag :
  in_u 24 tag -> tag_of (byte_of_Z (Z.shiftr tag 16)) (byte_of_Z (Z.shiftr tag 8)) (byte_of_Z tag) = tag.
Proof.
  intros Ht. rewrite tag_of_be. rewrite !Z.shiftr_div_pow2 by lia.
  change [byte_of_Z (tag / 2 ^ 16); byte_of_Z (tag / 2 ^ 8); byte_of_Z tag]
    with (reverse [byte_of_Z tag; byte_of_Z (tag / 2 ^ 8); byte_of_Z (tag / 2 ^ 16)]).
  replace [byte_of_Z tag; byte_of_Z (tag / 2 ^ 8); byte_of_Z (tag / 2 ^ 16)] with (le_bytes 3 tag).
  - change (reverse (le_bytes 3 tag)) with (be_bytes 3 tag). rewrite from_be_be_bytes.
    by apply Z.mod_small.
  - cbn. rewrite Z.div_div by lia. done.
Qed.

(** What the decoder does with a complete header. *)
Lemma decode_item_header levels b0 b1 b2 t l body :
  len l = 4 ->
  decode_item (S levels) (b0 :: b1 :: b2 :: t :: l ++ body) =
  match TtlvType_try_from (byte_to_Z t) with
  | Err e => (Err (Failed e), l ++ body)
  | Ok ty =>
      if len body <? padded_length ty (from_be_bytes l) then (Err (Failed UnexpectedEof), body)
      else bind (decode_value (decode_item levels) ty (from_be_bytes l))
             (fun value => ret (MkTtlv (tag_of b0 b1 b2) value)) body
  end.
Proof.
  intros Hl. cbn [decode_item]. unfold remaining at 1. erewrite bind_Ok by done.
  rewrite (proj2 (Z.ltb_ge _ _)) by
    (unfold len in *; simpl; rewrite length_app; lia).
  do 4 (erewrite bind_Ok by apply get_u8_cons).
  destruct (TtlvType_try_from (byte_to_Z t)) as [ty|e]; [|done].
  erewrite bind_Ok by done. erewrite bind_Ok by by apply get_u32_app.
  unfold remaining. erewrite bind_Ok by done. by destruct (_ <? _).
Qed.

(** A short buffer is refused, a longer one starts with a header. *)
Lemma decode_item_cases buf :
  len buf < 8 \/ exists b0 b1 b2 t l body, buf = b0 :: b1 :: b2 :: t :: l ++ body /\ len l = 4.
Proof.
  destruct (decide (len buf < 8)) as [|Hb]; [by left|right].
  destruct (len_split 8 buf) as (h & body & -> & Hh); [lia|].
  destruct h as [|b0 [|b1 [|b2 [|t l]]]]; unfold len in Hh; simpl in Hh; try lia.
  exists b0, b1, b2, t, l, body. split; [done|]. unfold len. lia.
Qed.

Lemma decode_item_short levels buf :
  len buf < 8 -> decode_item (S levels) buf = (Err (Failed UnexpectedEof), buf).
Proof.
  intros Hb. cbn [decode_item]. unfold remaining, bind at 1. by rewrite (proj2 (Z.ltb_lt _ _)).
Qed.

Lemma TtlvType_try_from_repr ty : TtlvType_try_from (TtlvType_repr ty) = Ok ty.
Proof. by destruct ty. Qed.

Lemma TtlvType_repr_byte ty : byte_to_Z (byte_of_Z (TtlvType_repr ty)) = TtlvType_repr ty.
Proof. rewrite byte_to_of. by destruct ty. Qed.

(** The header the encoder writes. *)
Lemma decode_item_encoded levels tag ty n body :
  in_u 24 tag -> u32 n -> padded_length ty n <= len body ->
  decode_item (S levels)
    (put_u8 (Z.shiftr tag 16) ++ put_u8 (Z.shiftr tag 8) ++ put_u8 tag ++
     put_u8 (TtlvType_repr ty) ++ put_u32 n ++ body) =
  bind (decode_value (decode_item levels) ty n) (fun value => ret (MkTtlv tag value)) body.
Proof.
  intros Ht Hn Hb. unfold put_u8. cbn [app]. rewrite decode_item_header by apply len_put_u32.
  rewrite TtlvType_repr_byte, TtlvType_try_from_repr, from_put_u32, tag_of_put by done.
  by rewrite (proj2 (Z.ltb_ge _ _)).
Qed.

(** ** The decoder inverts the encoder *)

Definition decodes_back (item : Ttlv) : Prop := forall levels rest,
  wf item -> (depth_of item <= levels)%nat ->
  decode_item levels (encode_item item ++ rest) = (Ok item, rest).

Lemma decode_all_encoded levels items fuel :
  Forall decodes_back items -> Forall wf items ->
  (foldr Nat.max 0 (map depth_of items) <= levels)%nat -> (length items <= fuel)%nat ->
  decode_all (decode_item levels) fuel (concat (map encode_item items)) = (Ok items, []).
Proof.
  intros Hd Hw. revert fuel. induction Hw as [|x items Hx _ IH]; intros fuel Hl Hf; [by destruct fuel|].
  apply Forall_cons in Hd as [Hdx Hd]. simpl in *. destruct fuel as [|fuel]; [lia|]. simpl.
  assert (exists b bs, encode_item x ++ concat (map encode_item items) = b :: bs) as (b & bs & E)
    by (destruct x; simpl; eauto).
  rewrite E, <- E. erewrite bind_Ok by (apply Hdx; [done|lia]).
  erewrite bind_Ok by (apply IH; [done|lia..]). done.
Qed.

Lemma length_children items : (length items <= length (concat (map encode_item items)))%nat.
Proof.
  induction items as [|x items IH]; simpl; [done|]. rewrite length_app.
  pose proof (encoded_size_pos x) as Hx. rewrite <- encode_item_len in Hx. unfold len in Hx. lia.
Qed.

(** The length field and the bytes after it, for each kind of value. *)
Definition value_length (v : TtlvValue) : Z :=
  match v with
  | VStructure items => wrap 32 (len (concat (map encode_item items)))
  | VInteger _ | VEnumeration _ | VInterval _ => 4
  | VLongInteger _ | VBoolean _ | VDateTime _ => 8
  | VBigInteger v | VByteString v => wrap 32 (len v)
  | VTextString v => wrap 32 (len (as_bytes v))
  end.
Definition value_body (v : TtlvValue) : bytes :=
  match v with
  | VStructure items => concat (map encode_item items)
  | VInteger v => put_i32 v ++ put_u32 0
  | VEnumeration v | VInterval v => put_u32 v ++ put_u32 0
  | VLongInteger v | VDateTime v => put_i64 v
  | VBoolean v => put_u64 (if v then 1 else 0)
  | VBigInteger v | VByteString v => v ++ pad_to_8 (len v)
  | VTextString v => as_bytes v ++ pad_to_8 (len (as_bytes v))
  end.

Lemma encode_item_shape tag v :
  encode_item (MkTtlv tag v) =
  put_u8 (Z.shiftr tag 16) ++ put_u8 (Z.shiftr tag 8) ++ put_u8 tag ++
  put_u8 (TtlvType_repr (ttlv_type v)) ++ put_u32 (value_length v) ++ value_body v.
Proof. by destruct v. Qed.

Lemma value_length_u32 v : u32 (value_length v).
Proof. destruct v; simpl; first [by apply wrap_range | by unfold in_u; lia]. Qed.

Lemma value_length_wf tag v :
  wf (MkTtlv tag v) -> padded_length (ttlv_type v) (value_length v) = len (value_body v).
Proof.
  intros [_ Hw]. destruct v; cbn [ttlv_type value_length value_body padded_length];
    autorewrite with ttlv_len; try done.
  - destruct Hw as [_ Hw]. rewrite encode_children_len. by rewrite wrap_small.
  - by rewrite wrap_small.
  - destruct Hw as [_ Hw]. by rewrite wrap_small.
  - by rewrite wrap_small.
Qed.

(** One step through the decoder's buffer operations on an encoded value. *)
Ltac buf_step :=
  erewrite bind_Ok by (first [apply get_i32_app | apply get_i64_app | apply get_u32_app
    | apply get_u64_app | apply advance_app | apply skip_padding_app | apply copy_to_bytes_app];
    by autorewrite with ttlv_len).

Lemma from_utf8_as_bytes v : utf8_valid (as_bytes v) = true -> from_utf8 (as_bytes v) = Some v.
Proof. intros Hv. unfold from_utf8. by rewrite Hv, of_as_bytes. Qed.

Lemma decode_value_leaf dec tag v rest :
  (forall items, v <> VStructure items) -> wf (MkTtlv tag v) ->
  decode_value dec (ttlv_type v) (value_length v) (value_body v ++ rest) = (Ok v, rest).
Proof.
  intros Hv [_ Hw]. destruct v; [by destruct (Hv items)|..];
    cbn [ttlv_type value_length value_body decode_value]; rewrite <- ?app_assoc.
  - do 2 buf_step. by rewrite from_put_i32.
  - buf_step. by rewrite from_put_i64.
  - rewrite wrap_small by done. by do 2 buf_step.
  - do 2 buf_step. by rewrite from_put_u32.
  - buf_step. by destruct v.
  - destruct Hw as [Hu Hw]. rewrite wrap_small by done. buf_step.
    rewrite from_utf8_as_bytes by done. erewrite bind_Ok by done. by buf_step.
  - rewrite wrap_small by done. by do 2 buf_step.
  - buf_step. by rewrite from_put_i64.
  - do 2 buf_step. by rewrite from_put_u32.
Qed.

Lemma decode_value_structure levels tag items rest :
  Forall decodes_back items -> wf (MkTtlv tag (VStructure items)) ->
  (foldr Nat.max 0 (map depth_of items) <= levels)%nat ->
  decode_value (decode_item levels) Structure (value_length (VStructure items))
    (value_body (VStructure items) ++ rest) = (Ok (VStructure items), rest).
Proof.
  intros Hd [_ [Hw Hn]] Hl. apply wf_children in Hw. cbn [value_length value_body decode_value].
  rewrite wrap_small by by rewrite encode_children_len. buf_step.
  unfold within, bind. rewrite decode_all_encoded; [done..|]. apply length_children.
Qed.

Lemma decode_encode_item item : decodes_back item.
Proof.
  induction item as [tag value Hv|tag items IH] using Ttlv_children_ind; intros levels rest Hw Hl;
    (destruct levels as [|levels]; [destruct value || simpl in Hl; simpl in Hl; lia|]);
    rewrite encode_item_shape, <- !app_assoc;
    (rewrite decode_item_encoded; [|by destruct Hw|apply value_length_u32|]);
    try (erewrite value_length_wf, len_app by done; pose proof (len_nonneg rest); lia).
  - by erewrite bind_Ok by by eapply decode_value_leaf.
  - erewrite bind_Ok; [done|]. eapply decode_value_structure; [done..|]. simpl in Hl. lia.
Qed.

(** ** Arbitrary input *)

(** What a decoding of [buf] may result in: an item with these properties and
    exactly its bytes consumed, or an error; no panic, no lack of fuel. *)
Definition item_post (levels : nat) (buf : bytes) (out : result Ttlv stop * bytes) : Prop :=
  match out with
  | (Ok item, rest) =>
      wf item /\ (depth_of item <= levels)%nat /\ len buf = encoded_size item + len rest
  | (Err (Failed _), _) => True
  | (Err _, _) => False
  end.

Definition items_post (levels : nat) (buf : bytes) (out : result (list Ttlv) stop * bytes) : Prop :=
  match out with
  | (Ok items, rest) =>
      Forall wf items /\ (foldr Nat.max 0 (map depth_of items) <= levels)%nat /\
      len buf = foldr Z.add 0 (map encoded_size items)
  | (Err (Failed _), _) => True
  | (Err _, _) => False
  end.

Definition value_post (levels : nat) (buf : bytes) (out : result TtlvValue stop * bytes) : Prop :=
  match out with
  | (Ok v, rest) => forall tag, in_u 24 tag ->
      wf (MkTtlv tag v) /\ (depth_of (MkTtlv tag v) <= S levels)%nat /\
      8 + len buf = encoded_size (MkTtlv tag v) + len rest
  | (Err (Failed _), _) => True
  | (Err _, _) => False
  end.

Lemma decode_all_post levels dec fuel buf :
  (forall buf, item_post levels buf (dec buf)) -> (length buf <= fuel)%nat ->
  items_post levels buf (decode_all dec fuel buf).
Proof.
  intros Hdec. revert buf. induction fuel as [|fuel IH]; intros [|b buf] Hf;
    try (by split_and!; simpl; [constructor|lia|]); [simpl in Hf; lia|].
  cbn [decode_all]. unfold bind. pose proof (Hdec (b :: buf)) as Hi.
  destruct (dec (b :: buf)) as [[item|[]] rest]; try done. destruct Hi as (Hw & Hd & Hl).
  assert (length rest <= fuel)%nat as Hr.
  { pose proof (encoded_size_pos item). unfold len in Hl. lia. }
  pose proof (IH rest Hr) as Hrest.
  destruct (decode_all dec fuel rest) as [[items|[]] rest']; try done.
  destruct Hrest as (Hws & Hds & Hls). simpl. split; [by constructor|]. split; lia.
Qed.

Lemma be_range a n : len a = Z.of_nat n -> 0 <= from_be_bytes a < 256 ^ Z.of_nat n.
Proof. unfold len. intros Ha. pose proof (from_be_bytes_range a). rewrite Ha in *. done. Qed.

Lemma decode_padded_post levels dec ty n buf :
  (ty = BigInteger \/ ty = TextString \/ ty = ByteString) ->
  u32 n -> padded_length ty n <= len buf -> value_post levels buf (decode_value dec ty n buf).
Proof.
  intros Hty Hn Hp. assert (padded_length ty n = n + padding n) as Ep by by destruct Hty as [->|[->| ->]].
  rewrite Ep in Hp. clear Ep. pose proof (padding_range n). destruct Hn as [Hn0 Hn1].
  destruct (len_split n buf) as (v & buf' & -> & Hv); [lia|]. rewrite len_app in Hp.
  destruct (len_split (padding n) buf') as (pad & rest & -> & Hpad); [lia|].
  destruct Hty as [->|[->| ->]]; cbn [decode_value]; subst n.
  - do 2 buf_step. intros tag Htag. cbn [wf depth_of encoded_size]. unfold padded_len.
    autorewrite with ttlv_len. unfold in_u in *. lia.
  - buf_step. unfold from_utf8. destruct (utf8_valid v) eqn:Hu; [|done]. cbn [ok_or].
    erewrite bind_Ok by done. buf_step. intros tag Htag.
    cbn [wf depth_of encoded_size]. unfold padded_len. rewrite as_of_bytes.
    autorewrite with ttlv_len. unfold in_u in *. split_and!; try done; lia.
  - do 2 buf_step. intros tag Htag. cbn [wf depth_of encoded_size]. unfold padded_len.
    autorewrite with ttlv_len. unfold in_u in *. lia.
Qed.

(** The two shapes of the fixed-size values: four bytes and padding, or eight
    bytes. *)
Lemma decode_word_post levels {A} (g : decoder A) (f : A -> TtlvValue) (h : bytes -> A) buf :
  (forall a rest, len a = 4 -> g (a ++ rest) = (Ok (h a), rest)) ->
  (forall tag a, in_u 24 tag -> len a = 4 -> wf (MkTtlv tag (f (h a)))) ->
  (forall tag a, depth_of (MkTtlv tag (f a)) = 1%nat /\ encoded_size (MkTtlv tag (f a)) = 16) ->
  8 <= len buf -> value_post levels buf ((let! v := g in advance 4 ;! ret (f v)) buf).
Proof.
  intros Hg Hwf Hsize Hb.
  destruct (len_split 4 buf) as (a & buf' & -> & Ha); [lia|]. rewrite len_app in Hb.
  destruct (len_split 4 buf') as (b & rest & -> & Hpad); [lia|].
  erewrite bind_Ok by by apply Hg. buf_step. intros tag Htag.
  destruct (Hsize tag (h a)) as [-> ->]. rewrite !len_app. split; [by apply Hwf|lia].
Qed.

Lemma decode_long_post levels {A} (g : decoder A) (f : A -> TtlvValue) (h : bytes -> A) buf :
  (forall a rest, len a = 8 -> g (a ++ rest) = (Ok (h a), rest)) ->
  (forall tag a, in_u 24 tag -> len a = 8 -> wf (MkTtlv tag (f (h a)))) ->
  (forall tag a, depth_of (MkTtlv tag (f a)) = 1%nat /\ encoded_size (MkTtlv tag (f a)) = 16) ->
  8 <= len buf -> value_post levels buf ((let! v := g in ret (f v)) buf).
Proof.
  intros Hg Hwf Hsize Hb. destruct (len_split 8 buf) as (a & rest & -> & Ha); [lia|].
  erewrite bind_Ok by by apply Hg. intros tag Htag.
  destruct (Hsize tag (h a)) as [-> ->]. rewrite !len_app. split; [by apply Hwf|lia].
Qed.

Lemma decode_structure_post levels n buf :
  (forall buf, item_post levels buf (decode_item levels buf)) -> u32 n -> n <= len buf ->
  value_post levels buf (decode_value (decode_item levels) Structure n buf).
Proof.
  intros Hdec Hn Hp. destruct (len_split n buf) as (a & rest & -> & Ha); [by split; [apply Hn|]|].
  cbn [decode_value]. buf_step. unfold within, bind.
  pose proof (decode_all_post levels (decode_item levels) (length a) a Hdec ltac:(done)) as Hall.
  destruct (decode_all _ _ _) as [[items|[]] rest']; try done. destruct Hall as (Hw & Hd & Hl).
  intros tag Htag. cbn [wf depth_of encoded_size]. rewrite len_app, wf_children, <- Hl, Ha.
  split; [done|]. split; lia.
Qed.

Lemma signed_range w n a :
  0 < w -> 2 ^ w = 256 ^ Z.of_nat n -> len a = Z.of_nat n -> in_i w (to_signed w (from_be_bytes a)).
Proof.
  intros Hw E Ha. apply to_signed_range; [done|]. unfold in_u. rewrite E. by apply be_range.
Qed.

Lemma decode_value_post levels ty n buf :
  (forall buf, item_post levels buf (decode_item levels buf)) ->
  u32 n -> padded_length ty n <= len buf ->
  value_post levels buf (decode_value (decode_item levels) ty n buf).
Proof.
  intros Hdec Hn Hp. destruct ty; try (apply decode_padded_post; by eauto).
  - by apply decode_structure_post.
  - eapply decode_word_post; [apply get_i32_app| |done..]. split; [done|]. by apply (signed_range 32 4).
  - eapply decode_long_post; [apply get_i64_app| |done..]. split; [done|]. by apply (signed_range 64 8).
  - eapply decode_word_post; [apply get_u32_app| |done..]. split; [done|]. by apply (be_range _ 4).
  - eapply (decode_long_post _ get_u64 (fun v => VBoolean (negb (v =? 0)))); [apply get_u64_app|done..].
  - eapply decode_long_post; [apply get_i64_app| |done..]. split; [done|]. by apply (signed_range 64 8).
  - eapply decode_word_post; [apply get_u32_app| |done..]. split; [done|]. by apply (be_range _ 4).
Qed.

Lemma decode_item_post levels buf : item_post levels buf (decode_item levels buf).
Proof.
  revert buf. induction levels as [|levels IH]; intros buf; [done|].
  destruct (decode_item_cases buf) as [Hb|(b0 & b1 & b2 & t & l & body & -> & Hl)];
    [by rewrite decode_item_short|].
  rewrite decode_item_header by done. destruct (TtlvType_try_from _) as [ty|e]; [|done].
  destruct (Z.ltb_spec (len body) (padded_length ty (from_be_bytes l))) as [|Hp]; [done|].
  pose proof (decode_value_post levels ty (from_be_bytes l) body IH ltac:(by apply (be_range l 4)) Hp)
    as Hv. unfold bind.
  destruct (decode_value _ _ _ _) as [[v|[]] rest]; try done.
  destruct (Hv (tag_of b0 b1 b2) (tag_of_range b0 b1 b2)) as (Hw & Hd & Hs).
  split; [done|]. split; [done|].
  rewrite <- Hs. change (b0 :: b1 :: b2 :: t :: l ++ body) with ([b0; b1; b2; t] ++ l ++ body).
  rewrite !len_app, Hl. unfold len at 1. simpl. lia.
Qed.

(** ** Items that nest too deep *)

Definition depth_error : stop :=
  Failed (InvalidEncoding
    ("TTLV nesting depth exceeds maximum of " +:+ to_decimal (Z.of_nat MAX_TTLV_DEPTH))).

Definition refused_deep (item : Ttlv) : Prop := forall levels rest,
  wf item -> (levels < depth_of item)%nat ->
  (decode_item levels (encode_item item ++ rest)).1 = Err depth_error.

Lemma decode_all_deep levels items fuel :
  Forall refused_deep items -> Forall wf items -> (length items <= fuel)%nat ->
  (levels < foldr Nat.max 0 (map depth_of items))%nat ->
  (decode_all (decode_item levels) fuel (concat (map encode_item items))).1 = Err depth_error.
Proof.
  intros Hd Hw. revert fuel. induction Hw as [|x items Hx _ IH]; intros fuel Hf Hl; simpl in *; [lia|].
  apply Forall_cons in Hd as [Hdx Hd]. destruct fuel as [|fuel]; [lia|]. cbn [decode_all].
  assert (exists b bs, encode_item x ++ concat (map encode_item items) = b :: bs) as (b & bs & E)
    by (destruct x; simpl; eauto).
  rewrite E, <- E. destruct (decide (levels < depth_of x)%nat) as [Hlt|Hge].
  - specialize (Hdx levels (concat (map encode_item items)) Hx Hlt). unfold bind.
    destruct (decode_item levels _) as [[]]; simpl in *; congruence.
  - erewrite bind_Ok by (apply decode_encode_item; [done|lia]).
    specialize (IH Hd fuel ltac:(lia) ltac:(lia)). unfold bind.
    destruct (decode_all _ _ _) as [[]]; simpl in *; congruence.
Qed.

Lemma decode_item_deep item : refused_deep item.
Proof.
  induction item as [tag value Hv|tag items IH] using Ttlv_children_ind;
    intros [|levels] rest Hw Hl; try done.
  - destruct value; simpl in Hl; try lia. by destruct (Hv items).
  - rewrite encode_item_shape, <- !app_assoc.
    rewrite decode_item_encoded; [|by destruct Hw|apply value_length_u32|].
    2:{ erewrite value_length_wf, len_app by done. pose proof (len_nonneg rest). lia. }
    destruct Hw as [_ [Hw Hn]]. apply wf_children in Hw.
    cbn [ttlv_type value_length value_body decode_value].
    rewrite wrap_small by by rewrite encode_children_len.
    unfold bind at 1. buf_step.
    pose proof (decode_all_deep levels items _ IH Hw (length_children items) ltac:(simpl in Hl; lia)) as Hall.
    unfold within, bind. by rewrite Hall.
Qed.

(** ** The theorems *)

(** C10: decoding what the encoder wrote gives the item back and leaves the
    bytes after it in the buffer, for every item whose numbers and lengths fit
    their fields and that nests at most 64 levels. *)
Theorem ttlv_roundtrip (item : Ttlv) (rest : bytes) :
  wf item -> (depth_of item <= MAX_TTLV_DEPTH)%nat ->
  decode_from_bytes (encode item ++ rest) = (Ok item, rest) /\ decode (encode item) = Ok item.
Proof.
  intros Hw Hd. split; [by apply decode_encode_item|]. unfold decode, encode.
  rewrite <- (app_nil_r (encode_item item)). by rewrite decode_encode_item.
Qed.

(** C11: on arbitrary bytes the decoder neither panics nor fails to terminate: it
    returns an error or a well-formed item of at most 64 levels, and it has
    then consumed exactly the bytes of that item's encoding size. *)
Theorem ttlv_decode_total (data : bytes) :
  match decode_from_bytes data with
  | (Ok item, rest) =>
      wf item /\ (depth_of item <= MAX_TTLV_DEPTH)%nat /\ len data = encoded_size item + len rest
  | (Err (Failed _), _) => True
  | (Err Panic, _) | (Err NoFuel, _) => False
  end.
Proof.
  pose proof (decode_item_post MAX_TTLV_DEPTH data) as Hp. unfold decode_from_bytes.
  by destruct (decode_item _ _) as [[|[]]].
Qed.

(** An encoded item of more than 64 levels is refused with the depth error,
    however large it is. *)
Theorem ttlv_depth_limit (item : Ttlv) :
  wf item -> (MAX_TTLV_DEPTH < depth_of item)%nat -> decode (encode item) = Err depth_error.
Proof.
  intros Hw Hd. unfold decode, encode. rewrite <- (app_nil_r (encode_item item)).
  by apply decode_item_deep.
Qed.

(** [encoded_size] predicts the length of the encoding of every item, and for
    a structure the framing helper reads that length from the first eight
    bytes of a stream that starts with it. *)
Theorem ttlv_framing (item : Ttlv) (rest : bytes) :
  len (encode item) = encoded_size item /\
  (wf item -> is_structure item = true ->
   peek_message_length (encode item ++ rest) = Some (len (encode item))).
Proof.
  split; [apply encode_item_len|]. intros Hw Hs. destruct item as [tag value].
  pose proof (value_length_wf tag value Hw) as Hv. pose proof (value_length_u32 value) as Hu.
  destruct value; try done. cbn [ttlv_type padded_length] in Hv. set (v := VStructure items) in *.
  unfold encode, peek_message_length. rewrite encode_item_shape. unfold put_u8. cbn [app drop].
  rewrite <- app_assoc, (proj2 (Z.ltb_ge _ _)).
  - rewrite drop_0, (take_app_length' (put_u32 _)), from_put_u32 by done. f_equal.
    rewrite Hv. unfold len, put_u32. cbn [length]. rewrite length_app, length_be_bytes. lia.
  - pose proof (len_put_u32 (value_length v)). unfold len in *. simpl. rewrite length_app. lia.
Qed.

(** A request header nested in a message, and 64 and 65 levels of structure. *)
Definition sample_request : Ttlv :=
  MkTtlv (Tags.known_tag Tags.REQUEST_MESSAGE) (VStructure
    [ MkTtlv (Tags.known_tag Tags.REQUEST_HEADER) (VStructure
        [ MkTtlv (Tags.known_tag Tags.PROTOCOL_VERSION_MAJOR) (VInteger 1);
          MkTtlv (Tags.known_tag Tags.BATCH_COUNT) (VInteger (-2)) ]);
      MkTtlv (Tags.known_tag Tags.OPERATION) (VEnumeration 10);
      MkTtlv (Tags.known_tag Tags.UNIQUE_ID) (VTextString "key-1");
      MkTtlv (Tags.known_tag Tags.DATA) (VByteString [Byte.x01; Byte.x02; Byte.xff]) ]).

Fixpoint nest (n : nat) : Ttlv :=
  match n with
  | O => MkTtlv (Tags.known_tag Tags.DATA) (VBoolean true)
  | S n => MkTtlv (Tags.known_tag Tags.DATA) (VStructure [nest n])
  end.

Lemma ttlv_roundtrip_witness : decode (encode sample_request) = Ok sample_request.
Proof. apply (ttlv_roundtrip sample_request []); vm_compute; intuition (congruence || lia). Defined.

Lemma ttlv_depth_limit_witness : decode (encode (nest 64)) = Err depth_error.
Proof. apply (ttlv_depth_limit (nest 64)); vm_compute; intuition (congruence || lia). Defined.

Lemma ttlv_framing_witness :
  peek_message_length (encode sample_request ++ [Byte.x42]) = Some (len (encode sample_request)).
Proof.
  apply (proj2 (ttlv_framing sample_request [Byte.x42])); vm_compute; intuition (congruence || lia).
Defined.
