(* ===== verification/AuditEvent.v ===== *)
(** * Audit events

    [crates/audit/src/event.rs]: the event record, its hash and its builder.
    The hash is SHA-256 over the concatenated fields; [preimage] is that
    concatenation, so that theorems can speak of what was hashed. *)

From Stdlib Require Import ZArith Lia Strings.Byte Ascii.
From stdpp Require Import base gmap strings list.
From S2P Require Import Prelude External.

Inductive EventType :=
| KeyGeneration | KeyImport | KeyExport | KeyDeletion | KeyRotation
| Sign | Verify | Encrypt | Decrypt
| Authentication | Authorization | AccessDenied
| SystemStartup | SystemShutdown | ConfigChange
| AuditLogRotation | AuditVerification.

Inductive OperationResult :=
| Success
| Failure (reason : string).

(** [Value] is [serde_json::Value]. *)
Record AuditEvent (Value : Type) := MkAuditEvent {
  timestamp : Z;
  sequence : Z;
  event_type : EventType;
  operation : string;
  namespace : string;
  client_id : string;
  key_id : option string;
  result_of : OperationResult;
  prev_hash : string;
  current_hash : string;
  metadata : option Value
}.
Arguments MkAuditEvent {Value}.
Arguments timestamp {Value}.
Arguments sequence {Value}.
Arguments event_type {Value}.
Arguments operation {Value}.
Arguments namespace {Value}.
Arguments client_id {Value}.
Arguments key_id {Value}.
Arguments result_of {Value}.
Arguments prev_hash {Value}.
Arguments current_hash {Value}.
Arguments metadata {Value}.

Definition with_prev_hash {V} (h : string) (e : AuditEvent V) : AuditEvent V :=
  MkAuditEvent (timestamp e) (sequence e) (event_type e) (operation e) (namespace e) (client_id e)
    (key_id e) (result_of e) h (current_hash e) (metadata e).
Definition with_current_hash {V} (h : string) (e : AuditEvent V) : AuditEvent V :=
  MkAuditEvent (timestamp e) (sequence e) (event_type e) (operation e) (namespace e) (client_id e)
    (key_id e) (result_of e) (prev_hash e) h (metadata e).

Record AuditEventBuilder (Value : Type) := MkBuilder {
  b_timestamp : option Z;
  b_sequence : option Z;
  b_event_type : option EventType;
  b_operation : option string;
  b_namespace : option string;
  b_client_id : option string;
  b_key_id : option string;
  b_result : option OperationResult;
  b_prev_hash : option string;
  b_metadata : option Value
}.
Arguments MkBuilder {Value}.
Arguments b_timestamp {Value}.
Arguments b_sequence {Value}.
Arguments b_event_type {Value}.
Arguments b_operation {Value}.
Arguments b_namespace {Value}.
Arguments b_client_id {Value}.
Arguments b_key_id {Value}.
Arguments b_result {Value}.
Arguments b_prev_hash {Value}.
Arguments b_metadata {Value}.

(** ["0".repeat(64)] *)
Fixpoint repeat_char (c : Ascii.ascii) (n : nat) : string :=
  match n with O => EmptyString | S n => String c (repeat_char c n) end.
Definition genesis_hash : string := repeat_char "0"%char 64.

Section event.
Context {Value : Type} {HEX : Hex} {SHA : Sha256} {CHRONO : Chrono}.
Context {ST : Serde EventType} {SR : Serde OperationResult} {SVal : SerdeCodec Value}.
Abbreviation AuditEvent := (AuditEvent Value).
Abbreviation AuditEventBuilder := (AuditEventBuilder Value).

(** [serde_json::to_string(x).unwrap_or_default().as_bytes()] *)
Definition json {A} `{SerdeCodec A} (a : A) : bytes :=
  match to_vec a with Ok b => b | Err _ => [] end.

(** The bytes fed to the hasher, in order. *)
Definition preimage (e : AuditEvent) : bytes :=
  as_bytes (to_rfc3339 (timestamp e)) ++
  le_bytes 8 (sequence e) ++
  json (event_type e) ++
  as_bytes (operation e) ++
  as_bytes (namespace e) ++
  as_bytes (client_id e) ++
  match key_id e with Some key_id => as_bytes key_id | None => [] end ++
  json (result_of e) ++
  as_bytes (prev_hash e) ++
  match metadata e with Some metadata => json metadata | None => [] end.

Definition compute_hash (e : AuditEvent) : string := hex_encode (sha256 (preimage e)).

Definition verify_hash (e : AuditEvent) : bool := bool_decide (current_hash e = compute_hash e).

Definition builder : AuditEventBuilder :=
  MkBuilder None None None None None None None None None None.

Definition b_set_timestamp (t : Z) (b : AuditEventBuilder) : AuditEventBuilder :=
  MkBuilder (Some t) (b_sequence b) (b_event_type b) (b_operation b) (b_namespace b)
    (b_client_id b) (b_key_id b) (b_result b) (b_prev_hash b) (b_metadata b).
Definition b_set_sequence (n : Z) (b : AuditEventBuilder) : AuditEventBuilder :=
  MkBuilder (b_timestamp b) (Some n) (b_event_type b) (b_operation b) (b_namespace b)
    (b_client_id b) (b_key_id b) (b_result b) (b_prev_hash b) (b_metadata b).
Definition b_set_event_type (t : EventType) (b : AuditEventBuilder) : AuditEventBuilder :=
  MkBuilder (b_timestamp b) (b_sequence b) (Some t) (b_operation b) (b_namespace b)
    (b_client_id b) (b_key_id b) (b_result b) (b_prev_hash b) (b_metadata b).
Definition b_set_operation (s : string) (b : AuditEventBuilder) : AuditEventBuilder :=
  MkBuilder (b_timestamp b) (b_sequence b) (b_event_type b) (Some s) (b_namespace b)
    (b_client_id b) (b_key_id b) (b_result b) (b_prev_hash b) (b_metadata b).
Definition b_set_namespace (s : string) (b : AuditEventBuilder) : AuditEventBuilder :=
  MkBuilder (b_timestamp b) (b_sequence b) (b_event_type b) (b_operation b) (Some s)
    (b_client_id b) (b_key_id b) (b_result b) (b_prev_hash b) (b_metadata b).
Definition b_set_client_id (s : string) (b : AuditEventBuilder) : AuditEventBuilder :=
  MkBuilder (b_timestamp b) (b_sequence b) (b_event_type b) (b_operation b) (b_namespace b)
    (Some s) (b_key_id b) (b_result b) (b_prev_hash b) (b_metadata b).
Definition b_set_key_id (s : string) (b : AuditEventBuilder) : AuditEventBuilder :=
  MkBuilder (b_timestamp b) (b_sequence b) (b_event_type b) (b_operation b) (b_namespace b)
    (b_client_id b) (Some s) (b_result b) (b_prev_hash b) (b_metadata b).
Definition b_set_result (r : OperationResult) (b : AuditEventBuilder) : AuditEventBuilder :=
  MkBuilder (b_timestamp b) (b_sequence b) (b_event_type b) (b_operation b) (b_namespace b)
    (b_client_id b) (b_key_id b) (Some r) (b_prev_hash b) (b_metadata b).
Definition b_set_prev_hash (s : string) (b : AuditEventBuilder) : AuditEventBuilder :=
  MkBuilder (b_timestamp b) (b_sequence b) (b_event_type b) (b_operation b) (b_namespace b)
    (b_client_id b) (b_key_id b) (b_result b) (Some s) (b_metadata b).
Definition b_set_metadata (m : Value) (b : AuditEventBuilder) : AuditEventBuilder :=
  MkBuilder (b_timestamp b) (b_sequence b) (b_event_type b) (b_operation b) (b_namespace b)
    (b_client_id b) (b_key_id b) (b_result b) (b_prev_hash b) (Some m).
Definition b_success : AuditEventBuilder -> AuditEventBuilder := b_set_result Success.
Definition b_failure (reason : string) : AuditEventBuilder -> AuditEventBuilder :=
  b_set_result (Failure reason).

(** [now] is the clock reading used when no timestamp was set. *)
Definition build (now : Z) (b : AuditEventBuilder) : result AuditEvent string :=
  let timestamp := default now (b_timestamp b) in
  let? sequence := ok_or "sequence is required" (b_sequence b) in
  let? event_type := ok_or "event_type is required" (b_event_type b) in
  let? operation := ok_or "operation is required" (b_operation b) in
  let? namespace := ok_or "namespace is required" (b_namespace b) in
  let? client_id := ok_or "client_id is required" (b_client_id b) in
  let? result := ok_or "result is required" (b_result b) in
  let prev_hash := default genesis_hash (b_prev_hash b) in
  let event :=
    MkAuditEvent timestamp sequence event_type operation namespace client_id (b_key_id b) result
      prev_hash EmptyString (b_metadata b) in
  Ok (with_current_hash (compute_hash event) event).

(** The hash does not depend on the stored hash. *)
Lemma compute_hash_with_current h e : compute_hash (with_current_hash h e) = compute_hash e.
Proof. done. Qed.

Lemma verify_hash_computed e : verify_hash (with_current_hash (compute_hash e) e) = true.
Proof. by apply bool_decide_eq_true. Qed.

Lemma verify_hash_true e : verify_hash e = true <-> current_hash e = compute_hash e.
Proof. apply bool_decide_eq_true. Qed.

Lemma length_compute_hash e : String.length (compute_hash e) = 64%nat.
Proof. unfold compute_hash. by rewrite length_hex_encode, length_sha256. Qed.

(** A built event carries its own hash, and all fields of the builder. *)
Lemma build_verifies now b e : build now b = Ok e -> verify_hash e = true.
Proof.
  unfold build. destruct (b_sequence b), (b_event_type b), (b_operation b), (b_namespace b),
    (b_client_id b), (b_result b); simpl; intros; simplify_eq. apply verify_hash_computed.
Qed.

Lemma build_fields now b e : build now b = Ok e ->
  Some (sequence e) = b_sequence b /\ prev_hash e = default genesis_hash (b_prev_hash b) /\
  Some (client_id e) = b_client_id b /\ key_id e = b_key_id b.
Proof.
  unfold build. destruct (b_sequence b), (b_event_type b), (b_operation b), (b_namespace b),
    (b_client_id b), (b_result b); simpl; intros; by simplify_eq/=.
Qed.

(** The hash is computed over the concatenated fields without separators, so
    it does not tell where one field ends and the next begins: whatever the
    hash function, text moved from the end of the client identifier into the
    key identifier of an event (or from the operation into the namespace)
    leaves its hash, and so its verification, unchanged. *)
Theorem event_hash_ambiguous ts seq ty op ns client res prev cur meta (s : string) :
  let e op ns client key := MkAuditEvent ts seq ty op ns client key res prev cur meta in
  compute_hash (e op ns (client +:+ s) None) = compute_hash (e op ns client (Some s)) /\
  (forall key, compute_hash (e (op +:+ s) ns client key) = compute_hash (e op (s +:+ ns) client key)) /\
  verify_hash (e op ns (client +:+ s) None) = verify_hash (e op ns client (Some s)).
Proof.
  intros e. assert (compute_hash (e op ns (client +:+ s) None) = compute_hash (e op ns client (Some s))) as E.
  { unfold compute_hash, preimage, e; simpl. by rewrite as_bytes_app, <- app_assoc. }
  split; [done|]. split; [|unfold verify_hash; by rewrite E].
  intros key. unfold compute_hash, preimage, e; simpl. by rewrite !as_bytes_app, <- !app_assoc.
Qed.
End event.
