(* ===== verification/HashChain.v ===== *)
(** * The audit hash chain and checkpoints

    [crates/audit/src/hash_chain.rs]: an append-only list of events in which
    every event carries the hash of its predecessor, with range verification.
    [crates/audit/src/checkpoint.rs]: the integrity tag over the latest
    sequence number and Merkle root, and the comparison of a log against its
    last checkpoint. *)

From Stdlib Require Import ZArith Lia Strings.Byte.
From stdpp Require Import base gmap strings list.
From S2P Require Import Prelude External AuditEvent.

Inductive HashChainError :=
| VerificationFailed (sequence : Z)
| SequenceMismatch (expected actual : Z)
| InvalidRange (from to : Z)
| EventNotFound (sequence : Z).

Record HashChain (Value : Type) := MkHashChain {
  events : list (AuditEvent Value);
  last_hash : string;
  chain_sequence : Z
}.
Arguments MkHashChain {Value}.
Arguments events {Value}.
Arguments last_hash {Value}.
Arguments chain_sequence {Value}.

Section chain.
Context {Value : Type} {HEX : Hex} {SHA : Sha256} {CHRONO : Chrono}.
Context {ST : Serde EventType} {SR : Serde OperationResult} {SVal : SerdeCodec Value}.
Abbreviation AuditEvent := (AuditEvent Value).
Abbreviation HashChain := (HashChain Value).

Definition new : HashChain := MkHashChain [] genesis_hash 0.

Definition current_sequence (c : HashChain) : Z := chain_sequence c.
Definition len (c : HashChain) : Z := Z.of_nat (length (events c)).
Definition is_empty (c : HashChain) : bool := match events c with [] => true | _ => false end.

Definition append (event : AuditEvent) : M HashChain HashChainError string := fun c =>
  let expected_seq := wrap 64 (chain_sequence c + 1) in
  if negb (sequence event =? expected_seq) then
    (Err (SequenceMismatch expected_seq (sequence event)), c)
  else
    let event := with_prev_hash (last_hash c) event in
    let event := with_current_hash (compute_hash event) event in
    let hash := current_hash event in
    (Ok hash, MkHashChain (events c ++ [event]) hash expected_seq).

(** The verification loop over a slice; [prev] is the event before it. *)
Fixpoint verify_loop (prev : option AuditEvent) (slice : list AuditEvent)
  : result unit HashChainError :=
  match slice with
  | [] => Ok tt
  | event :: rest =>
      if negb (verify_hash event) then Err (VerificationFailed (sequence event))
      else
        let? _ :=
          match prev with
          | Some prev_event =>
              if negb (bool_decide (prev_hash event = current_hash prev_event)) then
                Err (VerificationFailed (sequence event))
              else Ok tt
          | None => Ok tt
          end in
        verify_loop (Some event) rest
  end.

Definition event_before (l : list AuditEvent) (i : nat) : option AuditEvent :=
  match i with O => None | S i => l !! i end.

Definition verify (from to : Z) (c : HashChain) : result unit HashChainError :=
  if to <? from then Err (InvalidRange from to)
  else if (from =? 0) || (len c <? to) then Err (InvalidRange from to)
  else
    let first := Z.to_nat (from - 1) in
    verify_loop (event_before (events c) first)
      (take (Z.to_nat to - first) (drop first (events c))).

Definition verify_all (c : HashChain) : result unit HashChainError :=
  if len c =? 0 then Ok tt else verify 1 (len c) c.

Definition get_event (seq : Z) (c : HashChain) : result AuditEvent HashChainError :=
  if (seq =? 0) || (len c <? seq) then Err (EventNotFound seq)
  else ok_or (EventNotFound seq) (events c !! Z.to_nat (seq - 1)).

Definition get_events_range (from to : Z) (c : HashChain)
  : result (list AuditEvent) HashChainError :=
  if to <? from then Err (InvalidRange from to)
  else if (from =? 0) || (len c <? to) then Err (InvalidRange from to)
  else
    let first := Z.to_nat (from - 1) in
    Ok (take (Z.to_nat to - first) (drop first (events c))).

(** ** The loop *)

Definition last_or (prev : option AuditEvent) (l : list AuditEvent) : option AuditEvent :=
  match last l with Some e => Some e | None => prev end.

Lemma last_or_cons prev e l : last_or prev (e :: l) = last_or (Some e) l.
Proof. unfold last_or. rewrite last_cons. by destruct (last l). Qed.

Lemma verify_loop_app prev l1 l2 :
  verify_loop prev (l1 ++ l2) =
  let? _ := verify_loop prev l1 in verify_loop (last_or prev l1) l2.
Proof.
  revert prev. induction l1 as [|e l1 IH]; intros prev; [done|].
  rewrite last_or_cons. simpl. destruct (verify_hash e); simpl; [|done].
  destruct prev as [p|]; simpl; [destruct (bool_decide _); simpl|]; auto.
Qed.

Lemma verify_loop_cons prev e l :
  verify_loop prev (e :: l) = Ok tt <->
  verify_hash e = true /\ (forall p, prev = Some p -> prev_hash e = current_hash p) /\
  verify_loop (Some e) l = Ok tt.
Proof.
  simpl. destruct (verify_hash e); simpl; [|by split; [|intros [? _]]].
  destruct prev as [p|]; simpl; [|by split; [|intros (_ & _ & ?)]].
  destruct (bool_decide_reflect (prev_hash e = current_hash p)) as [Hp|Hp]; simpl.
  - split; [|by intros (_ & _ & ?)]. intros H. split_and!; try done. by intros ? [= <-].
  - split; [done|]. intros (_ & H & _). by destruct Hp; apply H.
Qed.

Lemma verify_loop_app_Ok prev l1 l2 :
  verify_loop prev (l1 ++ l2) = Ok tt <->
  verify_loop prev l1 = Ok tt /\ verify_loop (last_or prev l1) l2 = Ok tt.
Proof.
  rewrite verify_loop_app. destruct (verify_loop prev l1) as [[]|]; simpl;
    [by split; [|intros [_ ?]]|by split; [|intros [? _]]].
Qed.

Lemma event_before_last l i :
  (i <= length l)%nat -> event_before l i = last_or None (take i l).
Proof.
  intros Hi. unfold last_or. destruct i as [|i]; [done|]. cbn [event_before].
  rewrite last_lookup, length_take, lookup_take_lt by lia.
  replace (Nat.pred (S i `min` length l)) with i by lia.
  destruct (lookup_lt_is_Some_2 l i) as [e ->]; [lia|]. done.
Qed.

(** Verification of a whole log implies verification of every part of it. *)
Lemma verify_loop_slice l i n :
  (i <= length l)%nat -> verify_loop None l = Ok tt ->
  verify_loop (event_before l i) (take n (drop i l)) = Ok tt.
Proof.
  intros Hi H. rewrite event_before_last by done.
  rewrite <- (take_drop i l), verify_loop_app_Ok in H. destruct H as [_ H].
  rewrite <- (take_drop n (drop i l)), verify_loop_app_Ok in H. apply H.
Qed.

Lemma verify_Ok from to c :
  1 <= from <= to -> to <= len c -> verify_loop None (events c) = Ok tt -> verify from to c = Ok tt.
Proof.
  unfold len. intros Hft Hto H. unfold verify, len.
  rewrite (proj2 (Z.ltb_ge _ _)), (proj2 (Z.eqb_neq _ _)), (proj2 (Z.ltb_ge _ _)) by lia. simpl.
  apply verify_loop_slice; [lia|done].
Qed.

Lemma verify_all_loop c : verify_all c = verify_loop None (events c).
Proof.
  unfold verify_all, verify, len. destruct (events c) as [|e l] eqn:E; [done|].
  rewrite (proj2 (Z.eqb_neq _ _)), (proj2 (Z.ltb_ge _ _)), Z.ltb_irrefl by (simpl; lia).
  cbn [orb Z.eqb]. replace (Z.to_nat (1 - 1)) with 0%nat by lia.
  rewrite drop_0. cbn [event_before]. rewrite take_ge; [done|lia].
Qed.

(** ** Reachable chains *)

(** Whatever is offered, accepted or refused. *)
Definition appends (offered : list AuditEvent) (c : HashChain) : HashChain :=
  foldl (fun c e => (append e c).2) c offered.

Definition chain_inv (c : HashChain) : Prop :=
  verify_loop None (events c) = Ok tt /\
  last_hash c = match last (events c) with Some e => current_hash e | None => genesis_hash end /\
  chain_sequence c = wrap 64 (len c) /\
  (forall i e, events c !! i = Some e -> sequence e = wrap 64 (Z.of_nat i + 1)) /\
  (forall e, events c !! 0%nat = Some e -> prev_hash e = genesis_hash).

Lemma new_inv : chain_inv new.
Proof. done. Qed.

Lemma wrap_succ x : wrap 64 (wrap 64 x + 1) = wrap 64 (x + 1).
Proof. unfold wrap. by rewrite Zplus_mod_idemp_l. Qed.

Lemma append_inv e c : chain_inv c -> chain_inv (append e c).2.
Proof.
  intros (Hv & Hl & Hs & Hseq & Hgen). unfold append.
  destruct (Z.eqb_spec (sequence e) (wrap 64 (chain_sequence c + 1))) as [He|]; simpl; [|done].
  set (e' := with_current_hash _ _). split_and!; simpl.
  - apply verify_loop_app_Ok. split; [done|]. apply verify_loop_cons.
    split; [apply verify_hash_computed|]. split; [|done].
    intros p Hp. unfold last_or in Hp. simpl. rewrite Hl. destruct (last (events c)); by simplify_eq.
  - by rewrite last_snoc.
  - rewrite Hs, wrap_succ. unfold len. simpl. rewrite length_app. simpl. do 2 f_equal. lia.
  - intros i x Hi. destruct (decide (i < length (events c))%nat) as [Hlt|Hge].
    + rewrite lookup_app_l in Hi by done. by apply Hseq.
    + rewrite lookup_app_r in Hi by lia. apply list_lookup_singleton_Some in Hi as [Hi <-]. simpl.
      rewrite He, Hs, wrap_succ. unfold len. do 2 f_equal. lia.
  - intros x Hx. destruct (events c) as [|y l] eqn:E; simplify_eq/=; [|by apply Hgen].
    by rewrite Hl.
Qed.

Lemma appends_inv offered c : chain_inv c -> chain_inv (appends offered c).
Proof.
  revert c. induction offered as [|e l IH]; intros c Hc; [done|]. by apply IH, append_inv.
Qed.

(** *** Chains from their events *)

(** The chain that holds given events. *)
Definition chain_of (l : list AuditEvent) : HashChain :=
  MkHashChain l match last l with Some e => current_hash e | None => genesis_hash end
    (wrap 64 (Z.of_nat (length l))).

Lemma chain_inv_of c : chain_inv c -> c = chain_of (events c).
Proof.
  intros (_ & Hl & Hs & _). destruct c as [l h n]. unfold chain_of, len in *. simpl in *. by subst.
Qed.

Lemma chain_inv_prefix p l : chain_inv (chain_of (p ++ l)) -> chain_inv (chain_of p).
Proof.
  intros (Hv & _ & _ & Hseq & Hg). split_and!; simpl in *; try done.
  - by apply verify_loop_app_Ok in Hv as [Hv _].
  - intros i e He. apply Hseq. by apply lookup_app_l_Some.
  - intros e He. apply Hg. by apply lookup_app_l_Some.
Qed.

(** An event that is already linked and hashed is stored as it is. *)
Lemma append_linked e c :
  sequence e = wrap 64 (chain_sequence c + 1) -> prev_hash e = last_hash c -> verify_hash e = true ->
  append e c = (Ok (current_hash e), MkHashChain (events c ++ [e]) (current_hash e) (sequence e)).
Proof.
  intros Hs Hp Hv%verify_hash_true. unfold append. rewrite Hs, Z.eqb_refl. cbn [negb].
  assert (with_prev_hash (last_hash c) e = e) as -> by (destruct e; simpl in *; by subst).
  assert (with_current_hash (compute_hash e) e = e) as -> by (rewrite <- Hv; by destruct e).
  done.
Qed.

Lemma append_chain_of e p :
  chain_inv (chain_of (p ++ [e])) -> append e (chain_of p) = (Ok (current_hash e), chain_of (p ++ [e])).
Proof.
  intros (Hv & _ & _ & Hseq & Hg). simpl in *.
  assert (sequence e = wrap 64 (Z.of_nat (length p) + 1)) as Hs.
  { apply Hseq. rewrite lookup_app_r by lia. by rewrite Nat.sub_diag. }
  apply verify_loop_app_Ok in Hv as [_ (Hve & Hlink & _)%verify_loop_cons].
  rewrite append_linked; [| |simpl|done].
  - unfold chain_of. rewrite last_snoc, Hs, length_app. simpl. do 3 f_equal. lia.
  - simpl. by rewrite wrap_succ.
  - destruct p as [|x p _] using rev_ind; [by apply Hg|].
    rewrite last_snoc. apply Hlink. unfold last_or. by rewrite last_snoc.
Qed.

(** Appending the events of a chain to the empty chain gives it back. *)
Lemma appends_events c : chain_inv c -> appends (events c) new = c.
Proof.
  intros Hc. pose proof (chain_inv_of c Hc) as Ec. rewrite Ec. simpl.
  assert (forall l, chain_inv (chain_of l) -> appends l new = chain_of l) as H.
  { induction l as [|e l IH] using rev_ind; intros Hl; [done|]. unfold appends in *.
    rewrite foldl_snoc, IH by by eapply chain_inv_prefix. by rewrite append_chain_of. }
  apply H. by rewrite <- Ec.
Qed.

(** ** The theorems *)

(** In every chain built by appending events, whichever were refused, each
    range inside the chain verifies and each range outside it is refused;
    events are numbered consecutively from 1 and the stored tip is the hash
    of the last event. *)
Theorem chain_always_verifies (offered : list AuditEvent) (from to : Z) :
  let c := appends offered new in
  0 <= from -> 0 <= to ->
  verify from to c =
    (if (1 <=? from) && (from <=? to) && (to <=? len c) then Ok tt else Err (InvalidRange from to)) /\
  verify_all c = Ok tt /\
  (forall i e, events c !! i = Some e -> sequence e = wrap 64 (Z.of_nat i + 1)) /\
  chain_sequence c = wrap 64 (len c).
Proof.
  intros c Hf Ht. assert (chain_inv c) as (Hv & Hl & Hs & Hseq & _) by apply appends_inv, new_inv.
  split; [|by rewrite verify_all_loop].
  destruct (decide (1 <= from <= to /\ to <= len c)) as [[Hr1 Hr2]|Hr].
  - rewrite !(proj2 (Z.leb_le _ _)) by lia. by apply verify_Ok.
  - unfold verify. destruct (Z.ltb_spec to from); simpl.
    + rewrite (proj2 (Z.leb_gt from to)) by lia. by rewrite andb_false_r.
    + destruct (Z.eqb_spec from 0), (Z.ltb_spec (len c) to); simpl; [..|lia];
        [rewrite (proj2 (Z.leb_gt 1 from)) by lia; done..|].
      rewrite (proj2 (Z.leb_gt to (len c))) by lia. by rewrite andb_false_r.
Qed.

(** An event with the wrong sequence number is refused without any change;
    otherwise it is appended with the tip as its predecessor and with its own
    hash, the hash is returned, and the event is found again under its number. *)
Theorem append_spec (event : AuditEvent) (c : HashChain) :
  chain_inv c -> len c + 1 < 2 ^ 64 ->
  append event c =
    (if sequence event =? len c + 1 then
       let e := with_prev_hash (last_hash c) event in
       let e := with_current_hash (compute_hash e) e in
       (Ok (current_hash e), MkHashChain (events c ++ [e]) (current_hash e) (len c + 1))
     else (Err (SequenceMismatch (len c + 1) (sequence event)), c)) /\
  (sequence event = len c + 1 -> exists e,
     get_event (len c + 1) (append event c).2 = Ok e /\ verify_hash e = true /\
     prev_hash e = last_hash c /\ operation e = operation event /\ client_id e = client_id event).
Proof.
  intros (_ & _ & Hs & _) Hlen.
  assert (wrap 64 (chain_sequence c + 1) = len c + 1) as Hexp.
  { rewrite Hs, wrap_succ. apply wrap_small. unfold in_u, len in *. lia. }
  unfold append. rewrite Hexp. split.
  - by destruct (sequence event =? len c + 1).
  - intros ->. rewrite Z.eqb_refl. simpl. unfold get_event, len in *. simpl. rewrite length_app. simpl.
    rewrite (proj2 (Z.eqb_neq _ _)), (proj2 (Z.ltb_ge _ _)) by lia. simpl.
    rewrite lookup_app_r by lia.
    replace (Z.to_nat _ - length (events c))%nat with 0%nat by lia. simpl.
    eexists. split; [done|]. split; [apply verify_hash_computed|done].
Qed.

(** *** Tamper evidence *)

Definition metadata_json (e : AuditEvent) : bytes :=
  match metadata e with Some m => json m | None => [] end.

(** With metadata of equal length the previous hash can be read off the hashed
    bytes. *)
Lemma preimage_prev_hash e1 e2 :
  preimage e1 = preimage e2 -> length (metadata_json e1) = length (metadata_json e2) ->
  String.length (prev_hash e1) = String.length (prev_hash e2) -> prev_hash e1 = prev_hash e2.
Proof.
  assert (forall e, exists a, preimage e = a ++ as_bytes (prev_hash e) ++ metadata_json e) as Hp.
  { intros e. unfold preimage. eexists. rewrite !(app_assoc _ _ (as_bytes (prev_hash e) ++ _)).
    reflexivity. }
  destruct (Hp e1) as [a1 ->], (Hp e2) as [a2 ->]. rewrite !app_assoc.
  intros E Hm Hl. apply app_inj_2 in E as [E _]; [|done].
  apply app_inj_2 in E as [_ E]; [by apply as_bytes_inj|].
  by rewrite !length_as_bytes.
Qed.

(** The previous hash of every event but the first is a digest. *)
Lemma verified_prev_length l e :
  verify_loop None (l ++ [e]) = Ok tt -> l <> [] -> String.length (prev_hash e) = 64%nat.
Proof.
  intros [Hl [_ [Hp _]]%verify_loop_cons]%verify_loop_app_Ok Hne.
  destruct l as [|p l _] using rev_ind; [done|]. unfold last_or in Hp. rewrite last_snoc in Hp.
  rewrite (Hp p) by done. apply verify_loop_app_Ok in Hl as [_ [Hv _]%verify_loop_cons].
  apply verify_hash_true in Hv as ->. apply length_compute_hash.
Qed.

Lemma verified_last l e :
  verify_loop None (l ++ [e]) = Ok tt ->
  verify_loop None l = Ok tt /\ current_hash e = compute_hash e /\
  (forall p, last l = Some p -> prev_hash e = current_hash p).
Proof.
  intros [Hl [Hv%verify_hash_true [Hp _]]%verify_loop_cons]%verify_loop_app_Ok.
  split; [done|]. split; [done|]. intros p E. apply Hp. unfold last_or. by rewrite E.
Qed.

Definition same_tip (l1 l2 : list AuditEvent) : Prop :=
  current_hash <$> last l1 = current_hash <$> last l2.

Lemma tamper_evident_lists l1 l2 :
  verify_loop None l1 = Ok tt -> verify_loop None l2 = Ok tt -> same_tip l1 l2 ->
  Forall2 (fun e1 e2 => length (metadata_json e1) = length (metadata_json e2)) l1 l2 ->
  Forall2 (fun e1 e2 => preimage e1 = preimage e2) l1 l2 \/
  collision (preimage <$> l1) (preimage <$> l2).
Proof.
  revert l2. induction l1 as [|e1 l1 IH] using rev_ind; intros l2 H1 H2 Htip Hm.
  { apply Forall2_nil_inv_l in Hm as ->. by left. }
  apply Forall2_app_inv_l in Hm as (m2 & x & Hm & Hx & ->).
  apply Forall2_cons_inv_l in Hx as (e2 & x' & Hme & ->%Forall2_nil_inv_l & ->).
  unfold same_tip in Htip. rewrite !last_snoc in Htip. injection Htip as Htip.
  pose proof (verified_prev_length _ _ H1) as Hn1. pose proof (verified_prev_length _ _ H2) as Hn2.
  apply verified_last in H1 as (H1 & Hc1 & Hp1). apply verified_last in H2 as (H2 & Hc2 & Hp2).
  rewrite Hc1, Hc2 in Htip.
  destruct (digest_eq (preimage <$> l1 ++ [e1]) (preimage <$> m2 ++ [e2]) (preimage e1) (preimage e2))
    as [Hpre|]; [set_solver..|done| |by right].
  destruct (IH m2 H1 H2) as [Heq|Hcol]; [|done| |].
  - unfold same_tip. destruct l1 as [|p1 l1 _] using rev_ind.
    + by apply Forall2_nil_inv_l in Hm as ->.
    + apply Forall2_length in Hm. destruct m2 as [|p2 m2 _] using rev_ind.
      { rewrite length_app in Hm. simpl in Hm. lia. }
      rewrite !last_snoc. simpl. f_equal.
      rewrite <- (Hp1 p1), <- (Hp2 p2) by by rewrite last_snoc. apply preimage_prev_hash; [done..|].
      rewrite Hn1, Hn2; [done|by destruct m2|by destruct l1].
  - left. by apply Forall2_app; [|constructor].
  - right. eapply collision_mono; [..|exact Hcol]; rewrite fmap_app; set_solver.
Qed.

(** C39: the hash of the last event commits to the whole log: two logs of equal
    length that both verify and end in the same hash were hashed from the same
    bytes event by event, or two different hashed messages with one digest
    have been found.  (The metadata of corresponding events have equal
    length; without that the position of the link in the hashed bytes is not
    determined.) *)
Theorem chain_tamper_evident (c1 c2 : HashChain) :
  verify_all c1 = Ok tt -> verify_all c2 = Ok tt -> same_tip (events c1) (events c2) ->
  Forall2 (fun e1 e2 => length (metadata_json e1) = length (metadata_json e2))
    (events c1) (events c2) ->
  Forall2 (fun e1 e2 => preimage e1 = preimage e2) (events c1) (events c2) \/
  collision (preimage <$> events c1) (preimage <$> events c2).
Proof. rewrite !verify_all_loop. apply tamper_evident_lists. Qed.
End chain.

(** ** Checkpoints *)

Inductive CheckpointError :=
| IntegrityMismatch
| TipBehindCheckpoint (checkpoint live : Z)
| RootMismatch (sequence : Z) (checkpoint live : string)
| CheckpointSerialization (reason : string).

Record Checkpoint := MkCheckpoint {
  cp_sequence : Z;
  merkle_root : string;
  integrity_tag : string
}.

Definition CHECKPOINT_DOMAIN : bytes := as_bytes "hsm-audit-checkpoint-v1".

(** [ct_eq]: equal lengths and an accumulated exclusive or of zero. *)
Definition ct_eq (a b : bytes) : bool :=
  if negb (length a =? length b)%nat then false
  else
    foldl (fun diff '(x, y) => Z.lor diff (Z.lxor (byte_to_Z x) (byte_to_Z y))) 0 (zip a b) =? 0.

Section checkpoint.
Context {HEX : Hex} {SHA : Sha256} {HMAC : Hmac}.

Definition tag_message (sequence : Z) (merkle_root : string) : bytes :=
  CHECKPOINT_DOMAIN ++ le_bytes 8 sequence ++ as_bytes merkle_root.

Definition compute_tag (sequence : Z) (merkle_root : string) (key : option bytes) : string :=
  match key with
  | Some k => hex_encode (hmac_sha256 k (tag_message sequence merkle_root))
  | None => hex_encode (sha256 (tag_message sequence merkle_root))
  end.

Definition Checkpoint_new (sequence : Z) (merkle_root : string) (key : option bytes) : Checkpoint :=
  MkCheckpoint sequence merkle_root (compute_tag sequence merkle_root key).

Definition verify_integrity (cp : Checkpoint) (key : option bytes) : result unit CheckpointError :=
  let expected := compute_tag (cp_sequence cp) (merkle_root cp) key in
  if ct_eq (as_bytes expected) (as_bytes (integrity_tag cp)) then Ok tt else Err IntegrityMismatch.

Definition verify_against_live (cp : Checkpoint) (live_sequence : Z) (live_root : option string)
    (key : option bytes) : result unit CheckpointError :=
  let? _ := verify_integrity cp key in
  if live_sequence <? cp_sequence cp then
    Err (TipBehindCheckpoint (cp_sequence cp) live_sequence)
  else if live_sequence =? cp_sequence cp then
    match live_root with
    | Some live_root =>
        if negb (bool_decide (live_root = merkle_root cp)) then
          Err (RootMismatch (cp_sequence cp) (merkle_root cp) live_root)
        else Ok tt
    | None => Ok tt
    end
  else Ok tt.

(** ** The comparison *)

Lemma ct_fold_zero l d :
  0 <= d ->
  foldl (fun diff '(x, y) => Z.lor diff (Z.lxor (byte_to_Z x) (byte_to_Z y))) d l = 0 <->
  d = 0 /\ Forall (fun p : byte * byte => p.1 = p.2) l.
Proof.
  revert d. induction l as [|[x y] l IH]; intros d Hd; simpl; [by split; [split; [|constructor]|intros []]|].
  pose proof (byte_to_Z_range x). pose proof (byte_to_Z_range y).
  assert (0 <= Z.lxor (byte_to_Z x) (byte_to_Z y)) by (apply Z.lxor_nonneg; lia).
  rewrite IH by by apply Z.lor_nonneg. rewrite Z.lor_eq_0_iff, Z.lxor_eq_0_iff, Forall_cons. simpl.
  split.
  - intros [[-> ?%byte_to_Z_inj] ?]. done.
  - intros (-> & -> & ?). done.
Qed.

(** The constant-time comparison decides equality. *)
Lemma ct_eq_spec a b : ct_eq a b = bool_decide (a = b).
Proof.
  unfold ct_eq. destruct (Nat.eqb_spec (length a) (length b)) as [Hl|Hl]; simpl.
  - apply eq_bool_prop_intro. rewrite !Is_true_true, Z.eqb_eq, bool_decide_eq_true, ct_fold_zero by done.
    split; [|intros ->; split; [done|]].
    + intros [_ Hf]. revert b Hl Hf. induction a as [|x a IH]; intros [|y b] Hl Hf; try done.
      simpl in Hf. apply Forall_cons in Hf as [Hxy Hf]. simpl in Hxy. subst y. f_equal.
      apply IH; [by injection Hl|done].
    + clear. induction b as [|y b IH]; simpl; by constructor.
  - symmetry. apply bool_decide_eq_false. congruence.
Qed.

Lemma verify_integrity_spec cp key :
  verify_integrity cp key =
  if decide (integrity_tag cp = compute_tag (cp_sequence cp) (merkle_root cp) key)
  then Ok tt else Err IntegrityMismatch.
Proof.
  unfold verify_integrity. rewrite ct_eq_spec. case_decide as E.
  - rewrite E. by rewrite bool_decide_true.
  - rewrite bool_decide_false; [done|]. intros Heq%as_bytes_inj. by symmetry in Heq.
Qed.

Lemma new_verifies sequence root key : verify_integrity (Checkpoint_new sequence root key) key = Ok tt.
Proof. rewrite verify_integrity_spec. by rewrite decide_True. Qed.

Lemma verify_same_live sequence root key :
  verify_against_live (Checkpoint_new sequence root key) sequence (Some root) key = Ok tt.
Proof.
  unfold verify_against_live. rewrite new_verifies. simpl.
  by rewrite Z.ltb_irrefl, Z.eqb_refl, bool_decide_true.
Qed.

Lemma verify_behind sequence root key live live_root :
  live < sequence ->
  verify_against_live (Checkpoint_new sequence root key) live live_root key =
  Err (TipBehindCheckpoint sequence live).
Proof.
  intros Hlt. unfold verify_against_live. rewrite new_verifies. simpl. by rewrite (proj2 (Z.ltb_lt _ _)).
Qed.

(** The live log is accepted exactly when the tag is the one of the
    checkpoint's sequence number and root, the log is not shorter than the
    checkpoint, and at equal length its root (if it has one) is the
    checkpoint's; for a checkpoint the logger wrote, a log that lost events
    after it is always refused. *)
Theorem verify_against_live_spec (cp : Checkpoint) (live : Z) (live_root : option string)
    (key : option bytes) :
  (verify_against_live cp live live_root key = Ok tt <->
   integrity_tag cp = compute_tag (cp_sequence cp) (merkle_root cp) key /\
   cp_sequence cp <= live /\
   (live = cp_sequence cp -> forall r, live_root = Some r -> r = merkle_root cp)) /\
  (forall sequence root, live < sequence ->
   verify_against_live (Checkpoint_new sequence root key) live live_root key =
   Err (TipBehindCheckpoint sequence live)).
Proof.
  split.
  - unfold verify_against_live. rewrite verify_integrity_spec. case_decide as Htag; simpl; [|by split; [|intros [? _]]].
    destruct (Z.ltb_spec live (cp_sequence cp)); [split; [done|lia]|].
    destruct (Z.eqb_spec live (cp_sequence cp)) as [El|El].
    + destruct live_root as [r|]; [|by split].
      destruct (bool_decide_reflect (r = merkle_root cp)) as [Er|Er]; simpl.
      * split; [intros _|done]. split_and!; [done|lia|]. by intros _ ? [= <-].
      * split; [done|]. intros (_ & _ & Hr). by destruct Er; apply Hr.
    + split; [intros _|done]. split_and!; [done|lia|]. by intros ?.
  - intros sequence root. apply verify_behind.
Qed.
End checkpoint.
