(* ===== verification/MerkleTree.v ===== *)
(** * The audit Merkle tree

    [crates/audit/src/merkle_tree.rs]: leaves in insertion order, a root
    rebuilt from them, inclusion proofs and their verification.  The loops
    that go up the levels take fuel; [length leaves] is always enough, since
    a level is at most half as long (rounded up) as the one below. *)

From Stdlib Require Import ZArith Lia Strings.Byte.
From stdpp Require Import base gmap strings list.
From S2P Require Import Prelude External.

Inductive MerkleError := EmptyTree | HashNotFound | InvalidProof.

Record MerkleNode := MkMerkleNode { node_hash : string }.

Record MerkleTree := MkMerkleTree {
  root : option MerkleNode;
  leaves : list string;
  leaf_indices : gmap string nat
}.

Record ProofElement := MkProofElement {
  element_hash : string;
  is_left : bool
}.

Record MerkleProof := MkMerkleProof {
  leaf_hash : string;
  elements : list ProofElement
}.

Definition LEAF_PREFIX : byte := Byte.x00.
Definition NODE_PREFIX : byte := Byte.x01.

(** [slice.chunks(2)], each chunk as its first element and the optional
    second. *)
Fixpoint chunks2 {A} (l : list A) : list (A * option A) :=
  match l with
  | [] => []
  | [a] => [(a, None)]
  | a :: b :: l => (a, Some b) :: chunks2 l
  end.

Section merkle.
Context {HEX : Hex} {SHA : Sha256}.

Definition leaf_preimage (leaf_value : string) : bytes := LEAF_PREFIX :: as_bytes leaf_value.
Definition hash_leaf (leaf_value : string) : string := hex_encode (sha256 (leaf_preimage leaf_value)).

Definition node_preimage (left right : string) : bytes :=
  NODE_PREFIX ::
  match hex_decode left, hex_decode right with
  | Ok l, Ok r => l ++ r
  | _, _ => as_bytes left ++ as_bytes right
  end.
Definition hash_node (left right : string) : string := hex_encode (sha256 (node_preimage left right)).

Definition leaf (leaf_value : string) : MerkleNode := MkMerkleNode (hash_leaf leaf_value).
Definition with_children (left right : MerkleNode) : MerkleNode :=
  MkMerkleNode (hash_node (node_hash left) (node_hash right)).

Definition new : MerkleTree := MkMerkleTree None [] ∅.

Definition next_nodes (nodes : list MerkleNode) : list MerkleNode :=
  (fun chunk =>
     match chunk with
     | (a, Some b) => with_children a b
     | (a, None) => with_children a a
     end) <$> chunks2 nodes.

(** [while nodes.len() > 1]; [None] only without fuel. *)
Fixpoint rebuild_loop (fuel : nat) (nodes : list MerkleNode) : option MerkleNode :=
  match nodes with
  | [] => None
  | [node] => Some node
  | _ =>
      match fuel with
      | O => None
      | S fuel => rebuild_loop fuel (next_nodes nodes)
      end
  end.

Definition rebuild (t : MerkleTree) : MerkleTree :=
  match leaves t with
  | [] => MkMerkleTree None (leaves t) (leaf_indices t)
  | _ =>
      MkMerkleTree (rebuild_loop (length (leaves t)) (leaf <$> leaves t))
        (leaves t) (leaf_indices t)
  end.

(** The [enumerate] loop. *)
Fixpoint add_leaves (idx : nat) (hashes : list string) (t : MerkleTree) : MerkleTree :=
  match hashes with
  | [] => t
  | hash :: hashes =>
      add_leaves (S idx) hashes
        (MkMerkleTree (root t) (leaves t ++ [hash]) (<[hash := idx]> (leaf_indices t)))
  end.

Definition from_hashes (hashes : list string) : MerkleTree := rebuild (add_leaves 0 hashes new).

Definition update (hash : string) (t : MerkleTree) : MerkleTree :=
  rebuild (MkMerkleTree (root t) (leaves t ++ [hash])
             (<[hash := length (leaves t)]> (leaf_indices t))).

Definition get_root (t : MerkleTree) : result string MerkleError :=
  ok_or EmptyTree (node_hash <$> root t).

Definition verify_inclusion (t : MerkleTree) (hash : string) : bool :=
  bool_decide (is_Some (leaf_indices t !! hash)).

Definition next_level (level : list string) : list string :=
  (fun chunk =>
     match chunk with
     | (a, Some b) => hash_node a b
     | (a, None) => hash_node a a
     end) <$> chunks2 level.

(** [while level_size > 1]; [None] when an index is out of range (a panic) or
    without fuel. *)
Fixpoint proof_loop (fuel : nat) (level : list string) (current_index : nat)
  : option (list ProofElement) :=
  match level with
  | [] | [_] => Some []
  | _ =>
      match fuel with
      | O => None
      | S fuel =>
          let sibling_index :=
            if Nat.even current_index then S current_index else Nat.pred current_index in
          sibling ←
            if (sibling_index <? length level)%nat then level !! sibling_index
            else level !! current_index;
          rest ← proof_loop fuel (next_level level) (Nat.div2 current_index);
          Some (MkProofElement sibling (negb (Nat.even current_index)) :: rest)
      end
  end.

Definition generate_proof (t : MerkleTree) (hash : string)
  : option (result MerkleProof MerkleError) :=
  match leaf_indices t !! hash with
  | None => Some (Err HashNotFound)
  | Some index =>
      elements ← proof_loop (length (leaves t)) (hash_leaf <$> leaves t) index;
      Some (Ok (MkMerkleProof hash elements))
  end.

Definition apply_element (current : string) (element : ProofElement) : string :=
  if is_left element then hash_node (element_hash element) current
  else hash_node current (element_hash element).

Definition verify (proof : MerkleProof) (root_hash : string) : bool :=
  bool_decide (foldl apply_element (hash_leaf (leaf_hash proof)) (elements proof) = root_hash).

Definition verify_proof (t : MerkleTree) (proof : MerkleProof) : result bool MerkleError :=
  let? root := get_root t in Ok (verify proof root).

(** ** Levels *)

Lemma chunks2_ind {A} (P : list A -> Prop) :
  P [] -> (forall a, P [a]) -> (forall a b l, P l -> P (a :: b :: l)) -> forall l, P l.
Proof.
  intros H0 H1 H2. assert (forall n l, (length l <= n)%nat -> P l) as H; [|by eauto].
  induction n as [|n IH]; intros [|a [|b l]] Hl; simpl in Hl; auto; [lia..|].
  apply H2, IH. lia.
Qed.

Lemma next_level_cons a b l : next_level (a :: b :: l) = hash_node a b :: next_level l.
Proof. done. Qed.

Lemma length_next_level l : length (next_level l) = Nat.div2 (S (length l)).
Proof.
  induction l as [|a|a b l IH] using chunks2_ind; [done..|].
  rewrite next_level_cons. cbn [length]. rewrite IH. done.
Qed.

Lemma lookup_next_level l i a :
  l !! (2 * i)%nat = Some a ->
  next_level l !! i =
    Some (hash_node a (match l !! S (2 * i) with Some b => b | None => a end)).
Proof.
  revert i. induction l as [|x|x y l IH] using chunks2_ind; intros i Hi; [done|..].
  - destruct i as [|i]; [simpl in *; by simplify_eq|]. by rewrite lookup_ge_None_2 in Hi by (simpl; lia).
  - destruct i as [|i]; [simpl in *; by simplify_eq|]. rewrite next_level_cons.
    replace (2 * S i)%nat with (S (S (2 * i))) in * by lia. by apply IH.
Qed.

Lemma node_hash_next (nodes : list MerkleNode) : node_hash <$> next_nodes nodes = next_level (node_hash <$> nodes).
Proof.
  unfold next_nodes, next_level. induction nodes as [|a|a b l IH] using chunks2_ind; [done..|].
  simpl. by f_equal.
Qed.

Lemma node_hash_leaves (l : list string) : node_hash <$> (leaf <$> l) = hash_leaf <$> l.
Proof. by rewrite <- list_fmap_compose. Qed.

(** The root of a list of digests, on digests alone. *)
Fixpoint root_loop (fuel : nat) (level : list string) : option string :=
  match level with
  | [] => None
  | [h] => Some h
  | _ => match fuel with O => None | S fuel => root_loop fuel (next_level level) end
  end.

Lemma rebuild_loop_root fuel nodes :
  node_hash <$> rebuild_loop fuel nodes = root_loop fuel (node_hash <$> nodes).
Proof.
  revert nodes. induction fuel as [|fuel IH]; intros [|a [|b l]]; try done.
  change (rebuild_loop (S fuel) (a :: b :: l)) with (rebuild_loop fuel (next_nodes (a :: b :: l))).
  change (root_loop (S fuel) (node_hash <$> a :: b :: l))
    with (root_loop fuel (next_level (node_hash <$> a :: b :: l))).
  rewrite <- node_hash_next. apply IH.
Qed.

Lemma next_level_shorter a b l : (length (next_level (a :: b :: l)) < length (a :: b :: l))%nat.
Proof.
  rewrite length_next_level. simpl. destruct (length l) as [|n]; simpl; [lia|].
  pose proof (Nat.div2_decr n n ltac:(lia)). lia.
Qed.

Lemma root_loop_enough fuel level :
  level <> [] -> (length level <= S fuel)%nat -> is_Some (root_loop fuel level).
Proof.
  revert level. induction fuel as [|fuel IH]; intros [|a [|b l]] Hne Hl; try done; [simpl in Hl; lia|].
  change (root_loop (S fuel) (a :: b :: l)) with (root_loop fuel (next_level (a :: b :: l))).
  apply IH; [done|]. pose proof (next_level_shorter a b l). lia.
Qed.

(** ** Proofs follow the path to the root *)

Lemma proof_loop_correct fuel level i h root :
  level !! i = Some h -> root_loop fuel level = Some root ->
  exists es, proof_loop fuel level i = Some es /\ foldl apply_element h es = root.
Proof.
  revert level i h. induction fuel as [|fuel IH]; intros [|a [|b l]] i h Hi Hr; try done.
  1,2: destruct i; simpl in *; simplify_eq; by exists [].
  set (level := a :: b :: l) in *.
  change (root_loop (S fuel) level) with (root_loop fuel (next_level level)) in Hr.
  assert (exists sib, (if (if Nat.even i then S i else Nat.pred i) <? length level
      then level !! (if Nat.even i then S i else Nat.pred i) else level !! i)%nat = Some sib /\
    next_level level !! Nat.div2 i = Some (apply_element h (MkProofElement sib (negb (Nat.even i)))))
    as (sib & Hsib & Hnext).
  { destruct (Nat.even i) eqn:Ei.
    - apply Nat.even_spec in Ei as [k ->]. rewrite Nat.div2_double.
      rewrite (lookup_next_level _ _ _ Hi). unfold apply_element. simpl is_left. cbv iota.
      destruct (Nat.ltb_spec (S (2 * k)) (length level)) as [Hlt|Hge].
      + destruct (lookup_lt_is_Some_2 _ _ Hlt) as [sib Es]. exists sib. by rewrite Es.
      + exists h. by rewrite Hi, (lookup_ge_None_2 _ _ Hge).
    - rewrite <- Nat.negb_odd in Ei. apply negb_false_iff, Nat.odd_spec in Ei as [k ->].
      replace (Nat.pred (2 * k + 1)) with (2 * k)%nat by lia.
      replace (Nat.div2 (2 * k + 1)) with k by (rewrite Nat.add_1_r, Nat.div2_succ_double; done).
      pose proof (lookup_lt_Some _ _ _ Hi) as Hlt.
      destruct (lookup_lt_is_Some_2 level (2 * k)) as [sib Es]; [lia|]. exists sib.
      rewrite (proj2 (Nat.ltb_lt _ _)) by lia. split; [done|].
      rewrite (lookup_next_level _ _ _ Es). replace (S (2 * k)) with (2 * k + 1)%nat by lia.
      by rewrite Hi. }
  destruct (IH _ _ _ Hnext Hr) as (es & He & Hfold).
  exists (MkProofElement sib (negb (Nat.even i)) :: es). split; [|done].
  change (proof_loop (S fuel) level i) with
    (sibling ← (if (if Nat.even i then S i else Nat.pred i) <? length level
       then level !! (if Nat.even i then S i else Nat.pred i) else level !! i)%nat;
     rest ← proof_loop fuel (next_level level) (Nat.div2 i);
     Some (MkProofElement sibling (negb (Nat.even i)) :: rest)).
  rewrite Hsib. simpl. by rewrite He.
Qed.

(** ** Proof length *)

Lemma log2_up_half n : (2 <= n)%nat -> Nat.log2_up n = S (Nat.log2_up (Nat.div2 (S n))).
Proof.
  intros Hn. destruct (Nat.Even_or_Odd n) as [[k ->]|[k ->]].
  - rewrite Nat.log2_up_double by lia. by rewrite Nat.div2_succ_double.
  - rewrite Nat.log2_up_succ_double by lia.
    replace (S (2 * k + 1)) with (2 * S k)%nat by lia. rewrite Nat.div2_double.
    by rewrite (Nat.log2_up_eqn (S k)) by lia.
Qed.

Lemma proof_loop_length fuel level i es :
  level <> [] -> proof_loop fuel level i = Some es -> length es = Nat.log2_up (length level).
Proof.
  revert level i es. induction fuel as [|fuel IH]; intros [|a [|b l]] i es Hne He;
    try done; try (by injection He as <-).
  cbn [proof_loop] in He. set (level := a :: b :: l) in *.
  apply bind_Some in He as (sib & _ & He). apply bind_Some in He as (rest & Er & [= <-]). cbn [length].
  rewrite (IH (next_level level) _ _ ltac:(done) Er), length_next_level, (log2_up_half (length level)); [done|].
  simpl. lia.
Qed.

(** ** Trees built by the operations *)

Definition tree_wf (t : MerkleTree) : Prop :=
  (forall h i, leaf_indices t !! h = Some i -> leaves t !! i = Some h) /\
  (forall h, h ∈ leaves t -> is_Some (leaf_indices t !! h)) /\
  node_hash <$> root t = root_loop (length (leaves t)) (hash_leaf <$> leaves t).

Lemma rebuild_root t :
  node_hash <$> root (rebuild t) = root_loop (length (leaves t)) (hash_leaf <$> leaves t).
Proof.
  unfold rebuild. destruct (leaves t) as [|h l]; [done|]. cbn [root].
  by rewrite rebuild_loop_root, node_hash_leaves.
Qed.

Lemma rebuild_leaves t : leaves (rebuild t) = leaves t /\ leaf_indices (rebuild t) = leaf_indices t.
Proof. unfold rebuild. by destruct (leaves t) eqn:E. Qed.

Lemma new_wf : tree_wf new.
Proof. split_and!; [done|set_solver|done]. Qed.

Lemma update_wf h t : tree_wf t -> tree_wf (update h t).
Proof.
  intros (Hi & Hl & _). unfold update. set (t' := MkMerkleTree _ _ _).
  destruct (rebuild_leaves t') as [El Ei]. unfold tree_wf. rewrite El, Ei, rebuild_root. simpl.
  split_and!; [| |done].
  - intros h' i [[<- <-]|[Hne Hh]]%lookup_insert_Some.
    + rewrite lookup_app_r by lia. by rewrite Nat.sub_diag.
    + by apply lookup_app_l_Some, Hi.
  - intros h' [Hh|Hh]%elem_of_app; rewrite lookup_insert_is_Some'; [right; auto|left; set_solver].
Qed.

Lemma add_leaves_snoc idx l h t :
  add_leaves idx (l ++ [h]) t =
  let t' := add_leaves idx l t in
  MkMerkleTree (root t') (leaves t' ++ [h]) (<[h := (idx + length l)%nat]> (leaf_indices t')).
Proof.
  revert idx t. induction l as [|x l IH]; intros idx t; simpl; [by rewrite Nat.add_0_r|].
  rewrite IH. simpl. by rewrite Nat.add_succ_r.
Qed.

Lemma add_leaves_leaves idx l t : leaves (add_leaves idx l t) = leaves t ++ l.
Proof.
  revert idx t. induction l as [|x l IH]; intros idx t; simpl; [by rewrite app_nil_r|].
  rewrite IH. simpl. by rewrite <- app_assoc.
Qed.

(** Building from a list is adding the leaves one at a time. *)
Lemma from_hashes_snoc l h : from_hashes (l ++ [h]) = update h (from_hashes l).
Proof.
  unfold from_hashes, update. rewrite add_leaves_snoc. set (t := add_leaves 0 l new).
  destruct (rebuild_leaves t) as [-> ->]. simpl.
  assert (length (leaves t) = length l) as -> by (unfold t; by rewrite add_leaves_leaves).
  unfold rebuild. simpl. by destruct (leaves t).
Qed.

Lemma from_hashes_wf l : tree_wf (from_hashes l).
Proof.
  induction l as [|h l IH] using rev_ind; [apply new_wf|].
  rewrite from_hashes_snoc. by apply update_wf.
Qed.

Lemma from_hashes_leaves l : leaves (from_hashes l) = l.
Proof.
  unfold from_hashes. destruct (rebuild_leaves (add_leaves 0 l new)) as [-> _].
  by rewrite add_leaves_leaves.
Qed.

Lemma verify_inclusion_spec l h : verify_inclusion (from_hashes l) h = bool_decide (h ∈ l).
Proof.
  destruct (from_hashes_wf l) as (Hi & Hl & _). unfold verify_inclusion.
  apply bool_decide_ext. rewrite from_hashes_leaves in *. split; [|apply Hl].
  intros [i Hh%Hi]. by eapply list_elem_of_lookup_2.
Qed.

Lemma tree_wf_root t : tree_wf t -> leaves t <> [] -> exists r,
  get_root t = Ok r /\ root_loop (length (leaves t)) (hash_leaf <$> leaves t) = Some r.
Proof.
  intros (_ & _ & Hr) Hne.
  destruct (root_loop_enough (length (leaves t)) (hash_leaf <$> leaves t)) as [r Er].
  - by destruct (leaves t).
  - rewrite length_fmap. lia.
  - exists r. unfold get_root. by rewrite Hr, Er.
Qed.

(** ** The theorems *)

(** Every tree the operations build is the tree of its leaves: building from
    a list is the same as adding its elements one at a time, and the index
    map finds exactly the leaves. *)
Theorem from_hashes_update (l : list string) :
  from_hashes l = foldl (fun t h => update h t) new l /\
  leaves (from_hashes l) = l /\
  (forall h, verify_inclusion (from_hashes l) h = bool_decide (h ∈ l)).
Proof.
  split_and!; [|apply from_hashes_leaves|].
  - induction l as [|h l IH] using rev_ind; [done|]. by rewrite from_hashes_snoc, foldl_snoc, IH.
  - apply verify_inclusion_spec.
Qed.

(** Proofs are complete: for every leaf of a non-empty tree a proof is
    generated without running out of levels or indices, it verifies against
    the root, and it has one element per level, the logarithm of the number of
    leaves rounded up; for any other value the error is [HashNotFound]. *)
Theorem merkle_proof_complete (l : list string) (h : string) :
  (h ∈ l -> exists p r,
     generate_proof (from_hashes l) h = Some (Ok p) /\ leaf_hash p = h /\
     get_root (from_hashes l) = Ok r /\ verify p r = true /\
     verify_proof (from_hashes l) p = Ok true /\
     length (elements p) = Nat.log2_up (length l)) /\
  (h ∉ l -> generate_proof (from_hashes l) h = Some (Err HashNotFound)).
Proof.
  pose proof (from_hashes_wf l) as Hwf. pose proof (from_hashes_leaves l) as El.
  assert (Hwf' := Hwf). destruct Hwf as (Hi & Hl & _). rewrite El in *. split.
  - intros Hin. destruct (tree_wf_root _ Hwf') as (r & Hr & Hloop).
    { rewrite El. by destruct l; [set_solver|]. }
    rewrite El in Hloop. destruct (Hl h Hin) as [i Hidx].
    destruct (proof_loop_correct (length l) (hash_leaf <$> l) i (hash_leaf h) r) as (es & He & Hf);
      [by rewrite list_lookup_fmap, (Hi _ _ Hidx)|done|].
    exists (MkMerkleProof h es), r. unfold generate_proof, verify_proof. rewrite Hidx, El, He, Hr. simpl.
    assert (verify (MkMerkleProof h es) r = true) as -> by by apply bool_decide_eq_true.
    split_and!; try done. rewrite <- (length_fmap hash_leaf l). eapply proof_loop_length; [|done].
    by destruct l; [set_solver|].
  - intros Hin. unfold generate_proof. destruct (leaf_indices _ !! h) as [i|] eqn:E; [|done].
    destruct Hin. apply Hi in E. by eapply list_elem_of_lookup_2.
Qed.

(** *** Soundness *)

(** Everything hashed while the levels above [level] are built. *)
Fixpoint level_preimages (fuel : nat) (level : list string) : list bytes :=
  match level with
  | [] | [_] => []
  | _ =>
      match fuel with
      | O => []
      | S fuel =>
          ((fun chunk => node_preimage chunk.1 (default chunk.1 chunk.2)) <$> chunks2 level) ++
          level_preimages fuel (next_level level)
      end
  end.
Definition tree_preimages (l : list string) : list bytes :=
  (leaf_preimage <$> l) ++ level_preimages (length l) (hash_leaf <$> l).

(** Everything hashed while a proof is verified. *)
Fixpoint path_preimages (current : string) (es : list ProofElement) : list bytes :=
  match es with
  | [] => []
  | e :: es =>
      (if is_left e then node_preimage (element_hash e) current
       else node_preimage current (element_hash e)) ::
      path_preimages (apply_element current e) es
  end.
Definition proof_preimages (p : MerkleProof) : list bytes :=
  leaf_preimage (leaf_hash p) :: path_preimages (hash_leaf (leaf_hash p)) (elements p).

(** [v] is the digest of one of [D]. *)
Definition known (D : list bytes) (v : string) : Prop :=
  exists q, q ∈ D /\ v = hex_encode (sha256 q).
(** [D] consists of leaf messages and of node messages over known digests. *)
Definition closed (l : list string) (D : list bytes) : Prop := forall q, q ∈ D ->
  (exists x, x ∈ l /\ q = leaf_preimage x) \/
  (exists a b, q = node_preimage a b /\ known D a /\ known D b).

Lemma known_mono D D' v : D ⊆ D' -> known D v -> known D' v.
Proof. intros HD (q & Hq & ->). exists q. auto. Qed.

Lemma chunks2_elem {A} (l : list A) c :
  c ∈ chunks2 l -> c.1 ∈ l /\ default c.1 c.2 ∈ l.
Proof.
  induction l as [|a|a b l IH] using chunks2_ind; simpl.
  - by intros ?%elem_of_nil.
  - intros ->%list_elem_of_singleton. simpl. set_solver.
  - intros [->|[? ?]%IH]%elem_of_cons; simpl; set_solver.
Qed.

Lemma level_preimages_closed l fuel level D r :
  closed l D -> (forall v, v ∈ level -> known D v) -> root_loop fuel level = Some r ->
  closed l (D ++ level_preimages fuel level) /\ known (D ++ level_preimages fuel level) r.
Proof.
  revert level D. induction fuel as [|fuel IH]; intros [|a [|b lv]] D HD Hk Hr; try done.
  1,2: simpl in *; rewrite app_nil_r; simplify_eq; split; [done|]; apply Hk; set_solver.
  set (level := a :: b :: lv) in *.
  change (root_loop (S fuel) level) with (root_loop fuel (next_level level)) in Hr.
  set (N := (fun chunk => node_preimage chunk.1 (default chunk.1 chunk.2)) <$> chunks2 level).
  change (level_preimages (S fuel) level) with (N ++ level_preimages fuel (next_level level)).
  rewrite app_assoc. apply IH; [| |done].
  - intros q [Hq|Hq]%elem_of_app.
    + destruct (HD q Hq) as [?|(x & y & -> & Hx & Hy)]; [by left|right].
      exists x, y. split; [done|]. split; (eapply known_mono; [|done]); set_solver.
    + right. apply list_elem_of_fmap in Hq as (c & -> & [H1 H2]%chunks2_elem).
      eexists _, _. split; [done|]. split; (eapply known_mono; [|by apply Hk]); set_solver.
  - intros v Hv. unfold next_level in Hv. apply list_elem_of_fmap in Hv as ([x y] & -> & Hc).
    exists (node_preimage x (default x y)). split; [|by destruct y].
    apply elem_of_app. right. apply list_elem_of_fmap. by exists (x, y).
Qed.

Lemma tree_closed l r :
  root_loop (length l) (hash_leaf <$> l) = Some r ->
  closed l (tree_preimages l) /\ known (tree_preimages l) r.
Proof.
  apply level_preimages_closed.
  - intros q (x & -> & Hx)%list_elem_of_fmap. left. by exists x.
  - intros v (x & -> & Hx)%list_elem_of_fmap. exists (leaf_preimage x). split; [|done].
    by apply list_elem_of_fmap_2.
Qed.

(** A node message over two digests determines them, whatever the other
    string of a proof step is. *)
Lemma node_preimage_digests p e qa qb (left : bool) :
  let current := hex_encode (sha256 p) in
  (if left then node_preimage e current else node_preimage current e) =
    node_preimage (hex_encode (sha256 qa)) (hex_encode (sha256 qb)) ->
  sha256 p = if left then sha256 qb else sha256 qa.
Proof.
  intros current E. unfold node_preimage in E. unfold current in E. rewrite !hex_decode_encode in E.
  assert (forall x, hex_decode e = Err x ->
    length (as_bytes (hex_encode (sha256 p))) + length (as_bytes e) <> 64)%nat as Herr.
  { intros x Hx. rewrite !length_as_bytes, length_hex_encode, length_sha256.
    destruct e; [by rewrite hex_decode_empty in Hx|simpl; lia]. }
  pose proof (length_sha256 p). pose proof (length_sha256 qa). pose proof (length_sha256 qb).
  destruct left, (hex_decode e) as [r|x] eqn:Er; injection E as E.
  - by apply app_inj_2 in E as [_ E]; [|congruence].
  - apply (f_equal length) in E. rewrite !length_app in E. destruct (Herr x); [done|lia].
  - by apply app_inj_1 in E as [E _]; [|congruence].
  - apply (f_equal length) in E. rewrite !length_app in E. destruct (Herr x); [done|lia].
Qed.

Lemma leaf_node_preimage x a b : leaf_preimage x <> node_preimage a b.
Proof. unfold leaf_preimage, node_preimage, LEAF_PREFIX, NODE_PREFIX. congruence. Qed.

(** A path that ends in a known digest starts from a message of the tree. *)
Lemma path_known l D Ps es p :
  closed l D -> p ∈ Ps -> path_preimages (hex_encode (sha256 p)) es ⊆ Ps ->
  known D (foldl apply_element (hex_encode (sha256 p)) es) -> p ∈ D \/ collision Ps D.
Proof.
  intros HD. revert p. induction es as [|e es IH]; intros p Hp Hsub Hk; simpl in *.
  - destruct Hk as (q & Hq & E). destruct (digest_eq Ps D p q Hp Hq E) as [->|]; auto.
  - set (p' := if is_left e then node_preimage (element_hash e) (hex_encode (sha256 p))
               else node_preimage (hex_encode (sha256 p)) (element_hash e)) in *.
    assert (apply_element (hex_encode (sha256 p)) e = hex_encode (sha256 p')) as E'
      by (unfold apply_element, p'; by destruct (is_left e)).
    rewrite E' in *. destruct (IH p') as [Hin|]; [set_solver|set_solver|done| |by right].
    destruct (HD p' Hin) as [(x & _ & Ex)|(a & b & Eab & (qa & Hqa & ->) & (qb & Hqb & ->))].
    { unfold p' in Ex. by destruct (is_left e); symmetry in Ex; apply leaf_node_preimage in Ex. }
    apply node_preimage_digests in Eab.
    assert (exists q, q ∈ D /\ hex_encode (sha256 p) = hex_encode (sha256 q)) as (q & Hq & E)
      by (destruct (is_left e); eauto using f_equal).
    destruct (digest_eq Ps D p q Hp Hq E) as [->|]; auto.
Qed.

(** C38: proofs are sound: whoever presents a proof, with any elements, that
    verifies against the root of a tree proves membership of its leaf, or has
    produced two different messages with one SHA-256 digest, one hashed for
    the proof and one for the tree. *)
Theorem merkle_proof_sound (l : list string) (p : MerkleProof) :
  verify_proof (from_hashes l) p = Ok true ->
  leaf_hash p ∈ l \/ collision (proof_preimages p) (tree_preimages l).
Proof.
  unfold verify_proof. intros Hv. destruct l as [|x l0]; [done|]. set (l := x :: l0) in *.
  destruct (tree_wf_root _ (from_hashes_wf l)) as (r & Hr & Hloop); [by rewrite from_hashes_leaves|].
  rewrite from_hashes_leaves in Hloop. rewrite Hr in Hv. simpl in Hv. injection Hv as Hv.
  apply bool_decide_eq_true in Hv. destruct (tree_closed l r Hloop) as [Hc Hk]. rewrite <- Hv in Hk.
  destruct (path_known l _ (proof_preimages p) (elements p) (leaf_preimage (leaf_hash p)) Hc)
    as [Hin|]; [unfold proof_preimages; set_solver|unfold proof_preimages; set_solver|done| |by right].
  left. destruct (Hc _ Hin) as [(y & Hy & E)|(a & b & E & _)].
  - unfold leaf_preimage in E. injection E as E%as_bytes_inj. by rewrite E.
  - by apply leaf_node_preimage in E.
Qed.

(** *** Repeated last leaf *)

Lemma root_loop_fuel fuel fuel' level r :
  (fuel <= fuel')%nat -> root_loop fuel level = Some r -> root_loop fuel' level = Some r.
Proof.
  revert fuel' level. induction fuel as [|fuel IH]; intros fuel' [|a [|b l]] Hf Hr; try done;
    try (by destruct fuel'). destruct fuel' as [|fuel']; [lia|]. apply (IH fuel'); [lia|done].
Qed.

Lemma root_loop_step fuel l x y :
  l <> [] -> root_loop (S fuel) (l ++ x :: y) = root_loop fuel (next_level (l ++ x :: y)).
Proof. by destruct l as [|a [|b l]]. Qed.

Lemma next_level_dup l x :
  Nat.Even (length l) -> next_level (l ++ [x]) = next_level (l ++ [x; x]).
Proof.
  induction l as [|a|a b l IH] using chunks2_ind; intros He; [done| |].
  - destruct He as [k Hk]. simpl in Hk. lia.
  - cbn [app]. rewrite !next_level_cons. f_equal. apply IH. destruct He as [k Hk]. simpl in Hk.
    exists (Nat.pred k). lia.
Qed.

(** The root does not determine the log: a log with an odd number of
    events, at least three, and the same log with its last event repeated
    have the same root, whatever the hash function. *)
Theorem merkle_root_ambiguous (l : list string) (x : string) :
  Nat.Even (length l) -> l <> [] ->
  get_root (from_hashes (l ++ [x])) = get_root (from_hashes (l ++ [x; x])).
Proof.
  intros He Hne.
  destruct (tree_wf_root _ (from_hashes_wf (l ++ [x]))) as (r & -> & Hr);
    [rewrite from_hashes_leaves; by destruct l|].
  destruct (tree_wf_root _ (from_hashes_wf (l ++ [x; x]))) as (r' & -> & Hr');
    [rewrite from_hashes_leaves; by destruct l|].
  rewrite from_hashes_leaves in Hr, Hr'. f_equal.
  apply (root_loop_fuel _ (length (l ++ [x; x]))) in Hr; [|rewrite !length_app; simpl; lia].
  rewrite !fmap_app in Hr, Hr'. simpl (hash_leaf <$> [_]) in Hr. simpl (hash_leaf <$> [_; _]) in Hr'.
  pose proof (next_level_dup (hash_leaf <$> l) (hash_leaf x)) as Hd.
  rewrite length_fmap in Hd. specialize (Hd He).
  rewrite length_app, Nat.add_comm in Hr, Hr'. cbn [length Nat.add] in Hr, Hr'.
  rewrite root_loop_step in Hr, Hr' by by destruct l. congruence.
Qed.
End merkle.
