(* ===== verification/AuditVerifier.v ===== *)
(** * Offline verification of audit logs

    [crates/audit/src/verifier.rs]: the three procedures that check a list of
    events (an error list, a first error, a report), the range check and the
    comparison with a trusted Merkle root.  Reading the log file is
    [AuditStorage]'s; here the events are given. *)

From Stdlib Require Import ZArith Lia Strings.Byte.
From stdpp Require Import base gmap strings list.
From S2P Require Import Prelude External AuditEvent HashChain MerkleTree.

Inductive VerificationError :=
| HashMismatch (sequence : Z) (expected actual : string)
| ChainBroken (sequence : Z)
| SequenceGap (expected actual : Z)
| MerkleRootMismatch (expected actual : string)
| EventNotInMerkleTree (sequence : Z)
| EmptyLog.

Record VerificationResult := MkVerificationResult {
  passed : bool;
  total_events : nat;
  verified_events : nat;
  errors : list string
}.

Record VerificationReport := MkVerificationReport {
  r_total_events : nat;
  hash_valid_count : nat;
  chain_valid_count : nat;
  sequence_valid_count : nat;
  all_hashes_valid : bool;
  chain_intact : bool;
  sequences_continuous : bool;
  r_merkle_root : option string
}.

Section verifier.
Context {Value : Type} {HEX : Hex} {SHA : Sha256} {CHRONO : Chrono}.
Context {ST : Serde EventType} {SR : Serde OperationResult} {SVal : SerdeCodec Value}.
Abbreviation AuditEvent := (AuditEvent Value).

Definition success (total : nat) : VerificationResult := MkVerificationResult true total total [].
Definition failure (total verified : nat) (errors : list string) : VerificationResult :=
  MkVerificationResult false total verified errors.

(** [i as u64 + 1] *)
Definition expected_seq (i : nat) : Z := Z.of_nat i + 1.

(** The three loops of [verify_events]. *)
Definition hash_errors (events : list AuditEvent) : list string :=
  omap (fun event =>
    if negb (verify_hash event) then
      Some ("Hash mismatch at sequence " +:+ to_decimal (sequence event) +:+
            ": computed hash does not match stored hash")
    else None) events.
Definition verified_count (events : list AuditEvent) : nat :=
  length (filter (fun event => verify_hash event = true) events).
Fixpoint sequence_errors (i : nat) (events : list AuditEvent) : list string :=
  match events with
  | [] => []
  | event :: rest =>
      (if negb (sequence event =? expected_seq i) then
         ["Sequence gap: expected " +:+ to_decimal (expected_seq i) +:+ ", got " +:+
          to_decimal (sequence event)]
       else []) ++ sequence_errors (S i) rest
  end.
Fixpoint chain_errors (events : list AuditEvent) : list string :=
  match events with
  | prev :: (event :: _) as rest =>
      (if negb (bool_decide (prev_hash event = current_hash prev)) then
         ["Chain broken at sequence " +:+ to_decimal (sequence event) +:+
          ": prev_hash does not match previous event's hash"]
       else []) ++ chain_errors rest
  | _ => []
  end.

Definition verify_events (events : list AuditEvent) : VerificationResult :=
  let errors := hash_errors events ++ sequence_errors 0 events ++ chain_errors events in
  match errors with
  | [] => success (length events)
  | _ => failure (length events) (verified_count events) errors
  end.

(** The loop shared by [verify_hash_chain] and [verify_range]: [first] is the
    number expected of the first event, [prev] the event before. *)
Fixpoint check_loop (first : Z) (prev : option AuditEvent) (events : list AuditEvent)
  : result unit VerificationError :=
  match events with
  | [] => Ok tt
  | event :: rest =>
      let computed_hash := compute_hash event in
      if negb (bool_decide (computed_hash = current_hash event)) then
        Err (HashMismatch (sequence event) (current_hash event) computed_hash)
      else
        let? _ :=
          match prev with
          | Some prev_event =>
              if negb (bool_decide (prev_hash event = current_hash prev_event)) then
                Err (ChainBroken (sequence event))
              else Ok tt
          | None => Ok tt
          end in
        if negb (sequence event =? first) then Err (SequenceGap first (sequence event))
        else check_loop (first + 1) (Some event) rest
  end.

Definition verify_hash_chain (events : list AuditEvent) : result unit VerificationError :=
  check_loop 1 None events.

Definition verify_range (events : list AuditEvent) (from to : Z) : result unit VerificationError :=
  if (from =? 0) || (Z.of_nat (length events) <? to) || (to <? from) then
    Err (SequenceGap from to)
  else
    let first := Z.to_nat (from - 1) in
    check_loop from None (take (Z.to_nat to - first) (drop first events)).

Fixpoint check_inclusion (tree : MerkleTree) (events : list AuditEvent)
  : result unit VerificationError :=
  match events with
  | [] => Ok tt
  | event :: rest =>
      if negb (verify_inclusion tree (current_hash event)) then
        Err (EventNotInMerkleTree (sequence event))
      else check_inclusion tree rest
  end.

Definition verify_merkle_tree (events : list AuditEvent) (expected_root : string)
  : result unit VerificationError :=
  let tree := from_hashes (current_hash <$> events) in
  let? actual_root := rmap_err (fun _ => EmptyLog) (get_root tree) in
  if negb (bool_decide (actual_root = expected_root)) then
    Err (MerkleRootMismatch expected_root actual_root)
  else check_inclusion tree events.

(** The two loops of [generate_report] that stop at the first failure: how
    many passed, and whether all did. *)
Fixpoint count_sequences (i : nat) (events : list AuditEvent) : nat * bool :=
  match events with
  | [] => (0%nat, true)
  | event :: rest =>
      if negb (sequence event =? expected_seq i) then (0%nat, false)
      else let '(n, ok) := count_sequences (S i) rest in (S n, ok)
  end.
Fixpoint count_links (events : list AuditEvent) : nat * bool :=
  match events with
  | prev :: (event :: _) as rest =>
      if negb (bool_decide (prev_hash event = current_hash prev)) then (0%nat, false)
      else let '(n, ok) := count_links rest in (S n, ok)
  | _ => (0%nat, true)
  end.

Definition generate_report (events : list AuditEvent) : VerificationReport :=
  let total := length events in
  let hash_valid := verified_count events in
  let '(sequence_valid, sequences_ok) := count_sequences 0 events in
  let '(chain_valid, chain_ok) := count_links events in
  let tree := from_hashes (current_hash <$> events) in
  MkVerificationReport total hash_valid chain_valid sequence_valid (hash_valid =? total)%nat
    chain_ok sequences_ok
    (match get_root tree with Ok r => Some r | Err _ => None end).

Definition report_is_valid (r : VerificationReport) : bool :=
  all_hashes_valid r && chain_intact r && sequences_continuous r.

(** ** What all of them check *)

Fixpoint linked (prev : option AuditEvent) (events : list AuditEvent) : Prop :=
  match events with
  | [] => True
  | event :: rest =>
      (forall p, prev = Some p -> prev_hash event = current_hash p) /\ linked (Some event) rest
  end.
Fixpoint numbered (first : Z) (events : list AuditEvent) : Prop :=
  match events with
  | [] => True
  | event :: rest => sequence event = first /\ numbered (first + 1) rest
  end.
Definition hashed (events : list AuditEvent) : Prop := Forall (fun e => verify_hash e = true) events.

Lemma check_loop_spec first prev events :
  check_loop first prev events = Ok tt <->
  hashed events /\ linked prev events /\ numbered first events.
Proof.
  revert first prev. induction events as [|e l IH]; intros first prev; simpl.
  { split; [intros _|done]. split_and!; [constructor|done..]. }
  unfold hashed. rewrite Forall_cons, verify_hash_true.
  destruct (bool_decide_reflect (compute_hash e = current_hash e)) as [Hh|Hh]; simpl;
    [|split; [done|intros [[? _] _]; congruence]].
  destruct prev as [p|]; simpl.
  - destruct (bool_decide_reflect (prev_hash e = current_hash p)) as [Hp|Hp]; simpl;
      [|by split; [|intros (_ & [H _] & _); destruct Hp; apply H]].
    destruct (Z.eqb_spec (sequence e) first) as [Hs|]; simpl; [|by split; [|intros (_ & _ & ? & _)]].
    rewrite IH. split.
    + intros (? & ? & ?). split_and!; try done. by intros ? [= <-].
    + by intros ([_ ?] & [_ ?] & [_ ?]).
  - destruct (Z.eqb_spec (sequence e) first) as [Hs|]; simpl; [|by split; [|intros (_ & _ & ? & _)]].
    rewrite IH. split; [by intros (? & ? & ?)|by intros ([_ ?] & [_ ?] & [_ ?])].
Qed.

Lemma hash_errors_nil events : hash_errors events = [] <-> hashed events.
Proof.
  unfold hashed, hash_errors. induction events as [|e l IH]; simpl; [by split|].
  rewrite Forall_cons. destruct (verify_hash e); simpl; [rewrite IH; by split; [|intros []]|].
  by split; [|intros []].
Qed.

Lemma sequence_errors_nil i events :
  sequence_errors i events = [] <-> numbered (expected_seq i) events.
Proof.
  revert i. induction events as [|e l IH]; intros i; simpl; [done|].
  destruct (Z.eqb_spec (sequence e) (expected_seq i)) as [Hs|]; simpl; [|by split; [|intros []]].
  rewrite IH. replace (expected_seq i + 1) with (expected_seq (S i)) by (unfold expected_seq; lia).
  by split; [|intros []].
Qed.

Lemma linked_cons_cons prev e l :
  linked (Some prev) (e :: l) <-> prev_hash e = current_hash prev /\ linked (Some e) l.
Proof.
  simpl. split; intros [H ?]; (split; [|done]); [by apply H|]. by intros ? [= <-].
Qed.

Lemma linked_none e l : linked None (e :: l) <-> linked (Some e) l.
Proof. simpl. split; [by intros []|by intros ?]. Qed.

Lemma chain_errors_nil events : chain_errors events = [] <-> linked None events.
Proof.
  destruct events as [|e l]; [done|]. rewrite linked_none. revert e.
  induction l as [|e' l IH]; intros e; [done|]. rewrite linked_cons_cons. 
  change (chain_errors (e :: e' :: l)) with
    ((if negb (bool_decide (prev_hash e' = current_hash e)) then
        ["Chain broken at sequence " +:+ to_decimal (sequence e') +:+
         ": prev_hash does not match previous event's hash"]
      else []) ++ chain_errors (e' :: l)).
  destruct (bool_decide_reflect (prev_hash e' = current_hash e)) as [Hp|]; cbn [negb app];
    [|by split; [|intros []]].
  rewrite IH. by split; [|intros []].
Qed.

Lemma count_sequences_spec i events :
  (count_sequences i events).2 = true <-> numbered (expected_seq i) events.
Proof.
  revert i. induction events as [|e l IH]; intros i; simpl; [done|].
  destruct (Z.eqb_spec (sequence e) (expected_seq i)) as [Hs|]; simpl; [|by split; [|intros []]].
  replace (expected_seq i + 1) with (expected_seq (S i)) by (unfold expected_seq; lia).
  rewrite <- IH. destruct (count_sequences (S i) l). by split; [|intros []].
Qed.

Lemma count_links_spec events : (count_links events).2 = true <-> linked None events.
Proof.
  destruct events as [|e l]; [done|]. rewrite linked_none. revert e.
  induction l as [|e' l IH]; intros e; [done|]. rewrite linked_cons_cons. 
  change (count_links (e :: e' :: l)) with
    (if negb (bool_decide (prev_hash e' = current_hash e)) then (0%nat, false)
     else let '(n, ok) := count_links (e' :: l) in (S n, ok)).
  destruct (bool_decide_reflect (prev_hash e' = current_hash e)) as [Hp|]; cbn [negb];
    [|by split; [|intros []]].
  rewrite <- IH. destruct (count_links (e' :: l)). by split; [|intros []].
Qed.

Lemma verified_count_all events : verified_count events = length events <-> hashed events.
Proof.
  unfold verified_count, hashed. induction events as [|e l IH]; [done|].
  rewrite Forall_cons, filter_cons. pose proof (length_filter (fun e => verify_hash e = true) l).
  case_decide; simpl; [|split; [lia|by intros []]].
  split; [intros [= ?]; tauto|]. intros [_ H']. f_equal. tauto.
Qed.

(** ** Logs that a hash chain holds *)

Lemma verify_loop_linked prev events :
  verify_loop prev events = Ok tt <-> hashed events /\ linked prev events.
Proof.
  revert prev. induction events as [|e l IH]; intros prev; [by split; [split; [constructor|]|]|].
  rewrite verify_loop_cons, IH. unfold hashed. rewrite Forall_cons. simpl. tauto.
Qed.

Lemma hashed_app l1 l2 : hashed (l1 ++ l2) <-> hashed l1 /\ hashed l2.
Proof. apply Forall_app. Qed.
Lemma linked_app prev l1 l2 :
  linked prev (l1 ++ l2) <-> linked prev l1 /\ linked (last_or prev l1) l2.
Proof.
  revert prev. induction l1 as [|e l1 IH]; intros prev; [unfold last_or; simpl; tauto|].
  rewrite last_or_cons. simpl. rewrite IH. tauto.
Qed.
Lemma numbered_app first l1 l2 :
  numbered first (l1 ++ l2) <-> numbered first l1 /\ numbered (first + Z.of_nat (length l1)) l2.
Proof.
  revert first. induction l1 as [|e l1 IH]; intros first; simpl; [rewrite Z.add_0_r; tauto|].
  rewrite IH. replace (first + 1 + Z.of_nat (length l1)) with (first + Z.of_nat (S (length l1))) by lia.
  tauto.
Qed.
Lemma linked_weaken prev events : linked prev events -> linked None events.
Proof. destruct events; [done|]. by intros [_ ?]. Qed.

Lemma linked_lookup prev l i a b :
  linked prev l -> l !! i = Some a -> l !! S i = Some b -> prev_hash b = current_hash a.
Proof.
  revert prev i. induction l as [|e l IH]; intros prev i Hl Ha Hb; [done|].
  destruct Hl as [_ Hl]. destruct i as [|i]; [|by eapply IH].
  simpl in Ha, Hb. simplify_eq. destruct l as [|x l]; simplify_eq/=. by apply Hl.
Qed.

Lemma numbered_lookup first events :
  (forall i e, events !! i = Some e -> sequence e = first + Z.of_nat i) -> numbered first events.
Proof.
  revert first. induction events as [|e l IH]; intros first H; [done|]. split.
  - rewrite (H 0%nat e) by done. lia.
  - apply IH. intros i x Hx. rewrite (H (S i) x) by done. lia.
Qed.

(** A chain of fewer than 2^64 events passes every check. *)
Lemma chain_checks (c : HashChain Value) :
  chain_inv c -> HashChain.len c < 2 ^ 64 ->
  hashed (events c) /\ linked None (events c) /\ numbered 1 (events c).
Proof.
  intros (Hv & _ & _ & Hseq & _) Hlen. apply verify_loop_linked in Hv as [Hh Hl].
  split; [done|]. split; [done|]. apply numbered_lookup. intros i e He.
  rewrite (Hseq i e He). pose proof (lookup_lt_Some _ _ _ He).
  unfold HashChain.len in Hlen. rewrite wrap_small by (unfold in_u; lia). lia.
Qed.

(** And so does every range of it. *)
Lemma slice_checks l i n :
  hashed l /\ linked None l /\ numbered 1 l -> (i <= length l)%nat ->
  let slice := take n (drop i l) in
  hashed slice /\ linked None slice /\ numbered (Z.of_nat i + 1) slice.
Proof.
  intros (Hh & Hl & Hn) Hi slice.
  rewrite <- (take_drop i l) in Hh, Hl, Hn. rewrite <- (take_drop n (drop i l)) in Hh, Hl, Hn.
  fold slice in Hh, Hl, Hn. rewrite !hashed_app in Hh. rewrite !linked_app in Hl.
  rewrite !numbered_app, length_take in Hn. destruct Hn as (_ & Hn & _), Hl as (_ & Hl & _).
  split; [tauto|]. split; [by eapply linked_weaken|].
  replace (Z.of_nat i + 1) with (1 + Z.of_nat (i `min` length l)) by lia. done.
Qed.

(** ** The theorems *)

(** The three procedures agree: the error list of [verify_events] is empty,
    [verify_hash_chain] reports no first error, and the report of
    [generate_report] is valid, each exactly when every event carries its own
    hash, links to its predecessor and has its position as number. *)
Theorem verifiers_agree (events : list AuditEvent) :
  (passed (verify_events events) = true <->
   hashed events /\ linked None events /\ numbered 1 events) /\
  (verify_hash_chain events = Ok tt <->
   hashed events /\ linked None events /\ numbered 1 events) /\
  (report_is_valid (generate_report events) = true <->
   hashed events /\ linked None events /\ numbered 1 events).
Proof.
  split_and!; [|apply check_loop_spec|].
  - unfold verify_events. change 1 with (expected_seq 0).
    rewrite <- hash_errors_nil, <- chain_errors_nil, <- sequence_errors_nil.
    destruct (hash_errors events), (sequence_errors 0 events), (chain_errors events); simpl;
      split; try done; by intros (? & ? & ?).
  - unfold generate_report, report_is_valid. change 1 with (expected_seq 0).
    rewrite <- verified_count_all, <- count_links_spec, <- count_sequences_spec.
    destruct (count_sequences 0 events) as [n1 ok1], (count_links events) as [n2 ok2]. simpl.
    rewrite !andb_true_iff, Nat.eqb_eq. tauto.
Qed.

(** Every range of a log that a hash chain built is accepted by the offline
    verifier, and the trusted-root check accepts exactly the root of the
    log's own hashes. *)
Theorem offline_accepts_chain (offered : list AuditEvent) (from to : Z) (root : string) :
  let c := appends offered HashChain.new in
  1 <= from <= to -> to <= HashChain.len c -> HashChain.len c < 2 ^ 64 ->
  verify_range (events c) from to = Ok tt /\
  (verify_merkle_tree (events c) root = Ok tt <->
   get_root (from_hashes (current_hash <$> events c)) = Ok root).
Proof.
  intros c Hft Hto Hlen. assert (chain_inv c) as Hinv by apply appends_inv, new_inv.
  unfold HashChain.len in *. split.
  - unfold verify_range. rewrite (proj2 (Z.eqb_neq _ _)), !(proj2 (Z.ltb_ge _ _)) by lia. simpl.
    apply check_loop_spec. set (i := Z.to_nat (from - 1)).
    destruct (slice_checks (events c) i (Z.to_nat to - i) (chain_checks c Hinv Hlen) ltac:(lia))
      as (H1 & H2 & H3). replace (Z.of_nat i + 1) with from in H3 by lia. done.
  - unfold verify_merkle_tree.
    assert (forall l, (forall e, e ∈ l -> e ∈ events c) ->
      check_inclusion (from_hashes (current_hash <$> events c)) l = Ok tt) as Hincl.
    { induction l as [|e l IH]; intros Hsub; [done|]. simpl.
      rewrite verify_inclusion_spec, bool_decide_true by (apply list_elem_of_fmap_2, Hsub; set_solver).
      simpl. apply IH. set_solver. }
    rewrite Hincl by done. destruct (get_root _) as [r|]; simpl; [|done].
    destruct (bool_decide_reflect (r = root)); simpl; split; congruence.
Qed.
End verifier.
