(* ===== verification/TamperDetection.v ===== *)
(** * Tamper detection

    [crates/audit/src/tamper_detection.rs]: the integrity report over a list
    of events, with and without a checkpoint, and the quick check.  Timestamps
    are nanoseconds; the elapsed time of a verification is an argument. *)

From Stdlib Require Import ZArith Lia Strings.Byte.
From stdpp Require Import base gmap strings list.
From S2P Require Import Prelude External AuditEvent HashChain MerkleTree AuditVerifier.

Inductive TamperDetectionError := IntegrityCheckFailed | EmptyLog.

Inductive Violation :=
| HashChainBroken (sequence : Z) (expected actual : string)
| HashMismatch (sequence : Z) (expected actual : string)
| SequenceGap (prev next : Z)
| DuplicateSequence (sequence : Z)
| MerkleTreeInconsistent (expected actual : string)
| TailTruncated (checkpoint live : Z)
| TimestampAnomaly (sequence prev_time curr_time : Z)
| EventModified (sequence : Z) (details : string).

Record IntegrityReport := MkIntegrityReport {
  total_events : nat;
  violation_count : nat;
  violations : list Violation;
  is_valid : bool;
  report_root : option string;
  verification_time_ms : Z
}.

Definition report_new : IntegrityReport := MkIntegrityReport 0 0 [] true None 0.

Definition add_violation (v : Violation) (r : IntegrityReport) : IntegrityReport :=
  MkIntegrityReport (total_events r) (S (violation_count r)) (violations r ++ [v]) false
    (report_root r) (verification_time_ms r).
Definition with_total (n : nat) (r : IntegrityReport) : IntegrityReport :=
  MkIntegrityReport n (violation_count r) (violations r) (is_valid r) (report_root r)
    (verification_time_ms r).
Definition with_root (root : string) (r : IntegrityReport) : IntegrityReport :=
  MkIntegrityReport (total_events r) (violation_count r) (violations r) (is_valid r) (Some root)
    (verification_time_ms r).
Definition with_time (ms : Z) (r : IntegrityReport) : IntegrityReport :=
  MkIntegrityReport (total_events r) (violation_count r) (violations r) (is_valid r)
    (report_root r) ms.
Definition invalidate (r : IntegrityReport) : IntegrityReport :=
  MkIntegrityReport (total_events r) (violation_count r) (violations r) false (report_root r)
    (verification_time_ms r).

Section detector.
Context {Value : Type} {HEX : Hex} {SHA : Sha256} {CHRONO : Chrono} {HMAC : Hmac}.
Context {ST : Serde EventType} {SR : Serde OperationResult} {SVal : SerdeCodec Value}.
Abbreviation AuditEvent := (AuditEvent Value).

Fixpoint hash_chain_loop (prev : string) (events : list AuditEvent) (r : IntegrityReport)
  : IntegrityReport :=
  match events with
  | [] => r
  | event :: rest =>
      hash_chain_loop (current_hash event) rest
        (if negb (bool_decide (prev_hash event = prev)) then
           add_violation (HashChainBroken (sequence event) prev (prev_hash event)) r
         else r)
  end.
Definition verify_hash_chain (events : list AuditEvent) (r : IntegrityReport) : IntegrityReport :=
  hash_chain_loop genesis_hash events r.

Fixpoint sequences_loop (seen : gset Z) (prev : Z) (events : list AuditEvent) (r : IntegrityReport)
  : IntegrityReport :=
  match events with
  | [] => r
  | event :: rest =>
      let seq := sequence event in
      let r := if bool_decide (seq ∈ seen) then add_violation (DuplicateSequence seq) r else r in
      let r :=
        if (0 <? prev) && negb (seq =? wrap 64 (prev + 1)) then add_violation (SequenceGap prev seq) r
        else r in
      sequences_loop ({[seq]} ∪ seen) seq rest r
  end.
Definition verify_sequences (events : list AuditEvent) (r : IntegrityReport) : IntegrityReport :=
  sequences_loop ∅ 0 events r.

Fixpoint verify_event_hashes (events : list AuditEvent) (r : IntegrityReport) : IntegrityReport :=
  match events with
  | [] => r
  | event :: rest =>
      let computed_hash := compute_hash event in
      verify_event_hashes rest
        (if negb (bool_decide (computed_hash = current_hash event)) then
           add_violation (HashMismatch (sequence event) (current_hash event) computed_hash) r
         else r)
  end.

Fixpoint inclusion_loop (tree : MerkleTree) (events : list AuditEvent) (r : IntegrityReport)
  : IntegrityReport :=
  match events with
  | [] => r
  | event :: rest =>
      inclusion_loop tree rest
        (if negb (verify_inclusion tree (current_hash event)) then
           add_violation (EventModified (sequence event) "Event not found in Merkle tree") r
         else r)
  end.
Definition verify_merkle_consistency (events : list AuditEvent) (expected_root : option string)
    (r : IntegrityReport) : IntegrityReport :=
  let tree := from_hashes (current_hash <$> events) in
  match get_root tree with
  | Err _ => r
  | Ok root =>
      let r := with_root root r in
      let r :=
        match expected_root with
        | Some expected =>
            if negb (bool_decide (root = expected)) then
              add_violation (MerkleTreeInconsistent expected root) r
            else r
        | None => r
        end in
      inclusion_loop tree events r
  end.

(** [TimeDelta::num_seconds] *)
Definition num_seconds (nanos : Z) : Z := Z.quot nanos 1000000000.

Fixpoint timestamps_loop (prev : option Z) (events : list AuditEvent) (r : IntegrityReport)
  : IntegrityReport :=
  match events with
  | [] => r
  | event :: rest =>
      let r :=
        match prev with
        | Some prev_time =>
            if timestamp event <? prev_time then
              if 1 <? num_seconds (prev_time - timestamp event) then
                add_violation (TimestampAnomaly (sequence event) prev_time (timestamp event)) r
              else r
            else r
        | None => r
        end in
      timestamps_loop (Some (timestamp event)) rest r
  end.
Definition verify_timestamps (events : list AuditEvent) (r : IntegrityReport) : IntegrityReport :=
  timestamps_loop None events r.

Definition verify_integrity (elapsed : Z) (events : list AuditEvent)
  : result IntegrityReport TamperDetectionError :=
  match events with
  | [] => Err EmptyLog
  | _ =>
      let r := with_total (length events) report_new in
      let r := verify_hash_chain events r in
      let r := verify_sequences events r in
      let r := verify_event_hashes events r in
      let r := verify_merkle_consistency events None r in
      let r := verify_timestamps events r in
      Ok (with_time elapsed r)
  end.

Definition verify_integrity_with_checkpoint (elapsed : Z) (events : list AuditEvent)
    (cp : Checkpoint) (key : option bytes) : result IntegrityReport TamperDetectionError :=
  match events with
  | [] => Err EmptyLog
  | _ =>
      let r := with_total (length events) report_new in
      let r := verify_hash_chain events r in
      let r := verify_sequences events r in
      let r := verify_event_hashes events r in
      let live_tip := match last events with Some e => sequence e | None => 0 end in
      let r :=
        if live_tip <? cp_sequence cp then
          add_violation (TailTruncated (cp_sequence cp) live_tip) r
        else r in
      let '(expected_root, r) :=
        if negb (is_ok (HashChain.verify_integrity cp key)) then
          (None, add_violation
                   (MerkleTreeInconsistent "<invalid checkpoint tag>" (merkle_root cp)) r)
        else if live_tip =? cp_sequence cp then (Some (merkle_root cp), r)
        else (None, r) in
      let r := verify_merkle_consistency events expected_root r in
      let r := verify_timestamps events r in
      Ok (with_time elapsed r)
  end.

Fixpoint quick_loop (prev : string) (prev_sequence : Z) (events : list AuditEvent) : bool :=
  match events with
  | [] => true
  | event :: rest =>
      if negb (bool_decide (prev_hash event = prev)) then false
      else if negb (verify_hash event) then false
      else if (0 <? prev_sequence) && negb (sequence event =? wrap 64 (prev_sequence + 1)) then false
      else quick_loop (current_hash event) (sequence event) rest
  end.
Definition quick_verify (events : list AuditEvent) : result bool TamperDetectionError :=
  match events with
  | [] => Err EmptyLog
  | _ => Ok (quick_loop genesis_hash 0 events)
  end.

Definition verify_range (elapsed : Z) (events : list AuditEvent) (from to : Z)
  : result IntegrityReport TamperDetectionError :=
  if (from =? 0) || (Z.of_nat (length events) <? to) || (to <? from) then Err IntegrityCheckFailed
  else
    let first := Z.to_nat (from - 1) in
    verify_integrity elapsed (take (Z.to_nat to - first) (drop first events)).

Definition periodic_check (elapsed : Z) (events : list AuditEvent) : IntegrityReport :=
  match verify_integrity elapsed events with
  | Ok report => report
  | Err _ => invalidate report_new
  end.

(** ** What makes a report valid *)

Fixpoint chained (prev : string) (events : list AuditEvent) : Prop :=
  match events with
  | [] => True
  | event :: rest => prev_hash event = prev /\ chained (current_hash event) rest
  end.
Fixpoint no_gap (prev : Z) (events : list AuditEvent) : Prop :=
  match events with
  | [] => True
  | event :: rest =>
      (0 < prev -> sequence event = wrap 64 (prev + 1)) /\ no_gap (sequence event) rest
  end.
Fixpoint fresh_numbers (seen : gset Z) (events : list AuditEvent) : Prop :=
  match events with
  | [] => True
  | event :: rest => (sequence event ∉ seen) /\ fresh_numbers ({[sequence event]} ∪ seen) rest
  end.
Fixpoint in_time (prev : option Z) (events : list AuditEvent) : Prop :=
  match events with
  | [] => True
  | event :: rest =>
      (forall p, prev = Some p -> p - timestamp event < 2000000000) /\
      in_time (Some (timestamp event)) rest
  end.

Lemma add_violation_invalid v r : is_valid (add_violation v r) = false.
Proof. done. Qed.

Lemma hash_chain_loop_valid prev events r :
  is_valid (hash_chain_loop prev events r) = true <-> is_valid r = true /\ chained prev events.
Proof.
  revert prev r. induction events as [|e l IH]; intros prev r; simpl; [tauto|]. rewrite IH.
  destruct (bool_decide_reflect (prev_hash e = prev)); simpl; [tauto|].
  split; [by intros []|tauto].
Qed.

Lemma sequences_loop_valid seen prev events r :
  is_valid (sequences_loop seen prev events r) = true <->
  is_valid r = true /\ fresh_numbers seen events /\ no_gap prev events.
Proof.
  revert seen prev r. induction events as [|e l IH]; intros seen prev r; simpl; [tauto|]. rewrite IH.
  assert ((0 <? prev) && negb (sequence e =? wrap 64 (prev + 1)) = false <->
    (0 < prev -> sequence e = wrap 64 (prev + 1))) as Hgap.
  { destruct (Z.ltb_spec 0 prev), (Z.eqb_spec (sequence e) (wrap 64 (prev + 1))); simpl;
      intuition lia. }
  destruct ((0 <? prev) && _).
  - rewrite add_violation_invalid. split; [by intros []|]. intros (_ & _ & H & _).
    apply Hgap in H. done.
  - destruct (bool_decide_reflect (sequence e ∈ seen)); simpl; [split; [by intros []|tauto]|tauto].
Qed.

Lemma event_hashes_valid events r :
  is_valid (verify_event_hashes events r) = true <-> is_valid r = true /\ hashed events.
Proof.
  unfold hashed. revert r. induction events as [|e l IH]; intros r; simpl.
  { rewrite Forall_nil. tauto. }
  rewrite IH, Forall_cons, verify_hash_true.
  destruct (bool_decide_reflect (compute_hash e = current_hash e)) as [E|E]; simpl.
  - intuition congruence.
  - split; [by intros []|]. intros (_ & E' & _). congruence.
Qed.

(** The inclusion check can never fail: the tree is built from the same
    hashes. *)
Lemma inclusion_loop_all all events r :
  (forall e, e ∈ events -> e ∈ all) ->
  inclusion_loop (from_hashes (current_hash <$> all)) events r = r.
Proof.
  revert r. induction events as [|e l IH]; intros r Hsub; [done|]. simpl.
  rewrite verify_inclusion_spec, bool_decide_true by (apply list_elem_of_fmap_2, Hsub; set_solver).
  apply IH. set_solver.
Qed.

Lemma merkle_consistency_valid events expected r :
  events <> [] ->
  is_valid (verify_merkle_consistency events expected r) = true <->
  is_valid r = true /\
  (forall x, expected = Some x -> get_root (from_hashes (current_hash <$> events)) = Ok x).
Proof.
  intros Hne. unfold verify_merkle_consistency.
  destruct (tree_wf_root _ (from_hashes_wf (current_hash <$> events))) as (root & Hr & _).
  { rewrite from_hashes_leaves. by destruct events. }
  rewrite Hr, inclusion_loop_all by done.
  destruct expected as [x|]; [|split; [by intros ?|by intros []]].
  destruct (bool_decide_reflect (root = x)) as [->|Hx]; simpl.
  - split; [intros ?; split; [done|]; by intros ? [= <-]|by intros []].
  - split; [done|]. intros [_ H]. specialize (H x eq_refl). congruence.
Qed.

Lemma num_seconds_small d : 0 < d -> (1 <? num_seconds d) = false <-> d < 2000000000.
Proof.
  intros Hd. unfold num_seconds. rewrite Z.ltb_ge, Z.quot_div_nonneg by lia. split; intros H.
  - pose proof (Z.mul_succ_div_gt d 1000000000). lia.
  - assert (d / 1000000000 < 2); [|lia]. apply Z.div_lt_upper_bound; lia.
Qed.

Lemma timestamps_loop_valid prev events r :
  is_valid (timestamps_loop prev events r) = true <-> is_valid r = true /\ in_time prev events.
Proof.
  revert prev r. induction events as [|e l IH]; intros prev r; simpl; [tauto|]. rewrite IH.
  destruct prev as [p|]; [|split; [intros []|intros (? & _ & ?)]; by split_and!].
  destruct (Z.ltb_spec (timestamp e) p) as [Hlt|Hge].
  - pose proof (num_seconds_small (p - timestamp e) ltac:(lia)) as Hn.
    destruct (1 <? num_seconds (p - timestamp e)); simpl.
    + split; [by intros []|]. intros (_ & H & _). specialize (H p eq_refl). destruct Hn as [_ Hn].
      by specialize (Hn H).
    + split; [|tauto]. intros [? ?]. split_and!; try done. intros ? [= <-]. by apply Hn.
  - split; [|tauto]. intros [? ?]. split_and!; try done. intros ? [= <-]. lia.
Qed.

Lemma verify_integrity_valid elapsed events :
  events <> [] -> exists r, verify_integrity elapsed events = Ok r /\
  (is_valid r = true <->
   chained genesis_hash events /\ hashed events /\ fresh_numbers ∅ events /\ no_gap 0 events /\
   in_time None events).
Proof.
  intros Hne. unfold verify_integrity. destruct events as [|e l]; [done|].
  eexists. split; [done|]. set (events := e :: l) in *.
  change (is_valid (with_time elapsed ?r)) with (is_valid r).
  unfold verify_timestamps, verify_hash_chain, verify_sequences.
  rewrite timestamps_loop_valid, merkle_consistency_valid, event_hashes_valid, sequences_loop_valid,
    hash_chain_loop_valid by done.
  change (is_valid (with_total (length events) report_new)) with true.
  split; [tauto|]. intros (? & ? & ? & ? & ?). by split_and!.
Qed.

Lemma quick_loop_valid prev n events :
  quick_loop prev n events = true <-> chained prev events /\ hashed events /\ no_gap n events.
Proof.
  unfold hashed. revert prev n. induction events as [|e l IH]; intros prev n; simpl.
  { rewrite Forall_nil. tauto. }
  rewrite Forall_cons. destruct (bool_decide_reflect (prev_hash e = prev)); simpl; [|split; [done|tauto]].
  destruct (verify_hash e); simpl; [|split; [done|]; intros (_ & [? _] & _); done].
  destruct (Z.ltb_spec 0 n), (Z.eqb_spec (sequence e) (wrap 64 (n + 1))); simpl; rewrite ?IH;
    intuition lia.
Qed.

(** ** Logs that a hash chain holds *)

Lemma numbered_fresh first seen events :
  numbered first events -> (forall x, x ∈ seen -> x < first) -> fresh_numbers seen events.
Proof.
  revert first seen. induction events as [|e l IH]; intros first seen Hn Hs; [done|].
  destruct Hn as [<- Hn]. split; [intros Hin%Hs; lia|].
  eapply IH; [done|]. intros x [->%elem_of_singleton|Hx%Hs]%elem_of_union; lia.
Qed.

Lemma numbered_no_gap first events :
  0 < first -> first + Z.of_nat (length events) <= 2 ^ 64 -> numbered first events ->
  no_gap (first - 1) events.
Proof.
  revert first. induction events as [|e l IH]; intros first Hf Hlen Hn; [done|].
  destruct Hn as [He Hn]. simpl in Hlen. split.
  - intros _. replace (first - 1 + 1) with first by lia. rewrite wrap_small; [done|].
    unfold in_u. lia.
  - rewrite He. replace first with (first + 1 - 1) at 1 by lia. apply IH; [lia..|done].
Qed.

Lemma linked_chained prev e l :
  prev_hash e = prev -> linked (Some e) l -> chained prev (e :: l).
Proof.
  revert prev e. induction l as [|x l IH]; intros prev e He Hl; [by split|].
  destruct Hl as [Hx Hl]. split; [done|]. apply IH; [by apply Hx|done].
Qed.

Lemma chain_detected (c : HashChain Value) :
  chain_inv c -> HashChain.len c < 2 ^ 64 ->
  chained genesis_hash (events c) /\ hashed (events c) /\ fresh_numbers ∅ (events c) /\
  no_gap 0 (events c).
Proof.
  intros Hinv Hlen. destruct (chain_checks c Hinv Hlen) as (Hh & Hl & Hn).
  split_and!; [|done|by eapply numbered_fresh; [|intros x ?%elem_of_empty]|].
  - destruct Hinv as (_ & _ & _ & _ & Hg). destruct (events c) as [|e l]; [done|].
    apply linked_chained; [by apply Hg|]. by apply linked_none in Hl.
  - apply (numbered_no_gap 1); [lia| |done]. unfold HashChain.len in Hlen. lia.
Qed.

(** ** The theorems *)

(** The report of a non-empty log is valid exactly when the links start from
    the genesis hash, every event carries its hash, numbers neither repeat
    nor skip, and no timestamp goes back by two seconds or more; the quick
    check decides the first, second and fourth of these. *)
Theorem tamper_report_spec (elapsed : Z) (log : list AuditEvent) :
  log <> [] -> exists r b,
  verify_integrity elapsed log = Ok r /\ quick_verify log = Ok b /\
  (is_valid r = true <->
   chained genesis_hash log /\ hashed log /\ fresh_numbers ∅ log /\ no_gap 0 log /\
   in_time None log) /\
  (b = true <-> chained genesis_hash log /\ hashed log /\ no_gap 0 log).
Proof.
  intros Hne. destruct (verify_integrity_valid elapsed log Hne) as (r & Hr & Hv).
  exists r, (quick_loop genesis_hash 0 log). split_and!; try done; [destruct log; [by destruct Hne|done]|].
  apply quick_loop_valid.
Qed.

(** A log built by a hash chain passes the quick check, and its full report
    is valid exactly when its timestamps are in order; but the report on a
    range of it that does not start at the first event is invalid (unless the
    hash before the range happens to be the genesis hash), although the
    offline verifier accepts the same range. *)
Theorem detector_on_chain (elapsed : Z) (offered : list AuditEvent) :
  let c := appends offered HashChain.new in
  events c <> [] -> HashChain.len c < 2 ^ 64 ->
  quick_verify (events c) = Ok true /\
  (exists r, verify_integrity elapsed (events c) = Ok r /\
     (is_valid r = true <-> in_time None (events c))) /\
  (forall from to before, 2 <= from <= to -> to <= HashChain.len c ->
     events c !! Z.to_nat (from - 2) = Some before -> current_hash before <> genesis_hash ->
     AuditVerifier.verify_range (events c) from to = Ok tt /\
     exists r, verify_range elapsed (events c) from to = Ok r /\ is_valid r = false).
Proof.
  intros c Hne Hlen. assert (chain_inv c) as Hinv by apply appends_inv, new_inv.
  destruct (chain_detected c Hinv Hlen) as (Hch & Hh & Hf & Hg). split_and!.
  - unfold quick_verify. destruct (events c) as [|e l]; [done|]. f_equal. by apply quick_loop_valid.
  - destruct (verify_integrity_valid elapsed (events c) Hne) as (r & Hr & Hv).
    exists r. split; [done|]. rewrite Hv. tauto.
  - intros from to before Hft Hto Hb Hnz. unfold HashChain.len in *.
    set (i := Z.to_nat (from - 1)). set (slice := take (Z.to_nat to - i) (drop i (events c))).
    destruct (slice_checks (events c) i (Z.to_nat to - i) (chain_checks c Hinv Hlen) ltac:(lia))
      as (H1 & H2 & H3). fold slice in H1, H2, H3.
    unfold AuditVerifier.verify_range, verify_range.
    rewrite (proj2 (Z.eqb_neq _ _)), !(proj2 (Z.ltb_ge _ _)) by lia. simpl. fold i slice.
    split; [apply check_loop_spec; by replace (Z.of_nat i + 1) with from in H3 by lia|].
    assert (exists e rest, slice = e :: rest /\ prev_hash e = current_hash before)
      as (e & rest & Es & Ee).
    { destruct (lookup_lt_is_Some_2 (events c) i) as [e He]; [lia|].
      exists e, (take (Nat.pred (Z.to_nat to - i)) (drop (S i) (events c))). split.
      - unfold slice. rewrite (drop_S _ _ _ He).
        by replace (Z.to_nat to - i)%nat with (S (Nat.pred (Z.to_nat to - i))) at 1 by lia.
      - destruct (chain_checks c Hinv Hlen) as (_ & Hl & _).
        eapply (linked_lookup None (events c) (Z.to_nat (from - 2))); [done..|].
        by replace (S (Z.to_nat (from - 2))) with i by lia. }
    destruct (verify_integrity_valid elapsed slice) as (r & Hr & Hv); [by rewrite Es|].
    exists r. split; [done|]. apply not_true_is_false. rewrite Hv, Es. intros [[Hp _] _]. congruence.
Qed.
End detector.
