(* ===== verification/AuditStorage.v ===== *)
(** * Audit log files

    [crates/audit/src/storage.rs]: the current log file behind a
    [BufWriter], size-based rotation, the reader and the checkpoint file.

    The directory is a map from file names to lines (a JSON text holds no line
    feed).  Every fallible file operation consumes one element of
    [io_faults]; [true] makes it fail and do nothing, so a write reaches the
    file completely or not at all.  What the [BufWriter] still holds after a
    failed flush stays in it, as the standard library documents, and is lost
    when the process dies. *)

From Stdlib Require Import ZArith Lia Strings.Byte.
From stdpp Require Import base gmap strings list.
From S2P Require Import Prelude External AuditEvent HashChain.

Inductive StorageError :=
| Io (reason : string)
| Serialization (reason : string)
| RotationFailed (reason : string)
| InvalidFormat
| StorageCheckpoint (e : CheckpointError).

Record StorageConfig := MkStorageConfig {
  max_file_size : Z;
  max_files : nat;
  sync_writes : bool
}.
Definition StorageConfig_default : StorageConfig := MkStorageConfig (100 * 1024 * 1024) 10 true.

Record Disk := MkDisk {
  files : gmap string (list bytes);
  io_faults : list bool
}.

Record AuditStorage := MkAuditStorage {
  storage_config : StorageConfig;
  disk : Disk;
  file_open : bool;
  buffered : list bytes;
  current_size : Z
}.

Definition current_log_path : string := "audit.log".
Definition get_rotated_log_path (index : nat) : string :=
  "audit.log." +:+ to_decimal (Z.of_nat index).
Definition checkpoint_path : string := "checkpoint.json".
Definition checkpoint_tmp : string := "checkpoint.json.tmp".

(** The size of lines with their line feeds. *)
Definition lines_size (lines : list bytes) : Z :=
  foldr (fun line n => Z.of_nat (length line) + 1 + n) 0 lines.

(** The text of a file; the parser skips white space around it. *)
Fixpoint join_lines (lines : list bytes) : bytes :=
  match lines with
  | [] => []
  | [line] => line
  | line :: rest => line ++ Byte.x0a :: join_lines rest
  end.

(** ** File operations *)

Definition with_disk (d : Disk) (s : AuditStorage) : AuditStorage :=
  MkAuditStorage (storage_config s) d (file_open s) (buffered s) (current_size s).

(** A file operation that may fail, and its effect on the directory. *)
Definition io {A} (f : gmap string (list bytes) -> option (A * gmap string (list bytes)))
  : M AuditStorage StorageError A := fun s =>
  match io_faults (disk s) with
  | true :: rest => (Err (Io "injected"), with_disk (MkDisk (files (disk s)) rest) s)
  | faults =>
      let rest := tail faults in
      match f (files (disk s)) with
      | Some (a, fs) => (Ok a, with_disk (MkDisk fs rest) s)
      | None => (Err (Io "not found"), with_disk (MkDisk (files (disk s)) rest) s)
      end
  end.

Definition fs_open_append (path : string) : M AuditStorage StorageError Z :=
  io (fun fs =>
    let lines := default [] (fs !! path) in Some (lines_size lines, <[path := lines]> fs)).
Definition fs_append (path : string) (lines : list bytes) : M AuditStorage StorageError unit :=
  io (fun fs => Some (tt, <[path := default [] (fs !! path) ++ lines]> fs)).
Definition fs_rename (old new : string) : M AuditStorage StorageError unit :=
  io (fun fs => content ← fs !! old; Some (tt, <[new := content]> (delete old fs))).
Definition fs_read (path : string) : M AuditStorage StorageError (list bytes) :=
  io (fun fs => content ← fs !! path; Some (content, fs)).
Definition fs_write (path : string) (lines : list bytes) : M AuditStorage StorageError unit :=
  io (fun fs => Some (tt, <[path := lines]> fs)).
Definition fs_exists (path : string) : M AuditStorage StorageError bool := fun s =>
  (Ok (bool_decide (is_Some (files (disk s) !! path))), s).

(** ** [BufWriter] *)

Definition BUF_CAPACITY : Z := 8192.
Definition set_buffered (b : list bytes) : M AuditStorage StorageError unit :=
  modify (fun s => MkAuditStorage (storage_config s) (disk s) (file_open s) b (current_size s)).
Definition set_size (f : Z -> Z) : M AuditStorage StorageError unit :=
  modify (fun s =>
    MkAuditStorage (storage_config s) (disk s) (file_open s) (buffered s) (f (current_size s))).
Definition set_open (b : bool) : M AuditStorage StorageError unit :=
  modify (fun s => MkAuditStorage (storage_config s) (disk s) b (buffered s) (current_size s)).
Definition gets {A} (f : AuditStorage -> A) : M AuditStorage StorageError A := fun s => (Ok (f s), s).

Definition buf_flush : M AuditStorage StorageError unit :=
  let! lines := gets buffered in
  match lines with
  | [] => ret tt
  | _ => fs_append current_log_path lines ;! set_buffered []
  end.

Definition buf_write_all (line : bytes) : M AuditStorage StorageError unit :=
  let! held := gets buffered in
  let size := Z.of_nat (length line) + 1 in
  let spare := BUF_CAPACITY - lines_size held in
  if size <? spare then set_buffered (held ++ [line])
  else
    (if spare <? size then buf_flush else ret tt) ;!
    if BUF_CAPACITY <=? size then fs_append current_log_path [line]
    else let! held := gets buffered in set_buffered (held ++ [line]).

Section storage.
Context {Value : Type} {SEv : SerdeCodec (AuditEvent Value)} {SCp : Serde Checkpoint}.
Abbreviation AuditEvent := (AuditEvent Value).

Definition open_current_file : M AuditStorage StorageError unit :=
  let! size := fs_open_append current_log_path in
  set_size (fun _ => size) ;!
  set_buffered [] ;!
  set_open true.

Definition storage_start (config : StorageConfig) (d : Disk) : AuditStorage :=
  MkAuditStorage config d false [] 0.
(** Creating the directory, then opening the log in it. *)
Definition storage_new : M AuditStorage StorageError unit :=
  io (fun fs => Some (tt, fs)) ;! open_current_file.

(** [for i in (1..max_files).rev()], counting down from [i]. *)
Fixpoint rotate_files (i : nat) : M AuditStorage StorageError unit :=
  match i with
  | O => ret tt
  | S i' =>
      let! exists_old := fs_exists (get_rotated_log_path i) in
      (if exists_old : bool then fs_rename (get_rotated_log_path i) (get_rotated_log_path (S i))
       else ret tt) ;!
      rotate_files i'
  end.

Definition rotate : M AuditStorage StorageError unit :=
  let! is_open := gets file_open in
  (if is_open : bool then buf_flush else ret tt) ;!
  set_open false ;!
  let! config := gets storage_config in
  rotate_files (Nat.pred (max_files config)) ;!
  let! exists_current := fs_exists current_log_path in
  (if exists_current : bool then fs_rename current_log_path (get_rotated_log_path 1) else ret tt) ;!
  set_size (fun _ => 0) ;!
  open_current_file.

Definition write_event (event : AuditEvent) : M AuditStorage StorageError unit :=
  let! config := gets storage_config in
  let! size := gets current_size in
  (if max_file_size config <=? size then rotate else ret tt) ;!
  let! json := lift (rmap_err Serialization (to_vec event)) in
  let! is_open := gets file_open in
  if negb is_open then throw (Io "Log file not open")
  else
    buf_write_all json ;!
    (if sync_writes config then buf_flush else ret tt) ;!
    set_size (fun size => wrap 64 (size + (Z.of_nat (length json) + 1))).

Fixpoint parse_lines (lines : list bytes) : result (list AuditEvent) StorageError :=
  match lines with
  | [] => Ok []
  | line :: rest =>
      if negb (utf8_valid line) then Err (Io "stream did not contain valid UTF-8")
      else if is_blank line then parse_lines rest
      else
        let? event := rmap_err Serialization (from_slice line) in
        let? events := parse_lines rest in
        Ok (event :: events)
  end.

Definition read_events (path : string) : M AuditStorage StorageError (list AuditEvent) :=
  let! lines := fs_read path in lift (parse_lines lines).

Definition read_current_events : M AuditStorage StorageError (list AuditEvent) :=
  read_events current_log_path.

(** [for i in (1..=max_files).rev()] *)
Fixpoint read_rotated (i : nat) : M AuditStorage StorageError (list AuditEvent) :=
  match i with
  | O => ret []
  | S i' =>
      let! exists_file := fs_exists (get_rotated_log_path i) in
      let! events :=
        if exists_file : bool then read_events (get_rotated_log_path i) else ret [] in
      let! rest := read_rotated i' in
      ret (events ++ rest)
  end.

Definition read_all_events : M AuditStorage StorageError (list AuditEvent) :=
  let! config := gets storage_config in
  let! rotated := read_rotated (max_files config) in
  let! current := read_current_events in
  ret (rotated ++ current).

Definition flush : M AuditStorage StorageError unit :=
  let! is_open := gets file_open in
  if is_open : bool then buf_flush else ret tt.

Definition force_rotation : M AuditStorage StorageError unit := rotate.

(** Written to a temporary file, synced, renamed. *)
Definition write_checkpoint (cp : Checkpoint) : M AuditStorage StorageError unit :=
  let! json :=
    lift (rmap_err (fun e => StorageCheckpoint (CheckpointSerialization e)) (to_vec cp)) in
  fs_write checkpoint_tmp [json] ;!
  fs_rename checkpoint_tmp checkpoint_path.

Definition read_checkpoint : M AuditStorage StorageError (option Checkpoint) :=
  let! exists_file := fs_exists checkpoint_path in
  if negb exists_file then ret None
  else
    let! lines := fs_read checkpoint_path in
    let contents := join_lines lines in
    if negb (utf8_valid contents) then throw (Io "stream did not contain valid UTF-8")
    else if is_blank contents then ret None
    else
      let! cp :=
        lift (rmap_err (fun e => StorageCheckpoint (CheckpointSerialization e))
                (from_slice contents)) in
      ret (Some cp).

(** ** A disk without faults *)

(** The log file is open, nothing is buffered and no operation will fail. *)
Definition steady (s : AuditStorage) : Prop :=
  file_open s = true /\ buffered s = [] /\ io_faults (disk s) = [].

Definition file (path : string) (s : AuditStorage) : list bytes :=
  default [] (files (disk s) !! path).

Lemma io_steady {A} (f : gmap string (list bytes) -> option (A * gmap string (list bytes))) s a fs :
  io_faults (disk s) = [] -> f (files (disk s)) = Some (a, fs) ->
  io f s = (Ok a, with_disk (MkDisk fs []) s).
Proof. intros Hf E. unfold io. by rewrite Hf, E. Qed.

(** Writing a line through the buffer and flushing appends it, whatever its
    length. *)
Lemma buf_write_flush line s :
  steady s ->
  (buf_write_all line ;! buf_flush) s =
  (Ok tt, with_disk (MkDisk (<[current_log_path := file current_log_path s ++ [line]]>
                               (files (disk s))) []) s).
Proof.
  intros (Ho & Hb & Hf). destruct s as [config [fs faults] o b size]. simpl in *. subst.
  unfold buf_write_all, buf_flush, bind, gets, file, BUF_CAPACITY. cbn [buffered lines_size foldr].
  rewrite Z.sub_0_r. destruct (Z.ltb_spec (Z.of_nat (length line) + 1) 8192); [done|].
  destruct (Z.ltb_spec 8192 (Z.of_nat (length line) + 1)); cbn [buffered];
    by rewrite (proj2 (Z.leb_le _ _)) by lia.
Qed.

(** One synchronous write below the rotation size. *)
Lemma write_event_steady (event : AuditEvent) s json :
  steady s -> sync_writes (storage_config s) = true ->
  current_size s < max_file_size (storage_config s) -> to_vec event = Ok json ->
  exists s', write_event event s = (Ok tt, s') /\ steady s' /\
    storage_config s' = storage_config s /\
    current_size s' = wrap 64 (current_size s + (Z.of_nat (length json) + 1)) /\
    files (disk s') =
      <[current_log_path := file current_log_path s ++ [json]]> (files (disk s)).
Proof.
  intros Hs Hsync Hsize Hj. pose proof Hs as (Ho & Hb & Hf).
  unfold write_event. unfold gets at 1 2, bind at 1 2. rewrite (proj2 (Z.leb_gt _ _)) by done.
  unfold bind at 1. simpl. rewrite Hj. unfold bind at 1, lift at 1. simpl.
  unfold gets, bind at 1. rewrite Ho. simpl. rewrite Hsync.
  pose proof (buf_write_flush json s Hs) as Hw. unfold bind in *.
  destruct (buf_write_all json s) as [[[]|] s1]; [|done].
  destruct (buf_flush s1) as [[[]|] s2]; [|done]. injection Hw as ->.
  eexists. split; [done|]. by split_and!.
Qed.

(** The lines the storage writes are read back as the events, if each event
    by itself reads back. *)
Lemma parse_lines_written (events : list AuditEvent) (lines : list bytes) :
  Forall2 (fun e line => to_vec e = Ok line /\ utf8_valid line = true /\ is_blank line = false)
    events lines ->
  Forall reads_back events -> parse_lines lines = Ok events.
Proof.
  induction 1 as [|e line events lines (Hj & Hu & Hb) _ IH]; [done|]. intros [He Hes]%Forall_cons. simpl.
  by rewrite Hu, Hb, (He _ Hj), IH.
Qed.

(** ** Rotation *)

Lemma rotated_path_inj i j : get_rotated_log_path i = get_rotated_log_path j -> i = j.
Proof.
  unfold get_rotated_log_path. intros E%(inj (String.append "audit.log.")).
  apply to_decimal_inj in E; lia.
Qed.
Lemma rotated_path_current i : get_rotated_log_path i <> current_log_path.
Proof. done. Qed.

Lemma rotate_files_steady n s :
  io_faults (disk s) = [] -> exists fs,
  rotate_files n s = (Ok tt, with_disk (MkDisk fs []) s) /\
  (forall j c, (1 <= j <= n)%nat -> files (disk s) !! get_rotated_log_path j = Some c ->
     fs !! get_rotated_log_path (S j) = Some c) /\
  (forall path, (forall j, (1 <= j <= S n)%nat -> path <> get_rotated_log_path j) ->
     fs !! path = files (disk s) !! path).
Proof.
  revert s. induction n as [|n IH]; intros s Hf.
  { exists (files (disk s)). split_and!; [|lia|done]. destruct s as [? [] ? ? ?]. simpl in *. by subst. }
  cbn [rotate_files]. unfold fs_exists. unfold bind at 1.
  destruct (files (disk s) !! get_rotated_log_path (S n)) as [c|] eqn:Ec.
  - rewrite bool_decide_true by eauto.
    set (fs1 := <[get_rotated_log_path (S (S n)) := c]> (delete (get_rotated_log_path (S n)) (files (disk s)))).
    erewrite bind_Ok by (apply (io_steady _ _ tt fs1 Hf); by rewrite Ec).
    destruct (IH (with_disk (MkDisk fs1 []) s) eq_refl) as (fs & Hr & Hm & Hk).
    exists fs. split; [done|]. split.
    + intros j c' Hj Hc'. destruct (decide (j = S n)) as [->|Hne].
      * rewrite Hk; simpl; [simplify_eq; unfold fs1; by rewrite lookup_insert_eq|]. intros k Hkn E%rotated_path_inj. lia.
      * apply Hm; [lia|]. simpl. unfold fs1.
        rewrite lookup_insert_ne, lookup_delete_ne; [done|intros E%rotated_path_inj; lia..].
    + intros path Hp. rewrite Hk by (intros; apply Hp; lia). simpl. unfold fs1.
      rewrite lookup_insert_ne, lookup_delete_ne; [done|symmetry; apply Hp; lia..].
  - rewrite bool_decide_false by (by intros [? ?]). unfold bind at 1, ret at 1.
    destruct (IH s Hf) as (fs & Hr & Hm & Hk). exists fs. split; [done|]. split.
    + intros j c' Hj Hc'. destruct (decide (j = S n)) as [->|Hne]; [congruence|]. apply Hm; [lia|done].
    + intros path Hp. apply Hk. intros; apply Hp; lia.
Qed.

Lemma rotate_steady (s : AuditStorage) (current : list bytes) :
  steady s -> files (disk s) !! current_log_path = Some current ->
  (1 <= max_files (storage_config s))%nat -> exists s',
  rotate s = (Ok tt, s') /\ steady s' /\ current_size s' = 0 /\
  files (disk s') !! current_log_path = Some [] /\
  files (disk s') !! get_rotated_log_path 1 = Some current /\
  (forall i c, (1 <= i < max_files (storage_config s))%nat ->
     files (disk s) !! get_rotated_log_path i = Some c ->
     files (disk s') !! get_rotated_log_path (S i) = Some c) /\
  (forall path, path <> current_log_path -> (forall j, path <> get_rotated_log_path j) ->
     files (disk s') !! path = files (disk s) !! path).
Proof.
  destruct s as [config [fs0 faults] o b size]. intros (Ho & Hb & Hf) Hcur Hmax. simpl in *. subst.
  unfold rotate. do 4 erewrite bind_Ok by reflexivity. cbn [storage_config disk buffered current_size].
  set (s1 := MkAuditStorage config (MkDisk fs0 []) false [] size).
  destruct (rotate_files_steady (Nat.pred (max_files config)) s1 eq_refl) as (fs & Hr & Hm & Hk).
  rewrite (bind_Ok _ _ _ _ _ Hr). unfold fs_exists, bind at 1. cbn [disk files with_disk].
  assert (fs !! current_log_path = Some current) as Hc.
  { rewrite Hk; [done|]. intros j _. by symmetry. }
  rewrite bool_decide_true by eauto.
  set (fs2 := <[get_rotated_log_path 1 := current]> (delete current_log_path fs)).
  erewrite bind_Ok by (eapply (io_steady _ _ tt fs2); [done|simpl; by rewrite Hc]).
  assert (fs2 !! current_log_path = None) as Hnone.
  { unfold fs2. rewrite lookup_insert_ne by done. apply lookup_delete_eq. }
  eexists. split.
  { unfold open_current_file, fs_open_append, io, bind, set_size, set_buffered, set_open, modify.
    simpl. rewrite Hnone. simpl. reflexivity. }
  simpl. split_and!; try done.
  - apply lookup_insert_eq.
  - rewrite lookup_insert_ne by done. apply lookup_insert_eq.
  - intros i c Hi Hic. rewrite lookup_insert_ne by done. unfold fs2.
    rewrite lookup_insert_ne by (intros E%rotated_path_inj; lia).
    rewrite lookup_delete_ne by done. apply Hm; [lia|done].
  - intros path Hp1 Hp2. rewrite lookup_insert_ne by done. unfold fs2.
    rewrite lookup_insert_ne, lookup_delete_ne by done. by apply Hk.
Qed.


Lemma rotate_keeps_files (s : AuditStorage) (current : list bytes) :
  steady s -> files (disk s) !! current_log_path = Some current ->
  (1 <= max_files (storage_config s))%nat -> exists s',
  rotate s = (Ok tt, s') /\ steady s' /\ files (disk s') !! current_log_path = Some [] /\
  files (disk s') !! checkpoint_path = files (disk s) !! checkpoint_path.
Proof.
  intros Hs Hc Hm. destruct (rotate_steady s current Hs Hc Hm) as (s' & Hr & Hs' & _ & Hcur & _ & _ & Ho).
  exists s'. split_and!; try done. by apply Ho.
Qed.

(** Rotating a log with nothing left in its buffer loses nothing but the
    oldest file: the current file becomes number 1, every kept file moves up
    by one, and writing continues in an empty current file. *)
Theorem rotation_keeps (s : AuditStorage) (current : list bytes) :
  steady s -> files (disk s) !! current_log_path = Some current ->
  (1 <= max_files (storage_config s))%nat -> exists s',
  rotate s = (Ok tt, s') /\ steady s' /\ current_size s' = 0 /\
  files (disk s') !! current_log_path = Some [] /\
  files (disk s') !! get_rotated_log_path 1 = Some current /\
  (forall i c, (1 <= i < max_files (storage_config s))%nat ->
     files (disk s) !! get_rotated_log_path i = Some c ->
     files (disk s') !! get_rotated_log_path (S i) = Some c).
Proof.
  intros Hs Hc Hm. destruct (rotate_steady s current Hs Hc Hm)
    as (s' & Hr & Hs' & Hz & Hcur & H1 & Hk & _). by exists s'.
Qed.

(** The process dies: what the writer still held is lost. *)
Definition storage_crash (s : AuditStorage) : Disk := disk s.
End storage.
