(* ===== verification/AuditLogger.v ===== *)
(** * The audit logger

    [crates/audit/src/logger.rs]: hash chain, Merkle tree and storage behind
    one mutex, so a call of [log] is one step; [now] is its clock reading.
    Starting a logger rebuilds chain and tree from the current log file and
    compares the result with the last checkpoint. *)

From Stdlib Require Import ZArith Lia Strings.Byte.
From stdpp Require Import base gmap strings list.
From S2P Require Import Prelude External AuditEvent HashChain MerkleTree AuditStorage.

Inductive AuditError :=
| AHashChain (e : HashChainError)
| AStorage (e : StorageError)
| AEventBuild (reason : string)
| ADisabled
| ACheckpoint (e : CheckpointError).

Record AuditConfig := MkAuditConfig {
  storage_cfg : StorageConfig;
  enabled : bool;
  rebuild_merkle_on_start : bool;
  checkpoint_key : option bytes
}.
Definition AuditConfig_default : AuditConfig := MkAuditConfig StorageConfig_default true true None.

Record AuditLogger (Value : Type) := MkAuditLogger {
  config : AuditConfig;
  hash_chain : HashChain Value;
  merkle_tree : MerkleTree;
  storage : AuditStorage
}.
Arguments MkAuditLogger {Value}.
Arguments config {Value}.
Arguments hash_chain {Value}.
Arguments merkle_tree {Value}.
Arguments storage {Value}.

Section logger.
Context {Value : Type} {HEX : Hex} {SHA : Sha256} {CHRONO : Chrono} {HMAC : Hmac}.
Context {ST : Serde EventType} {SR : Serde OperationResult} {SVal : SerdeCodec Value}.
Context {SEv : SerdeCodec (AuditEvent Value)} {SCp : Serde Checkpoint}.
Abbreviation AuditEvent := (AuditEvent Value).
Abbreviation AuditLogger := (AuditLogger Value).

(** Run an operation of a part on the whole. *)
Definition on_storage {A} (c : M AuditStorage StorageError A) : M AuditLogger AuditError A := fun l =>
  let '(r, s) := c (storage l) in
  (rmap_err AStorage r, MkAuditLogger (config l) (hash_chain l) (merkle_tree l) s).
Definition on_chain {A} (c : M (HashChain Value) HashChainError A) : M AuditLogger AuditError A :=
  fun l =>
  let '(r, c') := c (hash_chain l) in
  (rmap_err AHashChain r, MkAuditLogger (config l) c' (merkle_tree l) (storage l)).
Definition tree_update (hash : string) : M AuditLogger AuditError unit :=
  modify (fun l =>
    MkAuditLogger (config l) (hash_chain l) (MerkleTree.update hash (merkle_tree l)) (storage l)).
Definition get {A} (f : AuditLogger -> A) : M AuditLogger AuditError A := fun l => (Ok (f l), l).

(** [get_root().ok()] *)
Definition root_opt (t : MerkleTree) : option string :=
  match get_root t with Ok r => Some r | Err _ => None end.

Fixpoint rebuild_events (events : list AuditEvent) : M AuditLogger AuditError unit :=
  match events with
  | [] => ret tt
  | event :: rest =>
      let! _ := on_chain (append event) in
      tree_update (current_hash event) ;!
      rebuild_events rest
  end.

Definition rebuild_from_storage : M AuditLogger AuditError unit :=
  let! events := on_storage read_current_events in
  rebuild_events events ;!
  let! checkpoint := on_storage read_checkpoint in
  match checkpoint with
  | Some checkpoint =>
      let! live_seq := get (fun l => current_sequence (hash_chain l)) in
      let! live_root := get (fun l => root_opt (merkle_tree l)) in
      let! key := get (fun l => checkpoint_key (config l)) in
      lift (rmap_err ACheckpoint (verify_against_live checkpoint live_seq live_root key))
  | None => ret tt
  end.

Definition logger_start (cfg : AuditConfig) (d : Disk) : AuditLogger :=
  MkAuditLogger cfg HashChain.new MerkleTree.new (storage_start (storage_cfg cfg) d).
(** [AuditLogger::new] on a directory. *)
Definition logger_new : M AuditLogger AuditError unit :=
  on_storage storage_new ;!
  let! rebuild := get (fun l => rebuild_merkle_on_start (config l)) in
  if rebuild : bool then rebuild_from_storage else ret tt.

Definition log (now : Z) (b : AuditEventBuilder Value) : M AuditLogger AuditError Z :=
  let! is_enabled := get (fun l => enabled (config l)) in
  if negb is_enabled then throw ADisabled
  else
    let! sequence := get (fun l => wrap 64 (current_sequence (hash_chain l) + 1)) in
    let! prev := get (fun l => last_hash (hash_chain l)) in
    let! event :=
      lift (rmap_err AEventBuild
        (build now (b_set_timestamp now (b_set_prev_hash prev (b_set_sequence sequence b))))) in
    on_storage (write_event event) ;!
    let! hash := on_chain (append event) in
    tree_update hash ;!
    let! merkle_root := get (fun l => root_opt (merkle_tree l)) in
    let! key := get (fun l => checkpoint_key (config l)) in
    match merkle_root with
    | Some root => on_storage (write_checkpoint (Checkpoint_new sequence root key))
    | None => ret tt
    end ;!
    ret sequence.

Definition with_key_id (key_id : option string) (b : AuditEventBuilder Value)
  : AuditEventBuilder Value :=
  match key_id with Some kid => b_set_key_id kid b | None => b end.
Definition log_success (now : Z) (event_type : EventType) (operation namespace client_id : string)
    (key_id : option string) : M AuditLogger AuditError Z :=
  log now (with_key_id key_id (b_success (b_set_client_id client_id
    (b_set_namespace namespace (b_set_operation operation (b_set_event_type event_type builder)))))).
Definition log_failure (now : Z) (event_type : EventType) (operation namespace client_id : string)
    (key_id : option string) (reason : string) : M AuditLogger AuditError Z :=
  log now (with_key_id key_id (b_failure reason (b_set_client_id client_id
    (b_set_namespace namespace (b_set_operation operation (b_set_event_type event_type builder)))))).

Definition verify_integrity : M AuditLogger AuditError unit := fun l =>
  (rmap_err AHashChain (verify_all (hash_chain l)), l).
Definition logger_verify_range (from to : Z) : M AuditLogger AuditError unit := fun l =>
  (rmap_err AHashChain (HashChain.verify from to (hash_chain l)), l).
Definition get_merkle_root : M AuditLogger AuditError string := fun l =>
  (rmap_err (fun _ => AEventBuild "Merkle tree is empty") (get_root (merkle_tree l)), l).
Definition logger_get_event (sequence : Z) : M AuditLogger AuditError AuditEvent := fun l =>
  (rmap_err AHashChain (HashChain.get_event sequence (hash_chain l)), l).
Definition logger_flush : M AuditLogger AuditError unit := on_storage flush.
Definition logger_rotate : M AuditLogger AuditError unit := on_storage force_rotation.

(** ** Chain and tree stay in step *)

Definition tree_of (l : list AuditEvent) : MerkleTree := from_hashes (current_hash <$> l).

Definition logger_inv (l : AuditLogger) : Prop :=
  chain_inv (hash_chain l) /\ merkle_tree l = tree_of (events (hash_chain l)).

Lemma tree_of_snoc l e : MerkleTree.update (current_hash e) (tree_of l) = tree_of (l ++ [e]).
Proof. unfold tree_of. by rewrite fmap_app, <- from_hashes_snoc. Qed.

Lemma root_opt_of l : l <> [] -> exists r, root_opt (tree_of l) = Some r /\ get_root (tree_of l) = Ok r.
Proof.
  intros Hne. destruct (tree_wf_root _ (from_hashes_wf (current_hash <$> l))) as (r & Hr & _).
  - rewrite from_hashes_leaves. by destruct l.
  - exists r. unfold root_opt, tree_of. by rewrite Hr.
Qed.

(** The event [log] builds is linked to the chain and carries its hash. *)
Lemma built_linked now (b : AuditEventBuilder Value) (c : HashChain Value) e :
  build now (b_set_timestamp now (b_set_prev_hash (last_hash c)
    (b_set_sequence (wrap 64 (current_sequence c + 1)) b))) = Ok e ->
  append e c = (Ok (current_hash e),
                MkHashChain (events c ++ [e]) (current_hash e) (wrap 64 (current_sequence c + 1))).
Proof.
  intros Hb. pose proof (build_verifies _ _ _ Hb) as Hv.
  apply build_fields in Hb as (Hs & Hp & _). simpl in Hs, Hp. injection Hs as Hs.
  rewrite append_linked; [by rewrite Hs|done..].
Qed.

(** What a call of [log] does, on every path. *)
Lemma log_cases now b (l : AuditLogger) r l' :
  logger_inv l -> log now b l = (r, l') ->
  (hash_chain l' = hash_chain l /\ merkle_tree l' = merkle_tree l /\ is_ok r = false) \/
  (exists e s1 c', write_event e (storage l) = (Ok tt, s1) /\
     append e (hash_chain l) = (Ok (current_hash e), c') /\ hash_chain l' = c' /\
     merkle_tree l' = MerkleTree.update (current_hash e) (merkle_tree l) /\
     events c' = events (hash_chain l) ++ [e] /\
     sequence e = wrap 64 (current_sequence (hash_chain l) + 1) /\
     ((r = Ok (sequence e) /\ config l' = config l /\ exists root,
         root_opt (merkle_tree l') = Some root /\
         write_checkpoint (Checkpoint_new (sequence e) root (checkpoint_key (config l))) s1 =
           (Ok tt, storage l')) \/
      exists err, r = Err (AStorage err))).
Proof.
  intros Hinv. unfold log. unfold get at 1, bind at 1.
  destruct (enabled (config l)); simpl; [|intros [= <- <-]; by left].
  unfold get at 1 2, bind at 1 2, lift at 1.
  destruct (build now _) as [e|e] eqn:Hb; simpl; unfold bind at 1; simpl; [|intros [= <- <-]; by left].
  pose proof (built_linked _ _ _ _ Hb) as Ha.
  apply build_fields in Hb as (Hs & _). simpl in Hs. injection Hs as Hs.
  unfold on_storage at 1, bind at 1. destruct (write_event e (storage l)) as [[[]|err] s1] eqn:Hw;
    simpl; [|intros [= <- <-]; by left].
  unfold on_chain, bind at 1. simpl. rewrite Ha. simpl.
  unfold tree_update, modify, bind at 1, get at 1 2, bind at 1 2. simpl. intros E. right.
  exists e, s1. eexists. split; [done|]. split; [done|].
  destruct Hinv as [_ Htree]. rewrite Htree, tree_of_snoc in E |- *.
  destruct (root_opt_of (events (hash_chain l) ++ [e])) as (root & Hr & _); [by destruct (events _)|].
  rewrite Hr in E. unfold on_storage, bind in E. simpl in E.
  destruct (write_checkpoint _ s1) as [[[]|err] s2] eqn:Ew; simpl in E; injection E as <- <-; simpl;
    rewrite ?Hs; split_and!; try done; [left|right; by eexists].
  split_and!; try done. by exists root.
Qed.

Lemma log_inv now b (l : AuditLogger) r l' : logger_inv l -> log now b l = (r, l') -> logger_inv l'.
Proof.
  intros Hinv E. destruct (log_cases _ _ _ _ _ Hinv E)
    as [(Hc & Ht & _)|(e & s1 & c' & _ & Ha & Hc & Ht & He & _)].
  - unfold logger_inv. by rewrite Hc, Ht.
  - destruct Hinv as [Hinv Htree]. split.
    + rewrite Hc. pose proof (append_inv e (hash_chain l) Hinv) as H. by rewrite Ha in H.
    + by rewrite Ht, Hc, He, Htree, tree_of_snoc.
Qed.

(** [log] advances the hash chain and the Merkle tree by exactly one event,
    which is the one the storage reported as written, or leaves both
    untouched and reports an error; when it succeeds it returns the number of
    that event.  Chain and tree always describe the same events, and the
    chain always verifies. *)
Theorem log_durable_first (now : Z) (b : AuditEventBuilder Value) (l l' : AuditLogger)
    (r : result Z AuditError) :
  logger_inv l -> log now b l = (r, l') ->
  logger_inv l' /\ verify_all (hash_chain l') = Ok tt /\
  ((events (hash_chain l') = events (hash_chain l) /\ merkle_tree l' = merkle_tree l /\ is_ok r = false) \/
   (exists e s1, write_event e (storage l) = (Ok tt, s1) /\
      events (hash_chain l') = events (hash_chain l) ++ [e] /\
      (forall n, r = Ok n -> n = sequence e /\ n = wrap 64 (current_sequence (hash_chain l) + 1)))).
Proof.
  intros Hinv E. pose proof (log_inv _ _ _ _ _ Hinv E) as Hinv'. split; [done|].
  split; [rewrite verify_all_loop; apply Hinv'|].
  destruct (log_cases _ _ _ _ _ Hinv E) as [(Hc & Ht & Hr)|(e & s1 & c' & Hw & _ & Hc & _ & He & Hs & Hr)].
  - left. by rewrite Hc.
  - right. exists e, s1. rewrite Hc. split_and!; [done..|]. intros n ->.
    destruct Hr as [[[= ->] _]|[? ?]]; [|done]. by rewrite Hs.
Qed.
End logger.
