(* ===== verification/AuditRecovery.v ===== *)
(** * Restarting the audit logger

    What [AuditLogger::new] makes of the files an earlier logger left behind
    ([crates/audit/src/logger.rs], [storage.rs]): the same chain and tree
    after an ordinary run; the same acceptance of a log whose events were
    rewritten on disk; and a refusal after a rotation or after a failed
    flush. *)

From Stdlib Require Import ZArith Lia Strings.Byte.
From stdpp Require Import base gmap strings list.
From S2P Require Import Prelude External AuditEvent HashChain MerkleTree AuditStorage AuditLogger.

Section recovery.
Context {Value : Type} {HEX : Hex} {SHA : Sha256} {CHRONO : Chrono} {HMAC : Hmac}.
Context {ST : Serde EventType} {SR : Serde OperationResult} {SVal : SerdeCodec Value}.
Context {SEv : SerdeCodec (AuditEvent Value)} {SCp : Serde Checkpoint}.
Context {JEv : JsonText (AuditEvent Value)} {JCp : JsonText Checkpoint}.
Abbreviation AuditEvent := (AuditEvent Value).
Abbreviation AuditLogger := (AuditLogger Value).

(** ** Rebuilding from events *)

(** Numbered like the continuation of a chain of [n] events. *)
Definition continues (n : Z) (evs : list AuditEvent) : Prop :=
  forall i e, evs !! i = Some e -> sequence e = wrap 64 (n + Z.of_nat i + 1).

Lemma continues_cons n e evs :
  continues n (e :: evs) <-> sequence e = wrap 64 (n + 1) /\ continues (n + 1) evs.
Proof.
  split.
  - intros H. split; [rewrite (H 0%nat e) by done; f_equal; lia|].
    intros i x Hx. rewrite (H (S i) x) by done. f_equal. lia.
  - intros [He H] [|i] x Hx; simpl in Hx; simplify_eq; [rewrite He; f_equal; lia|].
    rewrite (H i x Hx). f_equal. lia.
Qed.

Lemma continues_wrap n evs : continues (wrap 64 n) evs <-> continues n evs.
Proof.
  assert (forall i, wrap 64 (wrap 64 n + i + 1) = wrap 64 (n + i + 1)) as Hw.
  { intros i. unfold wrap. by rewrite <- !Z.add_assoc, Zplus_mod_idemp_l. }
  unfold continues. split; intros H i e He; rewrite (H i e He); [|symmetry]; apply Hw.
Qed.

(** Only the numbers decide whether the events are taken back. *)
Lemma rebuild_events_ok (evs : list AuditEvent) (l : AuditLogger) n :
  chain_sequence (hash_chain l) = wrap 64 n -> continues n evs ->
  rebuild_events evs l =
    (Ok tt, MkAuditLogger (config l) (appends evs (hash_chain l))
              (foldl (fun t e => MerkleTree.update (current_hash e) t) (merkle_tree l) evs) (storage l)) /\
  chain_sequence (appends evs (hash_chain l)) = wrap 64 (n + Z.of_nat (length evs)).
Proof.
  revert l n. induction evs as [|e evs IH]; intros l n Hn Hc.
  { simpl. rewrite Z.add_0_r. by destruct l. }
  apply continues_cons in Hc as [He Hc]. cbn [rebuild_events]. unfold on_chain, bind at 1.
  assert (exists h c1, append e (hash_chain l) = (Ok h, c1) /\ chain_sequence c1 = wrap 64 (n + 1))
    as (h & c1 & Ha & Hc1).
  { unfold append. rewrite Hn, wrap_succ, He, Z.eqb_refl. by eexists _, _. }
  rewrite Ha. simpl. unfold tree_update, modify, bind at 1. simpl.
  destruct (IH (MkAuditLogger (config l) c1 (MerkleTree.update (current_hash e) (merkle_tree l)) (storage l))
    (n + 1) Hc1 Hc) as [-> Hs]. simpl in *. rewrite Ha. simpl. split; [done|]. rewrite Hs. f_equal. lia.
Qed.

Lemma tree_of_updates (evs : list AuditEvent) :
  foldl (fun t e => MerkleTree.update (current_hash e) t) MerkleTree.new evs = tree_of evs.
Proof.
  induction evs as [|e evs IH] using rev_ind; [done|]. by rewrite foldl_snoc, IH, tree_of_snoc.
Qed.

(** ** Opening a directory *)

Definition checkpoint_file (cp : option Checkpoint) (fs : gmap string (list bytes)) : Prop :=
  match cp with
  | None => fs !! checkpoint_path = None
  | Some cp => exists json, to_vec cp = Ok json /\ fs !! checkpoint_path = Some [json]
  end.

Definition live_check (cp : option Checkpoint) (evs : list AuditEvent) (key : option bytes)
  : result unit AuditError :=
  match cp with
  | None => Ok tt
  | Some cp =>
      rmap_err ACheckpoint
        (verify_against_live cp (wrap 64 (Z.of_nat (length evs))) (root_opt (tree_of evs)) key)
  end.

Lemma storage_new_steady cfg fs lines :
  fs !! current_log_path = Some lines -> exists s,
  storage_new (storage_start cfg (MkDisk fs [])) = (Ok tt, s) /\
  steady s /\ disk s = MkDisk fs [] /\ storage_config s = cfg.
Proof.
  intros Hl. unfold storage_new, open_current_file, fs_open_append, io, bind. simpl. rewrite Hl. simpl.
  eexists. split; [done|]. simpl. by rewrite insert_id.
Qed.

Lemma fs_read_steady path s content :
  io_faults (disk s) = [] -> files (disk s) !! path = Some content -> fs_read path s = (Ok content, s).
Proof.
  intros Hf Hc. unfold fs_read. rewrite (io_steady _ _ content (files (disk s)) Hf) by by rewrite Hc.
  destruct s as [? [? ?] ? ? ?]. simpl in *. by subst.
Qed.

Lemma read_checkpoint_steady s cp :
  io_faults (disk s) = [] -> checkpoint_file cp (files (disk s)) -> read_checkpoint s = (Ok cp, s).
Proof.
  intros Hf Hcp. unfold read_checkpoint, fs_exists, bind at 1. destruct cp as [cp|]; simpl in Hcp.
  - destruct Hcp as (json & Hj & Hl). rewrite bool_decide_true by eauto. simpl.
    rewrite (bind_Ok _ _ _ _ _ (fs_read_steady _ _ _ Hf Hl)). simpl.
    destruct (to_vec_text _ _ Hj) as [-> ->]. simpl. unfold bind, lift.
    by rewrite (from_slice_to_vec _ _ Hj).
  - rewrite bool_decide_false by (rewrite Hcp; by intros [? ?]). done.
Qed.

Lemma on_storage_Ok {A} (c : M AuditStorage StorageError A) (l : AuditLogger) a s :
  c (storage l) = (Ok a, s) ->
  on_storage c l = (Ok a, MkAuditLogger (config l) (hash_chain l) (merkle_tree l) s).
Proof. intros E. unfold on_storage. by rewrite E. Qed.

(** What starting on a directory without faults does. *)
Lemma reopen cfg fs lines (evs : list AuditEvent) cp :
  rebuild_merkle_on_start cfg = true ->
  fs !! current_log_path = Some lines -> parse_lines lines = Ok evs -> continues 0 evs ->
  checkpoint_file cp fs -> exists l,
  logger_new (logger_start cfg (MkDisk fs [])) = (live_check cp evs (checkpoint_key cfg), l) /\
  hash_chain l = appends evs HashChain.new /\ merkle_tree l = tree_of evs.
Proof.
  intros Hre Hl Hp Hc Hcp. unfold logger_new.
  destruct (storage_new_steady (storage_cfg cfg) fs lines Hl) as (s & Hnew & (Ho & Hb & Hf) & Hd & Hcfg).
  erewrite bind_Ok by (apply on_storage_Ok; exact Hnew).
  erewrite bind_Ok by reflexivity. cbn [config logger_start]. rewrite Hre.
  assert (files (disk s) = fs) as Hfs by by rewrite Hd. rewrite <- Hfs in Hl, Hcp.
  unfold rebuild_from_storage.
  erewrite bind_Ok by (apply on_storage_Ok; unfold read_current_events, read_events;
    rewrite (bind_Ok _ _ _ _ _ (fs_read_steady _ _ _ Hf Hl)); unfold lift; by rewrite Hp).
  cbn [hash_chain merkle_tree logger_start].
  destruct (rebuild_events_ok evs (MkAuditLogger cfg HashChain.new MerkleTree.new s) 0 eq_refl Hc)
    as [Hr Hs]. rewrite (bind_Ok _ _ _ _ _ Hr). cbn [config hash_chain merkle_tree storage] in *.
  erewrite bind_Ok by (apply on_storage_Ok; exact (read_checkpoint_steady s cp Hf Hcp)).
  rewrite tree_of_updates. unfold live_check, current_sequence. destruct cp as [cp|].
  - do 3 erewrite bind_Ok by reflexivity. cbn [config hash_chain merkle_tree].
    unfold current_sequence. rewrite Hs, Z.add_0_l. by eexists.
  - by eexists.
Qed.

(** ** Loggers on a disk without faults *)

Definition last_checkpoint (l : AuditLogger) : option Checkpoint :=
  match root_opt (merkle_tree l) with
  | Some root => Some (Checkpoint_new (chain_sequence (hash_chain l)) root (checkpoint_key (config l)))
  | None => None
  end.

(** The files hold the events of the chain and the checkpoint of the last. *)
Definition healthy (l : AuditLogger) : Prop :=
  logger_inv l /\ steady (storage l) /\ sync_writes (storage_config (storage l)) = true /\
  (exists lines, files (disk (storage l)) !! current_log_path = Some lines /\
     Forall2 (fun e line => to_vec e = Ok line) (events (hash_chain l)) lines) /\
  checkpoint_file (last_checkpoint l) (files (disk (storage l))).

(** An empty directory. *)
Lemma new_healthy cfg :
  rebuild_merkle_on_start cfg = true -> sync_writes (storage_cfg cfg) = true -> exists l,
  logger_new (logger_start cfg (MkDisk ∅ [])) = (Ok tt, l) /\ healthy l /\ config l = cfg /\
  storage_config (storage l) = storage_cfg cfg /\ events (hash_chain l) = [].
Proof.
  intros Hre Hsync. unfold logger_new.
  set (s := MkAuditStorage (storage_cfg cfg) (MkDisk {[current_log_path := []]} []) true [] 0).
  assert (storage_new (storage_start (storage_cfg cfg) (MkDisk ∅ [])) = (Ok tt, s)) as Hnew.
  { done. }
  erewrite bind_Ok by (apply on_storage_Ok; exact Hnew).
  erewrite bind_Ok by reflexivity. cbn [config logger_start]. rewrite Hre.
  eexists. split; [reflexivity|]. split; [|done]. unfold healthy. split_and!; try done.
  exists []. by split.
Qed.

Lemma write_checkpoint_steady cp s :
  steady s -> exists json s', to_vec cp = Ok json /\ write_checkpoint cp s = (Ok tt, s') /\
  steady s' /\ storage_config s' = storage_config s /\ current_size s' = current_size s /\
  files (disk s') !! checkpoint_path = Some [json] /\
  files (disk s') !! current_log_path = files (disk s) !! current_log_path.
Proof.
  intros (Ho & Hb & Hf). destruct (to_vec_total cp) as [json Hj]. exists json.
  unfold write_checkpoint, fs_write, fs_rename. erewrite bind_Ok by (unfold lift; by rewrite Hj).
  erewrite bind_Ok by by apply io_steady. erewrite io_steady; [|done|].
  2:{ simpl. rewrite lookup_insert_eq. reflexivity. }
  eexists. split; [done|]. split; [reflexivity|]. simpl. split_and!; try done.
  - apply lookup_insert_eq.
  - rewrite lookup_insert_ne by done. by rewrite lookup_delete_ne, lookup_insert_ne.
Qed.

(** A successful call below the rotation size. *)
Lemma log_healthy now b l n l' :
  healthy l -> current_size (storage l) < max_file_size (storage_config (storage l)) ->
  log now b l = (Ok n, l') ->
  healthy l' /\ config l' = config l /\ storage_config (storage l') = storage_config (storage l).
Proof.
  intros (Hinv & Hst & Hsync & (lines & Hl & Hlines) & _) Hsize E.
  pose proof (log_inv _ _ _ _ _ Hinv E) as Hinv'.
  destruct (log_cases _ _ _ _ _ Hinv E) as [(_ & _ & ?)|
    (e & s1 & c' & Hw & Ha & Hc & Ht & He & Hseq & [(_ & Hcfg & root & Hr & Hcp)|(err & ?)])]; [done| |done].
  destruct (to_vec_total e) as [json Hj].
  destruct (write_event_steady e (storage l) json Hst Hsync Hsize Hj)
    as (s1' & Hw' & Hst1 & Hcfg1 & _ & Hfiles). rewrite Hw in Hw'. injection Hw' as <-.
  destruct (write_checkpoint_steady
    (Checkpoint_new (sequence e) root (checkpoint_key (config l))) s1 Hst1)
    as (cj & s2 & Hcj & Hcp' & Hst2 & Hcfg2 & _ & Hcf & Hcur).
  rewrite Hcp in Hcp'. injection Hcp' as <-. split; [|by rewrite Hcfg2, Hcfg1].
  unfold healthy. split_and!; try done.
  - by rewrite Hcfg2, Hcfg1.
  - exists (lines ++ [json]). rewrite Hcur, Hfiles, lookup_insert_eq. unfold file. rewrite Hl. simpl.
    split; [done|]. rewrite Hc, He. apply Forall2_app; [done|]. by constructor.
  - unfold last_checkpoint. rewrite Hr, Hcfg. exists cj. split; [|done].
    assert (chain_sequence (hash_chain l') = sequence e) as ->; [|done].
    rewrite Hc, Hseq. rewrite (surjective_pairing (append e _)) in Ha.
    unfold append in Ha. rewrite Hseq in Ha. unfold current_sequence in Ha. rewrite Z.eqb_refl in Ha.
    simpl in Ha. by injection Ha as _ <-.
Qed.

(** Any number of successful calls, none of them reaching the rotation size. *)
Inductive logs : AuditLogger -> AuditLogger -> Prop :=
| logs_refl l : logs l l
| logs_step l1 l2 l3 now b n :
    logs l1 l2 -> current_size (storage l2) < max_file_size (storage_config (storage l2)) ->
    log now b l2 = (Ok n, l3) -> logs l1 l3.

Lemma logs_healthy l1 l2 :
  logs l1 l2 -> healthy l1 ->
  healthy l2 /\ config l2 = config l1 /\ storage_config (storage l2) = storage_config (storage l1).
Proof.
  induction 1 as [|l1 l2 l3 now b n _ IH Hsize E]; intros Hl; [done|].
  destruct (IH Hl) as (H2 & Hc & Hs). destruct (log_healthy _ _ _ _ _ H2 Hsize E) as (H3 & Hc' & Hs').
  by rewrite Hc', Hs'.
Qed.

Lemma events_continue (c : HashChain Value) : chain_inv c -> continues 0 (events c).
Proof. intros (_ & _ & _ & Hseq & _) i e He. by rewrite (Hseq i e He). Qed.

Lemma written_lines (evs : list AuditEvent) lines :
  Forall2 (fun e line => to_vec e = Ok line) evs lines -> Forall reads_back evs -> parse_lines lines = Ok evs.
Proof.
  intros H. apply parse_lines_written. eapply Forall2_impl; [exact H|]. intros e line Hj.
  destruct (to_vec_text _ _ Hj). done.
Qed.

Lemma live_check_healthy (l : AuditLogger) :
  logger_inv l ->
  live_check (last_checkpoint l) (events (hash_chain l)) (checkpoint_key (config l)) = Ok tt.
Proof.
  intros [(_ & _ & Hs & _) Ht]. unfold live_check, last_checkpoint. rewrite Ht.
  destruct (root_opt _) as [root|] eqn:Er; [|done].
  rewrite Hs. unfold len. by rewrite verify_same_live.
Qed.

(** ** The theorems *)

(** C22: a restart recovers the log.  The logger is configured to write
    synchronously and to rebuild its state at the start; after any number of
    successful calls of [log] on an empty directory, without a disk fault and
    before the first rotation, starting a new logger on the files succeeds and
    gives the same hash chain, with the same events and tip, and the same
    Merkle tree, provided each logged event reads back from its JSON line as
    itself. *)
Theorem restart_recovers (cfg : AuditConfig) (l0 l : AuditLogger) :
  rebuild_merkle_on_start cfg = true -> sync_writes (storage_cfg cfg) = true ->
  logger_new (logger_start cfg (MkDisk ∅ [])) = (Ok tt, l0) -> logs l0 l ->
  Forall reads_back (events (hash_chain l)) -> exists l2,
  logger_new (logger_start cfg (storage_crash (storage l))) = (Ok tt, l2) /\
  hash_chain l2 = hash_chain l /\ merkle_tree l2 = merkle_tree l.
Proof.
  intros Hre Hsync Hnew Hlogs Hback. destruct (new_healthy cfg Hre Hsync) as (x & Hx & Hh & Hc & _).
  rewrite Hnew in Hx. injection Hx as <-.
  destruct (logs_healthy _ _ Hlogs Hh) as ((Hinv & (_ & _ & Hf) & _ & (lines & Hl & Hlines) & Hcp) & Hcfg & _).
  rewrite Hc in Hcfg. assert (Hinv' := Hinv). destruct Hinv as [Hchain Htree].
  destruct (reopen cfg (files (disk (storage l))) lines (events (hash_chain l)) (last_checkpoint l))
    as (l2 & Hnew2 & Hc2 & Ht2); [done..|by apply written_lines|by apply events_continue|done|].
  exists l2. rewrite <- Hcfg, live_check_healthy in Hnew2 by done.
  split; [|by rewrite Hc2, Ht2, appends_events, Htree].
  unfold storage_crash. rewrite <- Hcfg. destruct (disk (storage l)) as [fs faults]. simpl in *. by subst.
Qed.

(** Events rewritten on disk: everything but number and stored hash. *)
Definition rewritten (evs evs' : list AuditEvent) : Prop :=
  Forall2 (fun e e' => sequence e' = sequence e /\ current_hash e' = current_hash e) evs evs'.

(** What an event says. *)
Definition content (e : AuditEvent) :=
  (timestamp e, event_type e, operation e, namespace e, client_id e, key_id e, result_of e, metadata e).

Lemma appends_content evs c n :
  chain_sequence c = wrap 64 n -> continues n evs ->
  content <$> events (appends evs c) = (content <$> events c) ++ (content <$> evs).
Proof.
  revert c n. induction evs as [|e evs IH]; intros c n Hn Hc; [by rewrite app_nil_r|].
  apply continues_cons in Hc as [He Hc]. change (appends (e :: evs) c) with (appends evs (append e c).2).
  unfold append. rewrite Hn, wrap_succ, He, Z.eqb_refl. cbn [negb snd].
  rewrite (IH _ (n + 1)) by done. cbn [events]. by rewrite fmap_app, <- app_assoc.
Qed.

Lemma rewritten_facts evs evs' :
  rewritten evs evs' ->
  length evs' = length evs /\ tree_of evs' = tree_of evs /\ (continues 0 evs -> continues 0 evs').
Proof.
  intros H. split_and!.
  - symmetry. by eapply Forall2_length.
  - unfold tree_of. f_equal. induction H as [|e e' l l' [_ Hh] _ IH]; [done|]. simpl. by f_equal.
  - intros Hc i e' He'. destruct (Forall2_lookup_r _ _ _ _ _ H He') as (e & He & -> & _). by apply Hc.
Qed.

(** Starting a logger does not detect events rewritten on disk: whatever is
    changed in the events of a healthy log, as long as each keeps its number
    and its stored hash, the logger starts with the rewritten contents, its
    integrity check passes, and its Merkle root is the one of the original
    log, so that the checkpoint agrees too. *)
Theorem rewritten_log_accepted (l : AuditLogger) (evs' : list AuditEvent) (lines' : list bytes) :
  healthy l -> rebuild_merkle_on_start (config l) = true ->
  rewritten (events (hash_chain l)) evs' -> Forall2 (fun e line => to_vec e = Ok line) evs' lines' ->
  Forall reads_back evs' -> exists l2,
  logger_new (logger_start (config l)
    (MkDisk (<[current_log_path := lines']> (files (disk (storage l)))) [])) = (Ok tt, l2) /\
  (verify_integrity l2).1 = Ok tt /\ (get_merkle_root l2).1 = (get_merkle_root l).1 /\
  content <$> events (hash_chain l2) = content <$> evs'.
Proof.
  intros (Hinv & _ & _ & _ & Hcp) Hre Hrw Hlines Hback.
  destruct (rewritten_facts _ _ Hrw) as (Hlen & Htree & Hcont).
  assert (Hinv' := Hinv). destruct Hinv as [Hchain Ht]. specialize (Hcont (events_continue _ Hchain)).
  destruct (reopen (config l) (<[current_log_path := lines']> (files (disk (storage l)))) lines' evs'
    (last_checkpoint l)) as (l2 & Hnew & Hc2 & Ht2); [done|apply lookup_insert_eq|by apply written_lines|done|..].
  { unfold checkpoint_file in *. by destruct (last_checkpoint l); rewrite lookup_insert_ne. }
  exists l2. split_and!.
  - rewrite Hnew. f_equal. rewrite <- (live_check_healthy l Hinv'). unfold live_check.
    by rewrite Hlen, Htree.
  - unfold verify_integrity. rewrite verify_all_loop, Hc2. simpl.
    assert (chain_inv (appends evs' HashChain.new)) as [-> _] by apply appends_inv, new_inv. done.
  - unfold get_merkle_root. by rewrite Ht2, Htree, <- Ht.
  - rewrite Hc2. by rewrite (appends_content evs' HashChain.new 0).
Qed.

(** After a rotation the logger does not start again: the current file is
    empty while the checkpoint still names the last event, which is reported
    as a truncation of the log. *)
Theorem rotated_log_refused (l : AuditLogger) :
  healthy l -> rebuild_merkle_on_start (config l) = true -> events (hash_chain l) <> [] ->
  HashChain.len (hash_chain l) < 2 ^ 64 -> (1 <= max_files (storage_config (storage l)))%nat ->
  exists l1 l2,
  logger_rotate l = (Ok tt, l1) /\
  logger_new (logger_start (config l) (storage_crash (storage l1))) =
    (Err (ACheckpoint (TipBehindCheckpoint (HashChain.len (hash_chain l)) 0)), l2).
Proof.
  intros (Hinv & Hst & _ & (lines & Hl & _) & Hcp) Hre Hne Hlen Hmax.
  destruct (rotate_keeps_files (storage l) lines Hst Hl Hmax) as (s1 & Hrot & (_ & _ & Hf1) & Hcur & Hother).
  eexists (MkAuditLogger (config l) (hash_chain l) (merkle_tree l) s1).
  destruct (reopen (config l) (files (disk s1)) [] [] (last_checkpoint l)) as (l2 & Hnew & _);
    [done|done|done|done|..].
  { unfold checkpoint_file in *. destruct (last_checkpoint l); rewrite Hother; done. }
  exists l2. split; [unfold logger_rotate, on_storage, force_rotation; by rewrite Hrot|].
  unfold storage_crash. simpl. destruct (disk s1) as [fs faults]. simpl in *. subst faults. rewrite Hnew.
  f_equal. destruct Hinv as [(_ & _ & Hs & _) Ht]. unfold last_checkpoint. rewrite Ht.
  destruct (root_opt_of _ Hne) as (root & -> & _). simpl. rewrite Hs, wrap_small.
  - unfold live_check. rewrite verify_behind; [done|].
    apply (Z.le_lt_trans _ 0); [by vm_compute|].
    unfold HashChain.len. destruct (events (hash_chain l)); [done|simpl; lia].
  - unfold in_u, HashChain.len in *. lia.
Qed.
End recovery.
