(* ===== verification/AuditWitness.v ===== *)
(** * Runs of the audit log

    Concrete chains, trees and loggers on in-memory files, with toy hash
    functions: the witnesses of the audit theorems, and the run in which a
    failed flush spoils the log. *)

From Stdlib Require Import ZArith Lia Strings.Byte.
From stdpp Require Import base gmap strings list countable.
From S2P Require Import Prelude External AuditEvent HashChain MerkleTree AuditVerifier TamperDetection AuditStorage AuditLogger AuditRecovery.
Import Concrete.

(** ** Codecs *)

#[export] Instance EventType_eq_dec : EqDecision EventType.
Proof. solve_decision. Defined.
#[export] Instance EventType_countable : Countable EventType.
Proof.
  refine (inj_countable
    (fun t => match t with
      | KeyGeneration => 0 | KeyImport => 1 | KeyExport => 2 | KeyDeletion => 3 | KeyRotation => 4
      | Sign => 5 | Verify => 6 | Encrypt => 7 | Decrypt => 8
      | Authentication => 9 | Authorization => 10 | AccessDenied => 11
      | SystemStartup => 12 | SystemShutdown => 13 | ConfigChange => 14
      | AuditLogRotation => 15 | AuditVerification => 16 end%nat)
    (fun n => nth_error [KeyGeneration; KeyImport; KeyExport; KeyDeletion; KeyRotation; Sign; Verify;
      Encrypt; Decrypt; Authentication; Authorization; AccessDenied; SystemStartup; SystemShutdown;
      ConfigChange; AuditLogRotation; AuditVerification] n) _).
  by intros [].
Defined.

#[export] Instance OperationResult_eq_dec : EqDecision OperationResult.
Proof. solve_decision. Defined.
#[export] Instance OperationResult_countable : Countable OperationResult.
Proof.
  refine (inj_countable' (fun r => match r with Success => None | Failure s => Some s end)
    (fun o => match o with None => Success | Some s => Failure s end) _).
  by intros [].
Defined.

#[export] Instance AuditEvent_eq_dec : EqDecision (AuditEvent unit).
Proof. solve_decision. Defined.
#[export] Instance AuditEvent_countable : Countable (AuditEvent unit).
Proof.
  refine (inj_countable'
    (fun e => (timestamp e, sequence e, event_type e, operation e, namespace e, client_id e, key_id e,
               result_of e, prev_hash e, current_hash e, metadata e))
    (fun '(a, b, c, d, e, f, g, h, i, j, k) => MkAuditEvent a b c d e f g h i j k) _).
  by intros [].
Defined.

#[export] Instance Checkpoint_eq_dec : EqDecision Checkpoint.
Proof. solve_decision. Defined.
#[export] Instance Checkpoint_countable : Countable Checkpoint.
Proof.
  refine (inj_countable' (fun c => (cp_sequence c, HashChain.merkle_root c, integrity_tag c))
    (fun '(a, b, c) => MkCheckpoint a b c) _).
  by intros [].
Defined.

(** The bits of the code after an opening brace, as text. *)
Definition text_to {A} `{Countable A} (a : A) : result bytes string :=
  Ok (Byte.x7b :: positive_to_bytes (encode a)).
Definition text_from {A} `{Countable A} (bs : bytes) : result A string :=
  match bs with
  | Byte.x7b :: bs => ok_or "decode error"%string (bytes_to_positive bs ≫= decode)
  | _ => Err "decode error"%string
  end.
Lemma text_from_to {A} `{Countable A} (a : A) b : text_to a = Ok b -> text_from b = Ok a.
Proof. intros [= <-]. simpl. by rewrite bytes_positive; simpl; rewrite decode_encode. Qed.
Definition text_serde {A} `{Countable A} : Serde A :=
  {| serde_codec := {| to_vec := text_to; from_slice := text_from |}; from_slice_to_vec := text_from_to |}.

Lemma positive_utf8 p : utf8_valid (positive_to_bytes p) = true.
Proof. by induction p. Qed.

Lemma text_json {A} `{Countable A} : @JsonText A (@serde_codec A text_serde).
Proof.
  split; [by eexists|]. intros a b [= <-]. split; [apply positive_utf8|].
  by destruct (positive_to_bytes (encode a)) as [|b1 [|b2 l]].
Qed.

#[export] Instance serde_EventType : Serde EventType := text_serde.
#[export] Instance serde_OperationResult : Serde OperationResult := text_serde.
#[export] Instance serde_unit : Serde unit := text_serde.
#[export] Instance serde_AuditEvent : Serde (AuditEvent unit) := text_serde.
#[export] Instance serde_Checkpoint : Serde Checkpoint := text_serde.
#[export] Instance json_AuditEvent : JsonText (AuditEvent unit) := text_json.
#[export] Instance json_Checkpoint : JsonText Checkpoint := text_json.

(** ** Hash chains *)

Definition event (n : Z) (op : string) : AuditEvent unit :=
  MkAuditEvent (n * 1000000000) n Sign op "default" "client" None Success EmptyString EmptyString None.

(** The third event is refused for its number. *)
Definition offered : list (AuditEvent unit) := [event 1 "a"; event 2 "b"; event 7 "x"; event 3 "c"].
Definition chain : HashChain unit := appends offered HashChain.new.

Lemma chain_always_verifies_witness : HashChain.verify 2 3 chain = Ok tt /\ HashChain.len chain = 3.
Proof.
  split; [|by vm_compute].
  destruct (chain_always_verifies offered 2 3 ltac:(lia) ltac:(lia)) as [H _].
  unfold chain. rewrite H.
  vm_compute.
  reflexivity.
Defined.

Lemma chain_tamper_evident_witness :
  Forall2 (fun e1 e2 => preimage e1 = preimage e2) (events chain) (events chain) \/
  collision (preimage <$> events chain) (preimage <$> events chain).
Proof.
  apply (chain_tamper_evident chain chain); [by vm_compute..|done|].
  vm_compute. repeat constructor.
Defined.

(** ** Merkle trees *)

Definition hashes : list string := ["h1"; "h2"; "h3"; "h4"; "h5"].
Definition proof_of_h4 : MerkleProof :=
  match generate_proof (from_hashes hashes) "h4" with
  | Some (Ok p) => p
  | _ => MkMerkleProof EmptyString []
  end.

Lemma merkle_proof_complete_witness : exists p r,
  generate_proof (from_hashes hashes) "h4" = Some (Ok p) /\ get_root (from_hashes hashes) = Ok r /\
  MerkleTree.verify p r = true /\ length (elements p) = 3%nat.
Proof.
  destruct (proj1 (merkle_proof_complete hashes "h4") ltac:(set_solver))
    as (p & r & Hg & _ & Hr & Hv & _ & Hl).
  exists p, r. by rewrite Hl.
Defined.

Lemma merkle_proof_sound_witness :
  leaf_hash proof_of_h4 ∈ hashes \/ collision (proof_preimages proof_of_h4) (tree_preimages hashes).
Proof. apply (merkle_proof_sound hashes proof_of_h4). by vm_compute. Defined.

Lemma merkle_root_ambiguous_witness :
  get_root (from_hashes ["h1"; "h2"; "h3"]) = get_root (from_hashes ["h1"; "h2"; "h3"; "h3"]).
Proof. apply (merkle_root_ambiguous ["h1"; "h2"] "h3"); [by exists 1%nat|done]. Defined.

(** ** Verification and detection *)

Lemma offline_accepts_chain_witness : AuditVerifier.verify_range (events chain) 2 3 = Ok tt.
Proof.
  exact (proj1 (offline_accepts_chain offered 2 3 EmptyString
    ltac:(lia) ltac:(by vm_compute) ltac:(by vm_compute))).
Defined.

Lemma tamper_report_spec_witness : exists r b,
  TamperDetection.verify_integrity 0 (events chain) = Ok r /\ quick_verify (events chain) = Ok b.
Proof.
  destruct (tamper_report_spec 0 (events chain) ltac:(by vm_compute)) as (r & b & Hr & Hb & _).
  exists r, b. exact (conj Hr Hb).
Defined.

Lemma detector_on_chain_witness :
  quick_verify (events chain) = Ok true /\
  exists r, TamperDetection.verify_range 0 (events chain) 2 3 = Ok r /\ is_valid r = false.
Proof.
  destruct (detector_on_chain 0 offered ltac:(by vm_compute) ltac:(by vm_compute)) as (H1 & _ & H3).
  split; [exact H1|]. destruct (events chain !! 0%nat) as [before|] eqn:E; [|by vm_compute in E].
  refine (proj2 (H3 2 3 before ltac:(lia) ltac:(by vm_compute) E _)).
  vm_compute in E. injection E as <-. by vm_compute.
Defined.

(** ** The logger *)

Lemma Forall2_fmap_self {A B} (R : A -> B -> Prop) (f : A -> B) l :
  (forall x, R x (f x)) -> Forall2 R l (f <$> l).
Proof. intros H. induction l; constructor; auto. Qed.

Lemma fst_eq {A B} (p : A * B) a : p.1 = a -> p = (a, p.2).
Proof. by intros <-; destruct p. Qed.

Definition cfg : AuditConfig :=
  MkAuditConfig (MkStorageConfig 100000 3 true) true true (Some [Byte.x01]).
Definition request (op : string) : AuditEventBuilder unit :=
  b_success (b_set_client_id "client" (b_set_namespace "default"
    (b_set_operation op (b_set_event_type Sign builder)))).

Definition logger0 : AuditLogger unit := (logger_new (logger_start cfg (MkDisk ∅ []))).2.
Definition logger1 : AuditLogger unit := (log 1 (request "a") logger0).2.
Definition logger2 : AuditLogger unit := (log 2 (request "b") logger1).2.

Lemma logger0_new : logger_new (logger_start cfg (MkDisk ∅ [])) = (Ok tt, logger0).
Proof. unfold logger0. apply (fst_eq (logger_new _)). by vm_compute. Qed.
Lemma logger1_log : log 1 (request "a") logger0 = (Ok 1, logger1).
Proof. unfold logger1. apply (fst_eq (log _ _ _)). by vm_compute. Qed.
Lemma logger2_log : log 2 (request "b") logger1 = (Ok 2, logger2).
Proof. unfold logger2. apply (fst_eq (log _ _ _)). by vm_compute. Qed.

(** From here on evaluated by the virtual machine only. *)
#[local] Opaque logger0 logger1 logger2.

Lemma logger2_logs : logs logger0 logger2.
Proof.
  apply (logs_step _ logger1 _ 2 (request "b") 2); [|by vm_compute|exact logger2_log].
  apply (logs_step _ logger0 _ 1 (request "a") 1); [apply logs_refl|by vm_compute|exact logger1_log].
Qed.

Lemma logger2_healthy : healthy logger2 /\ config logger2 = cfg.
Proof.
  destruct (new_healthy (Value := unit) cfg eq_refl eq_refl) as (l & Hl & Hh & Hc & _).
  rewrite logger0_new in Hl. injection Hl as <-.
  destruct (logs_healthy _ _ logger2_logs Hh) as (Hh2 & Hc2 & _). split; [exact Hh2|]. by rewrite Hc2, Hc.
Qed.

Lemma log_durable_first_witness :
  logger_inv logger1 /\ verify_all (hash_chain logger1) = Ok tt.
Proof.
  destruct (log_durable_first 1 (request "a") logger0 logger1 (Ok 1)) as (H1 & H2 & _).
  - destruct (new_healthy (Value := unit) cfg eq_refl eq_refl) as (l & Hl & Hh & _).
    rewrite logger0_new in Hl. injection Hl as <-. apply Hh.
  - exact logger1_log.
  - exact (conj H1 H2).
Defined.

Lemma restart_recovers_witness : exists l,
  logger_new (logger_start cfg (storage_crash (storage logger2))) = (Ok tt, l) /\
  hash_chain l = hash_chain logger2 /\ merkle_tree l = merkle_tree logger2.
Proof.
  apply (restart_recovers cfg logger0 logger2 eq_refl eq_refl logger0_new logger2_logs).
  apply Forall_true. intros e. apply serde_reads_back.
Defined.

(** The client of both events is rewritten. *)
Definition reattribute (e : AuditEvent unit) : AuditEvent unit :=
  MkAuditEvent (timestamp e) (sequence e) (event_type e) (operation e) (namespace e) "someone else"
    (key_id e) (result_of e) (prev_hash e) (current_hash e) (metadata e).
Definition forged : list (AuditEvent unit) := reattribute <$> events (hash_chain logger2).
Definition line_of (e : AuditEvent unit) : bytes :=
  match to_vec e with Ok b => b | Err _ => [] end.

Lemma rewritten_log_accepted_witness : exists l,
  logger_new (logger_start (config logger2)
    (MkDisk (<[current_log_path := line_of <$> forged]> (files (disk (storage logger2)))) [])) =
    (Ok tt, l) /\
  content <$> events (hash_chain l) = content <$> forged.
Proof.
  destruct (rewritten_log_accepted logger2 forged (line_of <$> forged)) as (l & H1 & _ & _ & H4).
  - apply logger2_healthy.
  - by vm_compute.
  - apply Forall2_fmap_self. intros e. exact (conj eq_refl eq_refl).
  - apply Forall2_fmap_self. intros e. exact eq_refl.
  - apply Forall_true. intros e. apply serde_reads_back.
  - exists l. exact (conj H1 H4).
Defined.

Lemma rotated_log_refused_witness : exists l1 l2,
  logger_rotate logger2 = (Ok tt, l1) /\
  logger_new (logger_start (config logger2) (storage_crash (storage l1))) =
    (Err (ACheckpoint (TipBehindCheckpoint (HashChain.len (hash_chain logger2)) 0)), l2).
Proof.
  apply (rotated_log_refused logger2).
  - apply logger2_healthy.
  - by vm_compute.
  - by vm_compute.
  - by vm_compute.
  - vm_compute. lia.
Defined.

Lemma rotation_keeps_witness : exists s',
  rotate (storage logger2) = (Ok tt, s') /\
  files (disk s') !! get_rotated_log_path 1 = files (disk (storage logger2)) !! current_log_path.
Proof.
  destruct logger2_healthy as [(_ & Hs & _ & (lines & Hl & _) & _) _].
  destruct (rotation_keeps (storage logger2) lines Hs Hl) as (s' & Hr & _ & _ & _ & H1 & _).
  - vm_compute. lia.
  - exists s'. rewrite Hl. exact (conj Hr H1).
Defined.

(** The fourth file operation, the flush of the first event, fails. *)
Definition flush_faults : list bool := [false; false; false; true].
Definition spoiled0 : AuditLogger unit := (logger_new (logger_start cfg (MkDisk ∅ flush_faults))).2.
Definition spoiled1 : AuditLogger unit := (log 1 (request "a") spoiled0).2.
Definition spoiled2 : AuditLogger unit := (log 2 (request "b") spoiled1).2.

(** A failed flush of an event is reported, and the sequence number is used
    again, but the event stays in the writer's buffer: the next successful
    call writes both events, with one number, and the logger does not start on
    the file again. *)
Theorem failed_flush_spoils_log :
  is_ok (log 1 (request "a") spoiled0).1 = false /\
  (log 2 (request "b") spoiled1).1 = Ok 1 /\
  length (AuditStorage.file current_log_path (storage spoiled2)) = 2%nat /\
  (logger_new (logger_start cfg (storage_crash (storage spoiled2)))).1 =
    Err (AHashChain (SequenceMismatch 2 1)).
Proof. by vm_compute. Qed.
