(* ===== verification/Shamir.v ===== *)
(** * Secret sharing of the master key

    [crates/backup/src/shamir.rs] and the error type of [error.rs].  The
    arithmetic of the scheme is the crate [sharks], a parameter; modelled is
    what the code builds around it: the configuration, the authenticated
    commitment that every share carries, the checks on recovery and the test
    reconstruction at the end of a split.  The fields of [ShamirConfig] are
    public, so a configuration need not come from [ShamirConfig::new]; the
    slice that [validate_generated_shares] takes then can be out of range, and
    a panic is a value of the model.

    The theorems state that every selection of enough shares of a split
    recovers the key, that a recovery that succeeds used enough distinct,
    consistent shares and returned a key with the commitment they carry, and
    what the commitment does not distinguish. *)

From Stdlib Require Import ZArith Lia Strings.Byte.
From stdpp Require Import base gmap strings list.
From S2P Require Import Prelude External.

Inductive BackupError :=
| EmptyData
| WeakPassword
| KeyDerivation (msg : string)
| Encryption (msg : string)
| Decryption (msg : string)
| Serialization (msg : string)
| Deserialization (msg : string)
| InvalidPassword
| InvalidFormat (msg : string)
| UnsupportedVersion (version : Z)
| InvalidThreshold
| InvalidShareCount
| ThresholdExceedsShares
| ShareGenerationFailed
| InsufficientShares
| InconsistentShares
| InvalidShare (msg : string)
| RecoveryFailed (msg : string)
| Io (msg : string)
| CompressionFailed (msg : string)
| DecompressionFailed (msg : string)
| IntegrityCheckFailed
| NoFullBackup
| InvalidKeySize
| ShareRecoveryFailed
| ShareValidationFailed
| KeyDerivationFailed
| EncryptionFailed
| RestoreVerificationFailed
| InsufficientSharesWithCount (provided required : Z).

(** How a call ends when it does not return a value. *)
Inductive stop := Failed (e : BackupError) | Panic.

Definition COMMITMENT_DOMAIN : bytes := as_bytes "hsm-backup/shamir/commitment/v1".

Record ShamirConfig := MkShamirConfig { threshold : Z; share_count : Z }.

Definition ShamirConfig_new (threshold share_count : Z) : result ShamirConfig BackupError :=
  if threshold =? 0 then Err InvalidThreshold
  else if share_count =? 0 then Err InvalidShareCount
  else if share_count <? threshold then Err ThresholdExceedsShares
  else if threshold =? 1 then Err InvalidThreshold
  else Ok (MkShamirConfig threshold share_count).

Record SerializableShare := MkShare {
  index : Z;
  data : bytes;
  sh_threshold : Z;
  total_shares : Z;
  commitment : bytes
}.

Section shamir.
Context {HMAC : Hmac} {SHARKS : Sharks}.

Definition compute_commitment (secret : bytes) : bytes := hmac_sha256 secret COMMITMENT_DOMAIN.

Definition verify_commitment (candidate commitment : bytes) : bool :=
  bool_decide (hmac_sha256 candidate COMMITMENT_DOMAIN = commitment).

(** The loop over the metadata of the shares. *)
Fixpoint check_consistent (first_threshold first_total : Z) (first_commitment : bytes)
    (shares : list SerializableShare) : result unit stop :=
  match shares with
  | [] => Ok tt
  | share :: rest =>
      if negb (sh_threshold share =? first_threshold) || negb (total_shares share =? first_total) then
        Err (Failed InconsistentShares)
      else if negb (bool_decide (commitment share = first_commitment)) then
        Err (Failed InconsistentShares)
      else check_consistent first_threshold first_total first_commitment rest
  end.

(** [collect] into a [Result]: the first error wins. *)
Fixpoint convert_shares (shares : list SerializableShare) : result (list Share) stop :=
  match shares with
  | [] => Ok []
  | s :: rest =>
      let? share := rmap_err (fun e => Failed (InvalidShare e)) (share_try_from (data s)) in
      let? others := convert_shares rest in
      Ok (share :: others)
  end.

Definition recover_secret (config : ShamirConfig) (shares : list SerializableShare)
  : result bytes stop :=
  match shares with
  | [] => Err (Failed InsufficientShares)
  | first :: _ =>
      if Z.of_nat (length shares) <? threshold config then Err (Failed InsufficientShares)
      else
        let? _ := check_consistent (sh_threshold first) (total_shares first) (commitment first) shares in
        if negb (length (commitment first) =? 32)%nat then Err (Failed ShareValidationFailed)
        else
          let? sharks_shares := convert_shares shares in
          let? secret := rmap_err (fun e => Failed (RecoveryFailed e))
                           (sharks_recover (threshold config) sharks_shares) in
          if negb (verify_commitment secret (commitment first)) then Err (Failed ShareValidationFailed)
          else Ok secret
  end.

Definition validate_generated_shares (config : ShamirConfig) (shares : list SerializableShare)
    (original : bytes) : result unit stop :=
  if Z.of_nat (length shares) <? threshold config then Err Panic
  else
    let? reconstructed := recover_secret config (take (Z.to_nat (threshold config)) shares) in
    if negb (bool_decide (reconstructed = original)) then Err (Failed ShareValidationFailed)
    else Ok tt.

(** [rng] is the randomness the dealer draws. *)
Definition split_secret (config : ShamirConfig) (secret : bytes) (rng : Rng)
  : result (list SerializableShare) stop :=
  match secret with
  | [] => Err (Failed EmptyData)
  | _ =>
      let shares := take (Z.to_nat (share_count config)) (sharks_dealer (threshold config) secret rng) in
      if negb (Z.of_nat (length shares) =? share_count config) then Err (Failed ShareGenerationFailed)
      else
        let serializable_shares :=
          imap (fun idx share =>
            MkShare (wrap 8 (Z.of_nat idx + 1)) (share_to_vec share) (threshold config)
              (share_count config) (compute_commitment secret)) shares in
        let? _ := validate_generated_shares config serializable_shares secret in
        Ok serializable_shares
  end.

(** The loop of [validate_shares]. *)
Fixpoint check_metadata (first_threshold first_total : Z) (shares : list SerializableShare)
  : result unit stop :=
  match shares with
  | [] => Ok tt
  | share :: rest =>
      if negb (sh_threshold share =? first_threshold) then Err (Failed InconsistentShares)
      else if negb (total_shares share =? first_total) then Err (Failed InconsistentShares)
      else if (length (data share) =? 0)%nat then Err (Failed (InvalidShare "Empty share data"))
      else check_metadata first_threshold first_total rest
  end.

Definition validate_shares (config : ShamirConfig) (shares : list SerializableShare)
  : result unit stop :=
  match shares with
  | [] => Err (Failed InsufficientShares)
  | first :: _ =>
      if Z.of_nat (length shares) <? threshold config then Err (Failed InsufficientShares)
      else check_metadata (sh_threshold first) (total_shares first) shares
  end.

Definition split_master_key (master_key : bytes) (threshold share_count : Z) (rng : Rng)
  : result (list SerializableShare) stop :=
  let? config := rmap_err Failed (ShamirConfig_new threshold share_count) in
  split_secret config master_key rng.

Definition recover_master_key (shares : list SerializableShare) : result bytes stop :=
  match shares with
  | [] => Err (Failed InsufficientShares)
  | first :: _ =>
      let? config := rmap_err Failed (ShamirConfig_new (sh_threshold first) (total_shares first)) in
      recover_secret config shares
  end.
End shamir.

(** ** Lemmas on the checks *)

Section lemmas.
Context {HMAC : Hmac} {SHARKS : Sharks}.

Lemma ShamirConfig_new_Ok t n c :
  0 <= t -> 0 <= n -> ShamirConfig_new t n = Ok c <-> c = MkShamirConfig t n /\ 2 <= t <= n.
Proof.
  intros Ht Hn. unfold ShamirConfig_new.
  destruct (Z.eqb_spec t 0), (Z.eqb_spec n 0), (Z.ltb_spec n t), (Z.eqb_spec t 1);
    (split; [intros [= <-] || intros [=] | intros [-> ?]]); try split; done || lia.
Qed.

Definition same_metadata (t n : Z) (com : bytes) (s : SerializableShare) : Prop :=
  sh_threshold s = t /\ total_shares s = n /\ commitment s = com.

Lemma check_consistent_Ok t n com shares :
  check_consistent t n com shares = Ok tt <-> Forall (same_metadata t n com) shares.
Proof.
  induction shares as [|s shares IH]; simpl; [by split|]. rewrite Forall_cons, <- IH. unfold same_metadata.
  destruct (Z.eqb_spec (sh_threshold s) t), (Z.eqb_spec (total_shares s) n); simpl; [|naive_solver..].
  case_bool_decide; simpl; naive_solver.
Qed.

Lemma convert_shares_Ok shares xs :
  convert_shares shares = Ok xs <->
  Forall2 (fun s x => share_try_from (data s) = Ok x) shares xs.
Proof.
  split.
  - revert xs. induction shares as [|s shares IH]; intros xs; simpl; [intros [= <-]; constructor|].
    destruct (share_try_from (data s)) as [x|] eqn:E; [|done]. simpl.
    destruct (convert_shares shares) as [ys|]; [|done]. intros [= <-]. constructor; [done|]. by apply IH.
  - induction 1 as [|s x shares xs E _ IH]; simpl; [done|]. by rewrite E, IH.
Qed.

(** A relation under which an element determines what it comes from carries
    absence of repetitions over. *)
Lemma NoDup_Forall2 {A B} (R : A -> B -> Prop) l k :
  (forall a b x, R a x -> R b x -> a = b) -> Forall2 R l k -> NoDup l -> NoDup k.
Proof.
  intros HR. induction 1 as [|a x l k Hax Hlk IH]; intros Hnd; [constructor|].
  apply NoDup_cons in Hnd as [Ha Hnd]. constructor; [|by apply IH]. intros Hx. apply Ha.
  apply list_elem_of_lookup in Hx as [i Hi]. destruct (Forall2_lookup_r _ _ _ _ _ Hlk Hi) as (b & Hb & Hbx).
  rewrite (HR _ _ _ Hax Hbx). by eapply list_elem_of_lookup_2.
Qed.

(** There are no more distinct shares than distinct share data. *)
Lemma distinct_shares shares xs :
  Forall2 (fun s x => share_try_from (data s) = Ok x) shares xs ->
  (length (remove_dups xs) <= length (remove_dups (data <$> shares)))%nat.
Proof.
  intros H.
  transitivity (length (Ok (E:=string) <$> remove_dups xs)); [by rewrite length_fmap|].
  rewrite <- (length_fmap share_try_from (remove_dups (data <$> shares))).
  apply submseteq_length, NoDup_submseteq.
  - apply NoDup_fmap_2; [intros ? ? [=]; done|apply NoDup_remove_dups].
  - intros r (x & -> & Hx)%list_elem_of_fmap. rewrite elem_of_remove_dups in Hx.
    apply list_elem_of_lookup in Hx as [i Hi]. destruct (Forall2_lookup_r _ _ _ _ _ H Hi) as (s & Hs & E).
    rewrite <- E. apply list_elem_of_fmap_2. rewrite elem_of_remove_dups.
    by eapply list_elem_of_fmap_2, list_elem_of_lookup_2.
Qed.

(** Only a slice can panic, so recovery does not. *)
Lemma check_consistent_no_panic t n com shares : check_consistent t n com shares <> Err Panic.
Proof. induction shares as [|s shares IH]; simpl; [done|]. by repeat case_match. Qed.

Lemma convert_shares_no_panic shares : convert_shares shares <> Err Panic.
Proof.
  induction shares as [|s shares IH]; simpl; [done|]. destruct (share_try_from (data s)); simpl; [|done].
  by destruct (convert_shares shares).
Qed.

Lemma recover_secret_no_panic c shares : recover_secret c shares <> Err Panic.
Proof.
  unfold recover_secret, rbind. destruct shares as [|first rest] eqn:Es; [done|]. rewrite <- Es.
  destruct (_ <? _); [done|]. destruct (check_consistent _ _ _ _) as [[]|e] eqn:Em;
    [|intros [= ->]; by eapply check_consistent_no_panic].
  destruct (negb _); [done|]. destruct (convert_shares shares) as [xs|e] eqn:Ec;
    [|intros [= ->]; by eapply convert_shares_no_panic].
  destruct (sharks_recover _ _); simpl; [|done]. by destruct (negb _).
Qed.

Lemma recover_secret_Ok c first rest key :
  let shares := first :: rest in
  recover_secret c shares = Ok key ->
  Forall (same_metadata (sh_threshold first) (total_shares first) (compute_commitment key)) shares /\
  threshold c <= Z.of_nat (length (remove_dups (data <$> shares))).
Proof.
  intros shares. unfold recover_secret, rbind. unfold shares at 1. fold shares.
  destruct (_ <? _); [done|]. destruct (check_consistent _ _ _ _) as [[]|e] eqn:Em; [|done].
  destruct (negb _); [done|]. destruct (convert_shares shares) as [xs|e] eqn:Ec; [|done].
  destruct (sharks_recover _ _) as [secret|e] eqn:Er; simpl; [|done]. unfold verify_commitment.
  case_bool_decide as Hcom; simpl; [|done]. intros [= ->].
  apply check_consistent_Ok in Em. apply convert_shares_Ok in Ec. split.
  - unfold compute_commitment. by rewrite Hcom.
  - apply distinct_shares in Ec.
    destruct (decide (Z.of_nat (length (remove_dups xs)) < threshold c)) as [Hlt|Hge];
      [|etrans; [apply Z.nlt_ge, Hge|by apply Nat2Z.inj_le]].
    apply sharks_recover_few in Hlt. by rewrite Er in Hlt.
Qed.

(** ** Shares of one split *)

Definition dealt (t n : Z) (secret : bytes) (idx : nat) (x : Share) : SerializableShare :=
  MkShare (wrap 8 (Z.of_nat idx + 1)) (share_to_vec x) t n (compute_commitment secret).

(** [s] is a share of the split with the shares [xs] of the dealer. *)
Definition dealt_from (t n : Z) (secret : bytes) (xs : list Share) (s : SerializableShare) (x : Share) : Prop :=
  exists i, xs !! i = Some x /\ s = dealt t n secret i x.

Lemma dealt_from_inj t n secret xs a b x :
  NoDup xs -> dealt_from t n secret xs a x -> dealt_from t n secret xs b x -> a = b.
Proof. intros Hnd (i & Hi & ->) (j & Hj & ->). by rewrite (NoDup_lookup _ _ _ _ Hnd Hi Hj). Qed.

Lemma selection_dealt t n secret xs sel :
  sel ⊆ imap (dealt t n secret) xs -> exists ys, Forall2 (dealt_from t n secret xs) sel ys.
Proof.
  induction sel as [|s sel IH]; intros Hsub; [by exists []|].
  destruct IH as [ys Hys]; [set_solver|].
  assert (s ∈ imap (dealt t n secret) xs) as Hs by (apply Hsub; left).
  apply elem_of_lookup_imap_1 in Hs as (i & x & -> & Hi). exists (x :: ys). constructor; [by exists i|done].
Qed.

Lemma recover_dealt t n secret rng xs sel :
  2 <= t -> secret <> [] -> NoDup xs -> xs ⊆ sharks_dealer t secret rng ->
  sel ⊆ imap (dealt t n secret) xs -> NoDup sel -> t <= Z.of_nat (length sel) ->
  recover_secret (MkShamirConfig t n) sel = Ok secret.
Proof.
  intros Ht Hne Hnd Hxs Hsub Hsel Hlen. destruct (selection_dealt _ _ _ _ _ Hsub) as [ys Hys].
  assert (convert_shares sel = Ok ys) as Hconv.
  { apply convert_shares_Ok. eapply Forall2_impl; [exact Hys|]. intros s x (i & _ & ->). simpl.
    apply share_try_from_to_vec. }
  assert (sharks_recover t ys = Ok secret) as Hrec.
  { apply (sharks_recover_dealt t secret rng); [|done| |].
    - rewrite <- (Forall2_length _ _ _ Hys). lia.
    - eapply NoDup_Forall2; [|exact Hys|done]. intros a b x. by apply dealt_from_inj.
    - intros x Hx. apply Hxs. apply list_elem_of_lookup in Hx as [k Hk].
      destruct (Forall2_lookup_r _ _ _ _ _ Hys Hk) as (s & _ & i & Hi & _). by eapply list_elem_of_lookup_2. }
  assert (Forall (same_metadata t n (compute_commitment secret)) sel) as Hmeta.
  { apply (Forall2_Forall_l (dealt_from t n secret xs) _ sel ys Hys). apply Forall_true.
    by intros x s (i & _ & ->). }
  unfold recover_secret. destruct sel as [|first rest] eqn:Es; [simpl in Hlen; lia|].
  apply Forall_cons in Hmeta as Hmeta'. destruct Hmeta' as [(-> & -> & ->) _].
  rewrite <- Es in *. cbn [threshold]. rewrite (proj2 (Z.ltb_ge _ _)) by lia.
  rewrite (proj2 (check_consistent_Ok _ _ _ _) Hmeta). cbn [rbind].
  unfold compute_commitment at 1. rewrite length_hmac. cbn [Nat.eqb negb].
  rewrite Hconv. cbn [rbind]. rewrite Hrec. cbn [rmap_err rbind].
  unfold verify_commitment. by rewrite bool_decide_eq_true_2.
Qed.

Lemma NoDup_dealt t n secret xs : NoDup xs -> NoDup (imap (dealt t n secret) xs).
Proof.
  intros Hnd. apply NoDup_alt. intros i j s.
  intros (x & Hx & ->)%list_lookup_imap_Some (y & Hy & E)%list_lookup_imap_Some.
  injection E as _ E. apply (f_equal share_try_from) in E. rewrite !share_try_from_to_vec in E.
  injection E as ->. by eapply NoDup_lookup.
Qed.

Lemma split_secret_Ok t n secret rng :
  2 <= t <= n -> n <= 255 -> secret <> [] ->
  split_secret (MkShamirConfig t n) secret rng =
  Ok (imap (dealt t n secret) (take (Z.to_nat n) (sharks_dealer t secret rng))).
Proof.
  intros Ht Hn Hne. unfold split_secret. destruct secret as [|b secret']; [done|].
  set (secret := b :: secret') in *. cbn [threshold share_count].
  set (xs := take (Z.to_nat n) (sharks_dealer t secret rng)).
  assert (length xs = Z.to_nat n) as Hlen by (unfold xs; rewrite length_take, length_sharks_dealer; lia).
  assert (NoDup xs) as Hnd by (eapply sublist_NoDup; [apply NoDup_sharks_dealer|apply sublist_take]).
  rewrite Hlen, Z2Nat.id, Z.eqb_refl by lia. cbn [negb].
  change (imap _ xs) with (imap (dealt t n secret) xs). unfold validate_generated_shares.
  cbn [threshold]. rewrite length_imap, Hlen, (proj2 (Z.ltb_ge _ _)) by lia.
  rewrite (recover_dealt t n secret rng xs); [|lia|done|done| | | |].
  - cbn [rbind]. by rewrite bool_decide_eq_true_2.
  - apply sublist_subseteq, sublist_take.
  - apply sublist_subseteq, sublist_take.
  - eapply sublist_NoDup; [by apply NoDup_dealt|apply sublist_take].
  - rewrite length_take, length_imap. lia.
Qed.
End lemmas.

(** ** Theorems *)

Section theorems.
Context {HMAC : Hmac} {SHARKS : Sharks}.

(** C15: splitting a non-empty key with a threshold of at least two and at most
    the number of shares always succeeds, with that many shares numbered from
    one, and any selection of at least [t] different shares, in any order,
    recovers the key.  Any other parameters are refused with an error; a split
    never panics. *)
Theorem shamir_split_recover (key : bytes) (t n : Z) (rng : Rng) :
  u8 t -> u8 n ->
  (2 <= t <= n -> key <> [] ->
   exists shares, split_master_key key t n rng = Ok shares /\
     index <$> shares = Z.of_nat <$> seq 1 (Z.to_nat n) /\
     forall sel, sel ⊆ shares -> NoDup sel -> t <= Z.of_nat (length sel) ->
       recover_master_key sel = Ok key) /\
  (~ (2 <= t <= n) \/ key = [] -> exists e, split_master_key key t n rng = Err (Failed e)).
Proof.
  intros [Ht0 Ht] [Hn0 Hn]. unfold split_master_key.
  pose proof (ShamirConfig_new_Ok t n (MkShamirConfig t n) Ht0 Hn0) as Hc. split.
  - intros Htn Hne. rewrite (proj2 Hc) by done. cbn [rmap_err rbind].
    rewrite split_secret_Ok by (done || lia). eexists. split; [done|]. split.
    + apply list_eq. intros i. rewrite !list_lookup_fmap, list_lookup_imap.
      destruct (decide (i < Z.to_nat n)%nat) as [Hi|Hi].
      * destruct (lookup_lt_is_Some_2 (take (Z.to_nat n) (sharks_dealer t key rng)) i) as [x ->];
          [rewrite length_take, length_sharks_dealer; lia|].
        rewrite lookup_seq_lt by done. simpl. f_equal. rewrite wrap_small; [lia|]. unfold in_u. lia.
      * rewrite lookup_ge_None_2, lookup_seq_ge by (rewrite ?length_take; lia). done.
    + intros sel Hsub Hnd Hlen. unfold recover_master_key.
      destruct sel as [|first rest] eqn:Es; [simpl in Hlen; lia|].
      assert (first ∈ imap (dealt t n key) (take (Z.to_nat n) (sharks_dealer t key rng))) as Hf
        by (apply Hsub; left).
      apply elem_of_lookup_imap_1 in Hf as (i & x & -> & _). cbn [sh_threshold total_shares dealt].
      rewrite (proj2 Hc) by done. cbn [rmap_err rbind].
      apply (recover_dealt t n key rng (take (Z.to_nat n) (sharks_dealer t key rng)));
        try done; [lia| |apply sublist_subseteq, sublist_take].
      eapply sublist_NoDup; [apply NoDup_sharks_dealer|apply sublist_take].
  - intros Hbad. destruct (ShamirConfig_new t n) as [c|e] eqn:E; [|by eexists].
    apply ShamirConfig_new_Ok in E as [-> Htn]; [|done..]. destruct Hbad as [| ->]; [done|by eexists].
Qed.

(** C16: a recovery that succeeds was given shares that agree on threshold, count
    and commitment, at least the threshold (two or more) of them different,
    and returns a key with exactly that commitment; it never panics. *)
Theorem shamir_recover_sound (shares : list SerializableShare) (key : bytes) :
  Forall (fun s => u8 (sh_threshold s) /\ u8 (total_shares s)) shares ->
  recover_master_key shares <> Err Panic /\
  (recover_master_key shares = Ok key ->
   exists t n, 2 <= t <= n /\ Forall (same_metadata t n (compute_commitment key)) shares /\
     t <= Z.of_nat (length (remove_dups (data <$> shares)))).
Proof.
  intros Hwf. unfold recover_master_key. destruct shares as [|first rest]; [done|].
  apply Forall_cons in Hwf as [[[Ht0 _] [Hn0 _]] _].
  destruct (ShamirConfig_new _ _) as [c|e] eqn:Ec; [|done].
  apply ShamirConfig_new_Ok in Ec as [-> Htn]; [|done..]. cbn [rmap_err rbind].
  split; [apply recover_secret_no_panic|]. intros [Hm Hl]%recover_secret_Ok.
  by exists (sh_threshold first), (total_shares first).
Qed.

(** The commitment does not tell a key of fewer than 64 bytes from the same
    key followed by a zero byte: there are shares that all carry the
    commitment of [key] and recover the longer key. *)
Theorem shamir_commitment_ambiguous (key : bytes) (t n : Z) (rng : Rng) :
  u8 n -> 2 <= t <= n -> (length key < 64)%nat ->
  exists shares, Forall (same_metadata t n (compute_commitment key)) shares /\
    length shares = Z.to_nat n /\ recover_master_key shares = Ok (key ++ [Byte.x00]).
Proof.
  intros [_ Hn] Htn Hk. set (key' := key ++ [Byte.x00]).
  set (xs := take (Z.to_nat n) (sharks_dealer t key' rng)).
  assert (length xs = Z.to_nat n) as Hlen by (unfold xs; rewrite length_take, length_sharks_dealer; lia).
  assert (NoDup xs) as Hnd by (eapply sublist_NoDup; [apply NoDup_sharks_dealer|apply sublist_take]).
  exists (imap (dealt t n key') xs). rewrite length_imap. split; [|split; [done|]].
  - apply Forall_forall. intros s (i & x & -> & _)%elem_of_lookup_imap_1. unfold same_metadata. simpl.
    unfold compute_commitment, key'. by rewrite hmac_pad.
  - unfold recover_master_key. destruct xs as [|x xs'] eqn:Ex; [simpl in Hlen; lia|].
    rewrite <- Ex in *. replace (imap (dealt t n key') xs) with (dealt t n key' 0 x :: imap (dealt t n key' ∘ S) xs')
      by (by rewrite Ex). cbn [sh_threshold total_shares dealt].
    rewrite (proj2 (ShamirConfig_new_Ok t n (MkShamirConfig t n) ltac:(lia) ltac:(lia))) by done.
    cbn [rmap_err rbind].
    apply (recover_dealt t n key' rng xs); try done; [lia|by destruct key|..].
    + rewrite Ex, <- Ex. unfold xs. apply sublist_subseteq, sublist_take.
    + by rewrite Ex.
    + change (NoDup (imap (dealt t n key') (x :: xs'))). rewrite <- Ex. by apply NoDup_dealt.
    + change (t <= Z.of_nat (length (imap (dealt t n key') (x :: xs')))). rewrite <- Ex, length_imap. lia.
Qed.
End theorems.

(** ** Example *)

Import Concrete.

(** The toy dealer draws nothing. *)
Definition rng0 : @Rng toy_sharks := tt.
Definition key0 : bytes := replicate 32 Byte.x2a.
Definition shares0 : list SerializableShare :=
  imap (dealt 3 5 key0) (take 5 (sharks_dealer 3 key0 rng0)).

#[local] Instance SerializableShare_eq_dec : EqDecision SerializableShare.
Proof. solve_decision. Defined.

Lemma shamir_split_recover_witness :
  exists shares, split_master_key key0 3 5 rng0 = Ok shares /\ recover_master_key (drop 2 shares) = Ok key0.
Proof.
  destruct (proj1 (shamir_split_recover key0 3 5 rng0 ltac:(done) ltac:(done)) ltac:(lia) ltac:(done))
    as (shares & E & _ & Hrec).
  exists shares. split; [exact E|].
  assert (split_master_key key0 3 5 rng0 = Ok shares0) as E' by (vm_compute; reflexivity).
  rewrite E' in E. injection E as <-. apply Hrec.
  - apply sublist_subseteq, sublist_drop.
  - apply (bool_decide_unpack _). vm_compute. exact I.
  - vm_compute. discriminate.
Defined.

Lemma shamir_recover_sound_witness :
  exists t n, 2 <= t <= n /\ Forall (same_metadata t n (compute_commitment key0)) shares0 /\
    t <= Z.of_nat (length (remove_dups (data <$> shares0))).
Proof.
  apply (shamir_recover_sound shares0 key0); [|vm_compute; reflexivity].
  repeat (apply Forall_cons_2; [split; done|]). apply Forall_nil_2.
Defined.

Lemma shamir_commitment_ambiguous_witness :
  exists shares, Forall (same_metadata 3 5 (compute_commitment key0)) shares /\
    length shares = Z.to_nat 5 /\ recover_master_key shares = Ok (key0 ++ [Byte.x00]).
Proof. apply (shamir_commitment_ambiguous key0 3 5 rng0); [done|lia|]. apply Nat.ltb_lt. reflexivity. Defined.
