(* ===== verification/Platform.v ===== *)
(** * Clock, cipher and channel packages

    Interfaces of the packages the key, secret and session stores call:

    - [Aead]: [aes_gcm], with the documented behaviour of AES-GCM (RFC 5116):
      a tag of 16 bytes, decryption inverts encryption, and decryption accepts
      only what encryption produces, since GCM is deterministic in its nonce;
    - [ChronoRange]: the range of [chrono::DateTime<Utc>]; additions that
      leave it panic;
    - [Mpsc]: the sending half of a [tokio] channel, [try_send] with its
      result dropped;
    - [Lru]: the [lru] cache, through the entries it currently holds: it may
      forget any entry when one is put;
    - [Postcard]: the [postcard] codec at a type.

    [Concrete2] holds one instance of each for the witnesses. *)

From Stdlib Require Import ZArith Lia Strings.Byte.
From stdpp Require Import base gmap strings list.
From S2P Require Import Prelude External.

Inductive aes_variant := Aes128 | Aes256.

Definition key_size (v : aes_variant) : nat :=
  match v with Aes128 => 16 | Aes256 => 32 end.

Class Aead := {
  Cipher : Type;
  new_from_slice : aes_variant -> bytes -> result Cipher string;
  (** nonce, associated data, message *)
  aead_encrypt : Cipher -> bytes -> bytes -> bytes -> result bytes string;
  aead_decrypt : Cipher -> bytes -> bytes -> bytes -> result bytes string;
  new_from_slice_length v k : length k = key_size v -> exists c, new_from_slice v k = Ok c;
  length_aead_encrypt c n a m ct : aead_encrypt c n a m = Ok ct -> length ct = (length m + 16)%nat;
  aead_decrypt_encrypt c n a m ct :
    length n = 12%nat -> aead_encrypt c n a m = Ok ct -> aead_decrypt c n a ct = Ok m;
  aead_decrypt_genuine c n a ct m :
    length n = 12%nat -> aead_decrypt c n a ct = Ok m -> aead_encrypt c n a m = Ok ct
}.

Abbreviation DateTime := Z.
Abbreviation Duration := Z.

(** Instants and durations are nanoseconds. *)
Class ChronoRange := {
  MIN_UTC : DateTime;
  MAX_UTC : DateTime
}.

(** [DateTime + Duration]; [None] is the panic. *)
Definition dt_add `{ChronoRange} (t : DateTime) (d : Duration) : option DateTime :=
  if (MIN_UTC <=? t + d) && (t + d <=? MAX_UTC) then Some (t + d) else None.

Lemma dt_add_Some `{ChronoRange} t d t' : dt_add t d = Some t' -> t' = t + d.
Proof. unfold dt_add. by case_match; intros; simplify_eq. Qed.

(** [Duration::seconds], which panics beyond [i64::MAX] milliseconds. *)
Definition duration_seconds (s : Z) : option Duration :=
  if (- 9223372036854775 <=? s) && (s <=? 9223372036854775) then Some (s * 1000000000) else None.

Lemma duration_seconds_Some s d : duration_seconds s = Some d -> d = s * 1000000000.
Proof. unfold duration_seconds. by case_match; intros; simplify_eq. Qed.

Class Mpsc (Msg Channel : Type) := { try_send : Msg -> Channel -> Channel }.

Class Lru (K V C : Type) `{Countable K} := {
  lru_new : nat -> C;
  lru_get : K -> C -> option V * C;
  lru_put : K -> V -> C -> C;
  lru_pop : K -> C -> C;
  lru_view : C -> gmap K V;
  lru_view_new n : lru_view (lru_new n) = ∅;
  lru_view_get k c : (lru_get k c).1 = lru_view c !! k /\ lru_view (lru_get k c).2 = lru_view c;
  lru_view_put k v c : lru_view (lru_put k v c) ⊆ <[k := v]> (lru_view c);
  lru_view_put_hit k v c : lru_view (lru_put k v c) !! k = Some v;
  lru_view_pop k c : lru_view (lru_pop k c) = delete k (lru_view c)
}.

Class Postcard (A : Type) := {
  to_allocvec : A -> result bytes string;
  from_postcard : bytes -> result A string;
  from_postcard_to_allocvec a b : to_allocvec a = Ok b -> from_postcard b = Ok a
}.

(** The wall clock and the monotonic clock, where code reads both. *)
Record Clock := MkClock { wall : DateTime; instant : DateTime }.

(** [Uuid::parse_str], with the id in canonical form. *)
Class Uuid := { uuid_parse : string -> option string }.
(** Texts of errors, which only end up in messages. *)
Class Display (E : Type) := { display : E -> string }.

Definition nanos (seconds : Z) : Duration := seconds * 1000000000.

(** ** Concrete instances *)

Module Concrete2.

(** A message in the clear followed by a tag of 16 bytes that repeats key,
    nonce and associated data as far as they fit. *)
Definition toy_tag (k n a : bytes) : bytes := take 16 (take 4 k ++ n ++ a ++ zeros 16).

Lemma length_toy_tag k n a : length (toy_tag k n a) = 16%nat.
Proof. unfold toy_tag, zeros. rewrite length_take, !length_app, length_replicate. lia. Qed.

Definition toy_encrypt (k n a m : bytes) : result bytes string := Ok (m ++ toy_tag k n a).
Definition toy_decrypt (k n a ct : bytes) : result bytes string :=
  let m := take (length ct - 16) ct in
  if decide (ct = m ++ toy_tag k n a) then Ok m else Err "aead::Error".

#[export] Instance toy_aead : Aead.
Proof.
  refine {| Cipher := bytes;
    new_from_slice := fun v k => if (length k =? key_size v)%nat then Ok k else Err "InvalidLength";
    aead_encrypt := toy_encrypt; aead_decrypt := toy_decrypt |}.
  - intros v k ->. exists k. by rewrite Nat.eqb_refl.
  - intros c n a m ct [= <-]. by rewrite length_app, length_toy_tag.
  - intros c n a m ct _ [= <-]. unfold toy_decrypt. rewrite length_app, length_toy_tag.
    replace (length m + 16 - 16)%nat with (length m) by lia. rewrite take_app_length.
    by rewrite decide_True.
  - intros c n a ct m _. unfold toy_decrypt. case_decide as Hct; [|done].
    intros [= <-]. unfold toy_encrypt. by rewrite <- Hct.
Defined.

(** The years 0 to 9999, roughly. *)
#[export] Instance toy_range : ChronoRange :=
  {| MIN_UTC := - nanos 62000000000; MAX_UTC := nanos 253000000000 |}.

(** A channel of capacity 1000 that is never read. *)
#[export] Instance list_mpsc (Msg : Type) : Mpsc Msg (list Msg) :=
  {| try_send := fun m ch => if (length ch <? 1000)%nat then ch ++ [m] else ch |}.

(** A cache of one entry. *)
#[export] Program Instance single_lru {K V} `{Countable K} : Lru K V (option (K * V)) := {|
  lru_new := fun _ => None;
  lru_get := fun k c =>
    (match c with Some (k', v) => if decide (k = k') then Some v else None | None => None end, c);
  lru_put := fun k v _ => Some (k, v);
  lru_pop := fun k c =>
    match c with Some (k', v) => if decide (k = k') then None else c | None => None end;
  lru_view := fun c => match c with Some (k, v) => {[ k := v ]} | None => ∅ end
|}.
Next Obligation. done. Qed.
Next Obligation.
  intros K V ? ? k [[k' v]|]; simpl; split; try done. symmetry.
  case_decide as Hd; [subst; apply lookup_singleton_eq|by apply lookup_singleton_ne].
Qed.
Next Obligation. intros. by apply insert_mono, map_empty_subseteq. Qed.
Next Obligation. intros. apply lookup_singleton_eq. Qed.
Next Obligation.
  intros K V ? ? k [[k' v]|]; simpl; [|by rewrite delete_empty]. case_decide as Hd.
  - subst. by rewrite delete_singleton_eq.
  - by rewrite delete_singleton_ne.
Qed.

Definition countable_postcard {A} `{Countable A} : Postcard A :=
  let S := Concrete.countable_serde (A := A) in
  {| to_allocvec := to_vec; from_postcard := from_slice;
     from_postcard_to_allocvec := @from_slice_to_vec A S |}.

End Concrete2.
