(* ===== verification/AesGcm.v ===== *)
(** * AES-GCM engine

    [crates/crypto-engine/src/symmetric/aes_gcm.rs] with the error type of
    [crates/crypto-engine/src/error.rs]: single and batch encryption for both
    key sizes.  The randomness of a call is the argument [fill], the outcome
    of [getrandom::fill] on the 12-byte nonce buffer, one for each message of
    a batch.  The parallel map of a batch has no shared state, so it is the
    list of its results in order, and collecting it stops at the first error.

    The theorems give the format, the round trips in both directions and the
    agreement of the batch with the single operations. *)

From Stdlib Require Import ZArith Lia Strings.Byte.
From stdpp Require Import base gmap strings list.
From S2P Require Import Prelude External Platform.

Inductive CryptoError :=
| InvalidKey (msg : string)
| InvalidKeySize (expected actual : nat)
| InvalidSignatureSize (expected actual : nat)
| SignatureVerificationFailed
| MessageTooLarge (size : nat)
| PlaintextTooLarge (size : nat)
| CiphertextTooSmall (expected actual : nat)
| InvalidNonceSize (expected actual : nat)
| EncryptionFailed (msg : string)
| DecryptionFailed (msg : string)
| InvalidAlgorithm (msg : string)
| InsufficientEntropy
| Internal (msg : string).

Record KeyMaterial := MkKeyMaterial { key_bytes : bytes }.
Definition KeyMaterial_from_bytes (b : bytes) : KeyMaterial := MkKeyMaterial b.

Definition MAX_PLAINTEXT_SIZE : Z := 64 * 1024 * 1024.
Definition MIN_CIPHERTEXT_SIZE : nat := 12 + 16.

(** The outcome of filling the nonce buffer. *)
Abbreviation fill_result := (result bytes unit).

Section engine.
Context {AEAD : Aead}.

Definition check_key (v : aes_variant) (key : KeyMaterial) : result unit CryptoError :=
  if (length (key_bytes key) =? key_size v)%nat then Ok tt
  else Err (InvalidKeySize (key_size v) (length (key_bytes key))).

Definition check_plaintext (plaintext : bytes) : result unit CryptoError :=
  if Z.of_nat (length plaintext) >? MAX_PLAINTEXT_SIZE
  then Err (PlaintextTooLarge (length plaintext)) else Ok tt.

Definition check_ciphertext (ciphertext_with_nonce : bytes) : result unit CryptoError :=
  if (length ciphertext_with_nonce <? MIN_CIPHERTEXT_SIZE)%nat
  then Err (CiphertextTooSmall MIN_CIPHERTEXT_SIZE (length ciphertext_with_nonce)) else Ok tt.

Definition new_cipher (v : aes_variant) (key : KeyMaterial) : result Cipher CryptoError :=
  rmap_err Internal (new_from_slice v (key_bytes key)).

(** Nonce, encryption and concatenation: the tail of [encrypt_*] and the
    closure of [batch_encrypt_*]. *)
Definition encrypt_with (cipher : Cipher) (plaintext : bytes) (aad : option bytes)
    (fill : fill_result) : result bytes CryptoError :=
  let? nonce := rmap_err (fun _ => InsufficientEntropy) fill in
  let? ciphertext := rmap_err EncryptionFailed (aead_encrypt cipher nonce (default [] aad) plaintext) in
  Ok (nonce ++ ciphertext).

Definition decrypt_with (cipher : Cipher) (ciphertext_with_nonce : bytes) (aad : option bytes)
  : result bytes CryptoError :=
  let nonce := take 12 ciphertext_with_nonce in
  let ciphertext := drop 12 ciphertext_with_nonce in
  rmap_err DecryptionFailed (aead_decrypt cipher nonce (default [] aad) ciphertext).

Definition encrypt (v : aes_variant) (key : KeyMaterial) (plaintext : bytes) (aad : option bytes)
    (fill : fill_result) : result bytes CryptoError :=
  let? _ := check_key v key in
  let? _ := check_plaintext plaintext in
  let? cipher := new_cipher v key in
  encrypt_with cipher plaintext aad fill.

Definition decrypt (v : aes_variant) (key : KeyMaterial) (ciphertext_with_nonce : bytes)
    (aad : option bytes) : result bytes CryptoError :=
  let? _ := check_key v key in
  let? _ := check_ciphertext ciphertext_with_nonce in
  let? cipher := new_cipher v key in
  decrypt_with cipher ciphertext_with_nonce aad.

Definition encrypt_aes256 := encrypt Aes256.
Definition decrypt_aes256 := decrypt Aes256.
Definition encrypt_aes128 := encrypt Aes128.
Definition decrypt_aes128 := decrypt Aes128.

(** [for x in xs { check(x)? }] *)
Fixpoint check_all {A} (check : A -> result unit CryptoError) (xs : list A) : result unit CryptoError :=
  match xs with
  | [] => Ok tt
  | x :: rest => let? _ := check x in check_all check rest
  end.

(** [results.into_iter().collect()] into a [Result<Vec<_>>]. *)
Fixpoint collect {A} (results : list (result A CryptoError)) : result (list A) CryptoError :=
  match results with
  | [] => Ok []
  | r :: rest => let? a := r in let? tail := collect rest in Ok (a :: tail)
  end.

Definition batch_encrypt (v : aes_variant) (key : KeyMaterial) (plaintexts : list bytes)
    (aad : option bytes) (fills : list fill_result) : result (list bytes) CryptoError :=
  let? _ := check_key v key in
  let? _ := check_all check_plaintext plaintexts in
  let? cipher := new_cipher v key in
  collect (zip_with (fun plaintext fill => encrypt_with cipher plaintext aad fill) plaintexts fills).

Definition batch_decrypt (v : aes_variant) (key : KeyMaterial) (ciphertexts : list bytes)
    (aad : option bytes) : result (list bytes) CryptoError :=
  let? _ := check_key v key in
  let? _ := check_all check_ciphertext ciphertexts in
  let? cipher := new_cipher v key in
  collect ((fun c => decrypt_with cipher c aad) <$> ciphertexts).

Definition batch_encrypt_aes256 := batch_encrypt Aes256.
Definition batch_decrypt_aes256 := batch_decrypt Aes256.
Definition batch_encrypt_aes128 := batch_encrypt Aes128.
Definition batch_decrypt_aes128 := batch_decrypt Aes128.

(** ** Lemmas *)

Lemma check_key_Ok v key : check_key v key = Ok tt <-> length (key_bytes key) = key_size v.
Proof. unfold check_key. destruct (Nat.eqb_spec (length (key_bytes key)) (key_size v)); naive_solver. Qed.

Lemma check_ciphertext_Ok c : check_ciphertext c = Ok tt <-> (28 <= length c)%nat.
Proof.
  unfold check_ciphertext, MIN_CIPHERTEXT_SIZE.
  destruct (Nat.ltb_spec (length c) (12 + 16)); split; intros; (done || lia).
Qed.

Lemma check_plaintext_Ok p : check_plaintext p = Ok tt <-> Z.of_nat (length p) <= MAX_PLAINTEXT_SIZE.
Proof.
  unfold check_plaintext. rewrite Z.gtb_ltb.
  destruct (Z.ltb_spec MAX_PLAINTEXT_SIZE (Z.of_nat (length p))); split; intros; (done || lia).
Qed.

Lemma new_cipher_Ok v key : check_key v key = Ok tt -> exists c, new_cipher v key = Ok c.
Proof.
  intros Hl%check_key_Ok. destruct (new_from_slice_length _ _ Hl) as [c Hc].
  exists c. unfold new_cipher. by rewrite Hc.
Qed.

Lemma check_all_Ok {A} (check : A -> result unit CryptoError) xs :
  check_all check xs = Ok tt <-> Forall (fun x => check x = Ok tt) xs.
Proof.
  induction xs as [|x xs IH]; simpl; [by split|].
  rewrite rbind_Ok, Forall_cons, <- IH. split; [by intros ([] & ? & ?)|]. intros [? ?]. by exists tt.
Qed.

Lemma collect_Ok {A} (rs : list (result A CryptoError)) xs : collect rs = Ok xs <-> rs = Ok <$> xs.
Proof.
  revert xs. induction rs as [|r rs IH]; intros xs; simpl.
  - split; [by intros [= <-]|]. by destruct xs.
  - rewrite rbind_Ok. setoid_rewrite rbind_Ok. split.
    + intros (a & -> & tail & ->%IH & [= <-]). done.
    + destruct xs as [|x xs]; simpl; intros [= -> Hrs]. exists x. split; [done|].
      exists xs. by rewrite IH.
Qed.

Lemma check_all_fmap {A B} (check : B -> result unit CryptoError) (f : A -> B) xs :
  check_all check (f <$> xs) = check_all (check ∘ f) xs.
Proof. induction xs as [|x xs IH]; [done|]. rewrite fmap_cons. simpl. by rewrite IH. Qed.

(** Checking everything first, then processing everything. *)
Lemma batch_Ok {A B} (check : A -> result unit CryptoError) (op : A -> result B CryptoError) xs ys :
  rbind (check_all check xs) (fun _ => collect (op <$> xs)) = Ok ys <->
  (fun x => rbind (check x) (fun _ => op x)) <$> xs = Ok <$> ys.
Proof.
  transitivity (Forall (fun x => check x = Ok tt) xs /\ op <$> xs = Ok <$> ys).
  { rewrite rbind_Ok, <- check_all_Ok. setoid_rewrite collect_Ok. split.
    - by intros ([] & ? & ?).
    - intros [? ?]. by exists tt. }
  revert ys. induction xs as [|x xs IH]; intros [|y ys]; csimpl; try (split; [by intros []|done]).
  rewrite Forall_cons. specialize (IH ys). split.
  - intros [[-> Hxs] [= -> Hys]]. simpl. f_equal. by apply IH.
  - destruct (check x) as [[]|]; [|done]. simpl. intros [= -> Hys].
    apply IH in Hys as [? ->]. done.
Qed.

Lemma encrypt_Ok v key p aad f c :
  encrypt v key p aad f = Ok c <->
  check_key v key = Ok tt /\ check_plaintext p = Ok tt /\
  exists cipher, new_cipher v key = Ok cipher /\ encrypt_with cipher p aad f = Ok c.
Proof.
  unfold encrypt. split.
  - intros ([] & Hk & ([] & Hp & (cipher & Hc & He)%rbind_Ok)%rbind_Ok)%rbind_Ok. eauto.
  - intros (Hk & Hp & cipher & Hc & He). by rewrite Hk, Hp, Hc.
Qed.

Lemma decrypt_Ok v key c aad p :
  decrypt v key c aad = Ok p <->
  check_key v key = Ok tt /\ check_ciphertext c = Ok tt /\
  exists cipher, new_cipher v key = Ok cipher /\ decrypt_with cipher c aad = Ok p.
Proof.
  unfold decrypt. split.
  - intros ([] & Hk & ([] & Hp & (cipher & Hc & He)%rbind_Ok)%rbind_Ok)%rbind_Ok. eauto.
  - intros (Hk & Hp & cipher & Hc & He). by rewrite Hk, Hp, Hc.
Qed.

Lemma encrypt_with_Ok cipher p aad nonce c :
  encrypt_with cipher p aad (Ok nonce) = Ok c <->
  exists ct, aead_encrypt cipher nonce (default [] aad) p = Ok ct /\ c = nonce ++ ct.
Proof.
  unfold encrypt_with. simpl. rewrite rbind_Ok. setoid_rewrite rmap_err_Ok.
  split; intros (ct & He & H); exists ct; split; [done|by injection H as <-|done|by rewrite H].
Qed.

Lemma encrypt_with_inverse cipher p aad nonce c :
  length nonce = 12%nat -> (28 <= length c)%nat ->
  encrypt_with cipher p aad (Ok nonce) = Ok c <->
  take 12 c = nonce /\ decrypt_with cipher c aad = Ok p.
Proof.
  intros Hn Hc. rewrite encrypt_with_Ok. unfold decrypt_with. rewrite rmap_err_Ok. split.
  - intros (ct & He & ->). rewrite <- Hn, take_app_length, drop_app_length.
    split; [done|]. by apply aead_decrypt_encrypt.
  - intros [<- Hd]. exists (drop 12 c). rewrite take_drop. split; [|done].
    apply aead_decrypt_genuine; [|done]. rewrite length_take. lia.
Qed.

Lemma length_encrypt_with cipher p aad nonce c :
  length nonce = 12%nat -> encrypt_with cipher p aad (Ok nonce) = Ok c ->
  length c = (length p + 28)%nat.
Proof.
  intros Hn (ct & He%length_aead_encrypt & ->)%encrypt_with_Ok. rewrite length_app. lia.
Qed.

Lemma encrypt_decrypts v key p aad nonce c :
  length nonce = 12%nat -> encrypt v key p aad (Ok nonce) = Ok c -> decrypt v key c aad = Ok p.
Proof.
  intros Hn (Hk & _ & cipher & Hc & He)%encrypt_Ok.
  pose proof (length_encrypt_with _ _ _ _ _ Hn He) as Hl. apply decrypt_Ok.
  split; [done|]. split; [apply check_ciphertext_Ok; lia|]. exists cipher. split; [done|].
  by apply encrypt_with_inverse in He as [_ ?]; [|done|lia].
Qed.

Lemma encrypt_no_nonce v key p aad e c : encrypt v key p aad (Err e) <> Ok c.
Proof. by intros (_ & _ & cipher & _ & He)%encrypt_Ok. Qed.

(** ** Theorems *)

(** For a nonce of 12 bytes and a message within the limit, encryption
    under either key size yields [c] exactly when [c] starts with the nonce
    and decrypts to the message with the same associated data; [c] is then 28
    bytes longer than the message.  So every ciphertext decrypts to what was
    encrypted, and decryption accepts nothing but genuine ciphertexts. *)
Theorem aes_gcm_inverse v key p aad nonce c :
  length nonce = 12%nat -> Z.of_nat (length p) <= MAX_PLAINTEXT_SIZE ->
  (encrypt v key p aad (Ok nonce) = Ok c <-> take 12 c = nonce /\ decrypt v key c aad = Ok p) /\
  (encrypt v key p aad (Ok nonce) = Ok c -> length c = (length p + 28)%nat).
Proof.
  intros Hn Hp%check_plaintext_Ok. rewrite encrypt_Ok, decrypt_Ok. split.
  - split.
    + intros He%encrypt_Ok. split; [|by apply decrypt_Ok, (encrypt_decrypts _ _ _ _ nonce)].
      apply encrypt_Ok in He as (_ & _ & cipher & _ & (ct & _ & ->)%encrypt_with_Ok).
      by rewrite <- Hn, take_app_length.
    + intros (Ht & Hk & Hl%check_ciphertext_Ok & cipher & Hc & Hd).
      split; [done|]. split; [done|]. exists cipher. split; [done|].
      by apply encrypt_with_inverse.
  - intros (_ & _ & cipher & _ & He). by eapply length_encrypt_with.
Qed.

(** Under a key of the right size a batch succeeds exactly when every single
    operation does, with the same results in order. *)
Theorem aes_gcm_batch_agrees v key aad ps fills cs :
  length (key_bytes key) = key_size v -> length fills = length ps ->
  (batch_encrypt v key ps aad fills = Ok cs <->
     zip_with (fun p f => encrypt v key p aad f) ps fills = Ok <$> cs) /\
  (batch_decrypt v key cs aad = Ok ps <->
     (fun c => decrypt v key c aad) <$> cs = Ok <$> ps).
Proof.
  intros Hk%check_key_Ok Hl. destruct (new_cipher_Ok v key Hk) as [cipher Hc].
  unfold batch_encrypt, batch_decrypt, encrypt, decrypt. rewrite Hk, Hc. simpl. split.
  - rewrite <- (fst_zip ps fills) at 1 by lia. rewrite check_all_fmap.
    rewrite (zip_with_zip (fun p f => encrypt_with cipher p aad f)).
    rewrite (zip_with_zip (fun p f => rbind (check_plaintext p) _)).
    rewrite batch_Ok.
    match goal with |- ?f <$> ?l = _ <-> ?g <$> ?l = _ => assert (f <$> l = g <$> l) as -> end; [|done].
    apply list_fmap_ext. by intros _ [p f] _.
  - apply batch_Ok.
Qed.

End engine.

(** ** Witness *)

Import Concrete2.

Definition key0 : KeyMaterial := KeyMaterial_from_bytes (replicate 32 Byte.x42).
Definition nonce0 : bytes := replicate 12 Byte.x07.
Definition message0 : bytes := as_bytes "secret message".
Definition sealed0 : bytes := nonce0 ++ message0 ++ toy_tag (key_bytes key0) nonce0 [].

Lemma aes_gcm_inverse_witness :
  take 12 sealed0 = nonce0 /\ decrypt Aes256 key0 sealed0 None = Ok message0 /\
  length sealed0 = (length message0 + 28)%nat.
Proof.
  destruct (aes_gcm_inverse Aes256 key0 message0 None nonce0 sealed0) as [Hi Hl];
    [reflexivity|vm_compute; discriminate|].
  assert (encrypt Aes256 key0 message0 None (Ok nonce0) = Ok sealed0) as He
    by (vm_compute; reflexivity).
  destruct (proj1 Hi He) as [Ht Hd]. split; [exact Ht|]. split; [exact Hd|]. exact (Hl He).
Defined.
