(* ===== verification/SecretPath.v ===== *)
(** * Secret paths and data

    [crates/secrets/src/secret.rs]: the path type with its checks and
    segment operations, secrets, metadata and values, and the error type.
    ['/'] is a single byte in UTF-8 and never part of another character, so
    the character operations of the source are operations on the bytes of a
    string.  Wiping of buffers on drop is left out.

    The theorem at the end states that [join], [parent] and [name] fit
    together on well-formed paths. *)

From Stdlib Require Import ZArith Lia Ascii.
From stdpp Require Import base gmap strings list.
From S2P Require Import Prelude Platform.

Inductive SecretError :=
| InvalidPath (msg : string)
| NotFound (path : string)
| VersionNotFound (version : Z)
| AlreadyExists (path : string)
| AccessDenied
| LeaseExpired
| RotationFailed (msg : string)
| StorageError (msg : string)
| Encryption (msg : string)
| Decryption (msg : string)
| SerializationError (msg : string).

Abbreviation SecretId := string.
Abbreviation SecretPath := string.

(** ** The string operations used *)

Fixpoint starts_with (s p : string) {struct p} : bool :=
  match p, s with
  | EmptyString, _ => true
  | String b p', String a s' => if Ascii.eqb a b then starts_with s' p' else false
  | _, EmptyString => false
  end.

Fixpoint contains_slash (s : string) : bool :=
  match s with
  | EmptyString => false
  | String c s' => Ascii.eqb c "/" || contains_slash s'
  end.

(** [s.contains("//")] *)
Fixpoint contains_slashes (s : string) : bool :=
  match s with
  | EmptyString => false
  | String _ s' => starts_with s "//" || contains_slashes s'
  end.

(** [s.ends_with('/')] *)
Fixpoint ends_with_slash (s : string) : bool :=
  match s with
  | EmptyString => false
  | String c EmptyString => Ascii.eqb c "/"
  | String _ s' => ends_with_slash s'
  end.

(** [s.trim_end_matches('/')] *)
Fixpoint trim_end_slash (s : string) : string :=
  match s with
  | EmptyString => EmptyString
  | String c s' =>
      match trim_end_slash s' with
      | EmptyString => if Ascii.eqb c "/" then EmptyString else String c EmptyString
      | t => String c t
      end
  end.

(** The parts before and after the last slash. *)
Fixpoint rsplit_slash (s : string) : option (string * string) :=
  match s with
  | EmptyString => None
  | String c s' =>
      match rsplit_slash s' with
      | Some (before, after) => Some (String c before, after)
      | None => if Ascii.eqb c "/" then Some (EmptyString, s') else None
      end
  end.

(** ** Paths *)

Definition SecretPath_new (path : string) : result SecretPath SecretError :=
  if decide (path = EmptyString) then Err (InvalidPath "Path cannot be empty")
  else if negb (starts_with path "/") then Err (InvalidPath "Path must start with /")
  else if contains_slashes path then Err (InvalidPath "Path cannot contain //")
  else Ok path.

Definition join (self : SecretPath) (segment : string) : result SecretPath SecretError :=
  if decide (segment = EmptyString) then Err (InvalidPath "Segment cannot be empty")
  else if contains_slash segment then Err (InvalidPath "Segment cannot contain /")
  else
    let new_path := if ends_with_slash self then self +:+ segment else self +:+ "/" +:+ segment in
    SecretPath_new new_path.

Definition parent (self : SecretPath) : option SecretPath :=
  let path := trim_end_slash self in
  if decide (path = EmptyString) then None
  else
    match rsplit_slash path with
    | Some (parent, _) => Some (if decide (parent = EmptyString) then "/" else parent)
    | None => None
    end.

Definition name (self : SecretPath) : string :=
  let path := trim_end_slash self in
  match rsplit_slash path with
  | Some (_, last) => last
  | None => path
  end.

(** ** Secrets and their data *)

Section data.
(** [serde_json::Value] *)
Context {Value : Type}.

Inductive RotationInterval :=
| Seconds (s : Z)
| Days (d : Z)
| Cron (expr : string)
| Manual.

Definition as_seconds (i : RotationInterval) : option Z :=
  match i with
  | Seconds s => Some s
  | Days d => Some (d * 24 * 60 * 60)
  | Cron _ => None
  | Manual => None
  end.

Record RotationConfig := MkRotationConfig {
  interval : RotationInterval;
  engine : string;
  rc_config : Value;
  last_rotated_at : option DateTime;
  next_rotation_at : option DateTime
}.

Record SecretMetadata := MkSecretMetadata {
  labels : gmap string string;
  description : option string;
  rotation : option RotationConfig;
  expires_at : option DateTime;
  owner : option string
}.

Inductive SecretValue :=
| VString (s : string)
| VBinary (b : bytes)
| VJson (j : Value).

Record SecretData := MkSecretData { sd_data : gmap string SecretValue }.

Record Secret := MkSecret {
  s_id : SecretId;
  s_path : SecretPath;
  current_version : Z;
  metadata : SecretMetadata;
  s_created_at : DateTime;
  s_updated_at : DateTime
}.
End data.
Arguments RotationConfig : clear implicits.
Arguments SecretMetadata : clear implicits.
Arguments SecretValue : clear implicits.
Arguments SecretData : clear implicits.
Arguments Secret : clear implicits.

(** ** Lemmas on the string operations *)

Lemma contains_slash_false c s :
  contains_slash (String c s) = false <-> Ascii.eqb c "/" = false /\ contains_slash s = false.
Proof. simpl. apply orb_false_iff. Qed.

Lemma contains_slashes_cons c s :
  contains_slashes (String c s) = (Ascii.eqb c "/" && starts_with s "/") || contains_slashes s.
Proof. simpl. by destruct (Ascii.eqb c "/"), s. Qed.

Lemma app_cons c (p q : string) : String c p +:+ q = String c (p +:+ q).
Proof. done. Qed.

(** A segment without slash is its own last part. *)
Lemma rsplit_segment seg : contains_slash seg = false -> rsplit_slash seg = None.
Proof.
  induction seg as [|c seg IH]; [done|]. intros [Hc Hs]%contains_slash_false.
  simpl. by rewrite IH, Hc.
Qed.

Lemma rsplit_app p seg :
  contains_slash seg = false -> rsplit_slash (p +:+ String "/" seg) = Some (p, seg).
Proof.
  intros Hs. induction p as [|c p IH]; simpl; [by rewrite rsplit_segment|].
  by rewrite IH.
Qed.

Lemma trim_end_segment seg :
  contains_slash seg = false -> trim_end_slash seg = seg.
Proof.
  induction seg as [|c seg IH]; [done|]. intros [Hc Hs]%contains_slash_false.
  simpl. rewrite IH, Hc by done. by destruct seg.
Qed.

Lemma trim_end_app p seg :
  seg <> EmptyString -> contains_slash seg = false -> trim_end_slash (p +:+ seg) = p +:+ seg.
Proof.
  intros Hn Hs. induction p as [|c p IH]; simpl; [by apply trim_end_segment|].
  rewrite IH. by destruct p, seg.
Qed.

Lemma contains_slashes_segment seg : contains_slash seg = false -> contains_slashes seg = false.
Proof.
  induction seg as [|c seg IH]; [done|]. intros [Hc Hs]%contains_slash_false.
  by rewrite contains_slashes_cons, Hc, IH.
Qed.

Lemma contains_slashes_app p seg :
  contains_slash seg = false -> contains_slashes (p +:+ seg) = contains_slashes p.
Proof.
  intros Hs. induction p as [|c p IH]; [by apply contains_slashes_segment|].
  rewrite app_cons, !contains_slashes_cons, IH. f_equal. f_equal.
  destruct p as [|a p]; [|done]. destruct seg as [|a seg]; [done|].
  apply contains_slash_false in Hs as [Hc _]. simpl. by rewrite Hc.
Qed.

Lemma contains_slashes_snoc p :
  contains_slashes p = false -> ends_with_slash p = false -> contains_slashes (p +:+ "/") = false.
Proof.
  induction p as [|c p IH]; [done|]. rewrite app_cons, !contains_slashes_cons.
  intros [H1 H2]%orb_false_iff He. destruct p as [|a p]; [simpl in *; by rewrite He|].
  by rewrite (IH H2 He), app_cons, orb_false_r.
Qed.

Lemma trim_end_snoc p :
  ends_with_slash p = true -> exists q, p = q +:+ "/".
Proof.
  induction p as [|c p IH]; [done|]. destruct p as [|a p].
  - simpl. intros ->%Ascii.eqb_eq. by exists EmptyString.
  - intros He. destruct IH as [q Hq]; [exact He|]. exists (String c q). by rewrite Hq.
Qed.

Lemma trim_end_id p : ends_with_slash p = false -> trim_end_slash p = p.
Proof.
  induction p as [|c p IH]; [done|]. intros He. destruct p as [|a p].
  - simpl in *. by rewrite He.
  - change (match trim_end_slash (String a p) with
      | EmptyString => if Ascii.eqb c "/" then EmptyString else String c EmptyString
      | t => String c t end = String c (String a p)).
    by rewrite IH by exact He.
Qed.

Lemma trim_end_app_slash q : trim_end_slash (q +:+ "/") = trim_end_slash q.
Proof. induction q as [|c q IH]; [done|]. rewrite app_cons. simpl. by rewrite IH. Qed.

Lemma contains_slashes_end q : contains_slashes (q +:+ "/") = false -> ends_with_slash q = false.
Proof.
  induction q as [|c q IH]; [done|]. rewrite app_cons, contains_slashes_cons.
  intros [H1 H2]%orb_false_iff. destruct q as [|a q].
  - simpl in *. by rewrite andb_true_r in H1.
  - exact (IH H2).
Qed.

Lemma starts_with_refl_app p s : starts_with (p +:+ s) p = true.
Proof. induction p as [|c p IH]; [done|]. rewrite app_cons. simpl. by rewrite Ascii.eqb_refl. Qed.

Lemma starts_with_app p q s : starts_with p q = true -> starts_with (p +:+ s) q = true.
Proof.
  revert p. induction q as [|b q IH]; intros p; [done|]. destruct p as [|a p]; [done|].
  rewrite app_cons. simpl. destruct (Ascii.eqb a b); [apply IH|done].
Qed.

Lemma string_app_assoc (a b c : string) : (a +:+ b) +:+ c = a +:+ (b +:+ c).
Proof. induction a as [|x a IH]; [done|]. by rewrite !app_cons, IH. Qed.

(** ** Theorem *)

Lemma SecretPath_new_Ok p q :
  SecretPath_new p = Ok q <->
  q = p /\ starts_with p "/" = true /\ contains_slashes p = false.
Proof.
  unfold SecretPath_new. destruct (decide (p = EmptyString)) as [->|]; [by split; [|intros (_ & [=] & _)]|].
  destruct (starts_with p "/"); simpl; [|by split; [|intros (_ & [=] & _)]].
  destruct (contains_slashes p); [by split; [|intros (_ & _ & [=])]|].
  split; [by intros [= <-]|by intros (-> & _ & _)].
Qed.

Definition path_wf (p : SecretPath) : Prop := SecretPath_new p = Ok p.

(** The path without a slash at its end, ["/"] for the root. *)
Definition canonical (p : SecretPath) : SecretPath :=
  if decide (trim_end_slash p = EmptyString) then "/" else trim_end_slash p.

(** The checks of a path that ends in a slash and a segment. *)
Lemma joined_wf q seg :
  starts_with (q +:+ "/") "/" = true -> contains_slashes (q +:+ "/") = false ->
  contains_slash seg = false -> path_wf (q +:+ "/" +:+ seg).
Proof.
  intros H1 H2 Hs. apply SecretPath_new_Ok. rewrite <- string_app_assoc. split; [done|]. split.
  - by apply starts_with_app.
  - by rewrite contains_slashes_app.
Qed.

Lemma joined_parts q seg :
  seg <> EmptyString -> contains_slash seg = false ->
  name (q +:+ "/" +:+ seg) = seg /\
  parent (q +:+ "/" +:+ seg) = Some (if decide (q = EmptyString) then "/" else q).
Proof.
  intros Hn Hs. unfold name, parent.
  rewrite <- string_app_assoc, trim_end_app, string_app_assoc by done.
  change ("/" +:+ seg) with (String "/" seg). rewrite rsplit_app by done.
  split; [done|]. rewrite decide_False; [done|]. by destruct q.
Qed.

(** On a well-formed path, [join] accepts every non-empty segment without
    slash and gives a well-formed path under the given one, whose [name] is
    the segment and whose [parent] is the given path up to a final slash. *)
Theorem secret_path_join (p : SecretPath) (segment : string) :
  path_wf p -> segment <> EmptyString -> contains_slash segment = false ->
  exists q, join p segment = Ok q /\ path_wf q /\ starts_with q p = true /\
    name q = segment /\ parent q = Some (canonical p).
Proof.
  intros (_ & H1 & H2)%SecretPath_new_Ok Hn Hs. unfold join, canonical.
  rewrite decide_False, Hs by done. destruct (ends_with_slash p) eqn:He.
  - apply trim_end_snoc in He as [q ->]. rewrite string_app_assoc.
    exists (q +:+ "/" +:+ segment). pose proof (joined_wf q segment H1 H2 Hs) as Hwf.
    destruct (joined_parts q segment Hn Hs) as [-> ->].
    rewrite trim_end_app_slash, trim_end_id by (by apply contains_slashes_end).
    repeat split; try exact Hwf. rewrite <- string_app_assoc. apply starts_with_refl_app.
  - exists (p +:+ "/" +:+ segment).
    assert (path_wf (p +:+ "/" +:+ segment)) as Hwf.
    { apply joined_wf; [by apply starts_with_app|by apply contains_slashes_snoc|done]. }
    destruct (joined_parts p segment Hn Hs) as [-> ->]. rewrite trim_end_id by done.
    repeat split; try exact Hwf. apply starts_with_refl_app.
Qed.

Lemma secret_path_join_witness :
  name "/app/db/prod" = "prod" /\ parent "/app/db/prod" = Some "/app/db".
Proof.
  destruct (secret_path_join "/app/db" "prod") as (q & Hj & _ & _ & Hn & Hp);
    [reflexivity|discriminate|reflexivity|].
  vm_compute in Hj. injection Hj as <-. split; [exact Hn|exact Hp].
Defined.
