(* ===== verification/SecretVersions.v ===== *)
(** * Retention of secret versions

    [crates/secrets/src/version.rs]: versions, retention policies and the
    choice of versions to clean up.  [now] is the clock; [sort_by_key] is a
    merge sort on the version numbers, newest first.

    The theorem characterises the versions chosen by what is asked of them,
    without the sorted list and its indices, and relates the choice to
    [can_cleanup]. *)

From Stdlib Require Import ZArith Lia.
From stdpp Require Import base gmap strings list sorting.
From S2P Require Import Prelude Platform SecretPath.

Record EncryptedSecretData := MkEncryptedSecretData {
  algorithm : string;
  key_id : string;
  ciphertext : bytes;
  nonce : bytes
}.
Definition unencrypted_placeholder : EncryptedSecretData := MkEncryptedSecretData "none" "none" [] [].

Record SecretVersion := MkSecretVersion {
  sv_secret_id : SecretId;
  sv_version : Z;
  sv_data : EncryptedSecretData;
  sv_created_at : DateTime;
  sv_created_by : option string;
  sv_destroyed : bool;
  sv_destroyed_at : option DateTime
}.

Definition SecretVersion_new (secret_id : SecretId) (version : Z) (data : EncryptedSecretData)
    (created_by : option string) (now : DateTime) : SecretVersion :=
  MkSecretVersion secret_id version data now created_by false None.

Definition destroy (now : DateTime) (v : SecretVersion) : SecretVersion :=
  if negb (sv_destroyed v) then
    MkSecretVersion (sv_secret_id v) (sv_version v) (sv_data v) (sv_created_at v) (sv_created_by v)
      true (Some now)
  else v.
Definition is_usable (v : SecretVersion) : bool := negb (sv_destroyed v).

Record VersionPolicy := MkVersionPolicy {
  max_versions : option Z;
  min_retention : option Duration;
  auto_destroy : bool
}.
Definition VersionPolicy_default : VersionPolicy := MkVersionPolicy (Some 10) (Some (nanos (7 * 86400))) false.
Definition with_max_versions (max : Z) (p : VersionPolicy) : VersionPolicy :=
  MkVersionPolicy (Some max) (min_retention p) (auto_destroy p).
Definition with_min_retention (retention : Duration) (p : VersionPolicy) : VersionPolicy :=
  MkVersionPolicy (max_versions p) (Some retention) (auto_destroy p).
Definition with_auto_destroy (enabled : bool) (p : VersionPolicy) : VersionPolicy :=
  MkVersionPolicy (max_versions p) (min_retention p) enabled.
Definition keep_all : VersionPolicy := MkVersionPolicy None None false.
Definition keep_latest_only : VersionPolicy := MkVersionPolicy (Some 1) None true.

(** [VersionManager] holds a policy and nothing else. *)
Definition newer_first (a b : SecretVersion) : Prop := sv_version b <= sv_version a.
#[export] Instance newer_first_dec : RelDecision newer_first.
Proof. intros a b. unfold newer_first. apply _. Defined.

Definition should_cleanup (policy : VersionPolicy) (now : DateTime) (i : nat) (v : SecretVersion) : bool :=
  match max_versions policy with
  | Some max =>
      if Z.of_nat i >=? max then
        match min_retention policy with
        | Some min_ret => now - sv_created_at v >? min_ret
        | None => true
        end
      else false
  | None => false
  end.

Fixpoint cleanup_loop (policy : VersionPolicy) (now : DateTime) (i : nat) (sorted : list SecretVersion)
  : list Z :=
  match sorted with
  | [] => []
  | v :: rest =>
      let to_cleanup := cleanup_loop policy now (S i) rest in
      if sv_destroyed v then to_cleanup
      else if should_cleanup policy now i v && auto_destroy policy then sv_version v :: to_cleanup
      else to_cleanup
  end.

Definition versions_to_cleanup (policy : VersionPolicy) (versions : list SecretVersion) (now : DateTime)
  : list Z :=
  cleanup_loop policy now 0 (merge_sort newer_first versions).

Definition can_cleanup (policy : VersionPolicy) (v : SecretVersion) (current_version : Z) (now : DateTime)
  : bool :=
  if sv_version v =? current_version then false
  else if sv_destroyed v then false
  else
    match min_retention policy with
    | Some min_ret => negb (now - sv_created_at v <=? min_ret)
    | None => true
    end.

(** ** Lemmas *)

#[export] Instance newer_first_total : Total newer_first.
Proof. intros a b. unfold newer_first. lia. Qed.
#[export] Instance newer_first_trans : Transitive newer_first.
Proof. intros a b c. unfold newer_first. lia. Qed.

(** The number of versions in [vs] newer than [v]. *)
Definition newer (vs : list SecretVersion) (v : SecretVersion) : nat :=
  length (filter (fun w => sv_version v < sv_version w) vs).

Lemma elem_of_cleanup_loop policy now i sorted n :
  n ∈ cleanup_loop policy now i sorted <->
  exists j v, sorted !! j = Some v /\ sv_version v = n /\ sv_destroyed v = false /\
    should_cleanup policy now (i + j) v = true /\ auto_destroy policy = true.
Proof.
  revert i. induction sorted as [|w sorted IH]; intros i; simpl.
  - split; [by intros ?%elem_of_nil|]. by intros (j & v & Hj & _).
  - transitivity ((sv_version w = n /\ sv_destroyed w = false /\
      should_cleanup policy now i w = true /\ auto_destroy policy = true) \/
      n ∈ cleanup_loop policy now (S i) sorted).
    { destruct (sv_destroyed w); [split; [by right|by intros [(_ & ? & _)|?]]|].
      destruct (should_cleanup policy now i w); simpl; [|split; [by right|by intros [(_ & _ & ? & _)|?]]].
      destruct (auto_destroy policy); [|split; [by right|by intros [(_ & _ & _ & ?)|?]]].
      rewrite elem_of_cons. split; [intros [->|?]; [by left|by right]|].
      intros [(<- & _)|?]; [by left|by right]. }
    rewrite IH. split.
    + intros [(? & ? & ? & ?)|(j & v & Hj & ?)].
      * exists 0%nat, w. by rewrite Nat.add_0_r.
      * exists (S j), v. by rewrite <- Nat.add_succ_comm.
    + intros ([|j] & v & Hj & ?); simpl in Hj.
      * injection Hj as <-. left. by rewrite <- (Nat.add_0_r i).
      * right. exists j, v. by rewrite Nat.add_succ_comm.
Qed.

Lemma newer_none s v : Forall (newer_first v) s -> newer s v = 0%nat.
Proof.
  unfold newer, newer_first. induction 1 as [|w s Hw _ IH]; [done|].
  by rewrite filter_cons, decide_False by lia.
Qed.

(** In a list sorted newest first, a version stands at the number of newer
    ones. *)
Lemma sorted_position s j v :
  StronglySorted newer_first s -> NoDup (sv_version <$> s) -> s !! j = Some v -> newer s v = j.
Proof.
  intros Hs. revert j. induction Hs as [|w s Hs IH Hw]; intros j; [done|].
  rewrite fmap_cons, NoDup_cons. intros [Hn Hd] Hj. destruct j as [|j]; simpl in Hj.
  - injection Hj as <-. apply newer_none. constructor; [unfold newer_first; lia|done].
  - unfold newer. rewrite filter_cons, decide_True; [simpl; f_equal; by apply IH|].
    apply list_elem_of_lookup_2 in Hj as Hv. rewrite Forall_forall in Hw. specialize (Hw v Hv).
    unfold newer_first in Hw. assert (sv_version v <> sv_version w); [|lia].
    intros E. apply Hn. rewrite <- E. by apply list_elem_of_fmap_2.
Qed.

Lemma newer_perm s vs v : s ≡ₚ vs -> newer s v = newer vs v.
Proof. intros Hp. unfold newer. by rewrite Hp. Qed.

(** A version is chosen by its number of newer versions. *)
Lemma versions_to_cleanup_spec policy vs now n :
  NoDup (sv_version <$> vs) ->
  n ∈ versions_to_cleanup policy vs now <->
  exists v, v ∈ vs /\ sv_version v = n /\ sv_destroyed v = false /\
    should_cleanup policy now (newer vs v) v = true /\ auto_destroy policy = true.
Proof.
  intros Hd. unfold versions_to_cleanup. rewrite elem_of_cleanup_loop. simpl.
  pose proof (merge_sort_Permutation newer_first vs) as Hp.
  assert (forall j v, merge_sort newer_first vs !! j = Some v -> newer vs v = j) as Hpos.
  { intros j v Hj. rewrite <- (newer_perm _ _ v Hp). apply sorted_position; [|by rewrite Hp|done].
    apply Sorted_StronglySorted; [apply _|]. apply Sorted_merge_sort, _. }
  split.
  - intros (j & v & Hj & ? & ? & ? & ?). exists v. rewrite (Hpos j v Hj).
    split; [|done]. rewrite <- Hp. by eapply list_elem_of_lookup_2.
  - intros (v & Hv & ?). rewrite <- Hp in Hv. apply list_elem_of_lookup_1 in Hv as [j Hj].
    exists j, v. by rewrite <- (Hpos j v Hj) at 2.
Qed.

Lemma should_cleanup_spec policy now i v :
  should_cleanup policy now i v = true <->
  exists max, max_versions policy = Some max /\ max <= Z.of_nat i /\
    forall r, min_retention policy = Some r -> r < now - sv_created_at v.
Proof.
  unfold should_cleanup. destruct (max_versions policy) as [max|]; [|by split; [|intros (? & ? & _)]].
  rewrite Z.geb_leb. destruct (Z.leb_spec max (Z.of_nat i)).
  2: { split; [done|]. intros (m & [= <-] & ? & _). lia. }
  destruct (min_retention policy) as [r|].
  - rewrite Z.gtb_ltb, Z.ltb_lt. split.
    + intros Hr. exists max. by repeat split; [done|intros ? [= <-]].
    + intros (m & _ & _ & Hr). by apply Hr.
  - split; [|done]. intros _. by exists max.
Qed.

Lemma same_version vs v w :
  NoDup (sv_version <$> vs) -> v ∈ vs -> w ∈ vs -> sv_version v = sv_version w -> v = w.
Proof.
  intros Hd [i Hi]%list_elem_of_lookup_1 [j Hj]%list_elem_of_lookup_1 E.
  assert (i = j) as ->; [|congruence]. eapply (NoDup_lookup _ _ _ (sv_version v) Hd).
  - by rewrite list_lookup_fmap, Hi.
  - by rewrite list_lookup_fmap, Hj, E.
Qed.

(** ** Theorem *)

(** Of versions with different numbers, those chosen for clean-up are
    exactly the ones that are not destroyed, have at least the maximum number
    of newer versions, and are older than the retention period, and none are
    chosen unless automatic destruction is on.  With a maximum of at least
    one, every version chosen passes [can_cleanup], so the current version is
    never chosen. *)
Theorem cleanup_choice policy vs now n :
  NoDup (sv_version <$> vs) ->
  (n ∈ versions_to_cleanup policy vs now <->
   auto_destroy policy = true /\ exists max v, max_versions policy = Some max /\ v ∈ vs /\
     sv_version v = n /\ sv_destroyed v = false /\ max <= Z.of_nat (newer vs v) /\
     (forall r, min_retention policy = Some r -> r < now - sv_created_at v)) /\
  (forall max c v, max_versions policy = Some max -> 1 <= max -> c ∈ vs ->
     (forall w, w ∈ vs -> sv_version w <= sv_version c) -> v ∈ vs -> sv_version v = n ->
     n ∈ versions_to_cleanup policy vs now -> can_cleanup policy v (sv_version c) now = true).
Proof.
  intros Hd. split.
  - rewrite versions_to_cleanup_spec by done. split.
    + intros (v & Hv & Hn & Hdes & (max & Hm & Hb & Hr)%should_cleanup_spec & Ha).
      split; [done|]. by exists max, v.
    + intros (Ha & max & v & Hm & Hv & Hn & Hdes & Hb & Hr). exists v.
      repeat (split; [done|]). split; [|done]. apply should_cleanup_spec. by exists max.
  - intros max c v Hmax H1 Hc Hcur Hv Hn. rewrite versions_to_cleanup_spec by done.
    intros (w & Hw & Hnw & Hdes & (max' & Hm & Hb & Hr)%should_cleanup_spec & _).
    assert (w = v) as -> by (eapply same_version; congruence || done). simplify_eq.
    unfold can_cleanup. rewrite Hdes. destruct (Z.eqb_spec (sv_version v) (sv_version c)) as [E|_].
    + rewrite newer_none in Hb; [lia|]. apply Forall_forall. intros u Hu. unfold newer_first.
      rewrite E. by apply Hcur.
    + destruct (min_retention policy) as [r|]; [|done]. specialize (Hr r eq_refl).
      destruct (Z.leb_spec (now - sv_created_at v) r); [lia|done].
Qed.

Definition version0 (n created : Z) (destroyed : bool) : SecretVersion :=
  MkSecretVersion "db" n unencrypted_placeholder created None destroyed None.
Definition versions0 : list SecretVersion :=
  [version0 2 20 false; version0 4 40 false; version0 1 10 true; version0 3 30 false].

Lemma cleanup_choice_witness :
  can_cleanup keep_latest_only (version0 2 20 false) 4 100 = true.
Proof.
  destruct (cleanup_choice keep_latest_only versions0 100 2) as [_ H];
    [apply (bool_decide_unpack _); vm_compute; exact I|].
  apply (H 1 (version0 4 40 false)); [reflexivity|lia| | | |reflexivity|].
  - right. left.
  - intros w Hw. repeat (apply elem_of_cons in Hw as [->|Hw]; [vm_compute; discriminate|]).
    by apply elem_of_nil in Hw.
  - left.
  - assert (versions_to_cleanup keep_latest_only versions0 100 = [3; 2]) as -> by (vm_compute; reflexivity).
    right. left.
Defined.
