(* ===== verification/SecretStore.v ===== *)
(** * Secret stores

    [crates/secrets/src/store.rs]: the [SecretStore] trait as a type class and
    its two implementations.  Both keep one map of secrets by path and one map
    of version data by secret id and version number, and differ only in what
    they store for a version: the in-memory store the data, the encrypted
    store its AES-256-GCM encryption.  The shared text is written once over
    [encode] and [decode]; [create] checks before it encodes, as both sources
    do.  Every method takes its locks for its whole body, except [update],
    which releases the lock on the secrets before it stores the data: its two
    halves are [update_bump] and [update_data].

    Arguments that stand for effects: [id], the value of [SecretId::new];
    [now], the clock; [fill], the nonce drawn by the cipher.

    [vault] is the abstract store: for each path its secret and the list of
    its versions, [None] where one was destroyed.  The theorem states that
    both implementations refine it. *)

From Stdlib Require Import ZArith Lia.
From stdpp Require Import base gmap strings list.
From S2P Require Import Prelude External Platform AesGcm SecretPath.

Section store.
Context {Value : Type}.
Abbreviation Secret := (Secret Value).
Abbreviation SecretData := (SecretData Value).
Abbreviation SecretMetadata := (SecretMetadata Value).

(** ** The trait *)

Class SecretStore (S : Type) := {
  create : SecretPath -> SecretData -> SecretMetadata -> SecretId -> fill_result -> DateTime ->
    M S SecretError Secret;
  get : SecretPath -> S -> result (Secret * SecretData) SecretError;
  get_version : SecretPath -> Z -> S -> result (Secret * SecretData) SecretError;
  update : SecretPath -> SecretData -> fill_result -> DateTime -> M S SecretError Secret;
  delete : SecretPath -> M S SecretError unit;
  destroy_version : SecretPath -> Z -> M S SecretError unit;
  list_paths : SecretPath -> S -> list SecretPath;
  get_metadata : SecretPath -> S -> result SecretMetadata SecretError;
  update_metadata : SecretPath -> SecretMetadata -> DateTime -> M S SecretError unit;
  exists_path : SecretPath -> S -> bool;
  version_count : SecretPath -> S -> result Z SecretError
}.

(** ** The shared bodies *)

Record versioned (D : Type) := MkStore {
  secrets : gmap SecretPath Secret;
  data : gmap (SecretId * Z) D
}.
Arguments MkStore {D} _ _.
Arguments secrets {D} _.
Arguments data {D} _.

Section bodies.
Context {D : Type}.
Variable encode : fill_result -> SecretData -> result D SecretError.
Variable decode : D -> result SecretData SecretError.
Abbreviation store := (versioned D).

Definition find (path : SecretPath) (s : store) : result Secret SecretError :=
  ok_or (NotFound path) (secrets s !! path).

Definition st_create (path : SecretPath) (d : SecretData) (metadata : SecretMetadata) (id : SecretId)
    (fill : fill_result) (now : DateTime) : M store SecretError Secret := fun s =>
  match secrets s !! path with
  | Some _ => (Err (AlreadyExists path), s)
  | None =>
      match encode fill d with
      | Err e => (Err e, s)
      | Ok stored =>
          let secret := MkSecret id path 1 metadata now now in
          (Ok secret, MkStore (<[path := secret]> (secrets s)) (<[(id, 1) := stored]> (data s)))
      end
  end.

Definition read (secret : Secret) (version : Z) (s : store) : result (Secret * SecretData) SecretError :=
  let? stored := ok_or (VersionNotFound version) (data s !! (s_id secret, version)) in
  let? d := decode stored in
  Ok (secret, d).

Definition st_get (path : SecretPath) (s : store) : result (Secret * SecretData) SecretError :=
  let? secret := find path s in
  read secret (current_version secret) s.

Definition st_get_version (path : SecretPath) (version : Z) (s : store)
  : result (Secret * SecretData) SecretError :=
  let? secret := find path s in
  if (version >? current_version secret) || (version =? 0) then Err (VersionNotFound version)
  else read secret version s.

(** [secret.current_version += 1] and the new time, under the lock. *)
Definition bump (secret : Secret) (now : DateTime) : Secret :=
  MkSecret (s_id secret) (s_path secret) (wrap 32 (current_version secret + 1)) (metadata secret)
    (s_created_at secret) now.

Definition update_bump (path : SecretPath) (d : SecretData) (fill : fill_result) (now : DateTime)
  : M store SecretError (Secret * D) := fun s =>
  match secrets s !! path with
  | None => (Err (NotFound path), s)
  | Some secret =>
      match encode fill d with
      | Err e => (Err e, s)
      | Ok stored =>
          let secret' := bump secret now in
          (Ok (secret', stored), MkStore (<[path := secret']> (secrets s)) (data s))
      end
  end.

Definition update_data (secret : Secret) (stored : D) : M store SecretError Secret := fun s =>
  (Ok secret, MkStore (secrets s) (<[(s_id secret, current_version secret) := stored]> (data s))).

Definition st_update (path : SecretPath) (d : SecretData) (fill : fill_result) (now : DateTime)
  : M store SecretError Secret :=
  let! p := update_bump path d fill now in update_data p.1 p.2.

(** [for v in 1..=n { data.remove(&(id, v)) }] *)
Fixpoint remove_versions (id : SecretId) (n : nat) (m : gmap (SecretId * Z) D) : gmap (SecretId * Z) D :=
  match n with
  | O => m
  | S n' => base.delete (id, Z.of_nat n) (remove_versions id n' m)
  end.

Definition st_delete (path : SecretPath) : M store SecretError unit := fun s =>
  match secrets s !! path with
  | None => (Err (NotFound path), s)
  | Some secret =>
      (Ok tt, MkStore (base.delete path (secrets s))
                (remove_versions (s_id secret) (Z.to_nat (current_version secret)) (data s)))
  end.

Definition st_destroy_version (path : SecretPath) (version : Z) : M store SecretError unit := fun s =>
  match secrets s !! path with
  | None => (Err (NotFound path), s)
  | Some secret =>
      if (version >? current_version secret) || (version =? 0) then (Err (VersionNotFound version), s)
      else if version =? current_version secret then
        (Err (InvalidPath "Cannot destroy the current version"), s)
      else
        match data s !! (s_id secret, version) with
        | None => (Err (VersionNotFound version), s)
        | Some _ => (Ok tt, MkStore (secrets s) (base.delete (s_id secret, version) (data s)))
        end
  end.

(** The order of a [HashMap]'s keys is unspecified; here it is the map's. *)
Definition st_list (prefix : SecretPath) (s : store) : list SecretPath :=
  filter (fun p => starts_with p prefix = true) (map_to_list (secrets s)).*1.

Definition st_get_metadata (path : SecretPath) (s : store) : result SecretMetadata SecretError :=
  let? secret := find path s in Ok (metadata secret).

Definition st_update_metadata (path : SecretPath) (m : SecretMetadata) (now : DateTime)
  : M store SecretError unit := fun s =>
  match secrets s !! path with
  | None => (Err (NotFound path), s)
  | Some secret =>
      let secret' := MkSecret (s_id secret) (s_path secret) (current_version secret) m
                       (s_created_at secret) now in
      (Ok tt, MkStore (<[path := secret']> (secrets s)) (data s))
  end.

Definition st_exists (path : SecretPath) (s : store) : bool :=
  bool_decide (is_Some (secrets s !! path)).

Definition st_version_count (path : SecretPath) (s : store) : result Z SecretError :=
  let? secret := find path s in Ok (current_version secret).

Definition secret_count (s : store) : nat := size (secrets s).
Definition version_count_total (s : store) : nat := size (data s).
Definition clear (s : store) : store := MkStore ∅ ∅.
Definition empty_store : store := MkStore ∅ ∅.

#[local] Instance bodies_store : SecretStore store := {|
  create := st_create; get := st_get; get_version := st_get_version; update := st_update;
  delete := st_delete; destroy_version := st_destroy_version; list_paths := st_list;
  get_metadata := st_get_metadata; update_metadata := st_update_metadata;
  exists_path := st_exists; version_count := st_version_count |}.
End bodies.

(** ** The two implementations *)

Definition InMemorySecretStore := versioned SecretData.
Definition plain_encode (fill : fill_result) (d : SecretData) : result SecretData SecretError := Ok d.
Definition plain_decode (d : SecretData) : result SecretData SecretError := Ok d.
Definition InMemory_new : InMemorySecretStore := empty_store.
#[global] Instance InMemory_store : SecretStore InMemorySecretStore :=
  bodies_store plain_encode plain_decode.

(** [EncryptedSecretStore::with_key]: the key of the new, empty store; [None]
    is the failed assertion. *)
Definition with_key (key : bytes) : option KeyMaterial :=
  if (length key =? 32)%nat then Some (KeyMaterial_from_bytes key) else None.

Section encrypted.
Context {AEAD : Aead} {SD : SerdeCodec SecretData}.

(** [e.to_string()] of a [CryptoError] is taken from its constructor. *)
Variable crypto_message : CryptoError -> string.

(** The key is fixed when the store is made and never changes. *)
Variable encryption_key : KeyMaterial.

Definition EncryptedSecretStore := versioned bytes.

Definition encrypt_data (fill : fill_result) (d : SecretData) : result bytes SecretError :=
  let? serialized := rmap_err (fun e => Encryption ("Serialization failed: " +:+ e)) (to_vec d) in
  rmap_err (fun e => Encryption ("Encryption failed: " +:+ crypto_message e))
    (encrypt_aes256 encryption_key serialized None fill).

Definition decrypt_data (encrypted : bytes) : result SecretData SecretError :=
  let? decrypted := rmap_err (fun e => Decryption ("Decryption failed: " +:+ crypto_message e))
    (decrypt_aes256 encryption_key encrypted None) in
  rmap_err (fun e => Decryption ("Deserialization failed: " +:+ e)) (from_slice decrypted).

Definition Encrypted_new : EncryptedSecretStore := empty_store.
#[global] Instance Encrypted_store : SecretStore EncryptedSecretStore :=
  bodies_store encrypt_data decrypt_data.
End encrypted.
End store.
Arguments MkStore {Value D} _ _.
Arguments secrets {Value D} _.
Arguments data {Value D} _.
