(* ===== verification/SecretSpec.v ===== *)
(** * Versioned vaults: what a secret store promises

    The abstract store maps a path to its secret and the list of its
    versions.  [StoreRefines] states that an implementation of the
    [SecretStore] trait behaves like it: every request is answered as the
    vault answers it, except that a write whose data cannot be stored is
    refused and changes nothing, and that the data of a write may be changed
    by its encoding.  Both implementations of [SecretStore] are
    instances; clients such as [SecretsManager] use only the interface. *)

From Stdlib Require Import ZArith Lia.
From stdpp Require Import base gmap strings list.
From S2P Require Import Prelude External Platform AesGcm SecretPath SecretStore.

Section spec.
Context {Value : Type}.
Abbreviation Secret := (Secret Value).
Abbreviation SecretData := (SecretData Value).
Abbreviation SecretMetadata := (SecretMetadata Value).

(** ** Requests and responses *)

Inductive request :=
| RCreate (path : SecretPath) (d : SecretData) (m : SecretMetadata) (id : SecretId)
    (fill : fill_result) (now : DateTime)
| RGet (path : SecretPath)
| RGetVersion (path : SecretPath) (version : Z)
| RUpdate (path : SecretPath) (d : SecretData) (fill : fill_result) (now : DateTime)
| RDelete (path : SecretPath)
| RDestroy (path : SecretPath) (version : Z)
| RList (prefix : SecretPath)
| RGetMetadata (path : SecretPath)
| RUpdateMetadata (path : SecretPath) (m : SecretMetadata) (now : DateTime)
| RExists (path : SecretPath)
| RCount (path : SecretPath).

Inductive response :=
| PSecret (r : result Secret SecretError)
| PData (r : result (Secret * SecretData) SecretError)
| PUnit (r : result unit SecretError)
| PPaths (paths : list SecretPath)
| PMetadata (r : result SecretMetadata SecretError)
| PBool (b : bool)
| PCount (r : result Z SecretError).

Definition answer {A S} (f : A -> response) (p : A * S) : response * S := (f p.1, p.2).

Definition exec {S} `{!SecretStore S} (q : request) (s : S) : response * S :=
  match q with
  | RCreate path d m id fill now => answer PSecret (create path d m id fill now s)
  | RGet path => (PData (get path s), s)
  | RGetVersion path version => (PData (get_version path version s), s)
  | RUpdate path d fill now => answer PSecret (update path d fill now s)
  | RDelete path => answer PUnit (delete path s)
  | RDestroy path version => answer PUnit (destroy_version path version s)
  | RList prefix => (PPaths (list_paths prefix s), s)
  | RGetMetadata path => (PMetadata (get_metadata path s), s)
  | RUpdateMetadata path m now => answer PUnit (update_metadata path m now s)
  | RExists path => (PBool (exists_path path s), s)
  | RCount path => (PCount (version_count path s), s)
  end.

(** ** The vault *)

Record entry := MkEntry { e_secret : Secret; e_versions : list (option SecretData) }.
Abbreviation vault := (gmap SecretPath entry).

(** Version [n], counted from 1, if it exists and was not destroyed. *)
Definition version (e : entry) (n : Z) : option SecretData :=
  if 1 <=? n then mjoin (e_versions e !! Z.to_nat (n - 1)) else None.
Definition versions (e : entry) : Z := Z.of_nat (length (e_versions e)).

Definition v_read (e : entry) (n : Z) : result (Secret * SecretData) SecretError :=
  match version e n with
  | Some d => Ok (e_secret e, d)
  | None => Err (VersionNotFound n)
  end.

Definition new_version (e : entry) (d : SecretData) (now : DateTime) : entry :=
  let s := e_secret e in
  MkEntry (MkSecret (s_id s) (s_path s) (versions e + 1) (metadata s) (s_created_at s) now)
    (e_versions e ++ [Some d]).

Definition destroyed (e : entry) (n : Z) : entry :=
  MkEntry (e_secret e) (<[Z.to_nat (n - 1) := None]> (e_versions e)).

Definition with_metadata (e : entry) (m : SecretMetadata) (now : DateTime) : entry :=
  let s := e_secret e in
  MkEntry (MkSecret (s_id s) (s_path s) (current_version s) m (s_created_at s) now) (e_versions e).

Definition v_destroy (e : entry) (n : Z) : result entry SecretError :=
  if (n >? versions e) || (n =? 0) then Err (VersionNotFound n)
  else if n =? versions e then Err (InvalidPath "Cannot destroy the current version")
  else match version e n with
       | Some _ => Ok (destroyed e n)
       | None => Err (VersionNotFound n)
       end.

(** What the vault answers and becomes. *)
Definition spec (q : request) (v : vault) : response * vault :=
  match q with
  | RCreate path d m id fill now =>
      match v !! path with
      | Some _ => (PSecret (Err (AlreadyExists path)), v)
      | None =>
          let s := MkSecret id path 1 m now now in
          (PSecret (Ok s), <[path := MkEntry s [Some d]]> v)
      end
  | RUpdate path d fill now =>
      match v !! path with
      | None => (PSecret (Err (NotFound path)), v)
      | Some e => (PSecret (Ok (e_secret (new_version e d now))), <[path := new_version e d now]> v)
      end
  | RDelete path =>
      match v !! path with
      | None => (PUnit (Err (NotFound path)), v)
      | Some _ => (PUnit (Ok tt), base.delete path v)
      end
  | RDestroy path n =>
      match v !! path with
      | None => (PUnit (Err (NotFound path)), v)
      | Some e =>
          match v_destroy e n with
          | Ok e' => (PUnit (Ok tt), <[path := e']> v)
          | Err err => (PUnit (Err err), v)
          end
      end
  | RUpdateMetadata path m now =>
      match v !! path with
      | None => (PUnit (Err (NotFound path)), v)
      | Some e => (PUnit (Ok tt), <[path := with_metadata e m now]> v)
      end
  | RGet path =>
      (PData (let? e := ok_or (NotFound path) (v !! path) in v_read e (versions e)), v)
  | RGetVersion path n =>
      (PData (let? e := ok_or (NotFound path) (v !! path) in v_read e n), v)
  | RList prefix => (PPaths (filter (fun p => starts_with p prefix = true) (map_to_list v).*1), v)
  | RGetMetadata path =>
      (PMetadata (let? e := ok_or (NotFound path) (v !! path) in Ok (metadata (e_secret e))), v)
  | RExists path => (PBool (bool_decide (is_Some (v !! path))), v)
  | RCount path => (PCount (let? e := ok_or (NotFound path) (v !! path) in Ok (versions e)), v)
  end.

(** Lists of paths are compared up to their order. *)
Definition resp_equiv (r1 r2 : response) : Prop :=
  match r1, r2 with
  | PPaths l1, PPaths l2 => l1 ≡ₚ l2
  | _, _ => r1 = r2
  end.

(** What becomes of data that is written: the data a later read gives back,
    [None] if it can not be read any more. *)
Definition reading := SecretData -> option SecretData.

Definition as_read (observed : reading) (q : request) : request :=
  match q with
  | RCreate path d m id fill now => RCreate path (default d (observed d)) m id fill now
  | RUpdate path d fill now => RUpdate path (default d (observed d)) fill now
  | _ => q
  end.

(** An implementation may refuse to store the data of a write; [refusal] says
    for which requests and with which error.  A refused write changes
    nothing. *)
Definition refuse (refusal : request -> option SecretError) (observed : reading) (q : request) (v : vault)
  : response * vault :=
  match (spec q v).1, refusal q with
  | PSecret (Ok _), Some e => (PSecret (Err e), v)
  | _, _ => spec (as_read observed q) v
  end.

Fixpoint refuse_all (refusal : request -> option SecretError) (observed : reading) (qs : list request) (v : vault)
  : list response * vault :=
  match qs with
  | [] => ([], v)
  | q :: rest =>
      let '(r, v1) := refuse refusal observed q v in
      let '(rs, v2) := refuse_all refusal observed rest v1 in
      (r :: rs, v2)
  end.

(** What a request must satisfy: the random id of a new secret is not in use,
    nonces have 12 bytes, no secret reaches 2^32 versions, and what is written
    can be read. *)
Definition fill_ok (fill : fill_result) : Prop := forall n, fill = Ok n -> length n = 12%nat.
Definition request_ok (observed : reading) (v : vault) (q : request) : Prop :=
  match q with
  | RCreate path d _ id fill _ =>
      fill_ok fill /\ is_Some (observed d) /\ forall p e, v !! p = Some e -> s_id (e_secret e) <> id
  | RUpdate path d fill _ =>
      fill_ok fill /\ is_Some (observed d) /\ forall e, v !! path = Some e -> u32 (versions e + 1)
  | _ => True
  end.

(** Every request of the list is admissible when it is made. *)
Fixpoint run_ok (refusal : request -> option SecretError) (observed : reading) (qs : list request) (v : vault) : Prop :=
  match qs with
  | [] => True
  | q :: rest => request_ok observed v q /\ run_ok refusal observed rest (refuse refusal observed q v).2
  end.

Fixpoint exec_all {S} `{!SecretStore S} (qs : list request) (s : S) : list response * S :=
  match qs with
  | [] => ([], s)
  | q :: rest =>
      let '(r, s1) := exec q s in
      let '(rs, s2) := exec_all rest s1 in
      (r :: rs, s2)
  end.

(** ** The interface *)

(** A secret carries its path and its number of versions, the last of which
    cannot be destroyed. *)
Record entry_wf (p : SecretPath) (e : entry) : Prop := {
  ew_path : s_path (e_secret e) = p;
  ew_current : current_version (e_secret e) = versions e;
  ew_last : is_Some (version e (versions e))
}.

Class StoreRefines (S : Type) `{!SecretStore S} := {
  represents : S -> vault -> Prop;
  refusal : request -> option SecretError;
  observed : reading;
  represents_wf s v p e : represents s v -> v !! p = Some e -> entry_wf p e;
  refines_step s v q :
    represents s v -> request_ok observed v q ->
    resp_equiv (exec q s).1 (refuse refusal observed q v).1 /\
    represents (exec q s).2 (refuse refusal observed q v).2
}.

Lemma refines_run {S} `{StoreRefines S} s v qs :
  represents s v -> run_ok refusal observed qs v ->
  Forall2 resp_equiv (exec_all qs s).1 (refuse_all refusal observed qs v).1 /\
  represents (exec_all qs s).2 (refuse_all refusal observed qs v).2.
Proof.
  revert s v. induction qs as [|q qs IH]; intros s v Hr; simpl; [by split|].
  intros [Hq Hqs]. destruct (refines_step s v q Hr Hq) as [Hp Hr1].
  destruct (exec q s) as [r s1], (refuse refusal observed q v) as [r' v1]. simpl in *.
  specialize (IH s1 v1 Hr1 Hqs).
  destruct (exec_all qs s1), (refuse_all refusal observed qs v1). simpl in *.
  split; [constructor|]; by destruct IH.
Qed.
End spec.
