(* ===== verification/SecretRefine.v ===== *)
(** * Both secret stores refine the vault

    The proof is done once, over [encode] and [decode], and used at the plain
    data of the in-memory store and at the ciphertexts of the encrypted
    store. *)

From Stdlib Require Import ZArith Lia.
From stdpp Require Import base gmap strings list.
From S2P Require Import Prelude External Platform AesGcm SecretPath SecretStore SecretSpec.

Section refinement.
Context {Value : Type}.
Abbreviation SecretData := (SecretData Value).
Abbreviation entry := (@entry Value).
Abbreviation vault := (gmap SecretPath entry).

(** ** Versions of an entry *)

Lemma version_bounds (e : entry) n d : version e n = Some d -> 1 <= n <= versions e.
Proof.
  unfold version, versions. destruct (Z.leb_spec 1 n); [|done].
  intros (o & Ho%lookup_lt_Some & _)%bind_Some. lia.
Qed.

Lemma version_new (e : entry) d now n :
  version (new_version e d now) n = if decide (n = versions e + 1) then Some d else version e n.
Proof.
  unfold version, new_version, versions. simpl. destruct (Z.leb_spec 1 n), (decide _); try done; try lia.
  - subst n. rewrite lookup_app_r by lia.
    by replace (Z.to_nat _ - _)%nat with 0%nat by lia.
  - destruct (decide (n <= versions e)); unfold versions in *.
    + by rewrite lookup_app_l by lia.
    + rewrite (lookup_ge_None_2 (e_versions e)) by lia.
      by rewrite lookup_ge_None_2 by (rewrite length_app; simpl; lia).
Qed.

Lemma version_destroyed (e : entry) k n :
  1 <= k <= versions e ->
  version (destroyed e k) n = if decide (n = k) then None else version e n.
Proof.
  unfold version, destroyed, versions. simpl. intros Hk.
  destruct (Z.leb_spec 1 n), (decide (n = k)); try done; try lia.
  - subst n. rewrite list_lookup_insert_eq by lia. done.
  - by rewrite list_lookup_insert_ne by lia.
Qed.

Lemma versions_destroyed (e : entry) k : versions (destroyed e k) = versions e.
Proof. unfold versions, destroyed. simpl. by rewrite length_insert. Qed.

Lemma versions_new (e : entry) d now : versions (new_version e d now) = versions e + 1.
Proof. unfold versions, new_version. simpl. rewrite length_app. simpl. lia. Qed.

Lemma new_version_wf p (e : entry) d now : entry_wf p e -> entry_wf p (new_version e d now).
Proof.
  intros [Hp _ _]. split; [done|by rewrite versions_new|].
  rewrite version_new, versions_new, decide_True by done. by eexists.
Qed.

Lemma destroyed_wf p (e : entry) k :
  entry_wf p e -> 1 <= k <= versions e -> k <> versions e -> entry_wf p (destroyed e k).
Proof.
  intros [Hp Hc Hl] Hk Hne. split; [done|by rewrite versions_destroyed|].
  by rewrite version_destroyed, versions_destroyed, decide_False.
Qed.

(** ** The relation *)

Section bodies.
Context {D : Type}.
Variable encode : fill_result -> SecretData -> result D SecretError.
Variable decode : D -> result SecretData SecretError.
Variable observed : @reading Value.
Hypothesis decode_encode : forall fill d d' x,
  fill_ok fill -> encode fill d = Ok x -> observed d = Some d' -> decode x = Ok d'.
Abbreviation store := (@versioned Value D).
Abbreviation bodies := (bodies_store encode decode).

Definition holds (m : gmap (SecretId * Z) D) (id : SecretId) (n : Z) (o : option SecretData) : Prop :=
  match o with
  | Some d => exists x, m !! (id, n) = Some x /\ decode x = Ok d
  | None => m !! (id, n) = None
  end.

Record repr (s : store) (v : vault) : Prop := {
  repr_secrets : secrets s = e_secret <$> v;
  repr_entry p e : v !! p = Some e -> entry_wf p e;
  repr_ids p q e f : v !! p = Some e -> v !! q = Some f ->
    s_id (e_secret e) = s_id (e_secret f) -> p = q;
  repr_data p e n : v !! p = Some e -> holds (data s) (s_id (e_secret e)) n (version e n);
  repr_orphan id n x : data s !! (id, n) = Some x ->
    exists p e, v !! p = Some e /\ s_id (e_secret e) = id
}.

Lemma repr_empty : repr empty_store ∅.
Proof. by split. Qed.

Lemma repr_lookup s v p : repr s v -> secrets s !! p = e_secret <$> v !! p.
Proof. intros Hr. by rewrite (repr_secrets _ _ Hr), lookup_fmap. Qed.

Lemma find_repr s v p :
  repr s v -> find p s = rbind (ok_or (NotFound p) (v !! p)) (fun e => Ok (e_secret e)).
Proof. intros Hr. unfold find. rewrite (repr_lookup _ _ _ Hr). by destruct (v !! p). Qed.

Lemma read_repr s v p e n :
  repr s v -> v !! p = Some e -> read decode (e_secret e) n s = v_read e n.
Proof.
  intros Hr Hp. pose proof (repr_data _ _ Hr _ _ n Hp) as Hd. unfold read, v_read.
  destruct (version e n) as [d|]; simpl in Hd.
  - destruct Hd as (x & -> & Hx). simpl. by rewrite Hx.
  - by rewrite Hd.
Qed.

Lemma holds_ext m m' id n o : m' !! (id, n) = m !! (id, n) -> holds m id n o -> holds m' id n o.
Proof. unfold holds. by intros ->. Qed.

(** Replacing one entry by one with the same id. *)
Lemma repr_set s v p e e' m' :
  repr s v -> v !! p = Some e -> s_id (e_secret e') = s_id (e_secret e) -> entry_wf p e' ->
  (forall n, holds m' (s_id (e_secret e)) n (version e' n)) ->
  (forall id n, id <> s_id (e_secret e) -> m' !! (id, n) = data s !! (id, n)) ->
  repr (MkStore (<[p := e_secret e']> (secrets s)) m') (<[p := e']> v).
Proof.
  intros Hr Hp Hid Hwf Hm Hother. split; simpl.
  - by rewrite fmap_insert, (repr_secrets _ _ Hr).
  - intros q f [[<- <-]|[? Hq]]%lookup_insert_Some; [done|]. by eapply repr_entry.
  - intros q1 q2 f1 f2 [[<- <-]|[? H1]]%lookup_insert_Some [[<- <-]|[? H2]]%lookup_insert_Some;
      try done; try rewrite Hid; intros; by eapply repr_ids.
  - intros q f n [[<- <-]|[Hne Hq]]%lookup_insert_Some; [by rewrite Hid|].
    apply (holds_ext (data s)); [|by eapply repr_data]. apply Hother. intros E.
    by apply Hne, (repr_ids _ _ Hr p q e f).
  - intros id n x Hx. destruct (decide (id = s_id (e_secret e))) as [->|Hne].
    + exists p, e'. by rewrite lookup_insert_eq.
    + rewrite Hother in Hx by done. destruct (repr_orphan _ _ Hr _ _ _ Hx) as (q & f & Hq & Hf).
      exists q, f. rewrite lookup_insert_ne; [done|]. intros <-. congruence.
Qed.

Lemma lookup_remove_versions (id : SecretId) (n : nat) (m : gmap (SecretId * Z) D) (id' : SecretId) (k : Z) :
  remove_versions id n m !! (id', k) =
  if decide (id' = id /\ 1 <= k <= Z.of_nat n) then None else m !! (id', k).
Proof.
  induction n as [|n IH]; [simpl; case_decide; [lia|done]|]. cbn [remove_versions].
  destruct (decide ((id, Z.of_nat (S n)) = (id', k))) as [E|Hne].
  - injection E as <- <-. rewrite lookup_delete_eq, decide_True; [done|]. split; [done|lia].
  - rewrite lookup_delete_ne, IH by done. case_decide as H1; case_decide as H2; try done.
    + destruct H2, H1 as [-> ?]. split; [done|lia].
    + destruct H2 as [-> ?], H1. split; [done|]. assert (k <> Z.of_nat (S n)) by congruence. lia.
Qed.

(** ** Each request *)

Definition encode_refusal (q : @request Value) : option SecretError :=
  match q with
  | RCreate _ d _ _ fill _ | RUpdate _ d fill _ =>
      match encode fill d with Err e => Some e | Ok _ => None end
  | _ => None
  end.

Definition simulated (s : store) (v : vault) (q : request) : Prop :=
  resp_equiv (@exec _ _ bodies q s).1 (refuse encode_refusal observed q v).1 /\
  repr (@exec _ _ bodies q s).2 (refuse encode_refusal observed q v).2.

Lemma refuse_other v q :
  (forall o, (spec q v).1 <> PSecret (Ok o)) \/ encode_refusal q = None ->
  refuse encode_refusal observed q v = spec (as_read observed q) v.
Proof.
  unfold refuse. destruct (spec q v).1 as [[o|]| | | | | |], (encode_refusal q); simpl; try done.
  intros [Ho|]; [by destruct (Ho o)|done].
Qed.

Lemma step_create s v p d m id fill now :
  repr s v -> request_ok observed v (RCreate p d m id fill now) -> simulated s v (RCreate p d m id fill now).
Proof.
  intros Hr (Hf & [d' Hd'] & Hid). unfold simulated, refuse. simpl. rewrite Hd'. unfold st_create. rewrite (repr_lookup _ _ _ Hr).
  destruct (v !! p) as [e|] eqn:Hp; simpl; [done|].
  destruct (encode fill d) as [x|err] eqn:He; simpl; [|done]. split; [done|].
  assert (forall n, data s !! (id, n) = None) as Hfree.
  { intros n. destruct (data s !! (id, n)) eqn:Hx; [|done].
    destruct (repr_orphan _ _ Hr _ _ _ Hx) as (q & f & Hq & <-). by destruct (Hid _ _ Hq). }
  split; simpl.
  - by rewrite fmap_insert, (repr_secrets _ _ Hr).
  - intros q f [[<- <-]|[? Hq]]%lookup_insert_Some; [|by eapply repr_entry].
    split; [done..|]. by eexists.
  - intros q1 q2 f1 f2 [[<- <-]|[? H1]]%lookup_insert_Some [[<- <-]|[? H2]]%lookup_insert_Some;
      try done; simpl; [intros ->; by destruct (Hid _ _ H2)|intros <-; by destruct (Hid _ _ H1)|].
    by eapply repr_ids.
  - intros q f n [[<- <-]|[Hne Hq]]%lookup_insert_Some; simpl.
    + unfold version. simpl. destruct (decide (n = 1)) as [->|Hn].
      * simpl. exists x. rewrite lookup_insert_eq. by eauto.
      * destruct (Z.leb_spec 1 n); simpl; [|by rewrite lookup_insert_ne by congruence].
        rewrite lookup_ge_None_2 by (simpl; lia). simpl. by rewrite lookup_insert_ne by congruence.
    + apply (holds_ext (data s)); [|by eapply repr_data].
      apply lookup_insert_ne. intros [= E _]. by destruct (Hid _ _ Hq).
  - intros id' n y [[[= -> ->] _]|[_ Hy]]%lookup_insert_Some.
    + exists p. eexists. by rewrite lookup_insert_eq.
    + destruct (repr_orphan _ _ Hr _ _ _ Hy) as (q & f & Hq & Hf'). exists q, f.
      rewrite lookup_insert_ne; [done|]. intros <-. congruence.
Qed.

Lemma step_update s v p d fill now :
  repr s v -> request_ok observed v (RUpdate p d fill now) -> simulated s v (RUpdate p d fill now).
Proof.
  intros Hr (Hf & [d' Hd'] & Hu).
  unfold simulated, refuse, exec, update, bodies_store, st_update, bind, update_bump, update_data.
  cbn [spec as_read encode_refusal]. rewrite Hd'. cbn [default from_option]. rewrite (repr_lookup _ _ _ Hr).
  destruct (v !! p) as [e|] eqn:Hp; [|done]. cbn [fmap option_fmap option_map].
  destruct (encode fill d) as [x|err] eqn:He; [|done].
  pose proof (repr_entry _ _ Hr _ _ Hp) as Hwf.
  assert (bump (e_secret e) now = e_secret (new_version e d' now)) as Hb.
  { unfold bump. rewrite (ew_current _ _ Hwf). simpl. f_equal. apply wrap_small. by apply Hu. }
  rewrite Hb. simpl. split; [done|].
  apply (repr_set s v p e (new_version e d' now)); [done..|by apply new_version_wf| |].
  - intros n. rewrite version_new. destruct (decide (n = versions e + 1)) as [->|Hn].
    + exists x. rewrite lookup_insert_eq. eauto.
    + apply (holds_ext (data s)); [|by eapply repr_data]. apply lookup_insert_ne. congruence.
  - intros id n Hne. apply lookup_insert_ne. congruence.
Qed.

Lemma step_delete s v p : repr s v -> simulated s v (RDelete p).
Proof.
  intros Hr. unfold simulated. rewrite refuse_other by (by right). simpl. unfold st_delete.
  rewrite (repr_lookup _ _ _ Hr). destruct (v !! p) as [e|] eqn:Hp; simpl; [|done]. split; [done|].
  pose proof (repr_entry _ _ Hr _ _ Hp) as Hwf.
  assert (forall q f, q <> p -> v !! q = Some f -> s_id (e_secret f) <> s_id (e_secret e)) as Hids.
  { intros q f Hne Hq E. by apply Hne, (repr_ids _ _ Hr q p f e). }
  split; simpl.
  - by rewrite fmap_delete, (repr_secrets _ _ Hr).
  - intros q f [_ Hq]%lookup_delete_Some. by eapply repr_entry.
  - intros q1 q2 f1 f2 [_ H1]%lookup_delete_Some [_ H2]%lookup_delete_Some. by eapply repr_ids.
  - intros q f n [Hne Hq]%lookup_delete_Some.
    apply (holds_ext (data s)); [|by eapply repr_data]. rewrite lookup_remove_versions.
    rewrite decide_False; [done|]. intros [E _]. by apply (Hids q f).
  - intros id n x. rewrite lookup_remove_versions. case_decide as Hd; [done|]. intros Hx.
    destruct (repr_orphan _ _ Hr _ _ _ Hx) as (q & f & Hq & <-). exists q, f.
    rewrite lookup_delete_ne; [done|]. intros <-. apply Hd. simplify_eq. split; [done|].
    pose proof (repr_data _ _ Hr _ _ n Hp) as Hh. destruct (version e n) as [y|] eqn:Hy; simpl in Hh.
    + apply version_bounds in Hy. rewrite (ew_current _ _ Hwf). lia.
    + congruence.
Qed.

Lemma step_destroy s v p k : repr s v -> simulated s v (RDestroy p k).
Proof.
  intros Hr. unfold simulated. rewrite refuse_other by (by right). simpl.
  unfold st_destroy_version, v_destroy. rewrite (repr_lookup _ _ _ Hr).
  destruct (v !! p) as [e|] eqn:Hp; simpl; [|done].
  pose proof (repr_entry _ _ Hr _ _ Hp) as Hwf. rewrite (ew_current _ _ Hwf).
  destruct ((k >? versions e) || (k =? 0)) eqn:H1; [done|].
  destruct (k =? versions e) eqn:H2; [done|].
  pose proof (repr_data _ _ Hr _ _ k Hp) as Hk. destruct (version e k) as [d|] eqn:Hd; simpl in Hk.
  2: by rewrite Hk.
  destruct Hk as (x & -> & _). pose proof (version_bounds _ _ _ Hd) as Hb. apply Z.eqb_neq in H2 as Hne.
  split; [done|].
  simpl. rewrite <- (insert_id (secrets s) p (e_secret (destroyed e k)))
    by (by rewrite (repr_lookup _ _ _ Hr), Hp).
  apply (repr_set s v p e (destroyed e k)); [done..|by apply destroyed_wf| |].
  - intros n. rewrite version_destroyed by done. case_decide as Hn; [subst n|].
    + simpl. apply lookup_delete_eq.
    + apply (holds_ext (data s)); [|by eapply repr_data]. apply lookup_delete_ne. congruence.
  - intros id n Hid. apply lookup_delete_ne. congruence.
Qed.

Lemma step_metadata s v p m now : repr s v -> simulated s v (RUpdateMetadata p m now).
Proof.
  intros Hr. unfold simulated. rewrite refuse_other by (by right). simpl.
  unfold st_update_metadata. rewrite (repr_lookup _ _ _ Hr).
  destruct (v !! p) as [e|] eqn:Hp; simpl; [|done]. split; [done|].
  apply (repr_set s v p e (with_metadata e m now)); [done..| | |].
  - destruct (repr_entry _ _ Hr _ _ Hp). by split.
  - intros n. by eapply (repr_data _ _ Hr p e).
  - done.
Qed.

Lemma step_read s v q :
  repr s v ->
  match q with RGet _ | RGetVersion _ _ | RList _ | RGetMetadata _ | RExists _ | RCount _ => True | _ => False end ->
  simulated s v q.
Proof.
  intros Hr Hq. unfold simulated. rewrite refuse_other by (right; by destruct q).
  split; [|by destruct q]. destruct q as [|p|p n| | | |pre|p| |p|p]; try done; simpl.
  - f_equal. unfold st_get. rewrite (find_repr _ _ _ Hr). destruct (v !! p) as [e|] eqn:Hp; [|done].
    simpl. rewrite (ew_current _ _ (repr_entry _ _ Hr _ _ Hp)). by eapply read_repr.
  - f_equal. unfold st_get_version. rewrite (find_repr _ _ _ Hr).
    destruct (v !! p) as [e|] eqn:Hp; [|done]. simpl.
    rewrite (ew_current _ _ (repr_entry _ _ Hr _ _ Hp)).
    destruct ((n >? versions e) || (n =? 0)) eqn:Hn; [|by eapply read_repr].
    unfold v_read. destruct (version e n) as [d|] eqn:Hd; [|done].
    apply version_bounds in Hd. apply orb_true_iff in Hn as [?|?]; lia.
  - unfold st_list. apply filter_Permutation. rewrite (repr_secrets _ _ Hr), map_to_list_fmap.
    rewrite <- list_fmap_compose. by apply Permutation_map'.
  - f_equal. unfold st_get_metadata. rewrite (find_repr _ _ _ Hr). by destruct (v !! p).
  - f_equal. unfold st_exists. apply bool_decide_ext. rewrite (repr_lookup _ _ _ Hr).
    by rewrite fmap_is_Some.
  - f_equal. unfold st_version_count. rewrite (find_repr _ _ _ Hr).
    destruct (v !! p) as [e|] eqn:Hp; [|done]. simpl.
    by rewrite (ew_current _ _ (repr_entry _ _ Hr _ _ Hp)).
Qed.

Lemma bodies_refine s v q : repr s v -> request_ok observed v q -> simulated s v q.
Proof.
  intros Hr Hq. destruct q; try (by apply step_read).
  - by apply step_create.
  - by apply step_update.
  - by apply step_delete.
  - by apply step_destroy.
  - by apply step_metadata.
Qed.

(** An update is not atomic.  Between its two halves a reader is told that
    the current version does not exist, and a deletion in between leaves the
    data of the new version in the store although the path is gone. *)
Theorem update_not_atomic s v path d fill now secret x s1 :
  repr s v -> request_ok observed v (RUpdate path d fill now) ->
  update_bump encode path d fill now s = (Ok (secret, x), s1) ->
  st_get decode path s1 = Err (VersionNotFound (current_version secret)) /\
  (let s2 := (st_delete path s1).2 in
   let s3 := (update_data secret x s2).2 in
   (st_delete path s1).1 = Ok tt /\ secrets s3 !! path = None /\
   data s3 !! (s_id secret, current_version secret) = Some x).
Proof.
  intros Hr (_ & _ & Hu). unfold update_bump. rewrite (repr_lookup _ _ _ Hr).
  destruct (v !! path) as [e|] eqn:He; [|done]. cbn [fmap option_fmap option_map].
  destruct (encode fill d) as [y|]; [|done]. intros [= <- -> <-].
  pose proof (repr_entry _ _ Hr _ _ He) as Hwf. split.
  - unfold st_get, find. simpl. rewrite lookup_insert_eq. simpl. unfold read. simpl.
    rewrite (ew_current _ _ Hwf), (wrap_small 32) by (by apply Hu).
    pose proof (repr_data _ _ Hr _ _ (versions e + 1) He) as Hd.
    destruct (version e (versions e + 1)) eqn:Hv; simpl in Hd; [|by rewrite Hd].
    apply version_bounds in Hv. lia.
  - unfold st_delete. simpl. rewrite lookup_insert_eq. simpl.
    by rewrite lookup_delete_eq, lookup_insert_eq.
Qed.
End bodies.

(** ** The instances *)

Lemma bodies_refine_ext {D} encode (decode : D -> _) observed refusal s v q :
  (forall fill d d' x, fill_ok fill -> encode fill d = Ok x -> observed d = Some d' -> decode x = Ok d') ->
  (forall q', encode_refusal encode q' = refusal q') ->
  repr decode s v -> request_ok observed v q ->
  resp_equiv (@exec Value _ (bodies_store encode decode) q s).1 (refuse refusal observed q v).1 /\
  repr decode (@exec Value _ (bodies_store encode decode) q s).2 (refuse refusal observed q v).2.
Proof.
  intros Hde Hq Hr Hok. unfold refuse. rewrite <- Hq.
  exact (bodies_refine encode decode observed Hde s v q Hr Hok).
Qed.

(** The in-memory store refuses nothing and gives back what was written. *)
#[global] Instance InMemory_refines : @StoreRefines Value InMemorySecretStore _.
Proof.
  refine {| represents := repr plain_decode; refusal := fun _ => None; observed := Some |};
    [by intros s v p e Hr; eapply repr_entry|].
  intros s v q. apply bodies_refine_ext; [by intros fill d d' x _ [= <-] [= <-]|by intros []].
Defined.

Section encrypted.
Context {AEAD : Aead} {SD : SerdeCodec SecretData}.
Variable crypto_message : CryptoError -> string.
Variable key : KeyMaterial.

(** The encrypted store gives back what deserialising the serialised data
    gives.  This is the data itself only if it reads back: the variants of
    [SecretValue] are not tagged, and a JSON string comes back as a string. *)
Definition reread (d : SecretData) : option SecretData :=
  match to_vec d with
  | Ok b => match from_slice b with Ok d' => Some d' | Err _ => None end
  | Err _ => Some d
  end.

Lemma reread_same d : reads_back d -> reread d = Some d.
Proof.
  unfold reads_back, reread. intros H. destruct (to_vec d) as [b|] eqn:Hb; [|done]. by rewrite (H b eq_refl).
Qed.

Lemma decrypt_encrypt_data fill d d' x :
  fill_ok fill -> encrypt_data crypto_message key fill d = Ok x -> reread d = Some d' ->
  decrypt_data crypto_message key x = Ok d'.
Proof.
  intros Hf (b & Hb%rmap_err_Ok & He%rmap_err_Ok)%rbind_Ok. unfold reread. rewrite Hb.
  destruct fill as [nonce|[]].
  - unfold decrypt_data, decrypt_aes256. rewrite (encrypt_decrypts Aes256 key b None nonce x (Hf _ eq_refl) He). simpl.
    by destruct (from_slice b); intros [= <-].
  - by apply encrypt_no_nonce in He.
Qed.

#[global] Instance Encrypted_refines :
  @StoreRefines Value EncryptedSecretStore (Encrypted_store crypto_message key).
Proof.
  refine {| represents := repr (decrypt_data crypto_message key);
            refusal := encode_refusal (encrypt_data crypto_message key); observed := reread |};
    [by intros s v p e Hr; eapply repr_entry|].
  intros s v q. apply bodies_refine_ext; [apply decrypt_encrypt_data|done].
Defined.

(** C17: both secret stores implement the versioned vault: for every sequence
    of requests, made with fresh ids and before 2^32 versions are reached,
    they answer as the vault does.  The in-memory store does so exactly.  The
    encrypted store refuses the writes whose data does not serialise or
    encrypt, leaving the store unchanged, and gives back the data as
    deserialising its serialised form yields it ([reread]), provided that
    succeeds for what is written; data that reads back as itself is given
    back unchanged. *)
Theorem secret_stores_refine (qs : list (@request Value)) :
  let memory := @exec_all Value InMemorySecretStore _ qs InMemory_new in
  let encrypted :=
    @exec_all Value EncryptedSecretStore (Encrypted_store crypto_message key) qs Encrypted_new in
  let refused := encode_refusal (encrypt_data crypto_message key) in
  (run_ok (fun _ => None) Some qs ∅ ->
   Forall2 resp_equiv memory.1 (refuse_all (fun _ => None) Some qs ∅).1) /\
  (run_ok refused reread qs ∅ -> Forall2 resp_equiv encrypted.1 (refuse_all refused reread qs ∅).1) /\
  (forall d, reads_back d -> reread d = Some d).
Proof.
  split; [intros Hok|split; [intros Hok|apply reread_same]].
  - exact (proj1 (@refines_run Value _ _ InMemory_refines InMemory_new ∅ qs (repr_empty _) Hok)).
  - exact (proj1 (@refines_run Value _ _ Encrypted_refines Encrypted_new ∅ qs (repr_empty _) Hok)).
Qed.
End encrypted.
End refinement.
