(* ===== verification/Leases.v ===== *)
(** * Leases on secrets

    [crates/secrets/src/lease.rs].  The state of a manager is its table of
    leases, its configuration, the channel for lease events and the sleeping
    expiration tasks it has spawned.  Every method holds the lock of the
    table, so it is one step; a task that wakes up is a step of its own,
    [expiration_check].  [now] is the clock, [id] the value of
    [LeaseId::new].  Adding a duration to an instant panics outside the range
    of instants; [None] is that outcome.

    The theorems bound the life of a lease and state that a lease that is not
    valid never becomes valid again. *)

From Stdlib Require Import ZArith Lia.
From stdpp Require Import base gmap strings list.
From S2P Require Import Prelude Platform SecretPath.

Abbreviation LeaseId := string.

Record Lease := MkLease {
  l_id : LeaseId;
  l_secret_id : SecretId;
  l_version : Z;
  l_client_id : string;
  l_created_at : DateTime;
  l_expires_at : DateTime;
  l_revoked : bool;
  l_renewable : bool;
  l_max_ttl : option Duration
}.

Definition set_revoked (l : Lease) : Lease :=
  MkLease (l_id l) (l_secret_id l) (l_version l) (l_client_id l) (l_created_at l) (l_expires_at l)
    true (l_renewable l) (l_max_ttl l).
Definition set_expires_at (l : Lease) (t : DateTime) : Lease :=
  MkLease (l_id l) (l_secret_id l) (l_version l) (l_client_id l) (l_created_at l) t
    (l_revoked l) (l_renewable l) (l_max_ttl l).

Definition is_valid (l : Lease) (now : DateTime) : bool := negb (l_revoked l) && (now <? l_expires_at l).

Definition remaining_time (l : Lease) (now : DateTime) : Duration :=
  if l_revoked l then 0
  else let remaining := l_expires_at l - now in if remaining <? 0 then 0 else remaining.

(** [Duration::num_seconds] truncates towards zero. *)
Definition remaining_seconds (l : Lease) (now : DateTime) : Z := Z.quot (remaining_time l now) 1000000000.

Record LeaseConfig := MkLeaseConfig {
  default_ttl : Duration;
  max_ttl : Duration;
  renewable : bool
}.
Definition LeaseConfig_default : LeaseConfig := MkLeaseConfig (nanos 3600) (nanos (24 * 3600)) true.

Inductive LeaseEvent :=
| Expired (id : LeaseId)
| Revoked (id : LeaseId)
| Renewed (id : LeaseId) (until : DateTime).

Inductive LeaseError := LNotFound | LRevoked | LExpired | LNotRenewable.

Section manager.
Context {Channel : Type} {CH : Mpsc LeaseEvent Channel} {RANGE : ChronoRange}.

Record LeaseManager := MkLeaseManager {
  leases : gmap LeaseId Lease;
  config : LeaseConfig;
  event_tx : Channel;
  tasks : list (LeaseId * Duration)
}.

Definition LeaseManager_new (config : LeaseConfig) (tx : Channel) : LeaseManager :=
  MkLeaseManager ∅ config tx [].

(** [leases.insert(id, l)] and [*leases.get_mut(id) = l]. *)
Definition put (id : LeaseId) (l : Lease) (m : LeaseManager) : LeaseManager :=
  MkLeaseManager (<[id := l]> (leases m)) (config m) (event_tx m) (tasks m).
Definition send (e : LeaseEvent) (m : LeaseManager) : LeaseManager :=
  MkLeaseManager (leases m) (config m) (try_send e (event_tx m)) (tasks m).
(** A spawned task that sleeps and then checks the lease. *)
Definition schedule_expiration (id : LeaseId) (ttl : Duration) (m : LeaseManager) : LeaseManager :=
  MkLeaseManager (leases m) (config m) (event_tx m) (tasks m ++ [(id, ttl)]).

Definition create_lease (secret_id : SecretId) (version : Z) (client_id : string)
    (ttl : option Duration) (id : LeaseId) (now : DateTime) (m : LeaseManager)
  : option (Lease * LeaseManager) :=
  let ttl := default (default_ttl (config m)) ttl in
  let ttl := Z.min ttl (max_ttl (config m)) in
  match dt_add now ttl with
  | None => None
  | Some expires =>
      let lease := MkLease id secret_id version client_id now expires false
                     (renewable (config m)) (Some (max_ttl (config m))) in
      Some (lease, schedule_expiration id ttl (put id lease m))
  end.

(** The body of a task once it has slept. *)
Definition expiration_check (id : LeaseId) (now : DateTime) (m : LeaseManager) : LeaseManager :=
  match leases m !! id with
  | None => m
  | Some lease =>
      if negb (l_revoked lease) && (now >=? l_expires_at lease)
      then send (Expired id) (put id (set_revoked lease) m) else m
  end.

(** The [i]-th task wakes up and is gone. *)
Definition run_task (i : nat) (now : DateTime) (m : LeaseManager) : LeaseManager :=
  match tasks m !! i with
  | None => m
  | Some (id, _) =>
      expiration_check id now (MkLeaseManager (leases m) (config m) (event_tx m) (base.delete i (tasks m)))
  end.

Definition renew_lease (id : LeaseId) (increment : option Duration) (now : DateTime) (m : LeaseManager)
  : option (result Lease LeaseError * LeaseManager) :=
  match leases m !! id with
  | None => Some (Err LNotFound, m)
  | Some lease =>
      if l_revoked lease then Some (Err LRevoked, m)
      else if negb (l_renewable lease) then Some (Err LNotRenewable, m)
      else if now >=? l_expires_at lease then Some (Err LExpired, put id (set_revoked lease) m)
      else
        let increment := default (default_ttl (config m)) increment in
        match dt_add now increment with
        | None => None
        | Some new_expires =>
            match dt_add (l_created_at lease) (default (max_ttl (config m)) (l_max_ttl lease)) with
            | None => None
            | Some max_expires =>
                let lease' := set_expires_at lease (Z.min new_expires max_expires) in
                let m := send (Renewed id (l_expires_at lease')) (put id lease' m) in
                let remaining := l_expires_at lease' - now in
                let m := if 0 <? remaining then schedule_expiration id remaining m else m in
                Some (Ok lease', m)
            end
        end
  end.

Definition revoke_lease (id : LeaseId) : M LeaseManager LeaseError unit := fun m =>
  match leases m !! id with
  | None => (Err LNotFound, m)
  | Some lease =>
      if negb (l_revoked lease) then (Ok tt, send (Revoked id) (put id (set_revoked lease) m))
      else (Ok tt, m)
  end.

(** The leases [revoke_all] changes, in the order of the map. *)
Definition to_revoke (secret_id : SecretId) (m : LeaseManager) : list Lease :=
  filter (fun l => l_secret_id l = secret_id /\ l_revoked l = false) (map_to_list (leases m)).*2.

Definition revoke_all (secret_id : SecretId) (m : LeaseManager) : nat * LeaseManager :=
  let revoke l := if decide (l_secret_id l = secret_id /\ l_revoked l = false) then set_revoked l else l in
  let sent := foldl (fun ch l => try_send (Revoked (l_id l)) ch) (event_tx m) (to_revoke secret_id m) in
  (length (to_revoke secret_id m), MkLeaseManager (revoke <$> leases m) (config m) sent (tasks m)).

Definition validate_lease (id : LeaseId) (now : DateTime) (m : LeaseManager) : result Lease LeaseError :=
  let? lease := ok_or LNotFound (leases m !! id) in
  if l_revoked lease then Err LRevoked
  else if now >=? l_expires_at lease then Err LExpired
  else Ok lease.

Definition get_lease (id : LeaseId) (m : LeaseManager) : option Lease := leases m !! id.

Definition list_client_leases (client_id : string) (now : DateTime) (m : LeaseManager) : list Lease :=
  filter (fun l => l_client_id l = client_id /\ is_valid l now = true) (map_to_list (leases m)).*2.

Definition list_secret_leases (secret_id : SecretId) (now : DateTime) (m : LeaseManager) : list Lease :=
  filter (fun l => l_secret_id l = secret_id /\ is_valid l now = true) (map_to_list (leases m)).*2.

Definition active_lease_count (now : DateTime) (m : LeaseManager) : nat :=
  length (filter (fun l => is_valid l now = true) (map_to_list (leases m)).*2).

Definition cleanup_expired (now : DateTime) (m : LeaseManager) : nat * LeaseManager :=
  let to_remove := filter (fun p => l_revoked p.2 = true \/ now >= l_expires_at p.2) (leases m) in
  (size to_remove,
   MkLeaseManager (leases m ∖ to_remove) (config m) (event_tx m) (tasks m)).

(** ** Runs *)

Inductive lease_op :=
| OCreate (secret_id : SecretId) (version : Z) (client_id : string) (ttl : option Duration)
    (id : LeaseId) (now : DateTime)
| ORenew (id : LeaseId) (increment : option Duration) (now : DateTime)
| ORevoke (id : LeaseId)
| ORevokeAll (secret_id : SecretId)
| OTask (i : nat) (now : DateTime)
| OCleanup (now : DateTime).

Definition perform (o : lease_op) (m : LeaseManager) : option LeaseManager :=
  match o with
  | OCreate secret version client ttl id now => snd <$> create_lease secret version client ttl id now m
  | ORenew id increment now => snd <$> renew_lease id increment now m
  | ORevoke id => Some (revoke_lease id m).2
  | ORevokeAll secret => Some (revoke_all secret m).2
  | OTask i now => Some (run_task i now m)
  | OCleanup now => Some (cleanup_expired now m).2
  end.

(** [None] once a call has panicked. *)
Fixpoint performs (os : list lease_op) (m : LeaseManager) : option LeaseManager :=
  match os with
  | [] => Some m
  | o :: rest => m' ← perform o m; performs rest m'
  end.

Lemma performs_app os os' m : performs (os ++ os') m = (m' ← performs os m; performs os' m').
Proof.
  revert m. induction os as [|o os IH]; intros m; simpl; [done|].
  destruct (perform o m); simpl; [apply IH|done].
Qed.

(** What one operation does to the lease of an id. *)
Inductive lease_step (o : lease_op) (c : LeaseConfig) (id : LeaseId) : option Lease -> option Lease -> Prop :=
| ls_create old secret version client ttl now lease :
    o = OCreate secret version client ttl id now ->
    l_expires_at lease <= now + max_ttl c ->
    lease = MkLease id secret version client now (l_expires_at lease) false (renewable c) (Some (max_ttl c)) ->
    lease_step o c id old (Some lease)
| ls_same old :
    o <> ORevoke id -> (forall l, old = Some l -> l_revoked l = false -> o <> ORevokeAll (l_secret_id l)) ->
    lease_step o c id old old
| ls_revoked l : lease_step o c id (Some l) (Some (set_revoked l))
| ls_still_revoked l : l_revoked l = true -> lease_step o c id (Some l) (Some l)
| ls_absent : lease_step o c id None None
| ls_renewed l inc now t :
    o = ORenew id inc now -> l_revoked l = false -> now < l_expires_at l ->
    t <= l_created_at l + default (max_ttl c) (l_max_ttl l) ->
    lease_step o c id (Some l) (Some (set_expires_at l t))
| ls_removed l now :
    o = OCleanup now -> l_revoked l = true \/ l_expires_at l <= now -> lease_step o c id (Some l) None.

Lemma perform_config o m m' : perform o m = Some m' -> config m' = config m.
Proof.
  destruct o as [s v cl ttl id now|id inc now|id|s|i now|now]; simpl.
  - unfold create_lease. destruct (dt_add _ _); simpl; [|done]. by intros [= <-].
  - unfold renew_lease. intros (p & Hp & ->)%fmap_Some. repeat case_match; by simplify_eq.
  - unfold revoke_lease. repeat case_match; by intros [= <-].
  - by intros [= <-].
  - unfold run_task, expiration_check. repeat case_match; by intros [= <-].
  - by intros [= <-].
Qed.

Lemma lease_step_create secret version client ttl id now m m' k :
  perform (OCreate secret version client ttl id now) m = Some m' ->
  lease_step (OCreate secret version client ttl id now) (config m) k (leases m !! k) (leases m' !! k).
Proof.
  simpl. unfold create_lease. destruct (dt_add _ _) as [t|] eqn:Ht; [|done]. simpl. intros [= <-]. simpl.
  apply dt_add_Some in Ht. destruct (decide (id = k)) as [<-|Hne].
  - rewrite lookup_insert_eq. eapply ls_create; [done| |done]. simpl. lia.
  - rewrite lookup_insert_ne by done. by apply ls_same.
Qed.

Lemma step_renew id inc now m m' k :
  perform (ORenew id inc now) m = Some m' ->
  lease_step (ORenew id inc now) (config m) k (leases m !! k) (leases m' !! k).
Proof.
  simpl. unfold renew_lease. intros (p & Hp & ->)%fmap_Some.
  destruct (leases m !! id) as [l|] eqn:Hl; [|simplify_eq; by apply ls_same].
  destruct (l_revoked l) eqn:Hr; [simplify_eq; by apply ls_same|].
  destruct (l_renewable l); simpl in Hp; [|simplify_eq; by apply ls_same]. rewrite Z.geb_leb in Hp.
  destruct (Z.leb_spec (l_expires_at l) now) as [He|He].
  { simplify_eq. simpl. destruct (decide (id = k)) as [<-|Hne].
    - rewrite lookup_insert_eq, Hl. apply ls_revoked.
    - rewrite lookup_insert_ne by done. by apply ls_same. }
  destruct (dt_add now _) as [t|]; [|done].
  destruct (dt_add (l_created_at l) _) as [t'|] eqn:Ht; [|done]. apply dt_add_Some in Ht.
  assert (leases p.2 = <[id := set_expires_at l (Z.min t t')]> (leases m)) as ->.
  { injection Hp as <-. simpl. by case_match. }
  destruct (decide (id = k)) as [<-|Hne].
  - rewrite lookup_insert_eq, Hl. eapply ls_renewed; [done..|]. lia.
  - rewrite lookup_insert_ne by done. by apply ls_same.
Qed.

Lemma step_revoke id m k :
  lease_step (ORevoke id) (config m) k (leases m !! k) (leases (revoke_lease id m).2 !! k).
Proof.
  unfold revoke_lease. destruct (leases m !! id) as [l|] eqn:Hl; simpl.
  2: { destruct (decide (id = k)) as [<-|Hne]; [rewrite Hl; apply ls_absent|]. apply ls_same; congruence. }
  destruct (decide (id = k)) as [<-|Hne].
  - rewrite Hl. destruct (l_revoked l) eqn:Hr; simpl; [rewrite Hl; by apply ls_still_revoked|].
    rewrite lookup_insert_eq. apply ls_revoked.
  - destruct (l_revoked l) eqn:Hr; simpl; [|rewrite lookup_insert_ne by done]; apply ls_same; congruence.
Qed.

Lemma step_revoke_all secret m k :
  lease_step (ORevokeAll secret) (config m) k (leases m !! k) (leases (revoke_all secret m).2 !! k).
Proof.
  simpl. rewrite lookup_fmap. destruct (leases m !! k) as [l|]; simpl; [|apply ls_absent].
  case_decide as Hd; [apply ls_revoked|].
  destruct (l_revoked l) eqn:Hr; [by apply ls_still_revoked|].
  apply ls_same; [done|]. intros l' [= <-] _ [= ->]. by apply Hd.
Qed.

Lemma step_task i now m k :
  lease_step (OTask i now) (config m) k (leases m !! k) (leases (run_task i now m) !! k).
Proof.
  unfold run_task, expiration_check. destruct (tasks m !! i) as [[id d]|]; [|by apply ls_same]. simpl.
  destruct (leases m !! id) as [l|] eqn:Hl; [|by apply ls_same].
  destruct (_ && _); [|by apply ls_same]. simpl. destruct (decide (id = k)) as [<-|Hne].
  - rewrite lookup_insert_eq, Hl. apply ls_revoked.
  - rewrite lookup_insert_ne by done. by apply ls_same.
Qed.

Lemma step_cleanup now m k :
  lease_step (OCleanup now) (config m) k (leases m !! k) (leases (cleanup_expired now m).2 !! k).
Proof.
  simpl. destruct (leases m !! k) as [l|] eqn:Hl.
  2: { rewrite (proj2 (lookup_difference_None _ _ _)) by (by left). apply ls_absent. }
  destruct (decide (l_revoked l = true \/ now >= l_expires_at l)) as [Hd|Hd].
  - rewrite (proj2 (lookup_difference_None _ _ _)).
    { eapply ls_removed; [done|]. destruct Hd; [by left|right; lia]. }
    right. exists l. by apply map_lookup_filter_Some.
  - rewrite (proj2 (lookup_difference_Some _ _ _ l)); [by apply ls_same|].
    split; [done|]. apply map_lookup_filter_None. right. intros l' Hl'. by simplify_eq.
Qed.

Lemma perform_step o m m' k :
  perform o m = Some m' -> lease_step o (config m) k (leases m !! k) (leases m' !! k).
Proof.
  destruct o.
  - apply lease_step_create.
  - apply step_renew.
  - intros [= <-]. apply step_revoke.
  - intros [= <-]. apply step_revoke_all.
  - intros [= <-]. apply step_task.
  - intros [= <-]. apply step_cleanup.
Qed.

(** The lease comes from a creation in [os], and no revocation followed it if
    it is not revoked. *)
Definition issued (os : list lease_op) (id : LeaseId) (l : Lease) : Prop :=
  exists pre ttl post,
    os = pre ++ [OCreate (l_secret_id l) (l_version l) (l_client_id l) ttl id (l_created_at l)] ++ post /\
    (l_revoked l = false -> (ORevoke id ∉ post) /\ (ORevokeAll (l_secret_id l) ∉ post)).

Record lease_inv (os : list lease_op) (c : LeaseConfig) (id : LeaseId) (l : Lease) : Prop := {
  li_id : l_id l = id;
  li_max : l_max_ttl l = Some (max_ttl c);
  li_bound : l_expires_at l <= l_created_at l + max_ttl c;
  li_issued : issued os id l
}.

(** One more operation that leaves a lease issued, revoked or not. *)
Lemma issued_snoc os o id l l' :
  issued os id l ->
  l_secret_id l' = l_secret_id l -> l_version l' = l_version l -> l_client_id l' = l_client_id l ->
  l_created_at l' = l_created_at l ->
  (l_revoked l' = false -> l_revoked l = false /\ o <> ORevoke id /\ o <> ORevokeAll (l_secret_id l)) ->
  issued (os ++ [o]) id l'.
Proof.
  intros (pre & ttl & post & -> & Hp) E1 E2 E3 E4 Hr. unfold issued. rewrite E1, E2, E3, E4. exists pre, ttl, (post ++ [o]).
  rewrite <- app_assoc. split; [done|]. intros (Hl & H1 & H2)%Hr. destruct (Hp Hl) as [? ?].
  rewrite !not_elem_of_app, !list_elem_of_singleton. by repeat split; try congruence.
Qed.

Lemma lease_step_inv os o c id old l :
  (forall l0, old = Some l0 -> lease_inv os c id l0) -> lease_step o c id old (Some l) ->
  lease_inv (os ++ [o]) c id l.
Proof.
  intros Hold Hs. remember (Some l) as new eqn:Hnew.
  destruct Hs as [old s v cl ttl now lease -> Hb Hl|old H1 H2|l0|l0 Hr| |l0 inc now t -> Hr He Ht|];
    simplify_eq.
  - rewrite Hl in Hb |- *. split; [done..|]. exists os, ttl, []. split; [done|]. set_solver.
  - destruct (Hold _ eq_refl) as [? ? ? Hi]. split; [done..|]. apply (issued_snoc os o id l l Hi); [done..|].
    intros Hr. by eauto.
  - destruct (Hold _ eq_refl) as [? ? ? Hi]. split; [done..|]. by eapply (issued_snoc os o id l0).
  - destruct (Hold _ eq_refl) as [? ? ? Hi]. split; [done..|]. eapply (issued_snoc os o id l); [done..|].
    congruence.
  - destruct (Hold _ eq_refl) as [? Hm ? Hi]. rewrite Hm in Ht. split; [done..|].
    by eapply (issued_snoc os (ORenew id inc now) id l0).
Qed.

Lemma performs_inv os c tx m :
  performs os (LeaseManager_new c tx) = Some m ->
  config m = c /\ forall id l, leases m !! id = Some l -> lease_inv os c id l.
Proof.
  revert m. induction os as [|o os IH] using rev_ind; intros m.
  { intros [= <-]. split; [done|]. intros id l. simpl. by rewrite lookup_empty. }
  rewrite performs_app. intros (m1 & Hm1 & Ho)%bind_Some. simpl in Ho.
  apply bind_Some in Ho as (m2 & Ho & [= <-]). destruct (IH m1 Hm1) as [Hc Hinv].
  split; [by rewrite (perform_config _ _ _ Ho)|]. intros id l Hl.
  apply (perform_step _ _ _ id) in Ho. rewrite Hl, Hc in Ho. by eapply lease_step_inv; [apply Hinv|].
Qed.

Lemma validate_lease_Ok id t m l :
  validate_lease id t m = Ok l <-> leases m !! id = Some l /\ l_revoked l = false /\ t < l_expires_at l.
Proof.
  unfold validate_lease. destruct (leases m !! id) as [l0|]; simpl; [|by split; [|intros [[=] _]]].
  rewrite Z.geb_leb. destruct (l_revoked l0) eqn:Hr, (Z.leb_spec (l_expires_at l0) t); split;
    try (intros [[= ->] [? ?]]; (congruence || lia)); try done.
  by intros [= <-].
Qed.

(** Without a valid lease under [id] at time [t]. *)
Definition dead (id : LeaseId) (t : DateTime) (m : LeaseManager) : Prop :=
  forall l, leases m !! id = Some l -> l_revoked l = true \/ l_expires_at l <= t.

Lemma dead_validate id t m : dead id t m <-> is_ok (validate_lease id t m) = false.
Proof.
  unfold dead, validate_lease. destruct (leases m !! id) as [l|]; simpl; [|by split].
  rewrite Z.geb_leb. destruct (l_revoked l) eqn:Hr, (Z.leb_spec (l_expires_at l) t); simpl; split; try done.
  - intros _ l' [= <-]. by left.
  - intros _ l' [= <-]. by left.
  - intros _ l' [= <-]. by right.
  - intros Hd. destruct (Hd l eq_refl); [congruence|lia].
Qed.

Definition op_time (o : lease_op) : option DateTime :=
  match o with
  | OCreate _ _ _ _ _ now | ORenew _ _ now | OTask _ now | OCleanup now => Some now
  | _ => None
  end.
Definition creates (id : LeaseId) (o : lease_op) : Prop :=
  exists s v c ttl now, o = OCreate s v c ttl id now.

Lemma dead_step id t o m m' :
  perform o m = Some m' -> ~ creates id o -> (forall now, op_time o = Some now -> t <= now) ->
  dead id t m -> dead id t m'.
Proof.
  intros Ho Hc Ht Hd l Hl. apply (perform_step _ _ _ id) in Ho. rewrite Hl in Ho.
  remember (Some l) as new eqn:Hnew. remember (leases m !! id) as old eqn:Hold.
  destruct Ho as [old s v cl ttl now lease ->|old|l0|l0| |l0 inc now e -> Hr He|]; simplify_eq.
  - destruct Hc. unfold creates. by eauto 10.
  - by apply Hd.
  - by left.
  - by left.
  - specialize (Ht now eq_refl). destruct (Hd l0 (eq_sym Hold)); [congruence|lia].
Qed.

(** ** Theorems *)

(** C19: A lease that validates at time [t] was created in the run with the
    secret, version, client and time it shows, has been revoked neither by
    its id nor with its secret since, and [t] is less than the configured
    maximum after its creation, whatever renewals were made and whatever the
    clock did. *)
Theorem lease_lifetime os c tx m id t l :
  performs os (LeaseManager_new c tx) = Some m -> validate_lease id t m = Ok l ->
  t < l_created_at l + max_ttl c /\
  exists pre ttl post,
    os = pre ++ [OCreate (l_secret_id l) (l_version l) (l_client_id l) ttl id (l_created_at l)] ++ post /\
    (ORevoke id ∉ post) /\ (ORevokeAll (l_secret_id l) ∉ post).
Proof.
  intros [_ Hinv]%performs_inv (Hl & Hr & Ht)%validate_lease_Ok.
  destruct (Hinv id l Hl) as [_ _ Hb (pre & ttl & post & -> & Hp)].
  split; [lia|]. exists pre, ttl, post. by auto.
Qed.

(** Once a lease does not validate, it never validates again: as long as
    its id is not issued anew and the clock does not go back, no renewal,
    clean-up or expiration task brings it back. *)
Theorem lease_never_revives os m m' id t t' :
  performs os m = Some m' -> is_ok (validate_lease id t m) = false -> t <= t' ->
  Forall (fun o => ~ creates id o /\ forall now, op_time o = Some now -> t <= now) os ->
  is_ok (validate_lease id t' m') = false.
Proof.
  rewrite <- !dead_validate. intros Hp Hd Ht Hos.
  assert (dead id t m') as Hd'.
  { revert m Hp Hd. induction Hos as [|o os [Hc Ho] _ IH]; intros m Hp Hd; simpl in Hp; [by simplify_eq|].
    apply bind_Some in Hp as (m1 & Hm1 & Hp). eapply IH; [done|]. by eapply dead_step. }
  intros l Hl. destruct (Hd' l Hl); [by left|right; lia].
Qed.

(** Renewing a valid lease by an increment that leads past the last
    representable instant panics, although the lease would be capped to its
    maximum life. *)
Theorem renew_lease_overflow id inc now m l :
  validate_lease id now m = Ok l -> l_renewable l = true -> MAX_UTC < now + inc ->
  renew_lease id (Some inc) now m = None.
Proof.
  intros (Hl & Hr & Ht)%validate_lease_Ok Hn Hm. unfold renew_lease. rewrite Hl, Hr, Hn. simpl.
  rewrite Z.geb_leb. destruct (Z.leb_spec (l_expires_at l) now); [lia|].
  unfold dt_add at 1. destruct (Z.leb_spec (now + inc) MAX_UTC); [lia|]. by rewrite andb_false_r.
Qed.
End manager.
