(* ===== verification/SecretsManager.v ===== *)
(** * The secrets manager

    [SecretsManager] of [crates/secrets/src/store.rs]: a secret store behind
    its trait and a lease manager.  The methods are sequences of calls, each
    of which takes and releases its own locks, so other calls can come
    between them; [read_lookup]/[read_lease] and [delete_lookup]/
    [delete_revoke]/[delete_remove] are the steps of the two methods whose
    interleaving matters.  The clock is read by every call; [id] and
    [lease_id] are the random identifiers.  The outcome [None] is the panic
    of an instant out of range.

    The theorems are proved for every store that refines the vault. *)

From Stdlib Require Import ZArith Lia.
From stdpp Require Import base gmap strings list.
From S2P Require Import Prelude Platform AesGcm SecretPath SecretStore SecretSpec Leases.

Section manager.
Context {Value : Type} {S : Type} {STORE : @SecretStore Value S}.
Context {Channel : Type} {CH : Mpsc LeaseEvent Channel} {RANGE : ChronoRange}.
Abbreviation Secret := (Secret Value).
Abbreviation SecretData := (SecretData Value).
Abbreviation SecretMetadata := (SecretMetadata Value).

Record SecretsManager := MkSecretsManager {
  store : S;
  lease_manager : @LeaseManager Channel
}.

Definition outcome (A : Type) : Type := option (result A SecretError * SecretsManager).

Definition manager_new (store : S) (tx : Channel) : SecretsManager :=
  MkSecretsManager store (LeaseManager_new LeaseConfig_default tx).
Definition with_lease_config (store : S) (c : LeaseConfig) (tx : Channel) : SecretsManager :=
  MkSecretsManager store (LeaseManager_new c tx).

Definition with_store (st : SecretsManager) (s : S) : SecretsManager := MkSecretsManager s (lease_manager st).
Definition with_leases (st : SecretsManager) (m : LeaseManager) : SecretsManager :=
  MkSecretsManager (store st) m.

(** [create_lease] for a secret that was stored or read. *)
Definition lease_for {A} (value : Lease -> A) (secret_id : SecretId) (version : Z) (client_id : string)
    (ttl : option Duration) (lease_id : LeaseId) (now : DateTime) (st : SecretsManager) : outcome A :=
  '(lease, m) ← create_lease secret_id version client_id ttl lease_id now (lease_manager st);
  Some (Ok (value lease), with_leases st m).

Definition create_secret (path : SecretPath) (data : SecretData) (metadata : SecretMetadata)
    (client_id : string) (ttl : option Duration) (id : SecretId) (fill : fill_result) (now : DateTime)
    (lease_id : LeaseId) (now' : DateTime) (st : SecretsManager) : outcome (Secret * Lease) :=
  match create path data metadata id fill now (store st) with
  | (Err e, s) => Some (Err e, with_store st s)
  | (Ok secret, s) =>
      lease_for (pair secret) (s_id secret) (current_version secret) client_id ttl lease_id now'
        (with_store st s)
  end.

Definition read_lookup (path : SecretPath) (version : option Z) (st : SecretsManager)
  : result (Secret * SecretData) SecretError :=
  match version with
  | Some v => get_version path v (store st)
  | None => get path (store st)
  end.

Definition read_lease (secret : Secret) (data : SecretData) (version : option Z) (client_id : string)
    (ttl : option Duration) (lease_id : LeaseId) (now : DateTime) (st : SecretsManager)
  : outcome (SecretData * Lease) :=
  lease_for (pair data) (s_id secret) (default (current_version secret) version) client_id ttl lease_id now st.

Definition read_secret (path : SecretPath) (version : option Z) (client_id : string)
    (ttl : option Duration) (lease_id : LeaseId) (now : DateTime) (st : SecretsManager)
  : outcome (SecretData * Lease) :=
  match read_lookup path version st with
  | Err e => Some (Err e, st)
  | Ok (secret, data) => read_lease secret data version client_id ttl lease_id now st
  end.

Definition update_secret (path : SecretPath) (data : SecretData) (client_id : string)
    (ttl : option Duration) (fill : fill_result) (now : DateTime) (lease_id : LeaseId) (now' : DateTime)
    (st : SecretsManager) : outcome (Secret * Lease) :=
  match update path data fill now (store st) with
  | (Err e, s) => Some (Err e, with_store st s)
  | (Ok secret, s) =>
      lease_for (pair secret) (s_id secret) (current_version secret) client_id ttl lease_id now'
        (with_store st s)
  end.

Definition delete_lookup (path : SecretPath) (st : SecretsManager) : result Secret SecretError :=
  let? p := get path (store st) in Ok p.1.
Definition delete_revoke (secret : Secret) (st : SecretsManager) : SecretsManager :=
  with_leases st (revoke_all (s_id secret) (lease_manager st)).2.
Definition delete_remove (path : SecretPath) : M SecretsManager SecretError unit := fun st =>
  let '(r, s) := delete path (store st) in (r, with_store st s).

Definition delete_secret (path : SecretPath) : M SecretsManager SecretError unit := fun st =>
  match delete_lookup path st with
  | Err e => (Err e, st)
  | Ok secret => delete_remove path (delete_revoke secret st)
  end.

Definition manager_renew_lease (id : LeaseId) (increment : option Duration) (now : DateTime)
    (st : SecretsManager) : option (result Lease LeaseError * SecretsManager) :=
  '(r, m) ← renew_lease id increment now (lease_manager st); Some (r, with_leases st m).
Definition manager_revoke_lease (id : LeaseId) : M SecretsManager LeaseError unit := fun st =>
  let '(r, m) := revoke_lease id (lease_manager st) in (r, with_leases st m).
Definition revoke_secret_leases (secret_id : SecretId) (st : SecretsManager) : nat * SecretsManager :=
  let '(n, m) := revoke_all secret_id (lease_manager st) in (n, with_leases st m).
Definition manager_validate_lease (id : LeaseId) (now : DateTime) (st : SecretsManager)
  : result Lease LeaseError := validate_lease id now (lease_manager st).
Definition manager_list_client_leases (client_id : string) (now : DateTime) (st : SecretsManager)
  : list Lease := list_client_leases client_id now (lease_manager st).

(** ** What the interface gives *)

Context {REF : @StoreRefines Value S STORE}.

Lemma get_vault path s v :
  represents s v -> get path s = rbind (ok_or (NotFound path) (v !! path)) (fun e => v_read e (versions e)).
Proof.
  intros Hr. destruct (refines_step s v (RGet path) Hr I) as [Hg _].
  revert Hg. unfold refuse. simpl. by intros [= ->].
Qed.

Lemma get_version_vault path n s v :
  represents s v -> get_version path n s = rbind (ok_or (NotFound path) (v !! path)) (fun e => v_read e n).
Proof.
  intros Hr. destruct (refines_step s v (RGetVersion path n) Hr I) as [Hg _].
  revert Hg. unfold refuse. simpl. by intros [= ->].
Qed.

Lemma get_current path s v e :
  represents s v -> v !! path = Some e ->
  exists d, version e (versions e) = Some d /\ get path s = Ok (e_secret e, d).
Proof.
  intros Hr He. destruct (ew_last _ _ (represents_wf s v path e Hr He)) as [d Hd].
  exists d. split; [done|]. rewrite (get_vault path s v Hr), He. simpl. unfold v_read. by rewrite Hd.
Qed.

Lemma delete_vault path s v e :
  represents s v -> v !! path = Some e ->
  exists s', delete path s = (Ok tt, s') /\ represents s' (base.delete path v).
Proof.
  intros Hr He. destruct (refines_step s v (RDelete path) Hr I) as [Hg Hr'].
  revert Hg Hr'. unfold refuse. simpl. rewrite He. simpl. destruct (delete path s) as [r s'].
  simpl. intros [= ->]. eauto.
Qed.

Lemma create_lease_valid secret n client ttl id now (m : @LeaseManager Channel) l m' :
  create_lease secret n client ttl id now m = Some (l, m') ->
  leases m' !! id = Some l /\ l_secret_id l = secret /\ l_version l = n /\ l_client_id l = client /\
  l_revoked l = false /\
  l_expires_at l = now + Z.min (default (default_ttl (config m)) ttl) (max_ttl (config m)).
Proof.
  unfold create_lease. destruct (dt_add _ _) as [t|] eqn:Ht; [|done].
  intros [= <- <-]. simpl. apply dt_add_Some in Ht. by rewrite lookup_insert_eq.
Qed.

Lemma revoke_all_invalid secret id t (m : @LeaseManager Channel) l :
  validate_lease id t (revoke_all secret m).2 = Ok l -> l_secret_id l <> secret.
Proof.
  intros (Hl & Hr & _)%validate_lease_Ok. simpl in Hl. rewrite lookup_fmap in Hl.
  apply fmap_Some in Hl as (l0 & _ & ->). case_decide as Hd; [done|].
  intros E. apply Hd. by split.
Qed.

Lemma delete_secret_Ok path st v e :
  represents (store st) v -> v !! path = Some e ->
  exists st', delete_secret path st = (Ok tt, st') /\
    lease_manager st' = (revoke_all (s_id (e_secret e)) (lease_manager st)).2 /\
    represents (store st') (base.delete path v).
Proof.
  intros Hr He. unfold delete_secret, delete_lookup, delete_remove.
  destruct (get_current path _ v e Hr He) as (d & _ & ->).
  destruct (delete_vault path _ v e Hr He) as (s' & Hd & Hr').
  exists (MkSecretsManager s' (revoke_all (s_id (e_secret e)) (lease_manager st)).2).
  split; [|done]. change (store (delete_revoke _ st)) with (store st). simpl. by rewrite Hd.
Qed.

Lemma get_deleted path s (v : gmap SecretPath entry) :
  represents s (base.delete path v) -> get path s = Err (NotFound path).
Proof. intros Hr. by rewrite (get_vault path s _ Hr), lookup_delete_eq. Qed.

(** ** Theorems *)

(** C18: Deleting a secret that exists succeeds; afterwards the path is not
    found and no lease on the secret validates at any time. *)
Theorem delete_secret_complete path st v e :
  represents (store st) v -> v !! path = Some e ->
  exists st', delete_secret path st = (Ok tt, st') /\
    represents (store st') (base.delete path v) /\
    get path (store st') = Err (NotFound path) /\
    forall id t l, manager_validate_lease id t st' = Ok l -> l_secret_id l <> s_id (e_secret e).
Proof.
  intros Hr He. destruct (delete_secret_Ok path st v e Hr He) as (st' & Hd & Hm & Hr').
  exists st'. split; [done|]. split; [done|]. split; [by eapply get_deleted|].
  intros id t l. unfold manager_validate_lease. rewrite Hm. apply revoke_all_invalid.
Qed.

(** A successful read returns the data of the version asked for, or of
    the latest one, leaves the store as it was, and its lease names the
    secret, that version and the client and validates exactly until its time
    to live, capped by the configured maximum, has passed. *)
Theorem read_secret_leased path n client ttl lease_id now st v d l st' :
  represents (store st) v ->
  read_secret path n client ttl lease_id now st = Some (Ok (d, l), st') ->
  exists e, v !! path = Some e /\ represents (store st') v /\
    l_version l = default (versions e) n /\ version e (l_version l) = Some d /\
    l_secret_id l = s_id (e_secret e) /\ l_client_id l = client /\
    let c := config (lease_manager st) in
    forall t, manager_validate_lease lease_id t st' = Ok l <->
      t < now + Z.min (default (default_ttl c) ttl) (max_ttl c).
Proof.
  intros Hr. unfold read_secret.
  destruct (read_lookup path n st) as [[secret data]|] eqn:Hl; [|done].
  assert (exists e, v !! path = Some e /\ secret = e_secret e /\
    version e (default (versions e) n) = Some data) as (e & He & -> & Hd).
  { revert Hl. destruct n as [n|]; simpl; [rewrite (get_version_vault _ _ _ _ Hr)|rewrite (get_vault _ _ _ Hr)];
      destruct (v !! path) as [e|]; simpl; try done; unfold v_read; (case_match; [|done]);
      intros [= <- <-]; by exists e. }
  unfold read_lease, lease_for. intros ([l0 m] & Hc & [= <- <- <-])%bind_Some.
  apply create_lease_valid in Hc as (Hm & Hs & Hv & Hcl & Hrev & Hex).
  rewrite (ew_current _ _ (represents_wf _ _ _ _ Hr He)) in Hv.
  exists e. rewrite Hv. repeat (split; [done|]). simpl. intros t. unfold manager_validate_lease.
  rewrite validate_lease_Ok, <- Hex. simpl. split; [by intros (_ & _ & ?)|done].
Qed.

(** A read that looked the secret up before it was deleted, and takes out
    its lease afterwards, ends with a valid lease on a deleted secret. *)
Theorem delete_misses_reader path client ttl lease_id now st v e secret d st1 out st2 :
  represents (store st) v -> v !! path = Some e ->
  read_lookup path None st = Ok (secret, d) ->
  delete_secret path st = (Ok tt, st1) ->
  read_lease secret d None client ttl lease_id now st1 = Some (Ok out, st2) ->
  0 < Z.min (default (default_ttl (config (lease_manager st1))) ttl) (max_ttl (config (lease_manager st1))) ->
  get path (store st2) = Err (NotFound path) /\
  exists l, manager_validate_lease lease_id now st2 = Ok l /\ l_secret_id l = s_id (e_secret e).
Proof.
  intros Hr He Hl Hd Hrd Hpos. destruct (delete_secret_Ok path st v e Hr He) as (st' & Hd' & _ & Hr').
  assert (st1 = st') as -> by congruence.
  assert (secret = e_secret e) as ->.
  { destruct (get_current path _ v e Hr He) as (d' & _ & Hg). simpl in Hl. congruence. }
  unfold read_lease, lease_for in Hrd. apply bind_Some in Hrd as ([l m] & Hc & [= <- <-]).
  apply create_lease_valid in Hc as (Hm & Hs & _ & _ & Hrev & Hex). split; [by eapply get_deleted|].
  exists l. split; [|done]. apply validate_lease_Ok. split; [done|]. split; [done|]. rewrite Hex. lia.
Qed.
End manager.
