(* ===== verification/SecretWitness.v ===== *)
(** * Concrete runs of the secret stores and the secrets manager *)

From Stdlib Require Import ZArith Lia.
From stdpp Require Import base gmap strings list.
From S2P Require Import Prelude External Platform AesGcm SecretPath SecretStore SecretSpec.
From S2P Require Import SecretRefine Leases SecretsManager.
Import Concrete Concrete2.

(** JSON values that are strings or numbers.  Serialised, the variants of a
    secret value can not be told apart but by their shape: a JSON string is
    read as a string. *)
Abbreviation value := (string + Z)%type (only parsing).
Abbreviation sdata := (SecretData (string + Z)).
Definition untagged (v : SecretValue value) : string + (bytes + Z) :=
  match v with
  | VString s | VJson (inl s) => inl s
  | VBinary b => inr (inl b)
  | VJson (inr n) => inr (inr n)
  end.
Definition first_fit (x : string + (bytes + Z)) : SecretValue value :=
  match x with inl s => VString s | inr (inl b) => VBinary b | inr (inr n) => VJson (inr n) end.
#[local] Instance data_codec : SerdeCodec sdata := {|
  to_vec d := @to_vec _ countable_codec (untagged <$> sd_data d);
  from_slice b := match @from_slice (gmap string (string + (bytes + Z))) countable_codec b with
                  | Ok m => Ok (MkSecretData (first_fit <$> m))
                  | Err e => Err e
                  end |}.

Definition meta0 : SecretMetadata value := MkSecretMetadata ∅ None None None None.
Definition password (p : string) : sdata := MkSecretData {[ "password" := VString p ]}.
Definition json_password (p : string) : sdata := MkSecretData {[ "password" := VJson (inl p) ]}.
Definition message (e : CryptoError) : string := "error".
Definition path0 : SecretPath := "/app/db".

(** ** Stores *)

Definition requests0 : list (@request value) :=
  [RCreate path0 (password "one") meta0 "id-1" (Ok nonce0) 10;
   RUpdate path0 (password "two") (Ok nonce0) 20;
   RUpdate path0 (password "lost") (Err tt) 25;
   RUpdate path0 (json_password "three") (Ok nonce0) 30;
   RGetVersion path0 1; RDestroy path0 1; RGet path0; RDelete path0; RExists path0].

Definition refused0 := encode_refusal (encrypt_data message key0).

Lemma nonce0_ok : fill_ok (Ok nonce0).
Proof. by intros n [= <-]. Qed.

Lemma no_nonce_ok : fill_ok (Err tt).
Proof. done. Qed.

Lemma update_ok observed (v : gmap SecretPath (@entry value)) path d fill now :
  fill_ok fill -> is_Some (observed d) ->
  from_option (fun e => in_ub 32 (versions e + 1)) true (v !! path) = true ->
  request_ok observed v (RUpdate path d fill now).
Proof. intros Hf Hd Hv. split; [done|]. split; [done|]. intros e He. rewrite He in Hv. by apply in_ub_spec. Qed.

Lemma create_ok observed path (d : sdata) m id fill now :
  fill_ok fill -> is_Some (observed d) -> request_ok observed ∅ (RCreate path d m id fill now).
Proof. intros Hf Hd. split; [done|]. split; [done|]. intros p e. by rewrite lookup_empty. Qed.

Lemma requests0_ok : run_ok refused0 reread requests0 ∅.
Proof.
  cbn [requests0 run_ok]. split; [apply create_ok; [apply nonce0_ok|by vm_compute; eexists]|].
  split; [apply update_ok; [apply nonce0_ok|by vm_compute; eexists|vm_compute; reflexivity]|].
  split; [apply update_ok; [apply no_nonce_ok|by vm_compute; eexists|vm_compute; reflexivity]|].
  split; [apply update_ok; [apply nonce0_ok|by vm_compute; eexists|vm_compute; reflexivity]|].
  repeat split.
Qed.

Lemma secret_stores_refine_witness :
  Forall2 resp_equiv
    (@exec_all value EncryptedSecretStore (Encrypted_store message key0) requests0 Encrypted_new).1
    (refuse_all refused0 reread requests0 ∅).1.
Proof. exact (proj1 (proj2 (secret_stores_refine message key0 requests0)) requests0_ok). Defined.

(** What was written as a JSON string is given back as a string. *)
Example json_string_reread :
  reread (json_password "three") = Some (password "three") /\ json_password "three" <> password "three".
Proof. split; [vm_compute; reflexivity|done]. Qed.

(** The in-memory store after the first request. *)
Definition secret0 : Secret value := MkSecret "id-1" path0 1 meta0 10 10.
Definition entry0 : @entry value := MkEntry secret0 [Some (password "one")].
Definition vault0 : gmap SecretPath (@entry value) := {[ path0 := entry0 ]}.
Definition memory0 : @InMemorySecretStore value :=
  (create path0 (password "one") meta0 "id-1" (Ok nonce0) 10 InMemory_new).2.

Lemma memory0_represents : represents memory0 vault0.
Proof.
  destruct (refines_step InMemory_new ∅ (RCreate path0 (password "one") meta0 "id-1" (Ok nonce0) 10))
    as [_ H]; [apply repr_empty|apply create_ok; [apply nonce0_ok|by eexists]|].
  exact H.
Qed.

Lemma update_not_atomic_witness :
  data (update_data (bump secret0 30) (password "two")
    (st_delete path0 (MkStore {[ path0 := bump secret0 30 ]} (data memory0))).2).2 !! ("id-1", 2)
  = Some (password "two").
Proof.
  destruct (update_not_atomic plain_encode plain_decode Some memory0 vault0 path0 (password "two") (Ok nonce0) 30
    (bump secret0 30) (password "two") (MkStore {[ path0 := bump secret0 30 ]} (data memory0)))
    as (_ & _ & _ & H).
  - exact memory0_represents.
  - apply update_ok; [apply nonce0_ok|by eexists|vm_compute; reflexivity].
  - vm_compute. reflexivity.
  - exact H.
Defined.

(** ** Leases *)

Abbreviation channel := (list LeaseEvent).
Definition config0 : LeaseConfig := MkLeaseConfig 100 250 true.
Definition ops0 : list lease_op :=
  [OCreate "id-1" 1 "alice" None "lease-1" 0; OCreate "id-2" 1 "bob" (Some 40) "lease-2" 0;
   ORevokeAll "id-2"; ORenew "lease-1" (Some 200) 90; OTask 0 100; OCleanup 120].
Definition leases0 : option (@LeaseManager channel) := performs ops0 (LeaseManager_new config0 []).
Definition manager0 : @LeaseManager channel := default (LeaseManager_new config0 []) leases0.
Definition lease0 : Lease := MkLease "lease-1" "id-1" 1 "alice" 0 250 false true (Some 250).

Lemma leases0_run : performs ops0 (LeaseManager_new config0 []) = Some manager0.
Proof. vm_compute. reflexivity. Qed.

Lemma lease_lifetime_witness : 240 < 0 + 250.
Proof.
  exact (proj1 (lease_lifetime ops0 config0 [] manager0 "lease-1" 240 lease0 leases0_run
    ltac:(vm_compute; reflexivity))).
Defined.

Lemma lease_never_revives_witness :
  exists m', performs [ORenew "lease-1" (Some 1000) 260; OCleanup 270] manager0 = Some m' /\
    is_ok (validate_lease "lease-1" 280 m') = false.
Proof.
  eexists. split; [vm_compute; reflexivity|].
  eapply (lease_never_revives [ORenew "lease-1" (Some 1000) 260; OCleanup 270] manager0 _ "lease-1" 255);
    [vm_compute; reflexivity|vm_compute; reflexivity|lia|].
  repeat constructor; try (intros (? & ? & ? & ? & ? & [=])); intros now [= <-]; lia.
Defined.

Lemma renew_lease_overflow_witness : renew_lease "lease-1" (Some (MAX_UTC + 1)) 130 manager0 = None.
Proof.
  apply (renew_lease_overflow "lease-1" (MAX_UTC + 1) 130 manager0 lease0);
    [vm_compute; reflexivity|reflexivity|lia].
Defined.

(** ** The manager *)

Definition secrets0 : @SecretsManager (@InMemorySecretStore value) channel :=
  MkSecretsManager memory0 (default manager0 (snd <$> create_lease "id-1" 1 "alice" None "lease-3" 0 manager0)).

Lemma delete_secret_complete_witness :
  exists st', delete_secret path0 secrets0 = (Ok tt, st') /\
    is_ok (manager_validate_lease "lease-3" 10 st') = false.
Proof.
  destruct (delete_secret_complete path0 secrets0 vault0 entry0) as (st' & Hd & _ & _ & Hl);
    [exact memory0_represents|vm_compute; reflexivity|].
  exists st'. split; [exact Hd|].
  destruct (manager_validate_lease "lease-3" 10 st') as [l|] eqn:Hv; [|done].
  destruct (Hl _ _ _ Hv). vm_compute in Hd. injection Hd as <-. vm_compute in Hv. done.
Defined.

Lemma read_secret_leased_witness :
  exists l st', read_secret path0 None "carol" (Some 30) "lease-4" 50 secrets0 = Some (Ok (password "one", l), st') /\
    l_version l = 1 /\ manager_validate_lease "lease-4" 79 st' = Ok l.
Proof.
  do 2 eexists. split; [vm_compute; reflexivity|].
  edestruct (read_secret_leased path0 None "carol" (Some 30) "lease-4" 50 secrets0 vault0)
    as (e & He & _ & Hv & _ & _ & _ & Ht); [exact memory0_represents|vm_compute; reflexivity|].
  split; [reflexivity|]. apply Ht. vm_compute. reflexivity.
Defined.

Lemma delete_misses_reader_witness :
  exists st1 st2 out, delete_secret path0 secrets0 = (Ok tt, st1) /\
    read_lease secret0 (password "one") None "mallory" None "lease-5" 60 st1 = Some (Ok out, st2) /\
    exists l, manager_validate_lease "lease-5" 60 st2 = Ok l /\ l_secret_id l = "id-1".
Proof.
  do 3 eexists. split; [vm_compute; reflexivity|]. split; [vm_compute; reflexivity|].
  eapply (delete_misses_reader path0 "mallory" None "lease-5" 60 secrets0 vault0 entry0 secret0 (password "one"));
    [exact memory0_represents|vm_compute; reflexivity..].
Defined.
