(* ===== verification/FileSystem.v ===== *)
(** * Disk, checksums and the master key of the file storage

    [crates/storage/src/checksum.rs], [master_key.rs] and the errors of
    [backend.rs], over a model of the directory tree the storage works on:
    below [namespaces/], one directory per namespace with the directories
    [keys/] and [journal/], the latter with the file [wal.log]; and the file
    of the master key.  Names are single path components.

    Every change of the disk is a step that can fail.  [faults] says what the
    next steps do, so that a theorem about all schedules is one about a crash
    or an I/O error at any point: [Fails] changes nothing, [Torn n] writes
    only the first [n] bytes, [Partial d] leaves of a directory that is being
    removed what [d] says.  Reading what exists succeeds.  [entropy] and
    [clock] are the random bytes drawn and the readings of the clock, in
    order. *)

From Stdlib Require Import ZArith Lia Strings.Byte.
From stdpp Require Import base gmap strings list.
From S2P Require Import Prelude External Platform.

Inductive StorageError :=
| SKeyNotFound (id : string)
| SNamespaceNotFound (ns : string)
| SIo (msg : string)
| SEncryption (msg : string)
| CorruptionDetected (msg : string)
| SJournal (msg : string)
| SSerialization (msg : string)
| SMasterKey (msg : string)
| SInvalidPath (path : string)
| OperationFailed (msg : string).
Definition StorageError_to_string (e : StorageError) : string :=
  match e with
  | SKeyNotFound m => "Key not found: " +:+ m
  | SNamespaceNotFound m => "Namespace not found: " +:+ m
  | SIo m => "IO error: " +:+ m
  | SEncryption m => "Encryption error: " +:+ m
  | CorruptionDetected m => "Data corruption detected: " +:+ m
  | SJournal m => "Journal error: " +:+ m
  | SSerialization m => "Serialization error: " +:+ m
  | SMasterKey m => "Master key error: " +:+ m
  | SInvalidPath m => "Invalid path: " +:+ m
  | OperationFailed m => "Operation failed: " +:+ m
  end.

(** ** Disk *)

Record NsDir := MkNsDir {
  keys_dir : option (gmap string bytes);
  journal_dir : option (option bytes)
}.
Inductive fault := Works | Fails | Torn (n : nat) | Partial (d : NsDir).

Record World := MkWorld {
  ns_dirs : gmap string NsDir;
  master_key_file : option bytes;
  faults : list fault;
  entropy : nat -> nat -> bytes;
  clock : nat -> Z;
  tick : nat
}.
Definition set_dirs (f : gmap string NsDir -> gmap string NsDir) (w : World) : World :=
  MkWorld (f (ns_dirs w)) (master_key_file w) (faults w) (entropy w) (clock w) (tick w).
Definition set_master (b : option bytes) (w : World) : World :=
  MkWorld (ns_dirs w) b (faults w) (entropy w) (clock w) (tick w).
Definition set_faults (fs : list fault) (w : World) : World :=
  MkWorld (ns_dirs w) (master_key_file w) fs (entropy w) (clock w) (tick w).
Definition next_tick (w : World) : World :=
  MkWorld (ns_dirs w) (master_key_file w) (faults w) (entropy w) (clock w) (tick w + 1).

Abbreviation fs A := (M World StorageError A).

Definition io_error : StorageError := SIo "I/O error".
Definition no_entry : StorageError := SIo "No such file or directory".

(** One change of the disk; [cut n] is what is left of it when it is torn. *)
Definition disk_step (good : World -> World) (cut : nat -> World -> World) : fs unit := fun w =>
  match faults w with
  | [] => (Ok tt, good w)
  | f :: rest =>
      let w := set_faults rest w in
      match f with
      | Works => (Ok tt, good w)
      | Torn n => (Err io_error, cut n w)
      | Fails | Partial _ => (Err io_error, w)
      end
  end.
(** A call that changes nothing the model sees: [sync_all],
    [set_permissions], [create_dir_all] of the base directories. *)
Definition touch : fs unit := disk_step Datatypes.id (fun _ => Datatypes.id).
Definition sync_all : fs unit := touch.
Definition set_permissions : fs unit := touch.
Definition create_base_dir : fs unit := touch.
Definition fill_bytes (n : nat) : fs bytes := fun w => (Ok (entropy w (tick w) n), next_tick w).
Definition now_secs : fs Z := fun w => (Ok (wrap 64 (clock w (tick w))), next_tick w).
Definition look {A} (f : World -> A) : fs A := fun w => (Ok (f w), w).

Definition on_dir (ns : string) (f : NsDir -> NsDir) : World -> World := set_dirs (alter f ns).
Definition key_files (w : World) (ns : string) : option (gmap string bytes) :=
  ns_dirs w !! ns ≫= keys_dir.
Definition wal_file (w : World) (ns : string) : option bytes :=
  (ns_dirs w !! ns ≫= journal_dir) ≫= Datatypes.id.
Definition set_keys (f : gmap string bytes -> gmap string bytes) (d : NsDir) : NsDir :=
  MkNsDir (f <$> keys_dir d) (journal_dir d).
Definition set_wal (b : option bytes) (d : NsDir) : NsDir := MkNsDir (keys_dir d) (Some b).
Definition put_key_file (ns name : string) (content : bytes) : World -> World :=
  on_dir ns (set_keys <[name := content]>).
Definition drop_key_file (ns name : string) : World -> World := on_dir ns (set_keys (delete name)).

(** Files in [keys/]: create or truncate, write, remove. *)
Definition create_restricted_file (ns name : string) : fs unit := fun w =>
  match key_files w ns with
  | None => (Err no_entry, w)
  | Some _ => disk_step (put_key_file ns name []) (fun _ => put_key_file ns name []) w
  end.
Definition write_all (ns name : string) (content : bytes) : fs unit :=
  disk_step (put_key_file ns name content) (fun n => put_key_file ns name (take n content)).
Definition remove_file (ns name : string) : fs unit :=
  disk_step (drop_key_file ns name) (fun _ => Datatypes.id).

(** The file [journal/wal.log]: open for appending, append, remove. *)
Definition wal_content (d : NsDir) : bytes := default [] (mjoin (journal_dir d)).
Definition append_bytes (b : bytes) (d : NsDir) : NsDir := set_wal (Some (wal_content d ++ b)) d.
Definition open_wal (ns : string) : fs unit := fun w =>
  match ns_dirs w !! ns ≫= journal_dir with
  | None => (Err no_entry, w)
  | Some _ => disk_step (on_dir ns (append_bytes [])) (fun _ => on_dir ns (append_bytes [])) w
  end.
Definition append_wal (ns : string) (b : bytes) : fs unit :=
  disk_step (on_dir ns (append_bytes b)) (fun n => on_dir ns (append_bytes (take n b))).
Definition remove_wal (ns : string) : fs unit :=
  disk_step (on_dir ns (set_wal None)) (fun _ => Datatypes.id).

(** Directories.  [create_dir_all] of a directory that exists does nothing. *)
Definition empty_dir : NsDir := MkNsDir None None.
Definition make_ns (ns : string) : World -> World :=
  set_dirs (fun m => match m !! ns with Some _ => m | None => <[ns := empty_dir]> m end).
Definition create_ns_dir (ns : string) : fs unit := disk_step (make_ns ns) (fun _ => Datatypes.id).
Definition create_keys_dir (ns : string) : fs unit :=
  let good w := on_dir ns (fun d => MkNsDir (Some (default ∅ (keys_dir d))) (journal_dir d)) (make_ns ns w) in
  disk_step good (fun _ => make_ns ns).
Definition create_journal_dir (ns : string) : fs unit :=
  let good w := on_dir ns (fun d => MkNsDir (keys_dir d) (Some (default None (journal_dir d)))) (make_ns ns w) in
  disk_step good (fun _ => make_ns ns).

(** What an interrupted removal may leave of a directory. *)
Definition below (d d0 : NsDir) : bool :=
  match keys_dir d, keys_dir d0 with
  | None, _ => true
  | Some k, Some k0 => bool_decide (k ⊆ k0)
  | Some _, None => false
  end &&
  match journal_dir d, journal_dir d0 with
  | None, _ | Some None, Some _ => true
  | Some (Some b), Some (Some b0) => bool_decide (b = b0)
  | _, None | Some (Some _), Some None => false
  end.
Definition remove_dir_all (ns : string) : fs unit := fun w =>
  match faults w with
  | Partial d :: rest =>
      let w := set_faults rest w in
      match ns_dirs w !! ns with
      | Some d0 => (Err io_error, if below d d0 then set_dirs <[ns := d]> w else w)
      | None => (Err io_error, w)
      end
  | _ => disk_step (set_dirs (delete ns)) (fun _ => Datatypes.id) w
  end.

(** ** Checksums *)

Section storage.
Context {SHA : Sha256} {AEAD : Aead}.

Record Checksum := MkChecksum { checksum_bytes : bytes }.
Definition Checksum_compute (data : bytes) : Checksum := MkChecksum (sha256 data).
Definition Checksum_verify (c : Checksum) (data : bytes) : result unit StorageError :=
  if bool_decide (checksum_bytes (Checksum_compute data) = checksum_bytes c) then Ok tt
  else Err (CorruptionDetected "Checksum mismatch").

Record ChecksummedData := MkChecksummed { cd_data : bytes; cd_checksum : Checksum }.
Definition ChecksummedData_new (data : bytes) : ChecksummedData := MkChecksummed data (Checksum_compute data).
Definition into_verified_data (c : ChecksummedData) : result bytes StorageError :=
  let? _ := Checksum_verify (cd_checksum c) (cd_data c) in Ok (cd_data c).

Record KeyMetadata := MkKeyMeta {
  km_checksum : Checksum;
  km_timestamp : Z;
  km_size : Z;
  km_version : Z
}.
Definition KeyMetadata_new (now : Z) (encrypted_data : bytes) : KeyMetadata :=
  MkKeyMeta (Checksum_compute encrypted_data) now (Z.of_nat (length encrypted_data)) 1.
Definition KeyMetadata_verify (m : KeyMetadata) (encrypted_data : bytes) : result unit StorageError :=
  if negb (Z.of_nat (length encrypted_data) =? km_size m) then
    Err (CorruptionDetected ("Size mismatch: expected " +:+ to_decimal (km_size m) +:+ ", got " +:+
                             to_decimal (Z.of_nat (length encrypted_data))))
  else Checksum_verify (km_checksum m) encrypted_data.

Lemma KeyMetadata_new_verifies now b : KeyMetadata_verify (KeyMetadata_new now b) b = Ok tt.
Proof. unfold KeyMetadata_verify, KeyMetadata_new. cbn. rewrite Z.eqb_refl. cbn. unfold Checksum_verify. by rewrite bool_decide_true. Qed.

Lemma into_verified_new data : into_verified_data (ChecksummedData_new data) = Ok data.
Proof. unfold into_verified_data, Checksum_verify. cbn. by rewrite bool_decide_true. Qed.

(** ** The master key *)

Definition MASTER_KEY_SIZE : nat := 32.
Definition NONCE_SIZE : nat := 12.
Record MasterKey := MkMasterKey { master_bytes : bytes }.
Record EncryptedData := MkEncrypted { ed_nonce : bytes; ed_ciphertext : bytes }.

Definition MasterKey_generate : fs MasterKey := let! key := fill_bytes MASTER_KEY_SIZE in ret (MkMasterKey key).
Definition MasterKey_from_bytes (b : bytes) : result MasterKey StorageError :=
  if negb (length b =? MASTER_KEY_SIZE)%nat then
    Err (SMasterKey ("Invalid key size: expected 32, got " +:+ to_decimal (Z.of_nat (length b))))
  else Ok (MkMasterKey b).

(** Encryption under a key, with [what] in the message of a failure. *)
Definition seal (what what' : string) (key plaintext : bytes) : fs EncryptedData :=
  let! cipher := lift (rmap_err (fun e => SEncryption (what +:+ e)) (new_from_slice Aes256 key)) in
  let! nonce := fill_bytes NONCE_SIZE in
  let! ciphertext := lift (rmap_err (fun e => SEncryption (what' +:+ e)) (aead_encrypt cipher nonce [] plaintext)) in
  ret (MkEncrypted nonce ciphertext).
Definition unseal (what what' : string) (key : bytes) (encrypted : EncryptedData) : result bytes StorageError :=
  let? cipher := rmap_err (fun e => SEncryption (what +:+ e)) (new_from_slice Aes256 key) in
  rmap_err (fun e => SEncryption (what' +:+ e))
    (aead_decrypt cipher (ed_nonce encrypted) [] (ed_ciphertext encrypted)).

Definition MasterKey_encrypt (k : MasterKey) (plaintext : bytes) : fs EncryptedData :=
  seal "Failed to create cipher: " "Encryption failed: " (master_bytes k) plaintext.
Definition MasterKey_decrypt (k : MasterKey) (encrypted : EncryptedData) : result bytes StorageError :=
  unseal "Failed to create cipher: " "Decryption failed: " (master_bytes k) encrypted.
Definition encrypt_with_kek (k : MasterKey) (kek : bytes) : fs EncryptedData :=
  seal "Failed to create KEK cipher: " "KEK encryption failed: " kek (master_bytes k).
Definition decrypt_with_kek (encrypted : EncryptedData) (kek : bytes) : result MasterKey StorageError :=
  let? plaintext := unseal "Failed to create KEK cipher: " "KEK decryption failed: " kek encrypted in
  MasterKey_from_bytes plaintext.

Context {PE : Postcard EncryptedData}.

Definition MasterKey_save (k : MasterKey) (kek : bytes) : fs unit :=
  create_base_dir ;!
  let! encrypted := encrypt_with_kek k kek in
  let! b := lift (rmap_err (fun e => SSerialization ("Failed to serialize master key: " +:+ e))
                    (to_allocvec encrypted)) in
  disk_step (set_master (Some b)) (fun n => set_master (Some (take n b))).
Definition MasterKey_load (kek : bytes) : fs MasterKey := fun w =>
  (match master_key_file w with
   | None => Err no_entry
   | Some data =>
       let? encrypted := rmap_err (fun e => SSerialization ("Failed to deserialize master key: " +:+ e))
                           (from_postcard data) in
       decrypt_with_kek encrypted kek
   end, w).

(** What is sealed can be unsealed with the same key. *)
Lemma seal_unseal a b a' b' key plaintext w e w' :
  (forall t n, length (entropy w t n) = n) ->
  seal a b key plaintext w = (Ok e, w') -> unseal a' b' key e = Ok plaintext.
Proof.
  intros Hent H. unfold seal in H.
  apply bind_inv_Ok in H as (c & w1 & [= Hc%rmap_err_Ok <-] & H).
  apply bind_inv_Ok in H as (n & w2 & [= <- <-] & H).
  apply bind_inv_Ok in H as (ct & w3 & [= Hct%rmap_err_Ok <-] & [= <- _]).
  unfold unseal. rewrite Hc. cbn. erewrite aead_decrypt_encrypt; [done| |done]. apply Hent.
Qed.
End storage.
