(* ===== verification/Journal.v ===== *)
(** * The write-ahead journal

    [crates/storage/src/journal.rs]: entries, their frames (a length of four
    bytes and the checksummed entry), appending, committing, replaying and
    truncating.  The journal of a namespace is the file [wal.log] of its
    directory, so the path of a journal is the name of the namespace.

    The second half is the theory of frames: reading what was committed gives
    the entries back, also when the last frame was cut off, and reading stops
    at a cut-off frame whatever follows it. *)

From Stdlib Require Import ZArith Lia Strings.Byte.
From stdpp Require Import base gmap strings list.
From S2P Require Import Prelude External Platform FileSystem.

Inductive JournalOp :=
| JStoreKey (key_id namespace : string) (data : bytes)
| JDeleteKey (key_id namespace : string)
| JCreateNamespace (namespace : string)
| JDeleteNamespace (namespace : string).

Record JournalEntry := MkEntry {
  je_sequence : Z;
  je_operation : JournalOp;
  je_timestamp : Z
}.
Record WriteAheadLog := MkWal {
  journal_path : string;
  wal_sequence : Z;
  pending : list JournalEntry
}.

Abbreviation logging A := (M (WriteAheadLog * World) StorageError A).

Section journal.
Context {SHA : Sha256} {PCD : Postcard ChecksummedData} {PJE : Postcard JournalEntry}.

(** ** Frames *)

Definition encode_entry (entry : JournalEntry) : result bytes StorageError :=
  let? entry_bytes := rmap_err (fun e => SSerialization ("Failed to serialize journal entry: " +:+ e))
                        (to_allocvec entry) in
  rmap_err (fun e => SSerialization ("Failed to serialize checksummed entry: " +:+ e))
    (to_allocvec (ChecksummedData_new entry_bytes)).

Definition length_prefix (b : bytes) : bytes := le_bytes 4 (wrap 32 (Z.of_nat (length b))).

Definition decode_entry (b : bytes) : option JournalEntry :=
  match from_postcard b with
  | Ok checksummed =>
      match into_verified_data checksummed with
      | Ok entry_bytes => match from_postcard entry_bytes with Ok entry => Some entry | Err _ => None end
      | Err _ => None
      end
  | Err _ => None
  end.

(** The loop over the buffer; [buffer] is what is left of it. *)
Fixpoint read_frames (fuel : nat) (buffer : bytes) : list JournalEntry :=
  match fuel with
  | O => []
  | S fuel =>
      match buffer with
      | [] => []
      | _ =>
          if (length buffer <? 4)%nat then []
          else
            let len := from_le_bytes (take 4 buffer) in
            let rest := drop 4 buffer in
            if Z.of_nat (length rest) <? len then []
            else option_list (decode_entry (take (Z.to_nat len) rest)) ++
                 read_frames fuel (drop (Z.to_nat len) rest)
      end
  end.
Definition frames (buffer : bytes) : list JournalEntry := read_frames (length buffer) buffer.

Definition read_entries (ns : string) : fs (list JournalEntry) :=
  look (fun w => match wal_file w ns with None => [] | Some buffer => frames buffer end).
Definition read_last_sequence (ns : string) : fs Z :=
  let! entries := read_entries ns in ret (default 0 (je_sequence <$> last entries)).

(** ** Operations *)

Definition wal_new (ns : string) : fs WriteAheadLog :=
  create_journal_dir ns ;!
  let! present := look (fun w => bool_decide (is_Some (wal_file w ns))) in
  let! sequence := (if (present : bool) then read_last_sequence ns else ret 0) in
  ret (MkWal ns sequence []).

Definition on_disk {A} (c : fs A) : logging A := fun s =>
  let '(r, w) := c s.2 in (r, (s.1, w)).

(** The counter wraps as in a release build. *)
Definition wal_append (operation : JournalOp) : logging unit :=
  let! now := on_disk now_secs in
  modify (fun s =>
    let sequence := wrap 64 (wal_sequence s.1 + 1) in
    (MkWal (journal_path s.1) sequence (pending s.1 ++ [MkEntry sequence operation now]), s.2)).

Fixpoint write_entries (ns : string) (entries : list JournalEntry) : fs unit :=
  match entries with
  | [] => ret tt
  | entry :: rest =>
      let! checksummed_bytes := lift (encode_entry entry) in
      append_wal ns (length_prefix checksummed_bytes) ;!
      append_wal ns checksummed_bytes ;!
      write_entries ns rest
  end.

Definition wal_commit : logging unit := fun s =>
  match pending s.1 with
  | [] => (Ok tt, s)
  | entries =>
      let ns := journal_path s.1 in
      (on_disk (open_wal ns ;! write_entries ns entries ;! sync_all ;! set_permissions) ;!
       modify (fun s => (MkWal (journal_path s.1) (wal_sequence s.1) [], s.2))) s
  end.

Definition wal_replay (j : WriteAheadLog) : fs (list JournalEntry) := read_entries (journal_path j).

Definition wal_truncate : logging unit := fun s =>
  let ns := journal_path s.1 in
  (on_disk (if bool_decide (is_Some (wal_file s.2 ns)) then remove_wal ns else ret tt) ;!
   modify (fun s => (MkWal (journal_path s.1) 0 [], s.2))) s.

(** ** Frames, read back *)

Definition frame (b : bytes) : bytes := length_prefix b ++ b.

(** The bytes of the frames of some entries. *)
Definition framed (es : list JournalEntry) (b : bytes) : Prop :=
  exists bs, Forall2 (fun e c => encode_entry e = Ok c /\ Z.of_nat (length c) < 2 ^ 32) es bs /\
             b = concat (frame <$> bs).

(** A frame that was cut off. *)
Definition cut_off (b : bytes) : Prop :=
  exists c n, Z.of_nat (length c) < 2 ^ 32 /\ (n < length (frame c))%nat /\ b = take n (frame c).

Lemma decode_encode e b : encode_entry e = Ok b -> decode_entry b = Some e.
Proof.
  unfold encode_entry, decode_entry. intros (eb & He%rmap_err_Ok & Hb%rmap_err_Ok)%rbind_Ok.
  apply from_postcard_to_allocvec in He, Hb. by rewrite Hb, into_verified_new, He.
Qed.

Lemma length_length_prefix b : length (length_prefix b) = 4%nat.
Proof. apply length_le_bytes. Qed.

Lemma from_length_prefix b :
  Z.of_nat (length b) < 2 ^ 32 -> from_le_bytes (length_prefix b) = Z.of_nat (length b).
Proof.
  intros Hb. unfold length_prefix. rewrite from_le_le_bytes, wrap_small by (split; lia).
  rewrite Z.mod_small; [done|]. change (256 ^ Z.of_nat 4) with (2 ^ 32). lia.
Qed.

Lemma length_frame b : length (frame b) = (4 + length b)%nat.
Proof. unfold frame. by rewrite length_app, length_length_prefix. Qed.

(** One turn of the loop over a whole frame. *)
Lemma read_frames_frame fuel b rest :
  Z.of_nat (length b) < 2 ^ 32 ->
  read_frames (S fuel) (frame b ++ rest) = option_list (decode_entry b) ++ read_frames fuel rest.
Proof.
  intros Hb. cbn [read_frames].
  destruct (frame b ++ rest) as [|x l] eqn:E.
  { apply (f_equal length) in E. rewrite length_app, length_frame in E. simpl in E. lia. }
  rewrite <- E. clear x l E.
  rewrite length_app, length_frame, (proj2 (Nat.ltb_ge _ _)) by lia.
  unfold frame. rewrite <- (app_assoc (length_prefix b)).
  rewrite take_app_length', drop_app_length', from_length_prefix by (rewrite ?length_length_prefix; done).
  rewrite length_app, (proj2 (Z.ltb_ge _ _)) by lia.
  by rewrite Nat2Z.id, take_app_length, drop_app_length.
Qed.

(** Enough fuel is enough. *)
Lemma read_frames_fuel fuel fuel' buffer :
  (length buffer <= fuel)%nat -> (length buffer <= fuel')%nat ->
  read_frames fuel buffer = read_frames fuel' buffer.
Proof.
  revert fuel' buffer. induction fuel as [|fuel IH]; intros [|fuel'] buffer Hf Hf'; simpl in *.
  - done.
  - by destruct buffer; [|simpl in Hf; lia].
  - by destruct buffer; [|simpl in Hf'; lia].
  - destruct buffer as [|x buffer']; [done|]. set (buffer := x :: buffer') in *.
    case_match eqn:H4; [done|]. apply Nat.ltb_ge in H4. case_match; [done|]. f_equal.
    apply IH; rewrite !length_drop; lia.
Qed.

Lemma read_frames_cut_off fuel b : cut_off b -> read_frames fuel b = [].
Proof.
  intros (c & n & Hc & Hn & ->). destruct fuel as [|fuel]; [done|]. cbn [read_frames].
  destruct (take n (frame c)) as [|x l] eqn:E; [done|]. rewrite <- E. clear x l E.
  case_match eqn:H4; [done|]. apply Nat.ltb_ge in H4.
  rewrite length_take, length_frame in H4. rewrite length_frame in Hn.
  rewrite take_take, (Nat.min_l 4 n) by lia.
  assert (take 4 (frame c) = length_prefix c) as ->
    by (apply take_app_length'; by rewrite length_length_prefix).
  rewrite from_length_prefix by done.
  rewrite (proj2 (Z.ltb_lt _ _)); [done|]. rewrite length_drop, length_take, length_frame. lia.
Qed.

Lemma framed_nil : framed [] [].
Proof. exists []. by split; [constructor|]. Qed.

Lemma framed_snoc es b e c :
  framed es b -> encode_entry e = Ok c -> Z.of_nat (length c) < 2 ^ 32 ->
  framed (es ++ [e]) (b ++ frame c).
Proof.
  intros (bs & HF & ->) He Hc. exists (bs ++ [c]). split.
  - apply Forall2_app; [done|]. by repeat constructor.
  - rewrite fmap_app, concat_app. simpl. by rewrite app_nil_r.
Qed.

(** What was committed is read back, and reading stops at [tail]. *)
Lemma frames_framed es b tail :
  framed es b -> frames (b ++ tail) = es ++ frames tail.
Proof.
  intros (bs & HF & ->). induction HF as [|e c es bs [He Hc] HF IH]; [done|].
  rewrite fmap_cons, concat_cons, <- app_assoc. unfold frames.
  set (rest := concat (frame <$> bs) ++ tail) in *.
  rewrite (read_frames_fuel _ (S (length (frame c ++ rest)))) by lia.
  rewrite read_frames_frame by done. rewrite (decode_encode _ _ He). cbn [option_list app]. f_equal.
  etrans; [|apply IH]. apply read_frames_fuel; rewrite ?length_app; lia.
Qed.

Lemma frames_cut_off es b tail : framed es b -> cut_off tail -> frames (b ++ tail) = es.
Proof.
  intros Hb Ht. rewrite (frames_framed _ _ _ Hb). unfold frames.
  by rewrite read_frames_cut_off, app_nil_r.
Qed.

Lemma cut_off_nil : cut_off [].
Proof. exists [], 0%nat. rewrite length_frame. cbn. repeat split; lia. Qed.

Lemma frames_exact es b : framed es b -> frames b = es.
Proof. intros Hb. rewrite <- (app_nil_r b). apply frames_cut_off; [done|]. apply cut_off_nil. Qed.
End journal.
