(* ===== verification/EncryptedFs.v ===== *)
(** * The encrypted file storage

    [EncryptedFileStorage] of [crates/storage/src/encrypted_fs.rs]: opening
    with recovery from the journals, and the methods of [StorageBackend].
    Iteration over a directory or a map is in the order of [map_to_list].
    Methods that take the storage by shared reference are functions of its
    state. *)

From Stdlib Require Import ZArith Lia Strings.Byte.
From stdpp Require Import base gmap strings list.
From S2P Require Import Prelude External Platform FileSystem Journal.

(** ** Paths *)

Definition nul : string := String (Ascii.ascii_of_nat 0) EmptyString.
Definition KEY_FILE_EXT : string := "enc".
Definition META_FILE_EXT : string := "meta".

Definition validate_path_component (component label : string) : result unit StorageError :=
  if contains "/" component || contains "\" component || contains ".." component || contains nul component then
    Err (OperationFailed ("Invalid " +:+ label +:+ ": contains path traversal characters"))
  else Ok tt.

(** Names of the files of a key within [keys/]. *)
Definition key_file (key_id : string) : string := "key-" +:+ key_id +:+ "." +:+ KEY_FILE_EXT.
Definition meta_file (key_id : string) : string := "key-" +:+ key_id +:+ "." +:+ META_FILE_EXT.
Definition get_key_file_path (ns key_id : string) : result string StorageError :=
  let? _ := validate_path_component ns "namespace" in
  let? _ := validate_path_component key_id "key ID" in
  Ok (key_file key_id).
Definition get_meta_file_path (ns key_id : string) : result string StorageError :=
  let? _ := validate_path_component ns "namespace" in
  let? _ := validate_path_component key_id "key ID" in
  Ok (meta_file key_id).

Section storage.
Context {SHA : Sha256} {AEAD : Aead}.
Context {PED : Postcard EncryptedData} {PKM : Postcard KeyMetadata}.
Context {PCD : Postcard ChecksummedData} {PJE : Postcard JournalEntry}.

Definition ns_exists (w : World) (ns : string) : bool := bool_decide (is_Some (ns_dirs w !! ns)).
Definition file_of (w : World) (ns name : string) : option bytes := key_files w ns ≫= (.!! name).

(** ** Changes without journaling *)

Definition write_encrypted_to_disk (key_id : string) (encrypted_bytes : bytes) (ns : string) : fs unit :=
  let! now := now_secs in
  let metadata := KeyMetadata_new now encrypted_bytes in
  let! key_path := lift (get_key_file_path ns key_id) in
  create_restricted_file ns key_path ;!
  write_all ns key_path encrypted_bytes ;!
  sync_all ;!
  let! meta_path := lift (get_meta_file_path ns key_id) in
  let! meta_bytes := lift (rmap_err (fun e => SSerialization ("Failed to serialize metadata: " +:+ e))
                             (to_allocvec metadata)) in
  create_restricted_file ns meta_path ;!
  write_all ns meta_path meta_bytes ;!
  sync_all.

(** The overwriting is best effort: its errors are dropped. *)
Definition overwrite (ns path : string) (content : bytes) : fs unit :=
  create_restricted_file ns path ;!
  let! _ := attempt (write_all ns path content) in
  let! _ := attempt (F := StorageError) sync_all in
  ret tt.
Definition secure_remove (ns path : string) : fs unit := fun w =>
  match file_of w ns path with
  | None => (Ok tt, w)
  | Some content =>
      ((if (0 <? length content)%nat then
          let! random_bytes := fill_bytes (length content) in
          let! _ := attempt (overwrite ns path random_bytes) in ret tt
        else ret tt) ;!
       remove_file ns path) w
  end.
Definition delete_key_impl (key_id ns : string) : fs unit :=
  let! key_path := lift (get_key_file_path ns key_id) in
  let! meta_path := lift (get_meta_file_path ns key_id) in
  secure_remove ns key_path ;!
  secure_remove ns meta_path.

Definition create_namespace_impl (ns : string) : fs unit := fun w =>
  if ns_exists w ns then (Ok tt, w)
  else (create_ns_dir ns ;! create_keys_dir ns ;! create_journal_dir ns) w.
Definition delete_namespace_impl (ns : string) : fs unit := fun w =>
  if ns_exists w ns then remove_dir_all ns w else (Ok tt, w).

(** ** Recovery *)

Definition apply_operation (op : JournalOp) : fs unit :=
  match op with
  | JStoreKey key_id ns data => write_encrypted_to_disk key_id data ns
  | JDeleteKey key_id ns => delete_key_impl key_id ns
  | JCreateNamespace ns => create_namespace_impl ns
  | JDeleteNamespace ns => delete_namespace_impl ns
  end.
Fixpoint apply_entries (entries : list JournalEntry) : fs unit :=
  match entries with
  | [] => ret tt
  | entry :: rest => apply_operation (je_operation entry) ;! apply_entries rest
  end.

(** [truncate] on a journal that is then dropped. *)
Definition truncated (j : WriteAheadLog) : fs unit := fun w =>
  let '(r, (_, w')) := wal_truncate (j, w) in (r, w').
Definition recover_namespace (ns : string) : fs unit :=
  let! present := look (fun w => bool_decide (is_Some (wal_file w ns))) in
  if (present : bool) then
    let! journal := wal_new ns in
    let! entries := wal_replay journal in
    apply_entries entries ;!
    let! journal := wal_new ns in
    truncated journal
  else ret tt.
Fixpoint recover_namespaces (names : list string) : fs unit :=
  match names with
  | [] => ret tt
  | ns :: rest => recover_namespace ns ;! recover_namespaces rest
  end.
Definition recover : fs unit :=
  let! names := look (fun w => (map_to_list (ns_dirs w)).*1) in recover_namespaces names.

(** ** The storage *)

Record EncryptedFileStorage := MkStorage {
  master_key : MasterKey;
  journals : gmap string WriteAheadLog;
  disk : World
}.
Abbreviation storing A := (M EncryptedFileStorage StorageError A).
Definition on_world {A} (c : fs A) : storing A := fun s =>
  let '(r, w) := c (disk s) in (r, MkStorage (master_key s) (journals s) w).

Definition storage_new (k : MasterKey) : World -> result EncryptedFileStorage StorageError * World := fun w =>
  let '(r, w) := (create_base_dir ;! create_base_dir ;! recover) w in
  (let? _ := r in Ok (MkStorage k ∅ w), w).
Definition create_with_new_key (kek : bytes) : World -> result EncryptedFileStorage StorageError * World := fun w =>
  match (let! k := MasterKey_generate in MasterKey_save k kek ;! ret k) w with
  | (Ok k, w) => storage_new k w
  | (Err e, w) => (Err e, w)
  end.
Definition open (kek : bytes) : World -> result EncryptedFileStorage StorageError * World := fun w =>
  match MasterKey_load kek w with
  | (Ok k, w) => storage_new k w
  | (Err e, w) => (Err e, w)
  end.

Definition put_journal (ns : string) (j : WriteAheadLog) (s : EncryptedFileStorage) : EncryptedFileStorage :=
  MkStorage (master_key s) (<[ns := j]> (journals s)) (disk s).
Definition get_or_create_journal (ns : string) : storing WriteAheadLog := fun s =>
  match journals s !! ns with
  | Some j => (Ok j, s)
  | None => (let! j := on_world (wal_new ns) in modify (put_journal ns j) ;! ret j) s
  end.
(** A call of the journal of a namespace. *)
Definition on_journal {A} (ns : string) (j : WriteAheadLog) (c : logging A) : storing A := fun s =>
  let '(r, (j, w)) := c (j, disk s) in (r, MkStorage (master_key s) (<[ns := j]> (journals s)) w).

Definition encrypt_key_data (data : bytes) : storing bytes := fun s =>
  (let! encrypted := on_world (MasterKey_encrypt (master_key s) data) in
   lift (rmap_err (fun e => SSerialization ("Failed to serialize encrypted data: " +:+ e))
           (to_allocvec encrypted))) s.

Definition check_namespace (ns : string) : storing unit := fun s =>
  (if ns_exists (disk s) ns then Ok tt else Err (SNamespaceNotFound ns), s).
Definition journaled (ns : string) (op : JournalOp) : storing unit :=
  let! journal := get_or_create_journal ns in
  on_journal ns journal (wal_append op ;! wal_commit).

Definition store_key (key_id : string) (data : bytes) (ns : string) : storing unit :=
  check_namespace ns ;!
  let! encrypted_bytes := encrypt_key_data data in
  journaled ns (JStoreKey key_id ns encrypted_bytes) ;!
  on_world (write_encrypted_to_disk key_id encrypted_bytes ns).

Definition load_key (key_id ns : string) (s : EncryptedFileStorage) : result bytes StorageError :=
  if negb (ns_exists (disk s) ns) then Err (SNamespaceNotFound ns)
  else
    let? key_path := get_key_file_path ns key_id in
    let? meta_path := get_meta_file_path ns key_id in
    match file_of (disk s) ns key_path with
    | None => Err (SKeyNotFound key_id)
    | Some encrypted_bytes =>
        let? _ := match file_of (disk s) ns meta_path with
                  | None => Ok tt
                  | Some meta_bytes =>
                      let? metadata := rmap_err (fun e => SSerialization ("Failed to deserialize metadata: " +:+ e))
                                         (from_postcard meta_bytes) in
                      KeyMetadata_verify metadata encrypted_bytes
                  end in
        let? encrypted := rmap_err (fun e => SSerialization ("Failed to deserialize encrypted data: " +:+ e))
                            (from_postcard encrypted_bytes) in
        MasterKey_decrypt (master_key s) encrypted
    end.

Definition delete_key (key_id ns : string) : storing unit :=
  check_namespace ns ;!
  let! key_path := lift (get_key_file_path ns key_id) in
  (fun s => (if bool_decide (is_Some (file_of (disk s) ns key_path)) then Ok tt
             else Err (SKeyNotFound key_id), s)) ;!
  journaled ns (JDeleteKey key_id ns) ;!
  on_world (delete_key_impl key_id ns).

(** The id in the name of a key file. *)
Definition listed (filename : string) : option string :=
  match strip_suffix ("." +:+ KEY_FILE_EXT) filename with
  | None => None
  | Some _ => strip_prefix "key-" filename ≫= strip_suffix ("." +:+ KEY_FILE_EXT)
  end.
Definition list_keys (ns : string) (s : EncryptedFileStorage) : result (list string) StorageError :=
  match key_files (disk s) ns with
  | None => Err (SNamespaceNotFound ns)
  | Some files => Ok (omap listed (map_to_list files).*1)
  end.

Definition key_exists (key_id ns : string) (s : EncryptedFileStorage) : result bool StorageError :=
  let? key_path := get_key_file_path ns key_id in
  Ok (bool_decide (is_Some (file_of (disk s) ns key_path))).

Fixpoint commit_all (js : list (string * WriteAheadLog)) : storing unit :=
  match js with
  | [] => ret tt
  | (ns, j) :: rest => on_journal ns j wal_commit ;! commit_all rest
  end.
Definition sync : storing unit := fun s => commit_all (map_to_list (journals s)) s.

Definition create_namespace (ns : string) : storing unit := fun s =>
  if ns_exists (disk s) ns then (Err (OperationFailed ("Namespace already exists: " +:+ ns)), s)
  else on_world (create_namespace_impl ns ;! let! _ := wal_new ns in ret tt) s.
Definition delete_namespace (ns : string) : storing unit := fun s =>
  if negb (ns_exists (disk s) ns) then (Err (SNamespaceNotFound ns), s)
  else
    (modify (fun s => MkStorage (master_key s) (delete ns (journals s)) (disk s)) ;!
     on_world (delete_namespace_impl ns)) s.
Definition list_namespaces (s : EncryptedFileStorage) : result (list string) StorageError :=
  Ok (map_to_list (ns_dirs (disk s))).*1.
End storage.

Abbreviation storing A := (M EncryptedFileStorage StorageError A).
