(* ===== verification/CrashLogic.v ===== *)
(** * A program logic for crashes

    Triples over the directory of one namespace with two postconditions, one
    for success and one for every way to fail: a crash or an I/O error at any
    of the steps, with a write torn anywhere.  With [keys/] and the journal
    as the state of a directory, the lemmas at the end describe how a key's
    files are written and removed. *)

From Stdlib Require Import ZArith Lia Strings.Byte.
From stdpp Require Import base gmap strings list.
From S2P Require Import Prelude External Platform FileSystem Journal EncryptedFs.

(** What is left alone by everything but the creation of the storage. *)
Definition same_env (w w' : World) : Prop :=
  master_key_file w' = master_key_file w /\ entropy w' = entropy w.

#[export] Instance same_env_preorder : PreOrder same_env.
Proof. split; [by split|]. intros ? ? ? [H1 H2] [H3 H4]. split; congruence. Qed.

(** Errors of the disk and of serialisation. *)
Definition io_like (e : StorageError) : Prop :=
  match e with SIo _ | SSerialization _ => True | _ => False end.

Section logic.
Context {SHA : Sha256} {AEAD : Aead}.
Context {PED : Postcard EncryptedData} {PKM : Postcard KeyMetadata}.
Context {PCD : Postcard ChecksummedData} {PJE : Postcard JournalEntry}.
Implicit Types (w : World) (d : NsDir) (ns : string).

(** Serialisation works. *)
Definition codecs_total : Prop :=
  (forall m : KeyMetadata, exists b, to_allocvec m = Ok b) /\
  (forall e : JournalEntry, exists b, to_allocvec e = Ok b) /\
  (forall c : ChecksummedData, exists b, to_allocvec c = Ok b) /\
  (forall e : EncryptedData, exists b, to_allocvec e = Ok b).

(** From a directory in [P], [c] ends in [Q] or fails in [X]; nothing else
    changes; and it succeeds when the disk works. *)
Definition triple (ns : string) (P : NsDir -> Prop) {A} (c : fs A) (Q : A -> NsDir -> Prop)
    (X : NsDir -> Prop) : Prop :=
  forall w d, ns_dirs w !! ns = Some d -> P d ->
  exists d', ns_dirs (c w).2 = <[ns := d']> (ns_dirs w) /\ same_env w (c w).2 /\
    match (c w).1 with Ok a => Q a d' | Err e => X d' /\ io_like e end /\
    (codecs_total -> faults w = [] -> faults (c w).2 = [] /\ is_ok (c w).1 = true).

Lemma triple_conseq ns {A} (P P' : NsDir -> Prop) (c : fs A) (Q Q' : A -> NsDir -> Prop) (X X' : NsDir -> Prop) :
  triple ns P c Q X -> (forall d, P' d -> P d) -> (forall a d, Q a d -> Q' a d) ->
  (forall d, X d -> X' d) -> triple ns P' c Q' X'.
Proof.
  intros H HP HQ HX w d Hd Hp. destruct (H w d Hd (HP _ Hp)) as (d' & ? & ? & Hr & ?).
  exists d'. repeat split; try apply H1; [done| |naive_solver..]. destruct (c w).1; naive_solver.
Qed.

Lemma triple_pre ns {A} (P P' : NsDir -> Prop) (c : fs A) Q X :
  (forall d, P' d -> P d) -> triple ns P c Q X -> triple ns P' c Q X.
Proof. intros HP H. by eapply triple_conseq. Qed.

Lemma triple_bind ns {A B} (P : NsDir -> Prop) (c : fs A) (k : A -> fs B) (R : A -> NsDir -> Prop)
    (Q : B -> NsDir -> Prop) (X : NsDir -> Prop) :
  triple ns P c R X -> (forall a, triple ns (R a) (k a) Q X) -> triple ns P (let! x := c in k x) Q X.
Proof.
  intros Hc Hk w d Hd Hp. destruct (Hc w d Hd Hp) as (d1 & E1 & V1 & Hr & L1). unfold bind.
  destruct (c w) as [[a|e] w1]; simpl in *.
  - destruct (Hk a w1 d1) as (d2 & E2 & V2 & Hr2 & L2); [by rewrite E1, lookup_insert_eq|done|].
    exists d2. rewrite E2, E1, insert_insert_eq. split; [done|]. split; [by etrans|]. split; [done|].
    intros HT Hf. apply L2; [done|]. by apply L1.
  - exists d1. repeat split; try apply V1; try apply Hr; try done; by apply L1.
Qed.

Lemma triple_seq ns {A B} (P R : NsDir -> Prop) (c : fs A) (k : fs B) (Q : B -> NsDir -> Prop) (X : NsDir -> Prop) :
  triple ns P c (fun _ => R) X -> triple ns R k Q X -> triple ns P (c ;! k) Q X.
Proof. intros Hc Hk. by eapply triple_bind. Qed.

Lemma triple_ret ns {A} (a : A) (P : NsDir -> Prop) (Q : A -> NsDir -> Prop) (X : NsDir -> Prop) :
  (forall d, P d -> Q a d) -> triple ns P (ret a) Q X.
Proof. intros H w d Hd Hp. exists d. cbn. rewrite insert_id by done. naive_solver. Qed.

(** Computations that read, or draw from the clock or the random source. *)
Lemma triple_look ns {A} (f : World -> A) (P : NsDir -> Prop) (X : NsDir -> Prop) :
  triple ns P (look f) (fun _ => P) X.
Proof. intros w d Hd Hp. exists d. cbn. by rewrite insert_id. Qed.

Lemma triple_now ns (P : NsDir -> Prop) (X : NsDir -> Prop) : triple ns P now_secs (fun _ => P) X.
Proof. intros w d Hd Hp. exists d. cbn. by rewrite insert_id. Qed.

Lemma triple_now_range ns {A} (k : Z -> fs A) P Q X :
  (forall now, u64 now -> triple ns P (k now) Q X) -> triple ns P (let! now := now_secs in k now) Q X.
Proof.
  intros H w d Hd Hp. apply (H (wrap 64 (clock w (tick w)))  ltac:(by apply wrap_range) (next_tick w) d Hd Hp).
Qed.

Lemma triple_fill ns n (P : NsDir -> Prop) (X : NsDir -> Prop) : triple ns P (fill_bytes n) (fun _ => P) X.
Proof. intros w d Hd Hp. exists d. cbn. by rewrite insert_id. Qed.

Lemma triple_lift ns {A B} (r : result A StorageError) (k : A -> fs B) (P : NsDir -> Prop) Q (X : NsDir -> Prop) :
  (forall d, P d -> X d) -> (forall e, r = Err e -> io_like e) -> (codecs_total -> is_ok r = true) ->
  (forall a, r = Ok a -> triple ns P (k a) Q X) -> triple ns P (let! a := lift r in k a) Q X.
Proof.
  intros HX He Hok Hk. destruct r as [a|e]; [exact (Hk a eq_refl)|].
  intros w d Hd Hp. exists d. cbn. rewrite insert_id by done. naive_solver.
Qed.

Lemma triple_lift_Ok ns {A B} (a : A) (k : A -> fs B) (P : NsDir -> Prop) Q (X : NsDir -> Prop) :
  triple ns P (k a) Q X -> triple ns P (let! a := lift (Ok a) in k a) Q X.
Proof. done. Qed.

Lemma triple_attempt ns {A} (c : fs A) (P : NsDir -> Prop) (Q X : NsDir -> Prop) :
  triple ns P c (fun _ => Q) Q -> triple ns P (attempt c) (fun _ => Q) X.
Proof.
  intros H w d Hd Hp. destruct (H w d Hd Hp) as (d' & ? & ? & Hr & L). unfold attempt.
  exists d'. destruct (c w) as [[a|e] w1]; simpl in *; split_and!; naive_solver.
Qed.

(** A function of the world that changes one directory. *)
Definition changes ns (f : NsDir -> NsDir) (h : World -> World) : Prop :=
  forall w d, ns_dirs w !! ns = Some d ->
    ns_dirs (h w) = <[ns := f d]> (ns_dirs w) /\ same_env w (h w) /\ faults (h w) = faults w.

Lemma changes_on_dir ns f : changes ns f (on_dir ns f).
Proof.
  intros w d Hd. split; [|done]. cbn. apply map_eq. intros i. destruct (decide (i = ns)) as [->|Hne].
  - by rewrite lookup_alter_eq, Hd, lookup_insert_eq.
  - by rewrite lookup_alter_ne, lookup_insert_ne.
Qed.

Lemma changes_id ns : changes ns Datatypes.id Datatypes.id.
Proof. intros w d Hd. split; [|done]. by rewrite insert_id. Qed.

Lemma changes_make_ns ns : changes ns Datatypes.id (make_ns ns).
Proof. intros w d Hd. cbn. rewrite Hd. split; [|done]. by rewrite insert_id. Qed.

Lemma triple_step ns (good : World -> World) (cut : nat -> World -> World) f g
    (P : NsDir -> Prop) (Q X : NsDir -> Prop) :
  changes ns f good -> (forall n, changes ns (g n) (cut n)) ->
  (forall d, P d -> Q (f d) /\ X d /\ forall n, X (g n d)) ->
  triple ns P (disk_step good cut) (fun _ => Q) X.
Proof.
  intros Hf Hg H w d Hd Hp. destruct (H d Hp) as (HQ & HX & HXg). unfold disk_step.
  destruct (faults w) as [|fl rest] eqn:Ef.
  - destruct (Hf w d Hd) as (E1 & E2 & E3). exists (f d). cbn. rewrite E3. done.
  - assert (Hd' : ns_dirs (set_faults rest w) !! ns = Some d) by done.
    destruct fl as [| |n|dd]; cbn.
    + destruct (Hf _ d Hd') as (E1 & E2 & E3). by exists (f d).
    + exists d. by rewrite insert_id.
    + destruct (Hg n _ d Hd') as (E1 & E2 & E3). by exists (g n d).
    + exists d. by rewrite insert_id.
Qed.

Lemma triple_touch ns (P X : NsDir -> Prop) : (forall d, P d -> X d) -> triple ns P touch (fun _ => P) X.
Proof.
  intros H. unfold touch. apply (triple_step ns _ _ Datatypes.id (fun _ => Datatypes.id)).
  - apply changes_id.
  - intros _. apply changes_id.
  - intros d Hp. split; [done|]. by split; [auto|intros _; apply H].
Qed.

(** Computations chosen by what the directory holds. *)
Lemma triple_guard ns {A} (P : NsDir -> Prop) (c : fs A) Q X :
  (forall d, P d -> triple ns (fun d' => d' = d) c Q X) -> triple ns P c Q X.
Proof. intros H w d Hd Hp. by apply (H d Hp w d). Qed.

Lemma triple_eq ns {A} (P : NsDir -> Prop) (c c' : fs A) Q X :
  (forall w d, ns_dirs w !! ns = Some d -> P d -> c w = c' w) -> triple ns P c' Q X -> triple ns P c Q X.
Proof. intros E H w d Hd Hp. rewrite (E w d Hd Hp). exact (H w d Hd Hp). Qed.

(** What a triple says of a run on the world. *)
Lemma triple_other ns {A} (P : NsDir -> Prop) (c : fs A) Q X w d ns' :
  triple ns P c Q X -> ns_dirs w !! ns = Some d -> P d -> ns' <> ns ->
  ns_dirs (c w).2 !! ns' = ns_dirs w !! ns'.
Proof. intros H Hd Hp Hne. destruct (H w d Hd Hp) as (d' & -> & _). by rewrite lookup_insert_ne. Qed.

(** ** The files of a key *)

Lemma string_app_inj_r (a b c : string) : a +:+ c = b +:+ c -> a = b.
Proof.
  intros E. apply as_bytes_inj. apply (f_equal as_bytes) in E. rewrite !as_bytes_app in E.
  by apply app_inv_tail in E.
Qed.

Lemma key_file_inj i j : key_file i = key_file j -> i = j.
Proof. intros E%(inj (String.app "key-")). by apply string_app_inj_r in E. Qed.

Lemma meta_file_inj i j : meta_file i = meta_file j -> i = j.
Proof. intros E%(inj (String.app "key-")). by apply string_app_inj_r in E. Qed.

Lemma key_meta_ne i j : key_file i <> meta_file j.
Proof.
  intros E. apply (f_equal (fun s => last (as_bytes s))) in E. revert E.
  unfold key_file, meta_file. rewrite !as_bytes_app, !app_assoc.
  change (as_bytes KEY_FILE_EXT) with ([Byte.x65; Byte.x6e] ++ [Byte.x63]).
  change (as_bytes META_FILE_EXT) with ([Byte.x6d; Byte.x65; Byte.x74] ++ [Byte.x61]).
  rewrite !app_assoc, !last_snoc. done.
Qed.

Definition valid (ns id : string) : Prop :=
  validate_path_component ns "namespace" = Ok tt /\ validate_path_component id "key ID" = Ok tt.

Lemma valid_paths ns id :
  valid ns id -> get_key_file_path ns id = Ok (key_file id) /\ get_meta_file_path ns id = Ok (meta_file id).
Proof. intros [H1 H2]. unfold get_key_file_path, get_meta_file_path. by rewrite H1, H2. Qed.

(** Metadata is there and matches. *)
Definition intact (ks : gmap string bytes) (id : string) : Prop :=
  forall c, ks !! key_file id = Some c ->
  exists b m, ks !! meta_file id = Some b /\ from_postcard b = Ok m /\ KeyMetadata_verify m c = Ok tt.

(** Only the files of [id] differ. *)
Definition around (id : string) (ks ks' : gmap string bytes) : Prop :=
  forall f, f <> key_file id -> f <> meta_file id -> ks' !! f = ks !! f.

Lemma around_other id ks ks' i :
  around id ks ks' -> i <> id ->
  ks' !! key_file i = ks !! key_file i /\ ks' !! meta_file i = ks !! meta_file i.
Proof.
  intros H Hne. split; apply H.
  - by intros E%key_file_inj.
  - apply key_meta_ne.
  - intros E. by apply (key_meta_ne id i).
  - by intros E%meta_file_inj.
Qed.

Lemma intact_around id ks ks' i : around id ks ks' -> i <> id -> intact ks i -> intact ks' i.
Proof. intros H Hne. unfold intact. by destruct (around_other id ks ks' i H Hne) as [-> ->]. Qed.

Section files.
Context (ns id : string) (ks : gmap string bytes) (jd : option (option bytes)).
Context (Hid : valid ns id).

(** The directory, with other files for [id] about which [φ] holds. *)
Definition holding (φ : gmap string bytes -> Prop) (d : NsDir) : Prop :=
  exists ks', d = MkNsDir (Some ks') jd /\ around id ks ks' /\ φ ks'.
Abbreviation any := (holding (fun _ => True)).
Definition own (name : string) : Prop := name = key_file id \/ name = meta_file id.

Lemma holding_any φ d : holding φ d -> any d.
Proof. intros (ks' & -> & ? & _). by exists ks'. Qed.

(** [φ] before, [ψ] after, [χ] after a failure. *)
Lemma triple_change name (φ ψ χ : gmap string bytes -> Prop) (f : gmap string bytes -> gmap string bytes)
    (g : nat -> gmap string bytes -> gmap string bytes) :
  own name -> (forall m x, x <> name -> f m !! x = m !! x) -> (forall n m x, x <> name -> g n m !! x = m !! x) ->
  (forall ks', φ ks' -> ψ (f ks') /\ χ ks' /\ forall n, χ (g n ks')) ->
  triple ns (holding φ) (disk_step (on_dir ns (set_keys f)) (fun n => on_dir ns (set_keys (g n))))
    (fun _ => holding ψ) (holding χ).
Proof.
  intros Hown Hf Hg Hfg. apply (triple_step ns _ _ (set_keys f) (fun n => set_keys (g n))).
  - apply changes_on_dir.
  - intros n. apply changes_on_dir.
  - intros d (ks' & -> & Ha & (Hψ & Hχ & Hn)%Hfg). split; [|split].
    + exists (f ks'). split; [done|]. split; [|done]. intros x H1 H2.
      rewrite Hf by (destruct Hown; congruence). auto.
    + by exists ks'.
    + intros n. exists (g n ks'). split; [done|]. split; [|done]. intros x H1 H2.
      rewrite Hg by (destruct Hown; congruence). auto.
Qed.

(** [φ] does not depend on the file. *)
Definition ignores (φ : gmap string bytes -> Prop) (name : string) : Prop :=
  forall ks', (forall c, φ ks' -> φ (<[name := c]> ks')) /\ (φ ks' -> φ (delete name ks')).

Lemma triple_write name content φ :
  own name -> ignores φ name ->
  triple ns (holding φ) (write_all ns name content)
    (fun _ => holding (fun ks' => φ ks' /\ ks' !! name = Some content)) (holding φ).
Proof.
  intros Hown Hi. unfold write_all, put_key_file.
  apply (triple_change name φ _ φ <[name := content]> (fun n => <[name := take n content]>));
    [done|intros; by rewrite lookup_insert_ne..|].
  intros ks' Hφ. destruct (Hi ks') as [Hi1 _]. rewrite lookup_insert_eq. auto.
Qed.

Lemma triple_create name φ :
  own name -> ignores φ name ->
  triple ns (holding φ) (create_restricted_file ns name) (fun _ => holding φ) (holding φ).
Proof.
  intros Hown Hi.
  apply (triple_eq ns _ _ (disk_step (put_key_file ns name []) (fun _ => put_key_file ns name []))).
  - intros w d Hd (ks' & -> & _). unfold create_restricted_file, key_files. by rewrite Hd.
  - apply (triple_change name φ φ φ <[name := []]> (fun _ => <[name := []]>));
      [done|intros; by rewrite lookup_insert_ne..|].
    intros ks' Hφ. destruct (Hi ks') as [Hi1 _]. auto.
Qed.

Lemma triple_remove name φ :
  own name -> ignores φ name ->
  triple ns (holding φ) (remove_file ns name)
    (fun _ => holding (fun ks' => φ ks' /\ ks' !! name = None)) (holding φ).
Proof.
  intros Hown Hi. unfold remove_file.
  apply (triple_step ns _ _ (set_keys (delete name)) (fun _ => Datatypes.id)).
  - apply changes_on_dir.
  - intros _. apply changes_id.
  - intros d Hd. split; [|done]. destruct Hd as (ks' & -> & Ha & Hφ). exists (delete name ks').
    split; [done|]. split; [|by rewrite lookup_delete_eq; split; [apply Hi|]].
    intros x H1 H2. rewrite lookup_delete_ne by (destruct Hown; congruence). auto.
Qed.

Lemma triple_sync φ : triple ns (holding φ) sync_all (fun _ => holding φ) (holding φ).
Proof. by apply triple_touch. Qed.

Lemma ignores_True name : ignores (fun _ => True) name.
Proof. done. Qed.

Lemma ignores_key_file o : ignores (fun ks' => ks' !! key_file id = o) (meta_file id).
Proof.
  intros ks'. assert (meta_file id <> key_file id) by (intros E; by apply (key_meta_ne id id)).
  by split; intros; rewrite ?lookup_insert_ne, ?lookup_delete_ne.
Qed.

(** Writing a key: at the end the file is the data and the metadata fits. *)
Lemma write_encrypted_triple data :
  triple ns any (write_encrypted_to_disk id data ns)
    (fun _ => holding (fun ks' => ks' !! key_file id = Some data /\ intact ks' id)) any.
Proof.
  assert (Hk : own (key_file id)) by (by left). assert (Hm : own (meta_file id)) by (by right).
  assert (Hweak : forall φ (c : fs unit) Q, triple ns (holding φ) c Q (holding φ) -> triple ns (holding φ) c Q any)
    by (intros φ c Q H; eapply triple_conseq; eauto using holding_any).
  pose proof (ignores_key_file (Some data)) as Hign.
  unfold write_encrypted_to_disk. destruct (valid_paths _ _ Hid) as [-> ->].
  eapply triple_bind; [apply triple_now|]. intros now. apply triple_lift_Ok.
  eapply triple_seq; [by apply triple_create|].
  eapply triple_seq; [by apply triple_write|].
  apply (triple_seq ns _ (holding (fun ks' => ks' !! key_file id = Some data))).
  { eapply triple_conseq; [apply triple_sync|done| |apply holding_any].
    intros _ d (ks' & -> & Ha & _ & E). by exists ks'. }
  apply triple_lift_Ok, triple_lift.
  - apply holding_any.
  - intros e He. destruct (to_allocvec _) eqn:?; by simplify_eq/=.
  - intros [HT _]. destruct (HT (KeyMetadata_new now data)) as [b ->]. done.
  - intros mb Hmb%rmap_err_Ok.
    eapply triple_seq; [apply Hweak; by apply triple_create|].
    eapply triple_seq; [apply Hweak; by apply triple_write|].
    eapply triple_conseq; [apply triple_sync|done| |apply holding_any].
    intros _ d (ks' & -> & Ha & E & E'). exists ks'. split; [done|]. split; [done|]. split; [done|].
    intros c. rewrite E. intros [= <-]. exists mb, (KeyMetadata_new now data).
    split; [done|]. split; [by apply from_postcard_to_allocvec|apply KeyMetadata_new_verifies].
Qed.

(** Removing a file: best-effort overwriting, then the removal. *)
Lemma overwrite_triple name content φ :
  own name -> ignores φ name -> triple ns (holding φ) (overwrite ns name content) (fun _ => holding φ) (holding φ).
Proof.
  intros Hown Hi. unfold overwrite.
  eapply triple_seq; [by apply triple_create|].
  apply (triple_seq ns _ (holding φ)).
  { apply triple_attempt. eapply triple_conseq; [by apply triple_write|done| |done].
    intros _ d (ks' & -> & Ha & E & _). by exists ks'. }
  eapply triple_seq; [apply triple_attempt, triple_sync|]. by apply triple_ret.
Qed.

Lemma secure_remove_triple name φ :
  own name -> ignores φ name ->
  triple ns (holding φ) (secure_remove ns name)
    (fun _ => holding (fun ks' => φ ks' /\ ks' !! name = None)) (holding φ).
Proof.
  intros Hown Hi. apply triple_guard. intros d0 (ks0 & -> & Ha & Hφ).
  destruct (ks0 !! name) as [content|] eqn:Hn.
  - apply (triple_eq ns _ _ ((if (0 <? length content)%nat then
        let! random_bytes := fill_bytes (length content) in
        let! _ := attempt (overwrite ns name random_bytes) in ret tt
      else ret tt) ;! remove_file ns name)).
    + intros w d Hd ->. unfold secure_remove, file_of, key_files. rewrite Hd. cbn. by rewrite Hn.
    + apply (triple_pre ns (holding φ)); [by intros ? ->; exists ks0|].
      eapply triple_seq; [|by apply triple_remove]. case_match; [|by apply triple_ret].
      eapply triple_bind; [apply triple_fill|]. intros random_bytes.
      eapply triple_seq; [by apply triple_attempt, overwrite_triple|by apply triple_ret].
  - apply (triple_eq ns _ _ (ret tt)).
    + intros w d Hd ->. unfold secure_remove, file_of, key_files. rewrite Hd. cbn. by rewrite Hn.
    + apply triple_ret. intros d ->. by exists ks0.
Qed.

Lemma delete_key_triple :
  triple ns any (delete_key_impl id ns)
    (fun _ => holding (fun ks' => ks' !! key_file id = None /\ intact ks' id)) any.
Proof.
  unfold delete_key_impl. destruct (valid_paths _ _ Hid) as [-> ->]. do 2 apply triple_lift_Ok.
  eapply triple_seq; [by apply secure_remove_triple; [left|]|].
  apply (triple_conseq ns (holding (fun ks' => ks' !! key_file id = None)) _ _
    (fun _ => holding (fun ks' => ks' !! key_file id = None /\ ks' !! meta_file id = None)) _
    (holding (fun ks' => ks' !! key_file id = None))).
  - apply secure_remove_triple; [by right|apply ignores_key_file].
  - intros d (ks' & -> & Ha & _ & E). by exists ks'.
  - intros _ d (ks' & -> & Ha & E & _). exists ks'. split; [done|]. split; [done|]. split; [done|].
    intros c. by rewrite E.
  - apply holding_any.
Qed.
End files.
End logic.

