(* ===== verification/CrashRecovery.v ===== *)
(** * Crash safety of the file storage

    What a disk holds, through its journals: the last journalled operation on
    a key decides, and where the journal is silent the key's file does
    ([settled]).  A journalled operation changes this at one point, the last
    byte of its journal entry, and everything around it leaves it alone,
    recovery included. *)

From Stdlib Require Import ZArith Lia Strings.Byte.
From stdpp Require Import base gmap strings list.
From S2P Require Import Prelude External Platform FileSystem Journal EncryptedFs CrashLogic.

Section recovery.
Context {SHA : Sha256} {AEAD : Aead}.
Context {PED : Postcard EncryptedData} {PKM : Postcard KeyMetadata}.
Context {PCD : Postcard ChecksummedData} {PJE : Postcard JournalEntry}.
Implicit Types (w : World) (d : NsDir) (ns id : string) (op : JournalOp) (e : JournalEntry).

(** ** What the journal says *)

(** The key an operation is about and what it leaves for it. *)
Definition effect op : option (string * option bytes) :=
  match op with
  | JStoreKey id _ data => Some (id, Some data)
  | JDeleteKey id _ => Some (id, None)
  | _ => None
  end.
(** Operations on valid keys of the namespace. *)
Definition proper ns op : Prop :=
  match op with
  | JStoreKey id n _ | JDeleteKey id n => n = ns /\ valid ns id
  | _ => False
  end.

Fixpoint says (id : string) (es : list JournalEntry) : option (option bytes) :=
  match es with
  | [] => None
  | e :: rest =>
      match says id rest with
      | Some o => Some o
      | None => match effect (je_operation e) with
                | Some (i, o) => if decide (i = id) then Some o else None
                | None => None
                end
      end
  end.

Lemma says_app id es es' :
  says id (es ++ es') = match says id es' with Some o => Some o | None => says id es end.
Proof. induction es as [|e es IH]; simpl; [by destruct (says id es')|]. rewrite IH. by destruct (says id es'). Qed.

Lemma says_snoc id es e i o :
  effect (je_operation e) = Some (i, o) ->
  says id (es ++ [e]) = if decide (i = id) then Some o else says id es.
Proof. intros He. rewrite says_app. simpl. rewrite He. by case_decide. Qed.

Lemma proper_effect ns op : proper ns op -> exists id o, effect op = Some (id, o) /\ valid ns id.
Proof. destruct op; intros []; naive_solver. Qed.

(** ** Directories *)

Definition settled d id : option bytes :=
  match says id (frames (wal_content d)) with
  | Some o => o
  | None => keys_dir d ≫= (.!! key_file id)
  end.

(** Recoverable: a journal of proper entries, perhaps with a last one cut
    off, and intact keys where the journal is silent. *)
Record sound_dir ns d : Prop := {
  so_journal : is_Some (journal_dir d);
  so_keys : is_Some (keys_dir d);
  so_frames : exists es b tail, wal_content d = b ++ tail /\ framed es b /\ cut_off tail;
  so_proper : Forall (fun e => proper ns (je_operation e)) (frames (wal_content d));
  so_intact ks id : keys_dir d = Some ks -> says id (frames (wal_content d)) = None -> intact ks id
}.

(** Recovered: whole frames, and files that agree with the journal. *)
Record clean_dir ns d : Prop := {
  cl_sound : sound_dir ns d;
  cl_frames : framed (frames (wal_content d)) (wal_content d);
  cl_files id : (keys_dir d ≫= (.!! key_file id)) = settled d id;
  cl_intact ks id : keys_dir d = Some ks -> intact ks id
}.

(** The same, with the parts named. *)
Lemma settled_keys d ks id o :
  keys_dir d = Some ks -> says id (frames (wal_content d)) = o ->
  settled d id = default (ks !! key_file id) o.
Proof. intros Hk Hs. unfold settled. rewrite Hs, Hk. by destruct o. Qed.

(** ** Applying an operation *)

Definition applied (ks : gmap string bytes) (id : string) (o : option bytes) (ks' : gmap string bytes) : Prop :=
  around id ks ks' /\ ks' !! key_file id = o /\ intact ks' id.

Lemma apply_triple ns op id o ks jd :
  proper ns op -> effect op = Some (id, o) ->
  triple ns (fun d => d = MkNsDir (Some ks) jd) (apply_operation op)
    (fun _ d => exists ks', d = MkNsDir (Some ks') jd /\ applied ks id o ks')
    (fun d => exists ks', d = MkNsDir (Some ks') jd /\ around id ks ks').
Proof.
  intros Hp He.
  assert (H0 : forall d, d = MkNsDir (Some ks) jd -> holding id ks jd (fun _ => True) d)
    by (intros d ->; by exists ks).
  destruct op as [i n data|i n|n|n]; [| |done..]; destruct Hp as [-> Hid]; injection He as <- <-; simpl.
  - eapply triple_conseq; [by apply (write_encrypted_triple ns i ks jd)|done|..];
      unfold holding, applied; naive_solver.
  - eapply triple_conseq; [by apply (delete_key_triple ns i ks jd)|done|..];
      unfold holding, applied; naive_solver.
Qed.

(** ** Applying the journal *)

(** [es1] was applied to [ks0]; the keys of [es] may be in any state
    otherwise. *)
Definition midway (es es1 : list JournalEntry) (ks0 ks : gmap string bytes) : Prop :=
  (forall id, says id es = None ->
     ks !! key_file id = ks0 !! key_file id /\ ks !! meta_file id = ks0 !! meta_file id) /\
  (forall id o, says id es1 = Some o -> ks !! key_file id = o /\ intact ks id).

Lemma midway_around es ks0 ks ks' id es1 :
  is_Some (says id es) -> around id ks ks' -> midway es es1 ks0 ks -> midway es [] ks0 ks'.
Proof.
  intros Hs Ha [Hm _]. split; [|done]. intros i Hi.
  destruct (decide (i = id)) as [->|Hne]; [rewrite Hi in Hs; by destruct Hs|].
  destruct (around_other id ks ks' i Ha Hne) as [-> ->]. auto.
Qed.

Lemma midway_applied es es1 e ks0 ks ks' id o :
  effect (je_operation e) = Some (id, o) -> is_Some (says id es) -> applied ks id o ks' ->
  midway es es1 ks0 ks -> midway es (es1 ++ [e]) ks0 ks'.
Proof.
  intros He Hs (Ha & Hf & Hi) Hm. split; [by eapply midway_around|]. destruct Hm as [_ Hm].
  intros i o'. rewrite (says_snoc i es1 e id o He). case_decide as Hd; [subst; naive_solver|].
  intros [H1 H2]%Hm. destruct (around_other id ks ks' i Ha) as [E _]; [congruence|].
  rewrite E. split; [done|]. by eapply intact_around; eauto.
Qed.

Lemma says_member es e id o :
  e ∈ es -> effect (je_operation e) = Some (id, o) -> is_Some (says id es).
Proof.
  induction es as [|e' es IH]; [by intros ?%not_elem_of_nil|]. intros [->|Hin]%elem_of_cons He; simpl.
  - destruct (says id es); [by eauto|]. rewrite He, decide_True by done. eauto.
  - destruct (IH Hin He) as [o' ->]. eauto.
Qed.

Lemma apply_entries_triple ns es1 es2 ks0 jd :
  Forall (fun e => proper ns (je_operation e)) es2 ->
  let es := es1 ++ es2 in
  triple ns (fun d => exists ks, d = MkNsDir (Some ks) jd /\ midway es es1 ks0 ks) (apply_entries es2)
    (fun _ d => exists ks, d = MkNsDir (Some ks) jd /\ midway es es ks0 ks)
    (fun d => exists ks, d = MkNsDir (Some ks) jd /\ midway es [] ks0 ks).
Proof.
  revert es1. induction es2 as [|e es2 IH]; intros es1 Hp es; subst es; cbn [apply_entries].
  - apply triple_ret. by rewrite app_nil_r.
  - apply Forall_cons in Hp as [Hp Hps]. destruct (proper_effect _ _ Hp) as (id & o & He & _).
    assert (is_Some (says id (es1 ++ e :: es2))) as Hs by (apply (says_member _ e id o); [set_solver|done]).
    apply triple_guard. intros d (ks & -> & Hm).
    apply (triple_seq ns _ (fun d => exists ks, d = MkNsDir (Some ks) jd /\
                                      midway (es1 ++ e :: es2) (es1 ++ [e]) ks0 ks)).
    + eapply triple_conseq; [by apply (apply_triple ns _ id o ks jd)|done| |].
      * intros _ d (ks' & -> & Ha). exists ks'. split; [done|]. by eapply midway_applied.
      * intros d (ks' & -> & Ha). exists ks'. split; [done|]. by eapply midway_around.
    + specialize (IH (es1 ++ [e]) Hps). by rewrite <- app_assoc in IH.
Qed.

(** ** Recovery *)

(** Sound, and settled as [d0] is. *)
Definition kept (good : string -> NsDir -> Prop) ns d0 d : Prop :=
  good ns d /\ forall id, settled d id = settled d0 id.

Lemma wal_content_keys k k' jd : wal_content (MkNsDir k jd) = wal_content (MkNsDir k' jd).
Proof. done. Qed.
Lemma frames_nil : frames [] = [].
Proof. done. Qed.
Lemma wal_content_none k : wal_content (MkNsDir k (Some None)) = [].
Proof. done. Qed.
Definition wal_of d : option bytes := mjoin (journal_dir d).
Lemma wal_content_of d : wal_content d = default [] (wal_of d).
Proof. done. Qed.
#[local] Opaque frames wal_content.

Lemma midway_sound ns es1 ks0 ks jd :
  sound_dir ns (MkNsDir (Some ks0) jd) ->
  midway (frames (wal_content (MkNsDir (Some ks0) jd))) es1 ks0 ks ->
  kept sound_dir ns (MkNsDir (Some ks0) jd) (MkNsDir (Some ks) jd).
Proof.
  intros [H1 H2 H3 H4 H5] [Hm _]. rewrite (wal_content_keys (Some ks0) (Some ks)) in *. split.
  - split; try done. intros ks' id [= <-] Hs. destruct (Hm id Hs) as [E1 E2].
    unfold intact. rewrite E1, E2. by apply (H5 ks0 id).
  - intros id. unfold settled. rewrite (wal_content_keys (Some ks0) (Some ks)).
    destruct (says id _) eqn:Hs; [done|]. by destruct (Hm id Hs) as [E _].
Qed.

Lemma silent_clean ns d :
  sound_dir ns d -> wal_content d = [] -> clean_dir ns d.
Proof.
  intros Hs Hc. split; [done|..].
  - rewrite Hc, frames_nil. apply framed_nil.
  - intros id. unfold settled. by rewrite Hc, frames_nil.
  - intros ks id Hk. apply (so_intact _ _ Hs); [done|]. by rewrite Hc, frames_nil.
Qed.

Lemma midway_clean ns es ks0 ks jd :
  sound_dir ns (MkNsDir (Some ks0) jd) -> frames (wal_content (MkNsDir (Some ks0) jd)) = es ->
  midway es es ks0 ks ->
  kept clean_dir ns (MkNsDir (Some ks0) jd) (MkNsDir (Some ks) (Some None)).
Proof.
  intros [H1 H2 H3 H4 H5] Hes [Hm1 Hm2]. rewrite Hes in *. split; [apply silent_clean; [|done]|].
  - split; rewrite ?wal_content_none, ?frames_nil; try done.
    + exists [], [], []. split; [done|]. split; [apply framed_nil|apply cut_off_nil].
    + intros ks' id [= <-] _. destruct (says id es) as [o|] eqn:Hs; [by apply (Hm2 id o)|].
      destruct (Hm1 id Hs) as [E1 E2]. unfold intact. rewrite E1, E2. by apply (H5 ks0 id).
  - intros id. unfold settled. rewrite wal_content_none, frames_nil, Hes. simpl.
    destruct (says id es) as [o|] eqn:Hs; [by apply Hm2|]. by destruct (Hm1 id Hs).
Qed.

(** Reading something the directory determines. *)
Lemma triple_look_at ns {A B} (f : World -> A) (k : A -> fs B) (v : NsDir -> A) d0 Q X :
  (forall w, ns_dirs w !! ns = Some d0 -> f w = v d0) ->
  triple ns (fun d => d = d0) (k (v d0)) Q X ->
  triple ns (fun d => d = d0) (let! a := look f in k a) Q X.
Proof.
  intros Hf Hk. apply (triple_eq ns _ _ (k (v d0))); [|done].
  intros w d Hd ->. unfold bind, look. by rewrite Hf.
Qed.

Lemma wal_file_of w ns d : ns_dirs w !! ns = Some d -> wal_file w ns = wal_of d.
Proof. intros Hd. unfold wal_file, wal_of. rewrite Hd. by destruct d as [k [[b|]|]]. Qed.

(** [create_dir_all] below a namespace that exists. *)
Lemma create_dir_triple ns (f : NsDir -> NsDir) d0 :
  triple ns (fun d => d = d0)
    (disk_step (fun w => on_dir ns f (make_ns ns w)) (fun _ => make_ns ns)) (fun _ d => d = f d0) (fun d => d = d0).
Proof.
  apply (triple_step ns _ _ f (fun _ => Datatypes.id)).
  - intros w d Hd. destruct (changes_make_ns ns w d Hd) as (E1 & V1 & F1).
    destruct (changes_on_dir ns f (make_ns ns w) d) as (E2 & V2 & F2); [by rewrite E1, lookup_insert_eq|].
    split; [|split].
    + etrans; [apply E2|]. by rewrite E1, insert_insert_eq.
    + by etrans.
    + by etrans.
  - intros _. apply changes_make_ns.
  - by intros d ->.
Qed.

Lemma create_journal_dir_triple ns d0 :
  is_Some (journal_dir d0) ->
  triple ns (fun d => d = d0) (create_journal_dir ns) (fun _ d => d = d0) (fun d => d = d0).
Proof.
  intros [j Hj]. unfold create_journal_dir.
  eapply triple_conseq; [apply (create_dir_triple ns (fun d => MkNsDir (keys_dir d) (Some (default None (journal_dir d)))) d0)|done| |done].
  intros _ d ->. rewrite Hj. destruct d0; simpl in *. by subst.
Qed.

Lemma wal_new_triple ns d0 :
  is_Some (journal_dir d0) ->
  triple ns (fun d => d = d0) (wal_new ns)
    (fun j d => d = d0 /\ journal_path j = ns /\ pending j = []) (fun d => d = d0).
Proof.
  intros Hj. unfold wal_new. eapply triple_seq; [by apply create_journal_dir_triple|].
  eapply triple_bind; [apply triple_look|]. intros present.
  apply (triple_bind ns _ _ _ (fun _ d => d = d0)).
  - destruct present; [|by apply triple_ret]. unfold read_last_sequence, read_entries.
    eapply triple_bind; [apply triple_look|]. intros es. by apply triple_ret.
  - intros seq. by apply triple_ret.
Qed.

Lemma truncated_triple ns d0 j :
  journal_path j = ns -> is_Some (wal_of d0) ->
  triple ns (fun d => d = d0) (truncated j) (fun _ d => d = set_wal None d0) (fun d => d = d0).
Proof.
  intros Hj Hw. apply (triple_eq ns _ _ (remove_wal ns)).
  - intros w d Hd ->. unfold truncated, wal_truncate, bind, on_disk. simpl. rewrite Hj.
    rewrite (wal_file_of _ _ _ Hd), bool_decide_true by done. by destruct (remove_wal ns w) as [[[]|e] w'].
  - unfold remove_wal. apply (triple_step ns _ _ (set_wal None) (fun _ => Datatypes.id)).
    + apply changes_on_dir.
    + intros _. apply changes_id.
    + by intros d ->.
Qed.

(** Recovery of one namespace: whatever happens, what the directory stands
    for does not change, and at the end the files are that. *)
Lemma recover_namespace_triple ns d0 :
  sound_dir ns d0 ->
  triple ns (fun d => d = d0) (recover_namespace ns)
    (fun _ d => kept clean_dir ns d0 d) (fun d => kept sound_dir ns d0 d).
Proof.
  intros Hs. pose proof (so_journal _ _ Hs) as Hj. destruct (so_keys _ _ Hs) as [ks0 Hks].
  destruct d0 as [kd jd]. cbn in Hks, Hj. subst kd. set (d0 := MkNsDir (Some ks0) jd) in *.
  unfold recover_namespace.
  apply (triple_look_at ns _ _ (fun d => bool_decide (is_Some (wal_of d)))).
  { intros w Hd. by rewrite (wal_file_of _ _ _ Hd). }
  destruct (wal_of d0) as [buf|] eqn:Hw.
  - rewrite bool_decide_true by eauto. cbn match.
    eapply triple_bind; [eapply triple_conseq; [apply (wal_new_triple ns d0 Hj)|done|done|by intros ? ->]|].
    intros j. apply triple_guard. intros d (-> & Hjp & _). unfold wal_replay, read_entries. rewrite Hjp.
    apply (triple_look_at ns _ _ (fun d => frames (wal_content d))).
    { intros w Hd. by rewrite (wal_file_of _ _ _ Hd), wal_content_of, Hw. }
    set (es := frames (wal_content d0)).
    apply (triple_seq ns _ (fun d => exists ks, d = MkNsDir (Some ks) jd /\ midway es es ks0 ks)).
    + eapply triple_conseq; [apply (apply_entries_triple ns [] es ks0 jd); apply Hs| |done|].
      * intros d ->. exists ks0. split; [done|]. by split.
      * intros d (ks & -> & Hm). by eapply midway_sound.
    + apply triple_guard. intros d (ks & -> & Hm).
      assert (Hmid : kept sound_dir ns d0 (MkNsDir (Some ks) jd)) by (by eapply midway_sound).
      eapply triple_bind; [eapply triple_conseq; [apply (wal_new_triple ns (MkNsDir (Some ks) jd) Hj)|done|done|by intros ? ->]|].
      intros j2. apply triple_guard. intros d (-> & Hjp2 & _).
      eapply triple_conseq; [apply (truncated_triple ns (MkNsDir (Some ks) jd) j2 Hjp2)|done| |by intros ? ->].
      { exists buf. exact Hw. }
      intros _ d ->. by apply (midway_clean ns es).
  - rewrite bool_decide_false by (by intros [? ?]). apply triple_ret. intros d ->.
    split; [|done]. apply silent_clean; [done|]. by rewrite wal_content_of, Hw.
Qed.

(** ** The disk *)

Definition every (good : string -> NsDir -> Prop) w : Prop :=
  forall ns d, ns_dirs w !! ns = Some d -> good ns d.
Abbreviation sound := (every sound_dir).
Abbreviation clean := (every clean_dir).

(** What the disk holds for a key. *)
Definition contents w ns id : option bytes := ns_dirs w !! ns ≫= fun d => settled d id.
Definition same_contents w w' : Prop :=
  (forall ns, is_Some (ns_dirs w' !! ns) <-> is_Some (ns_dirs w !! ns)) /\
  (forall ns id, contents w' ns id = contents w ns id).

#[export] Instance same_contents_preorder : PreOrder same_contents.
Proof.
  split; [done|]. intros w1 w2 w3 [A1 B1] [A2 B2].
  split; [intros ns; by rewrite A2, A1|intros ns id; by rewrite B2, B1].
Qed.

Lemma every_update good w w' ns d' :
  every good w -> ns_dirs w' = <[ns := d']> (ns_dirs w) -> good ns d' -> every good w'.
Proof.
  intros Hw E Hg n d. rewrite E. intros [[<- <-]|[_ Hd]]%lookup_insert_Some; [done|]. by apply Hw.
Qed.

Lemma same_contents_update w w' ns d d' :
  ns_dirs w !! ns = Some d -> ns_dirs w' = <[ns := d']> (ns_dirs w) ->
  (forall id, settled d' id = settled d id) -> same_contents w w'.
Proof.
  intros Hd E Hs. split; intros n; unfold contents; rewrite E; (destruct (decide (n = ns)) as [->|Hne];
    [rewrite lookup_insert_eq, Hd|by rewrite lookup_insert_ne]); [|done].
  by split; eauto.
Qed.

Lemma clean_sound w : clean w -> sound w.
Proof. intros H ns d Hd. by apply H. Qed.

Lemma recover_namespaces_spec names w :
  NoDup names -> (forall ns, ns ∈ names -> is_Some (ns_dirs w !! ns)) -> sound w ->
  let '(r, w') := recover_namespaces names w in
  sound w' /\ same_contents w w' /\ same_env w w' /\
  (forall ns, ns ∉ names -> ns_dirs w' !! ns = ns_dirs w !! ns) /\
  (r = Ok tt -> forall ns d, ns ∈ names -> ns_dirs w' !! ns = Some d -> clean_dir ns d) /\
  (codecs_total -> faults w = [] -> faults w' = [] /\ is_ok r = true).
Proof.
  revert w. induction names as [|ns names IH]; intros w Hnd Hin Hs; cbn [recover_namespaces].
  { cbn. split_and!; try done. by intros _ ? ? ?%not_elem_of_nil. }
  apply NoDup_cons in Hnd as [Hni Hnd]. destruct (Hin ns) as [d Hd]; [by left|].
  destruct (recover_namespace_triple ns d (Hs _ _ Hd) w d Hd eq_refl) as (d' & E & V & Hr & L).
  unfold bind. destruct (recover_namespace ns w) as [[[]|e] w1]; cbn in *.
  - destruct Hr as [Hc Hset]. specialize (IH w1 Hnd). destruct (recover_namespaces names w1) as [r w2].
    destruct IH as (S2 & C2 & V2 & F2 & K2 & L2).
    + intros n Hn. rewrite E. destruct (decide (n = ns)) as [->|]; [rewrite lookup_insert_eq; eauto|].
      rewrite lookup_insert_ne by done. apply Hin. by right.
    + eapply every_update; [done|done|]. apply Hc.
    + split_and!; try done.
      * etrans; [|done]. by eapply same_contents_update.
      * by etrans.
      * intros n [Hne Hn]%not_elem_of_cons. rewrite F2, E by done. by rewrite lookup_insert_ne.
      * intros Hr n dn [->|Hn]%elem_of_cons; [|by apply K2]. rewrite F2, E, lookup_insert_eq by done.
        by intros [= <-].
      * intros HT Hf. apply L2; [done|]. by apply L.
  - destruct Hr as [[Hc Hset] _]. split_and!; try done.
    + by eapply every_update.
    + by eapply same_contents_update.
    + intros n [Hne Hn]%not_elem_of_cons. rewrite E. by rewrite lookup_insert_ne.
Qed.

Lemma recover_spec w :
  sound w ->
  let '(r, w') := recover w in
  sound w' /\ same_contents w w' /\ same_env w w' /\ (r = Ok tt -> clean w') /\
  (codecs_total -> faults w = [] -> faults w' = [] /\ is_ok r = true).
Proof.
  intros Hs. unfold recover, bind, look. set (names := (map_to_list (ns_dirs w)).*1).
  assert (Hn : forall ns, ns ∈ names <-> is_Some (ns_dirs w !! ns)).
  { intros ns. unfold names. rewrite list_elem_of_fmap. split.
    - intros ([n d] & -> & Hd%elem_of_map_to_list). eauto.
    - intros [d Hd]. exists (ns, d). by rewrite elem_of_map_to_list. }
  pose proof (recover_namespaces_spec names w) as H. destruct (recover_namespaces names w) as [r w'].
  destruct H as (S' & C' & V' & F' & K' & L'); [apply NoDup_fst_map_to_list|naive_solver|done|].
  split_and!; try done. intros Hr ns d Hd. apply (K' Hr ns d); [|done]. apply Hn, C'. eauto.
Qed.

(** Opening the storage. *)
Lemma storage_new_spec k w :
  sound w ->
  let '(r, w') := storage_new k w in
  sound w' /\ same_contents w w' /\ same_env w w' /\
  (forall s, r = Ok s -> s = MkStorage k ∅ w' /\ clean w') /\
  (codecs_total -> faults w = [] -> faults w' = [] /\ is_ok r = true).
Proof.
  intros Hs.
  assert (Ht : forall (c : fs unit),
    (forall w, sound w ->
       let '(r, w') := c w in
       sound w' /\ same_contents w w' /\ same_env w w' /\ (r = Ok tt -> clean w') /\
       (codecs_total -> faults w = [] -> faults w' = [] /\ is_ok r = true)) ->
    forall w, sound w ->
       let '(r, w') := (create_base_dir ;! c) w in
       sound w' /\ same_contents w w' /\ same_env w w' /\ (r = Ok tt -> clean w') /\
       (codecs_total -> faults w = [] -> faults w' = [] /\ is_ok r = true)).
  { intros c Hc w0 Hw0. unfold bind, create_base_dir, touch, disk_step.
    destruct (faults w0) as [|[| | |] rest] eqn:Ef; try done.
    - specialize (Hc w0 Hw0). rewrite Ef in Hc. exact Hc.
    - specialize (Hc (set_faults rest w0) Hw0). unfold Datatypes.id. cbn in *.
      destruct (c _) as [r w']. naive_solver. }
  pose proof (Ht _ (Ht _ recover_spec) w Hs) as H. unfold storage_new.
  destruct ((create_base_dir ;! create_base_dir ;! recover) w) as [[[]|e] w'];
    destruct H as (S' & C' & V' & K' & L'); cbn; split_and!; try done.
  intros s [= <-]. auto.
Qed.
End recovery.

Abbreviation sound := (every sound_dir).
Abbreviation clean := (every clean_dir).
