(* ===== verification/CrashSafety.v ===== *)
(** * Journalled operations under crashes

    One journalled operation on a disk that may fail at any step
    ([perform_spec]): it is done, or it failed and the disk stands for the old
    or for the new contents. *)

From Stdlib Require Import ZArith Lia Strings.Byte.
From stdpp Require Import base gmap strings list.
From S2P Require Import Prelude External Platform FileSystem Journal EncryptedFs CrashLogic CrashRecovery.

Section safety.
Context {SHA : Sha256} {AEAD : Aead}.
Context {PED : Postcard EncryptedData} {PKM : Postcard KeyMetadata}.
Context {PCD : Postcard ChecksummedData} {PJE : Postcard JournalEntry}.
Implicit Types (w : World) (d : NsDir) (ns id : string) (op : JournalOp) (e : JournalEntry).
Implicit Types (s : EncryptedFileStorage).

(** ** Committing one entry *)

(** The entry fits the four bytes of the length prefix. *)
Definition fits op : Prop :=
  forall e c, u64 (je_sequence e) -> u64 (je_timestamp e) -> je_operation e = op ->
  encode_entry e = Ok c -> Z.of_nat (length c) < 2 ^ 32.

Definition commit_one (ns : string) (seq : Z) op : fs unit :=
  let! now := now_secs in
  open_wal ns ;! write_entries ns [MkEntry seq op now] ;! sync_all ;! set_permissions.

(** [good], and settled as after [op]. *)
Definition changed (good : string -> NsDir -> Prop) ns d0 op d : Prop :=
  good ns d /\ forall id,
    settled d id = match effect op with
                   | Some (i, o) => if decide (i = id) then o else settled d0 id
                   | None => settled d0 id
                   end.
(** Both outcomes of an operation that was cut off. *)
Definition either ns d0 op d : Prop := kept sound_dir ns d0 d \/ changed sound_dir ns d0 op d.

Lemma wal_content_append b d : wal_content (append_bytes b d) = wal_content d ++ b.
Proof. done. Qed.
Lemma append_bytes_twice b b' d : append_bytes b' (append_bytes b d) = append_bytes (b ++ b') d.
Proof. unfold append_bytes, set_wal. f_equal. do 2 f_equal. rewrite app_assoc. done. Qed.
#[local] Opaque frames wal_content.

(** A frame that was cut off changes nothing. *)
Lemma append_cut_off ns d0 b :
  clean_dir ns d0 -> cut_off b -> kept sound_dir ns d0 (append_bytes b d0).
Proof.
  intros [Hs Hf Hfi Hi] Hb.
  assert (E : frames (wal_content (append_bytes b d0)) = frames (wal_content d0))
    by (rewrite wal_content_append; by apply frames_cut_off).
  split.
  - split; rewrite ?E; [by eexists|apply Hs| |apply Hs|apply Hs].
    rewrite wal_content_append. by exists (frames (wal_content d0)), (wal_content d0), b.
  - intros id. unfold settled. by rewrite E.
Qed.

(** A whole frame performs the operation. *)
Lemma append_frame ns d0 op e c :
  clean_dir ns d0 -> proper ns op -> je_operation e = op -> encode_entry e = Ok c ->
  Z.of_nat (length c) < 2 ^ 32 ->
  let d := append_bytes (frame c) d0 in
  changed sound_dir ns d0 op d /\ framed (frames (wal_content d)) (wal_content d) /\
  frames (wal_content d) = frames (wal_content d0) ++ [e].
Proof.
  intros [Hs Hf Hfi Hi] Hp He Hc Hl d.
  assert (Hfr : framed (frames (wal_content d0) ++ [e]) (wal_content d))
    by (unfold d; rewrite wal_content_append; by apply framed_snoc).
  assert (E : frames (wal_content d) = frames (wal_content d0) ++ [e]) by (by apply frames_exact).
  destruct (proper_effect _ _ Hp) as (i & o & Heff & _).
  assert (Hsays : forall id, says id (frames (wal_content d)) =
                             if decide (i = id) then Some o else says id (frames (wal_content d0))).
  { intros id. rewrite E. apply says_snoc. by rewrite He. }
  split; [split|by rewrite E].
  - split.
    + by eexists.
    + apply Hs.
    + exists (frames (wal_content d0) ++ [e]), (wal_content d), [].
      rewrite app_nil_r. split; [done|]. split; [done|apply cut_off_nil].
    + rewrite E. apply Forall_app. split; [apply Hs|]. repeat constructor. by rewrite He.
    + intros ks id Hk _. by apply (Hi ks id).
  - intros id. unfold settled at 1. rewrite Hsays, Heff. case_decide; [done|]. done.
Qed.

Lemma take_frame_cut_off c n :
  Z.of_nat (length c) < 2 ^ 32 -> (n < length (frame c))%nat -> cut_off (take n (frame c)).
Proof. intros. by exists c, n. Qed.

Lemma append_wal_triple ns b d0 (X : NsDir -> Prop) :
  (forall n, X (append_bytes (take n b) d0)) -> X d0 ->
  triple ns (fun d => d = d0) (append_wal ns b) (fun _ d => d = append_bytes b d0) X.
Proof.
  intros Hn H0. unfold append_wal.
  apply (triple_step ns _ _ (append_bytes b) (fun n => append_bytes (take n b))).
  - apply changes_on_dir.
  - intros n. apply changes_on_dir.
  - intros d ->. auto.
Qed.

Lemma open_wal_triple ns d0 (X : NsDir -> Prop) :
  is_Some (journal_dir d0) -> X d0 -> X (append_bytes [] d0) ->
  triple ns (fun d => d = d0) (open_wal ns) (fun _ d => d = append_bytes [] d0) X.
Proof.
  intros [j Hj] H0 H1.
  apply (triple_eq ns _ _ (disk_step (on_dir ns (append_bytes [])) (fun _ => on_dir ns (append_bytes [])))).
  - intros w d Hd ->. unfold open_wal. by rewrite Hd; cbn; rewrite Hj.
  - apply (triple_step ns _ _ (append_bytes []) (fun _ => append_bytes [])).
    + apply changes_on_dir.
    + intros _. apply changes_on_dir.
    + intros d ->. auto.
Qed.

(** The commit: the frame is written, or a part of it. *)
Lemma commit_one_general ns seq op d0 (X : NsDir -> Prop) :
  is_Some (journal_dir d0) -> u64 seq -> X d0 -> X (append_bytes [] d0) ->
  (forall e c n, u64 (je_sequence e) -> u64 (je_timestamp e) -> je_operation e = op ->
     encode_entry e = Ok c -> X (append_bytes (take n (frame c)) d0)) ->
  triple ns (fun d => d = d0) (commit_one ns seq op)
    (fun _ d => exists e c, u64 (je_sequence e) /\ u64 (je_timestamp e) /\ je_operation e = op /\
                            encode_entry e = Ok c /\ d = append_bytes (frame c) d0) X.
Proof.
  intros Hj Hseq H0 H1 HX. unfold commit_one. apply triple_now_range. intros now Hnow.
  set (e := MkEntry seq op now).
  eapply triple_seq; [by apply open_wal_triple|].
  eapply triple_seq; [|eapply triple_seq; apply triple_touch]; cbn [write_entries].
  2,3: intros d (e' & c & ? & ? & He & Hec & ->); rewrite <- (take_ge (frame c) (length (frame c))) by done; eauto.
  apply triple_lift.
  - by intros d ->.
  - unfold encode_entry. intros er Her. destruct (to_allocvec e); simplify_eq/=; [|done].
    destruct (to_allocvec _); by simplify_eq/=.
  - intros (_ & HT & HT' & _). unfold encode_entry. destruct (HT e) as [b ->]. cbn.
    by destruct (HT' (ChecksummedData_new b)) as [b' ->].
  - intros c Hec. pose proof (fun n => HX e c n Hseq Hnow eq_refl Hec) as Hn. unfold frame in Hn.
    eapply triple_seq; [apply append_wal_triple; [|done]|].
    + intros n. rewrite append_bytes_twice. cbn [app]. specialize (Hn (n `min` 4)%nat).
      rewrite <- take_take, take_app_length' in Hn by (by rewrite length_length_prefix). done.
    + rewrite append_bytes_twice. cbn [app]. eapply triple_seq; [apply append_wal_triple|].
      * intros n. rewrite append_bytes_twice. specialize (Hn (4 + n)%nat).
        rewrite <- (length_length_prefix c), take_app_add in Hn. done.
      * specialize (Hn 4%nat). rewrite take_app_length' in Hn by (by rewrite length_length_prefix). done.
      * apply triple_ret. intros d ->. exists e, c. by rewrite append_bytes_twice.
Qed.

(** Done, or cut off before or after its last byte. *)
Lemma commit_one_triple ns seq op d0 :
  clean_dir ns d0 -> proper ns op -> fits op -> u64 seq ->
  triple ns (fun d => d = d0) (commit_one ns seq op)
    (fun _ d => exists e c, je_operation e = op /\ encode_entry e = Ok c /\ Z.of_nat (length c) < 2 ^ 32 /\
                            d = append_bytes (frame c) d0)
    (either ns d0 op).
Proof.
  intros Hc Hp Hfit Hseq.
  eapply triple_conseq; [apply (commit_one_general ns seq op d0 (either ns d0 op))|done| |done].
  - apply (so_journal _ _ (cl_sound _ _ Hc)).
  - done.
  - left. split; [apply Hc|done].
  - left. apply append_cut_off, cut_off_nil; done.
  - intros e c n H1 H2 He Hec. pose proof (Hfit e c H1 H2 He Hec) as Hl.
    destruct (decide (n < length (frame c))%nat); [left; by apply append_cut_off, take_frame_cut_off|].
    right. rewrite take_ge by lia. by apply (append_frame ns d0 op e c).
  - intros _ d (e & c & H1 & H2 & He & Hec & ->). exists e, c. eauto 10.
Qed.

(** ** A journalled operation *)

Lemma applied_clean ns d0 op id o e c ks0 ks' jd :
  clean_dir ns d0 -> proper ns op -> effect op = Some (id, o) ->
  je_operation e = op -> encode_entry e = Ok c -> Z.of_nat (length c) < 2 ^ 32 ->
  append_bytes (frame c) d0 = MkNsDir (Some ks0) jd -> around id ks0 ks' ->
  changed sound_dir ns d0 op (MkNsDir (Some ks') jd) /\
  (applied ks0 id o ks' -> changed clean_dir ns d0 op (MkNsDir (Some ks') jd)).
Proof.
  intros Hc Hp Heff He Hec Hl Ed Ha.
  destruct (append_frame ns d0 op e c Hc Hp He Hec Hl) as (Hch & Hfr & Efr). rewrite Ed in *.
  assert (Hks : keys_dir d0 = Some ks0) by (by injection Ed).
  assert (Hsays : is_Some (says id (frames (wal_content (MkNsDir (Some ks0) jd))))).
  { rewrite Efr. apply (says_member _ e id o); [set_solver|by rewrite He]. }
  assert (Hso : changed sound_dir ns d0 op (MkNsDir (Some ks') jd)).
  { destruct Hch as [Hs Hset]. destruct (midway_sound ns [] ks0 ks' jd Hs) as [Hs' Hset'].
    - eapply (midway_around _ ks0 ks0 ks' id []); [done|done|by split].
    - split; [done|]. intros i. by rewrite Hset'. }
  split; [done|]. intros (_ & Hf & Hi). destruct Hso as [Hs Hset].
  assert (Hin : forall i, intact ks' i).
  { intros i. destruct (decide (i = id)) as [->|Hne]; [done|].
    eapply intact_around; [done|done|]. by apply (cl_intact _ _ Hc). }
  split; [split|]; [done| | | |done].
  - by rewrite (wal_content_keys _ (Some ks0)).
  - intros i. rewrite Hset, Heff. cbn. case_decide as Hd; [by subst|].
    rewrite <- (cl_files _ _ Hc), Hks. cbn. by apply (around_other id ks0 ks' i).
  - intros ks i [= <-]. apply Hin.
Qed.

(** The journal of a namespace, opened when it is not yet. *)
Definition next_sequence s ns : fs Z :=
  match journals s !! ns with
  | Some j => ret (wrap 64 (wal_sequence j + 1))
  | None => let! j := wal_new ns in ret (wrap 64 (wal_sequence j + 1))
  end.
Definition perform s ns op : fs unit :=
  (let! seq := next_sequence s ns in commit_one ns seq op) ;! apply_operation op.

Lemma next_sequence_triple s ns d0 (X : NsDir -> Prop) :
  is_Some (journal_dir d0) -> X d0 ->
  triple ns (fun d => d = d0) (next_sequence s ns) (fun seq d => u64 seq /\ d = d0) X.
Proof.
  intros Hj H0. assert (forall z, u64 (wrap 64 z)) by (intros; by apply wrap_range).
  unfold next_sequence. destruct (journals s !! ns); [apply triple_ret; naive_solver|].
  eapply triple_bind; [eapply triple_conseq; [by apply (wal_new_triple ns d0)|done|done|by intros ? ->]|].
  intros j. apply triple_ret. naive_solver.
Qed.

Lemma perform_triple s ns op d0 :
  clean_dir ns d0 -> proper ns op -> fits op ->
  triple ns (fun d => d = d0) (perform s ns op) (fun _ => changed clean_dir ns d0 op) (either ns d0 op).
Proof.
  intros Hc Hp Hfit. pose proof (so_journal _ _ (cl_sound _ _ Hc)) as Hj.
  assert (H0 : either ns d0 op d0) by (left; split; [apply Hc|done]).
  destruct (proper_effect _ _ Hp) as (id & o & Heff & _). unfold perform.
  eapply triple_seq; [eapply triple_bind|].
  - by apply next_sequence_triple.
  - intros seq. apply triple_guard. intros d [Hseq ->]. by apply commit_one_triple.
  - apply triple_guard. intros d1 (e & c & He & Hec & Hl & ->). destruct (append_bytes (frame c) d0) as [kd jd] eqn:Ed.
    assert (is_Some kd) as [ks0 ->].
    { destruct (so_keys _ _ (cl_sound _ _ Hc)) as [ks Hks]. injection Ed as <- _. eauto. }
    eapply triple_conseq; [by apply (apply_triple ns op id o ks0 jd)|done| |].
    + intros _ d (ks' & -> & Ha). eapply applied_clean; [done..|apply Ha|done].
    + intros d (ks' & -> & Ha). right. by eapply applied_clean.
Qed.

(** Every open journal has nothing pending. *)
Definition idle s : Prop :=
  forall ns j, journals s !! ns = Some j -> journal_path j = ns /\ pending j = [].

Lemma idle_put s ns j :
  idle s -> journal_path j = ns -> pending j = [] -> idle (put_journal ns j s).
Proof. intros Hi Hp Hn n j'. cbn. intros [[<- <-]|[_ Hj]]%lookup_insert_Some; [done|]. by apply Hi. Qed.

Lemma on_journal_run s ns j op :
  journal_path j = ns -> pending j = [] ->
  let seq := wrap 64 (wal_sequence j + 1) in
  let '(r, s') := on_journal ns j (wal_append op ;! wal_commit) s in
  commit_one ns seq op (disk s) = (r, disk s') /\ master_key s' = master_key s /\
  (r = Ok tt -> exists j', journal_path j' = ns /\ pending j' = [] /\ journals s' = <[ns := j']> (journals s)).
Proof.
  intros Hp Hn seq. unfold on_journal, wal_append, wal_commit, commit_one, bind, on_disk, modify, now_secs.
  cbn -[open_wal write_entries]. rewrite Hn, Hp. cbn -[open_wal write_entries].
  destruct (open_wal ns _) as [[[]|er] w1]; cbn -[write_entries]; [|done].
  destruct (write_entries ns _ w1) as [[[]|er] w2]; cbn; [|done].
  destruct (sync_all w2) as [[[]|er] w3]; cbn; [|done].
  destruct (set_permissions w3) as [[[]|er] w4]; cbn; [|done].
  split; [done|]. split; [done|]. intros _. by eexists (MkWal ns _ []).
Qed.

Lemma journaled_run s ns op :
  idle s ->
  let '(r, s') := journaled ns op s in
  (let! seq := next_sequence s ns in commit_one ns seq op) (disk s) = (r, disk s') /\
  master_key s' = master_key s /\ (r = Ok tt -> idle s').
Proof.
  intros Hi. unfold journaled, next_sequence, get_or_create_journal, bind.
  destruct (journals s !! ns) as [j|] eqn:Hj.
  - destruct (Hi ns j Hj) as [Hp Hn]. pose proof (on_journal_run s ns j op Hp Hn) as H. cbn in *.
    destruct (on_journal ns j _ s) as [r s']. destruct H as (E & Em & Hr). split; [done|]. split; [done|].
    intros (j' & Hp' & Hn' & Ej)%Hr n j2. rewrite Ej. intros [[<- <-]|[_ H]]%lookup_insert_Some; [done|]. by apply Hi.
  - unfold on_world. cbn -[wal_new]. destruct (wal_new ns (disk s)) as [[j|er] w1] eqn:Hw; [|done].
    assert (journal_path j = ns /\ pending j = []) as [Hp Hn].
    { unfold wal_new in Hw. apply bind_inv_Ok in Hw as ([] & w2 & _ & Hw).
      apply bind_inv_Ok in Hw as (b & w3 & _ & Hw). apply bind_inv_Ok in Hw as (q & w4 & _ & Hw).
      by injection Hw as <- _. }
    set (s1 := put_journal ns j (MkStorage (master_key s) (journals s) w1)).
    pose proof (on_journal_run s1 ns j op Hp Hn) as H. cbn in *.
    destruct (on_journal ns j _ s1) as [r s']. destruct H as (E & Em & Hr). split; [done|]. split; [done|].
    intros (j' & Hp' & Hn' & Ej)%Hr n j2. rewrite Ej. cbn. rewrite insert_insert_eq.
    intros [[<- <-]|[_ H]]%lookup_insert_Some; [done|]. by apply Hi.
Qed.

Lemma perform_run s ns op :
  idle s ->
  let '(r, s') := (journaled ns op ;! on_world (apply_operation op)) s in
  perform s ns op (disk s) = (r, disk s') /\ master_key s' = master_key s /\ (r = Ok tt -> idle s').
Proof.
  intros Hi. pose proof (journaled_run s ns op Hi) as H. unfold perform. unfold bind at 1. unfold bind at 1.
  destruct (journaled ns op s) as [[[]|er] s1]; destruct H as (-> & Em & Hr); [|done].
  unfold on_world. destruct (apply_operation op (disk s1)) as [[[]|er] w2]; cbn; [|done].
  split; [done|]. split; [done|]. intros _. by apply Hr.
Qed.

(** ** On the disk *)

(** The contents after an operation on a namespace. *)
Definition after ns op w w' : Prop :=
  (forall n, is_Some (ns_dirs w' !! n) <-> is_Some (ns_dirs w !! n)) /\
  (forall n id, contents w' n id =
     match effect op with
     | Some (i, o) => if decide ((n, id) = (ns, i)) then o else contents w n id
     | None => contents w n id
     end).

Lemma after_update w w' ns op d d' good :
  ns_dirs w !! ns = Some d -> ns_dirs w' = <[ns := d']> (ns_dirs w) -> changed good ns d op d' -> after ns op w w'.
Proof.
  intros Hd E [_ Hs]. split; intros n; unfold contents; rewrite E.
  - destruct (decide (n = ns)) as [->|Hne]; [rewrite lookup_insert_eq, Hd; by split; eauto|].
    by rewrite lookup_insert_ne.
  - intros id. destruct (decide (n = ns)) as [->|Hne].
    + rewrite lookup_insert_eq, Hd. cbn. rewrite Hs. destruct (effect op) as [[i o]|]; [|done].
      repeat case_decide; congruence.
    + rewrite lookup_insert_ne by done. destruct (effect op) as [[i o]|]; [|done].
      rewrite decide_False by congruence. done.
Qed.

Lemma perform_spec s ns op d :
  clean (disk s) -> idle s -> ns_dirs (disk s) !! ns = Some d -> proper ns op -> fits op ->
  let '(r, s') := (journaled ns op ;! on_world (apply_operation op)) s in
  master_key s' = master_key s /\ same_env (disk s) (disk s') /\
  match r with
  | Ok _ => clean (disk s') /\ idle s' /\ after ns op (disk s) (disk s')
  | Err e => sound (disk s') /\ io_like e /\
             (same_contents (disk s) (disk s') \/ after ns op (disk s) (disk s'))
  end /\
  (codecs_total -> faults (disk s) = [] -> faults (disk s') = [] /\ is_ok r = true).
Proof.
  intros Hc Hi Hd Hp Hfit. pose proof (perform_run s ns op Hi) as H.
  destruct ((journaled ns op ;! on_world (apply_operation op)) s) as [r s'].
  destruct H as (E & Em & Hr). split; [done|].
  destruct (perform_triple s ns op d (Hc _ _ Hd) Hp Hfit (disk s) d Hd eq_refl) as (d' & Ed & V & Hres & L).
  rewrite E in *. cbn in *. split; [done|]. split; [|done]. pose proof (clean_sound _ Hc) as Hs.
  destruct r as [[]|e].
  - split; [eapply every_update; [done|done|apply Hres]|]. split; [by apply Hr|]. by eapply after_update.
  - destruct Hres as [[[Hk Hset]|Hch] Hio].
    + split; [by eapply every_update|]. split; [done|]. left. by eapply same_contents_update.
    + split; [eapply every_update; [done|done|apply Hch]|]. split; [done|]. right. by eapply after_update.
Qed.
End safety.
