(* ===== verification/DurableStore.v ===== *)
(** * The file storage as a map that survives crashes

    Histories of an encrypted file storage: any requests, crashes and I/O
    errors at any step of them, restarts that may themselves fail, with any
    schedule of faults.  For the histories called [regular], [durable_map]
    shows that the storage is a map from keys to data: what was acknowledged
    is there, an operation that failed happened entirely or not at all, and
    nothing else happens; [load_key] reads this map, and a disk that works can
    always be opened again.

    A history is regular if key ids and namespaces are plain file names, the
    process ends after an I/O error, and no I/O error hits the creation or
    deletion of a namespace, which are not journalled.  [FsWitness] shows what
    goes wrong without each of these conditions. *)

From Stdlib Require Import ZArith Lia Strings.Byte.
From stdpp Require Import base gmap strings list.
From S2P Require Import Prelude External Platform FileSystem Journal EncryptedFs CrashLogic CrashRecovery CrashSafety.

Definition op_size (op : JournalOp) : Z :=
  match op with
  | JStoreKey id ns data => Z.of_nat (String.length id + String.length ns + length data)
  | JDeleteKey id ns => Z.of_nat (String.length id + String.length ns)
  | JCreateNamespace ns | JDeleteNamespace ns => Z.of_nat (String.length ns)
  end.

(** Sizes of [postcard] encodings: lengths and integers take at most ten
    bytes each. *)
Class PostcardSizes `{Sha256, Postcard ChecksummedData, Postcard JournalEntry, Postcard EncryptedData} : Prop := {
  entry_size e c :
    u64 (je_sequence e) -> u64 (je_timestamp e) -> op_size (je_operation e) < 2 ^ 32 ->
    encode_entry e = Ok c -> Z.of_nat (length c) <= 256 + op_size (je_operation e);
  encrypted_size x b :
    length (ed_nonce x) = NONCE_SIZE -> to_allocvec x = Ok b ->
    Z.of_nat (length b) <= 64 + Z.of_nat (length (ed_ciphertext x))
}.

(** ** The map *)

Abbreviation Store := (gmap string (gmap string bytes)).

Inductive request :=
| RStore (id : string) (data : bytes) (ns : string)
| RDelete (id ns : string)
| RCreate (ns : string)
| RDrop (ns : string).

Definition spec_apply (r : request) (m : Store) : option Store :=
  match r with
  | RStore id data ns => (fun ks => <[ns := <[id := data]> ks]> m) <$> m !! ns
  | RDelete id ns =>
      ks ← m !! ns; _ ← ks !! id; Some (<[ns := delete id ks]> m)
  | RCreate ns => match m !! ns with None => Some (<[ns := ∅]> m) | Some _ => None end
  | RDrop ns => match m !! ns with None => None | Some _ => Some (delete ns m) end
  end.

(** What the caller learns: a request was acknowledged, refused, or failed with
    an I/O error; the process ended; or nothing. *)
Inductive event := Done (r : request) | Refused (r : request) | Failed (r : request) | Killed | Silent.

Definition spec_step (m : Store) (l : event) (m' : Store) : Prop :=
  match l with
  | Done r => spec_apply r m = Some m'
  | Refused _ | Killed | Silent => m' = m
  | Failed r => m' = m \/ spec_apply r m = Some m'
  end.
Inductive spec_steps : Store -> list event -> Store -> Prop :=
| spec_nil m : spec_steps m [] m
| spec_cons m l m1 ls m2 : spec_step m l m1 -> spec_steps m1 ls m2 -> spec_steps m (l :: ls) m2.

Section store.
Context {SHA : Sha256} {AEAD : Aead}.
Context {PED : Postcard EncryptedData} {PKM : Postcard KeyMetadata}.
Context {PCD : Postcard ChecksummedData} {PJE : Postcard JournalEntry}.
Context {SIZES : PostcardSizes}.
Implicit Types (w : World) (ns id : string) (s : EncryptedFileStorage) (k : MasterKey) (m : Store).

(** ** Histories *)

Definition execute (r : request) : storing unit :=
  match r with
  | RStore id data ns => store_key id data ns
  | RDelete id ns => delete_key id ns
  | RCreate ns => create_namespace ns
  | RDrop ns => delete_namespace ns
  end.
(** Plain names, and less than 4 GiB. *)
Definition acceptable (r : request) : Prop :=
  match r with
  | RStore id data ns =>
      valid ns id /\ Z.of_nat (String.length id + String.length ns + length data) < 2 ^ 32 - 1024
  | RDelete id ns => valid ns id /\ Z.of_nat (String.length id + String.length ns) < 2 ^ 32 - 1024
  | _ => True
  end.
Definition journalled_request (r : request) : bool :=
  match r with RStore _ _ _ | RDelete _ _ => true | _ => false end.

Inductive machine := Up (s : EncryptedFileStorage) | Down (w : World).

Definition with_faults (fl : list fault) s : EncryptedFileStorage :=
  MkStorage (master_key s) (journals s) (set_faults fl (disk s)).

(** A crash within an operation is an I/O error at that step and the end of the
    process. *)
Inductive step (kek : bytes) : machine -> event -> machine -> Prop :=
| step_done r s s' :
    execute r s = (Ok tt, s') -> step kek (Up s) (Done r) (Up s')
| step_refused r s s' e :
    execute r s = (Err e, s') -> ~ io_like e -> step kek (Up s) (Refused r) (Up s')
| step_failed r s s' e :
    execute r s = (Err e, s') -> io_like e -> step kek (Up s) (Failed r) (Up s')
| step_killed s : step kek (Up s) Killed (Down (disk s))
| step_faults fl s : step kek (Up s) Silent (Up (with_faults fl s))
| step_opened fl w s w' : open kek (set_faults fl w) = (Ok s, w') -> step kek (Down w) Silent (Up s)
| step_not_opened fl w e w' : open kek (set_faults fl w) = (Err e, w') -> step kek (Down w) Silent (Down w').
Inductive steps (kek : bytes) : machine -> list event -> machine -> Prop :=
| steps_nil σ : steps kek σ [] σ
| steps_cons σ l σ1 ls σ2 : step kek σ l σ1 -> steps kek σ1 ls σ2 -> steps kek σ (l :: ls) σ2.

(** The histories the storage is made for. *)
Fixpoint regular (ls : list event) : Prop :=
  match ls with
  | [] => True
  | (Done r | Refused r) :: rest => acceptable r /\ regular rest
  | Failed r :: rest =>
      acceptable r /\ journalled_request r = true /\ head rest = Some Killed /\ regular rest
  | (Killed | Silent) :: rest => regular rest
  end.

(** ** Invariant *)

(** What a key decrypts to. *)
Definition opens k (c : bytes) : option bytes :=
  match from_postcard c with
  | Ok encrypted => match MasterKey_decrypt k encrypted with Ok p => Some p | Err _ => None end
  | Err _ => None
  end.
Definition holds k w m : Prop :=
  (forall ns, is_Some (m !! ns) <-> is_Some (ns_dirs w !! ns)) /\
  (forall ns id,
     match contents w ns id, m !! ns ≫= (.!! id) with
     | Some c, Some p => opens k c = Some p
     | None, None => True
     | _, _ => False
     end).
Definition keyed kek w k : Prop := (MasterKey_load kek w).1 = Ok k.
Definition drawn w : Prop := forall t n, length (entropy w t n) = n.

Definition represents kek (σ : machine) m : Prop :=
  match σ with
  | Up s => clean (disk s) /\ idle s /\ keyed kek (disk s) (master_key s) /\ drawn (disk s) /\
            holds (master_key s) (disk s) m
  | Down w => sound w /\ drawn w /\ exists k, keyed kek w k /\ holds k w m
  end.

Lemma keyed_env kek w w' k : same_env w w' -> keyed kek w k -> keyed kek w' k.
Proof. intros [E _]. unfold keyed, MasterKey_load. by rewrite E. Qed.

Lemma drawn_env w w' : same_env w w' -> drawn w -> drawn w'.
Proof. intros [_ E]. unfold drawn. by rewrite E. Qed.

Lemma holds_same k w w' m : same_contents w w' -> holds k w m -> holds k w' m.
Proof.
  intros [E1 E2] [H1 H2]. split; [intros ns; by rewrite H1, E1|]. intros ns id. rewrite E2. apply H2.
Qed.

(** The map follows an operation. *)
Lemma holds_store k w w' ns id c p m ks :
  holds k w m -> m !! ns = Some ks -> after ns (JStoreKey id ns c) w w' -> opens k c = Some p ->
  holds k w' (<[ns := <[id := p]> ks]> m).
Proof.
  intros [H1 H2] Hm [E1 E2] Ho. split.
  - intros n. rewrite E1, <- H1. destruct (decide (n = ns)) as [->|]; [|by rewrite lookup_insert_ne].
    rewrite lookup_insert_eq, Hm. by split; eauto.
  - intros n i. rewrite E2. cbn. specialize (H2 n i). case_decide as Hd; [injection Hd as -> ->|].
    + by rewrite lookup_insert_eq; cbn; rewrite lookup_insert_eq.
    + destruct (decide (n = ns)) as [->|]; [|by rewrite lookup_insert_ne].
      rewrite lookup_insert_eq. cbn. rewrite lookup_insert_ne by congruence. by rewrite Hm in H2.
Qed.

Lemma holds_delete k w w' ns id m ks :
  holds k w m -> m !! ns = Some ks -> after ns (JDeleteKey id ns) w w' ->
  holds k w' (<[ns := delete id ks]> m).
Proof.
  intros [H1 H2] Hm [E1 E2]. split.
  - intros n. rewrite E1, <- H1. destruct (decide (n = ns)) as [->|]; [|by rewrite lookup_insert_ne].
    rewrite lookup_insert_eq, Hm. by split; eauto.
  - intros n i. rewrite E2. cbn. specialize (H2 n i). case_decide as Hd; [injection Hd as -> ->|].
    + by rewrite lookup_insert_eq; cbn; rewrite lookup_delete_eq.
    + destruct (decide (n = ns)) as [->|]; [|by rewrite lookup_insert_ne].
      rewrite lookup_insert_eq. cbn. rewrite lookup_delete_ne by congruence. by rewrite Hm in H2.
Qed.

(** ** Encryption *)

Lemma encrypt_spec s data :
  drawn (disk s) ->
  let '(r, s') := encrypt_key_data data s in
  (exists w', s' = MkStorage (master_key s) (journals s) w' /\ ns_dirs w' = ns_dirs (disk s) /\
     same_env (disk s) w' /\ faults w' = faults (disk s)) /\
  (forall b, r = Ok b -> opens (master_key s) b = Some data /\ Z.of_nat (length b) <= 128 + Z.of_nat (length data)).
Proof.
  intros Hdr. unfold encrypt_key_data, on_world, bind. cbn -[MasterKey_encrypt].
  destruct (MasterKey_encrypt (master_key s) data (disk s)) as [r w'] eqn:E.
  assert (Hw : ns_dirs w' = ns_dirs (disk s) /\ same_env (disk s) w' /\ faults w' = faults (disk s)).
  { unfold MasterKey_encrypt, seal, bind, lift, fill_bytes in E. cbn in E.
    destruct (new_from_slice _ _); cbn in E; [destruct (aead_encrypt _ _ _ _); cbn in E|];
      injection E as _ <-; repeat split. }
  destruct r as [x|e]; [|by split; [exists w'|]]. unfold lift. split; [by exists w'|].
  intros b Hb%rmap_err_Ok. split.
  - unfold opens. rewrite (from_postcard_to_allocvec _ _ Hb). unfold MasterKey_decrypt.
    by rewrite (seal_unseal _ _ _ _ _ _ _ _ _ Hdr E).
  - revert E. unfold MasterKey_encrypt, seal. intros E.
    apply bind_inv_Ok in E as (c & w1 & [= _ <-] & E). apply bind_inv_Ok in E as (n & w2 & [= <- <-] & E).
    apply bind_inv_Ok in E as (ct & w3 & [= Hct%rmap_err_Ok <-] & [= <- _]).
    apply length_aead_encrypt in Hct. apply encrypted_size in Hb; [|apply Hdr]. cbn in Hb. lia.
Qed.

(** ** Requests *)

Lemma fits_size op : op_size op < 2 ^ 32 - 256 -> fits op.
Proof. intros Hs e c H1 H2 <- Hc. pose proof (entry_size e c H1 H2 ltac:(lia) Hc). lia. Qed.

Lemma ns_exists_spec w ns : ns_exists w ns = true <-> is_Some (ns_dirs w !! ns).
Proof. unfold ns_exists. apply bool_decide_eq_true. Qed.

Lemma ns_exists_false w ns : ns_exists w ns = false -> ns_dirs w !! ns = None.
Proof. unfold ns_exists. rewrite bool_decide_eq_false. apply eq_None_not_Some. Qed.

(** What a request does, by its result. *)
Record outcome kek (r : request) m (x : result unit StorageError * EncryptedFileStorage) : Prop := {
  out_done s' : x = (Ok tt, s') -> exists m', spec_apply r m = Some m' /\ represents kek (Up s') m';
  out_failed e s' : x = (Err e, s') -> io_like e -> journalled_request r = true ->
    exists m', (m' = m \/ spec_apply r m = Some m') /\ represents kek (Down (disk s')) m';
  out_refused e s' : x = (Err e, s') -> ~ io_like e -> represents kek (Up s') m
}.

Lemma represents_down kek s m : represents kek (Up s) m -> represents kek (Down (disk s)) m.
Proof. intros (Hc & _ & Hk & Hdr & Hh). split; [by apply clean_sound|]. eauto. Qed.

(** A request that stops before it changes anything. *)
Lemma outcome_early kek r m e s :
  represents kek (Up s) m -> outcome kek r m (Err e, s).
Proof.
  intros H. split; [by intros ? [=]| |by intros ? ? [= <- <-]].
  intros e' s' [= <- <-] _ _. exists m. split; [by left|]. by apply represents_down.
Qed.

(** Reading and drawing do not matter. *)
Lemma represents_quiet kek s w' m :
  ns_dirs w' = ns_dirs (disk s) -> same_env (disk s) w' ->
  represents kek (Up s) m -> represents kek (Up (MkStorage (master_key s) (journals s) w')) m.
Proof.
  intros E V (Hc & Hi & Hk & Hdr & Hh). split_and!; cbn.
  - intros ns d. rewrite E. apply Hc.
  - done.
  - by eapply keyed_env.
  - by eapply drawn_env.
  - eapply holds_same; [|done]. split; intros; unfold contents; by rewrite E.
Qed.

(** The journalled part of a request, given how the map follows. *)
Lemma outcome_journalled kek r s m ns op :
  represents kek (Up s) m -> is_Some (ns_dirs (disk s) !! ns) -> proper ns op -> fits op ->
  (forall w', after ns op (disk s) w' ->
     exists m', spec_apply r m = Some m' /\ holds (master_key s) w' m') ->
  outcome kek r m ((journaled ns op ;! on_world (apply_operation op)) s).
Proof.
  intros (Hc & Hi & Hk & Hdr & Hh) [d Hd] Hp Hf Hm.
  pose proof (perform_spec s ns op d Hc Hi Hd Hp Hf) as H.
  destruct ((journaled ns op ;! on_world (apply_operation op)) s) as [res s'].
  destruct H as (Em & V & Hres & _). split.
  - intros s1 [= -> <-]. destruct Hres as (Hc' & Hi' & Ha). destruct (Hm _ Ha) as (m' & Hsp & Hh').
    exists m'. split; [done|]. split_and!; rewrite ?Em; eauto using keyed_env, drawn_env.
  - intros e s1 [= -> <-] _ _. destruct Hres as (Hs' & _ & [Hsame|Ha]).
    + exists m. split; [by left|]. split; [done|]. split; [by eapply drawn_env|].
      exists (master_key s). split; [by eapply keyed_env|by eapply holds_same].
    + destruct (Hm _ Ha) as (m' & Hsp & Hh'). exists m'. split; [by right|]. split; [done|].
      split; [by eapply drawn_env|]. exists (master_key s). split; [by eapply keyed_env|done].
  - intros e s1 [= -> <-] Hn. by destruct Hres as (_ & ? & _).
Qed.

Lemma store_outcome kek id data ns s m :
  represents kek (Up s) m -> acceptable (RStore id data ns) ->
  outcome kek (RStore id data ns) m (store_key id data ns s).
Proof.
  intros Hr [Hv Hl]. pose proof Hr as (Hc & Hi & Hk & Hdr & Hh).
  unfold store_key, check_namespace. unfold bind at 1.
  destruct (ns_exists (disk s) ns) eqn:Hn; [|by apply outcome_early].
  pose proof (encrypt_spec s data Hdr) as He. unfold bind at 1.
  destruct (encrypt_key_data data s) as [[b|e] s1]; destruct He as [(w1 & -> & E & V & _) Hb];
    pose proof (represents_quiet kek s w1 m E V Hr) as Hr1; [|by apply outcome_early].
  destruct (Hb b eq_refl) as [Ho Hbl]. apply ns_exists_spec in Hn.
  apply (outcome_journalled kek (RStore id data ns) (MkStorage (master_key s) (journals s) w1) m ns
           (JStoreKey id ns b)); [done|by cbn; rewrite E|done| |].
  - apply fits_size. cbn. lia.
  - intros w' Ha. destruct (proj2 (proj1 Hh ns) Hn) as [ks Hks].
    exists (<[ns := <[id := data]> ks]> m). split; [cbn; by rewrite Hks|].
    eapply holds_store; [apply Hr1|done..].
Qed.

Lemma delete_outcome kek id ns s m :
  represents kek (Up s) m -> acceptable (RDelete id ns) ->
  outcome kek (RDelete id ns) m (delete_key id ns s).
Proof.
  intros Hr [Hv Hl]. pose proof Hr as (Hc & Hi & Hk & Hdr & Hh).
  unfold delete_key, check_namespace. unfold bind at 1.
  destruct (ns_exists (disk s) ns) eqn:Hn; [|by apply outcome_early].
  destruct (valid_paths _ _ Hv) as [-> _]. unfold bind at 1, lift. unfold bind at 1.
  case_bool_decide as Hf; [|by apply outcome_early]. apply ns_exists_spec in Hn.
  apply (outcome_journalled kek (RDelete id ns) s m ns (JDeleteKey id ns)); [done|done|done| |].
  - apply fits_size. cbn. lia.
  - intros w' Ha. destruct (proj2 (proj1 Hh ns) Hn) as [ks Hks]. destruct Hn as [d Hd].
    exists (<[ns := delete id ks]> m). split; [|by eapply holds_delete].
    cbn. rewrite Hks. cbn. pose proof (proj2 Hh ns id) as Hid. unfold contents in Hid. rewrite Hd, Hks in Hid.
    cbn in Hid. rewrite <- (cl_files _ _ (Hc _ _ Hd) id) in Hid. unfold file_of, key_files in Hf.
    rewrite Hd in Hf. cbn in Hf. destruct Hf as [c Hf]. rewrite Hf in Hid. by destruct (ks !! id).
Qed.
(** ** Namespaces *)

Lemma disk_step_Ok good cut w u w' :
  disk_step good cut w = (Ok u, w') -> exists fl, w' = good (set_faults fl w).
Proof.
  unfold disk_step. destruct (faults w) as [|[| | |] rest] eqn:Ef; intros [=]; subst; [|by eexists].
  exists []. destruct w; cbn in *. by subst.
Qed.

(** Computations that fail only with the disk. *)
Definition fails_io {A} (c : fs A) : Prop := forall w e w', c w = (Err e, w') -> io_like e.

Lemma fails_io_bind {A B} (c : fs A) (k : A -> fs B) :
  fails_io c -> (forall a, fails_io (k a)) -> fails_io (let! a := c in k a).
Proof.
  intros Hc Hk w e w'. unfold bind. destruct (c w) as [[a|e'] w1] eqn:E; [apply Hk|].
  intros [= <- _]. by eapply Hc.
Qed.

Lemma fails_io_step good cut : fails_io (disk_step good cut).
Proof. intros w e w'. unfold disk_step. by destruct (faults w) as [|[| | |]]; intros [= <- _]. Qed.

Lemma fails_io_ret {A} (a : A) : fails_io (ret a).
Proof. by intros w e w' [=]. Qed.

Lemma fails_io_look {A} (f : World -> A) : fails_io (look f).
Proof. by intros w e w' [=]. Qed.

#[local] Hint Resolve fails_io_bind fails_io_step fails_io_ret fails_io_look : hsm.

Lemma fails_io_wal_new ns : fails_io (wal_new ns).
Proof.
  unfold wal_new, read_last_sequence, read_entries, create_journal_dir.
  apply fails_io_bind; [auto with hsm|]. intros _. apply fails_io_bind; [auto with hsm|].
  intros []; auto with hsm.
Qed.

Lemma fails_io_create ns : fails_io (create_namespace_impl ns ;! let! _ := wal_new ns in ret tt).
Proof.
  apply fails_io_bind; [|auto using fails_io_wal_new with hsm].
  intros w e w'. unfold create_namespace_impl. case_match; [by intros [=]|].
  assert (Hc : fails_io (create_ns_dir ns ;! create_keys_dir ns ;! create_journal_dir ns))
    by (unfold create_ns_dir, create_keys_dir, create_journal_dir; auto with hsm).
  apply Hc.
Qed.

Lemma fails_io_remove ns : fails_io (remove_dir_all ns).
Proof.
  intros w e w'. unfold remove_dir_all. pose proof (fails_io_step (set_dirs (delete ns)) (fun _ => Datatypes.id) w e w') as H.
  destruct (faults w) as [|[| | |d] rest]; try apply H. case_match; by intros [= <- _].
Qed.

Definition fresh_dir : NsDir := MkNsDir (Some ∅) (Some None).

Lemma fresh_dirs_triple ns :
  triple ns (fun d => d = empty_dir) (create_keys_dir ns ;! create_journal_dir ns)
    (fun _ d => d = fresh_dir) (fun _ => True).
Proof.
  unfold create_keys_dir, create_journal_dir.
  apply (triple_seq ns _ (fun d => d = MkNsDir (Some ∅) None)); eapply triple_conseq.
  - apply (create_dir_triple ns (fun d => MkNsDir (Some (default ∅ (keys_dir d))) (journal_dir d)) empty_dir).
  - done.
  - by intros _ d ->.
  - done.
  - apply (create_dir_triple ns (fun d => MkNsDir (keys_dir d) (Some (default None (journal_dir d)))) (MkNsDir (Some ∅) None)).
  - done.
  - by intros _ d ->.
  - done.
Qed.

Lemma create_run ns w w' :
  ns_dirs w !! ns = None -> (create_namespace_impl ns ;! let! _ := wal_new ns in ret tt) w = (Ok tt, w') ->
  ns_dirs w' = <[ns := fresh_dir]> (ns_dirs w) /\ same_env w w'.
Proof.
  intros Hn H. apply bind_inv_Ok in H as ([] & w2 & H & H2). unfold create_namespace_impl in H.
  destruct (ns_exists w ns) eqn:Hex; [apply ns_exists_spec in Hex; rewrite Hn in Hex; by destruct Hex|].
  apply bind_inv_Ok in H as ([] & w1 & H0 & H1). apply disk_step_Ok in H0 as [fl E1].
  assert (Ew1 : ns_dirs w1 = <[ns := empty_dir]> (ns_dirs w) /\ same_env w w1).
  { subst w1. split; [|done]. cbn. by rewrite Hn. }
  clear E1. destruct Ew1 as [E1 V1].
  destruct (fresh_dirs_triple ns w1 empty_dir) as (d2 & E2 & V2 & R2 & _);
    [by rewrite E1, lookup_insert_eq|done|]. rewrite H1 in *. cbn in E2, V2, R2. subst d2.
  apply bind_inv_Ok in H2 as (j & w3 & H2 & H3). injection H3 as <-.
  destruct (wal_new_triple ns fresh_dir ltac:(by eexists) w2 fresh_dir) as (d3 & E3 & V3 & R3 & _);
    [by rewrite E2, lookup_insert_eq|done|]. rewrite H2 in *. cbn in E3, V3, R3. destruct R3 as [-> _].
  split; [by rewrite E3, E2, E1, !insert_insert_eq|]. by do 2 (etrans; [done|]).
Qed.

Lemma fresh_clean ns : clean_dir ns fresh_dir.
Proof.
  assert (Hf : frames (wal_content fresh_dir) = []) by done.
  apply silent_clean; [|done]. split; rewrite ?Hf; [by eexists|by eexists| |constructor|].
  - exists [], [], []. split; [done|]. split; [apply framed_nil|apply cut_off_nil].
  - intros ks id [= <-] _ c. by rewrite lookup_empty.
Qed.

Lemma create_outcome kek ns s m :
  represents kek (Up s) m -> outcome kek (RCreate ns) m (create_namespace ns s).
Proof.
  intros Hr. pose proof Hr as (Hc & Hi & Hk & Hdr & Hh). unfold create_namespace.
  destruct (ns_exists (disk s) ns) eqn:Hn; [by apply outcome_early|]. apply ns_exists_false in Hn.
  unfold on_world. set (c := create_namespace_impl ns ;! let! _ := wal_new ns in ret tt).
  destruct (c (disk s)) as [[[]|e] w'] eqn:Hrun.
  - split; [|by intros ? ? [=]..]. intros s' [= <-].
    destruct (create_run ns _ _ Hn Hrun) as [E V]. destruct Hh as [H1 H2].
    assert (Hm : m !! ns = None).
    { apply eq_None_not_Some. intros Hm%H1. rewrite Hn in Hm. by destruct Hm. }
    exists (<[ns := ∅]> m). split; [cbn; by rewrite Hm|]. split_and!; cbn; eauto using keyed_env, drawn_env.
    + eapply every_update; [done|done|apply fresh_clean].
    + split.
      * intros n. rewrite E. destruct (decide (n = ns)) as [->|]; [rewrite !lookup_insert_eq; by split; eauto|].
        rewrite !lookup_insert_ne by done. apply H1.
      * intros n id. unfold contents. rewrite E. destruct (decide (n = ns)) as [->|].
        -- by rewrite !lookup_insert_eq.
        -- rewrite !lookup_insert_ne by done. apply H2.
  - split; [by intros ? [=]|done|]. intros e' s' [= <- <-] Hio. by destruct Hio; apply (fails_io_create _ _ _ _ Hrun).
Qed.

Lemma remove_run ns w w' : remove_dir_all ns w = (Ok tt, w') -> ns_dirs w' = delete ns (ns_dirs w) /\ same_env w w'.
Proof.
  unfold remove_dir_all. intros H.
  assert (Hs : disk_step (set_dirs (delete ns)) (fun _ => Datatypes.id) w = (Ok tt, w')).
  { destruct (faults w) as [|[| | |d] rest]; try apply H. by destruct (ns_dirs _ !! ns). }
  by apply disk_step_Ok in Hs as [fl ->].
Qed.

Lemma drop_outcome kek ns s m :
  represents kek (Up s) m -> outcome kek (RDrop ns) m (delete_namespace ns s).
Proof.
  intros Hr. pose proof Hr as (Hc & Hi & Hk & Hdr & Hh). unfold delete_namespace.
  destruct (ns_exists (disk s) ns) eqn:Hn; cbn; [|by apply outcome_early].
  unfold bind, modify, on_world, delete_namespace_impl. cbn. rewrite Hn.
  destruct (remove_dir_all ns (disk s)) as [[[]|e] w'] eqn:Hrun.
  - split; [|by intros ? ? [=]..]. intros s' [= <-]. destruct (remove_run _ _ _ Hrun) as [E V].
    apply ns_exists_spec in Hn. destruct Hh as [H1 H2]. destruct (proj2 (H1 ns) Hn) as [ks Hm].
    exists (delete ns m). split; [cbn; by rewrite Hm|]. split_and!; cbn; eauto using keyed_env, drawn_env.
    + intros n d. cbn. rewrite E. intros [_ Hd]%lookup_delete_Some. by apply Hc.
    + intros n j. cbn. intros [_ Hj]%lookup_delete_Some. by apply Hi.
    + split.
      * intros n. cbn. rewrite E. destruct (decide (n = ns)) as [->|].
        -- rewrite !lookup_delete_eq. split; by intros [].
        -- rewrite !lookup_delete_ne by done. apply H1.
      * intros n id. unfold contents. cbn. rewrite E. destruct (decide (n = ns)) as [->|].
        -- by rewrite !lookup_delete_eq.
        -- rewrite !lookup_delete_ne by done. apply H2.
  - split; [by intros ? [=]|done|]. intros e' s' [= <- <-] Hio. by destruct Hio; apply (fails_io_remove _ _ _ _ Hrun).
Qed.

(** ** Histories refine the map *)

Lemma execute_outcome kek r s m :
  represents kek (Up s) m -> acceptable r -> outcome kek r m (execute r s).
Proof.
  intros Hr Ha. destruct r; [by apply store_outcome|by apply delete_outcome|by apply create_outcome|by apply drop_outcome].
Qed.

Lemma open_represents kek fl w m :
  represents kek (Down w) m ->
  let '(r, w') := open kek (set_faults fl w) in
  match r with Ok s => represents kek (Up s) m /\ disk s = w' | Err _ => represents kek (Down w') m end /\
  (codecs_total -> fl = [] -> is_ok r = true /\ faults w' = []).
Proof.
  intros (Hs & Hdr & k & Hk & Hh). unfold open. change (keyed kek (set_faults fl w) k) in Hk.
  assert (Hload : MasterKey_load kek (set_faults fl w) = (Ok k, set_faults fl w)).
  { unfold keyed in Hk. by rewrite (surjective_pairing (MasterKey_load _ _)), Hk. }
  rewrite Hload. pose proof (storage_new_spec k (set_faults fl w) Hs) as H.
  destruct (storage_new k (set_faults fl w)) as [r w']. destruct H as (Hs' & Hsame & V & Hok & L).
  split; [|intros HT ->; split; by apply L]. destruct r as [s|e].
  - destruct (Hok s eq_refl) as [-> Hc']. split; [|done]. split_and!; cbn; try done.
    + eapply keyed_env; [exact V|done].
    + eapply drawn_env; [exact V|done].
    + eapply holds_same; [exact Hsame|done].
  - split; [done|]. split; [eapply drawn_env; [exact V|done]|]. exists k.
    split; [eapply keyed_env; [exact V|done]|eapply holds_same; [exact Hsame|done]].
Qed.

(** After a failure only the disk matters: the next event is the end of the
    process. *)
Definition awaits kek (σ : machine) (ls : list event) m : Prop :=
  represents kek σ m \/ exists s, σ = Up s /\ head ls = Some Killed /\ represents kek (Down (disk s)) m.

Lemma awaits_killed kek σ ls m σ' :
  awaits kek σ (Killed :: ls) m -> step kek σ Killed σ' -> represents kek σ' m.
Proof.
  intros [Hr|(s & -> & _ & Hr)] Hst; inversion Hst; subst; [by apply represents_down|done].
Qed.

Lemma step_refines kek σ l ls σ' m :
  represents kek σ m -> regular (l :: ls) -> step kek σ l σ' ->
  exists m', spec_step m l m' /\ awaits kek σ' ls m'.
Proof.
  intros Hr Hreg Hst. destruct Hst as [r s s' E|r s s' e E Hio|r s s' e E Hio|s|fl s|fl w s w' E|fl w e w' E];
    cbn in Hreg.
  - destruct (execute_outcome kek r s m Hr (proj1 Hreg)) as [Hd _ _].
    destruct (Hd s' E) as (m' & ? & ?). exists m'. by split; [|left].
  - destruct (execute_outcome kek r s m Hr (proj1 Hreg)) as [_ _ Hd]. exists m. split; [done|left]. by eapply Hd.
  - destruct Hreg as (Ha & Hj & Hk & _). destruct (execute_outcome kek r s m Hr Ha) as [_ Hd _].
    destruct (Hd e s' E Hio Hj) as (m' & ? & ?). exists m'. split; [done|]. right. by exists s'.
  - exists m. split; [done|left]. by apply represents_down.
  - exists m. split; [done|left]. by apply (represents_quiet kek s).
  - pose proof (open_represents kek fl w m Hr) as H. rewrite E in H. destruct H as [[H _] _]. exists m. by split; [|left].
  - pose proof (open_represents kek fl w m Hr) as H. rewrite E in H. destruct H as [H _]. exists m. by split; [|left].
Qed.

Lemma regular_tail l ls : regular (l :: ls) -> regular ls.
Proof. destruct l; cbn; tauto. Qed.

Lemma awaits_refine kek σ ls σ' m :
  awaits kek σ ls m -> regular ls -> steps kek σ ls σ' -> exists m', spec_steps m ls m' /\ represents kek σ' m'.
Proof.
  intros Hw Hreg Hst. revert m Hw. induction Hst as [|σ l σ1 ls σ2 H Hst IH]; intros m Hw.
  - destruct Hw as [Hr|(s & _ & [=] & _)]. exists m. split; [constructor|done].
  - assert (exists m1, spec_step m l m1 /\ awaits kek σ1 ls m1) as (m1 & H1 & Hw1).
    { destruct Hw as [Hr|Hk]; [by eapply step_refines|]. pose proof Hk as (_ & _ & [= ->] & _).
      exists m. split; [done|left]. by eapply awaits_killed; [right|]. }
    destruct (IH (regular_tail _ _ Hreg) m1 Hw1) as (m2 & H2 & Hr2). exists m2. split; [by econstructor|done].
Qed.

Lemma steps_refine kek σ ls σ' m :
  represents kek σ m -> regular ls -> steps kek σ ls σ' ->
  exists m', spec_steps m ls m' /\ represents kek σ' m'.
Proof. intros Hr. apply awaits_refine. by left. Qed.

(** ** Reading *)

Definition lookup_key m ns id : result bytes StorageError :=
  match m !! ns with
  | None => Err (SNamespaceNotFound ns)
  | Some ks => match ks !! id with None => Err (SKeyNotFound id) | Some p => Ok p end
  end.

Lemma load_key_represents kek s m ns id :
  represents kek (Up s) m -> valid ns id -> load_key id ns s = lookup_key m ns id.
Proof.
  intros (Hc & _ & _ & _ & H1 & H2) Hv. unfold load_key, lookup_key.
  destruct (ns_exists (disk s) ns) eqn:Hn; cbn.
  - apply ns_exists_spec in Hn. destruct (proj2 (H1 ns) Hn) as [ks Hm]. destruct Hn as [d Hd].
    rewrite Hm. destruct (valid_paths _ _ Hv) as [-> ->]. cbn. unfold file_of, key_files. rewrite Hd. cbn.
    specialize (H2 ns id). unfold contents in H2. rewrite Hd, Hm in H2. cbn in H2.
    pose proof (Hc _ _ Hd) as Hcd. rewrite <- (cl_files _ _ Hcd id) in H2.
    destruct (so_keys _ _ (cl_sound _ _ Hcd)) as [kd Hkd]. rewrite Hkd in *. cbn in *.
    destruct (kd !! key_file id) as [c|] eqn:Hf; [|by destruct (ks !! id)].
    destruct (cl_intact _ _ Hcd kd id Hkd c Hf) as (b & mt & -> & -> & Hver). cbn. rewrite Hver. cbn.
    destruct (ks !! id) as [p|]; [|done]. unfold opens in H2.
    destruct (from_postcard c) as [x|]; [|done]. cbn. by destruct (MasterKey_decrypt _ x); simplify_eq/=.
  - apply ns_exists_false in Hn. destruct (m !! ns) eqn:Hm; [|done].
    destruct (proj1 (H1 ns)) as [? ?]; [eauto|]. by rewrite Hn in *.
Qed.

(** The listing: exactly the names of key files. *)
Lemma listed_spec f id : listed f = Some id <-> f = key_file id.
Proof.
  unfold listed, key_file. split.
  - case_match; [|done]. intros (r & ->%strip_prefix_Some & ->%strip_suffix_Some)%bind_Some. done.
  - intros ->.
    destruct (strip_suffix _ _) eqn:E.
    + rewrite strip_prefix_app. cbn. by apply strip_suffix_Some.
    + assert (Hs : strip_suffix ("." +:+ KEY_FILE_EXT) ("key-" +:+ id +:+ "." +:+ KEY_FILE_EXT) = Some ("key-" +:+ id))
        by (by apply strip_suffix_Some). by rewrite Hs in E.
Qed.

Lemma list_keys_represents kek s m ns ks :
  represents kek (Up s) m -> m !! ns = Some ks ->
  exists l, list_keys ns s = Ok l /\ NoDup l /\ forall id, id ∈ l <-> is_Some (ks !! id).
Proof.
  intros (Hc & _ & _ & _ & H1 & H2) Hm. destruct (proj1 (H1 ns)) as [d Hd]; [eauto|].
  pose proof (Hc _ _ Hd) as Hcd. destruct (so_keys _ _ (cl_sound _ _ Hcd)) as [kd Hkd].
  unfold list_keys, key_files. rewrite Hd. cbn. rewrite Hkd. eexists. split; [done|]. split.
  - apply NoDup_omap; [|apply NoDup_fst_map_to_list].
    intros f f' id _ _ Hf%listed_spec Hf'%listed_spec. congruence.
  - intros id. specialize (H2 ns id). unfold contents in H2. rewrite Hd, Hm in H2. cbn in H2.
    rewrite <- (cl_files _ _ Hcd id), Hkd in H2. cbn in H2. rewrite list_elem_of_omap.
    transitivity (is_Some (kd !! key_file id)).
    + split.
      * intros (f & (p & -> & Hp)%list_elem_of_fmap & Hl%listed_spec). destruct p as [f c]. cbn in *. subst f.
        apply elem_of_map_to_list in Hp. eauto.
      * intros [c Hf]. exists (key_file id). split; [|by apply listed_spec].
        apply list_elem_of_fmap. exists (key_file id, c). by rewrite elem_of_map_to_list.
    + destruct (kd !! key_file id), (ks !! id); try done; split; eauto; by intros [].
Qed.

(** ** A new storage *)

(** A saved master key can be loaded with the same key-encryption key. *)
Lemma save_load kek k w w' :
  drawn w -> length (master_bytes k) = MASTER_KEY_SIZE -> MasterKey_save k kek w = (Ok tt, w') ->
  keyed kek w' k /\ ns_dirs w' = ns_dirs w /\ entropy w' = entropy w.
Proof.
  intros Hdr Hk E. unfold MasterKey_save in E.
  apply bind_inv_Ok in E as ([] & w1 & E1 & E). apply disk_step_Ok in E1 as [f1 E1].
  apply bind_inv_Ok in E as (x & w2 & E2 & E). apply bind_inv_Ok in E as (b & w3 & E3 & E).
  injection E3 as Hb%rmap_err_Ok <-. apply disk_step_Ok in E as [f2 ->].
  assert (Hdr1 : drawn w1) by (by subst w1).
  pose proof (seal_unseal _ _ "Failed to create KEK cipher: " "KEK decryption failed: " _ _ _ _ _ Hdr1 E2) as Hu.
  assert (Ew : ns_dirs w2 = ns_dirs w1 /\ entropy w2 = entropy w1).
  { unfold encrypt_with_kek, seal in E2. apply bind_inv_Ok in E2 as (c & w4 & E4 & E2).
    injection E4 as _ <-. apply bind_inv_Ok in E2 as (n & w5 & E5 & E2). injection E5 as _ <-.
    apply bind_inv_Ok in E2 as (ct & w6 & E6 & E2). injection E6 as _ <-. by injection E2 as _ <-. }
  destruct Ew as [Ed Ee]. split; [|subst w1; done].
  unfold keyed, MasterKey_load. cbn. rewrite (from_postcard_to_allocvec _ _ Hb). cbn.
  unfold decrypt_with_kek. rewrite Hu. cbn. unfold MasterKey_from_bytes. rewrite Hk. cbn. by destruct k.
Qed.

Lemma created_represents kek w s w' :
  drawn w -> ns_dirs w = ∅ -> create_with_new_key kek w = (Ok s, w') -> represents kek (Up s) ∅.
Proof.
  intros Hdr Hempty. unfold create_with_new_key.
  destruct ((let! k := MasterKey_generate in MasterKey_save k kek ;! ret k) w) as [[k|e] w1] eqn:E; [|done].
  apply bind_inv_Ok in E as (k' & w0 & E0 & E). unfold MasterKey_generate in E0.
  apply bind_inv_Ok in E0 as (b & w9 & E9 & E0). injection E9 as <- <-. injection E0 as <- <-.
  apply bind_inv_Ok in E as ([] & w2 & E & E2). injection E2 as <- <-.
  destruct (save_load kek (MkMasterKey (entropy w (tick w) MASTER_KEY_SIZE)) (next_tick w) w2 Hdr (Hdr _ _) E) as (Hk & Ed & Ee). intros En.
  assert (Hr : represents kek (Down w2) ∅).
  { split; [intros ns d; rewrite Ed; cbn; rewrite Hempty; by rewrite lookup_empty|].
    split; [unfold drawn; rewrite Ee; apply Hdr|]. exists (MkMasterKey (entropy w (tick w) MASTER_KEY_SIZE)).
    split; [done|]. unfold holds, contents. rewrite Ed. cbn. rewrite Hempty.
    split; [intros ns; by rewrite !lookup_empty|intros ns id; by rewrite !lookup_empty]. }
  pose proof (open_represents kek (faults w2) w2 ∅ Hr) as H. unfold open in H.
  assert (Hsf : set_faults (faults w2) w2 = w2) by (by destruct w2). rewrite Hsf in H.
  assert (Hload : MasterKey_load kek w2 = (Ok (MkMasterKey (entropy w (tick w) MASTER_KEY_SIZE)), w2)).
  { unfold keyed in Hk. by rewrite (surjective_pairing (MasterKey_load _ _)), Hk. }
  rewrite Hload, En in H. by apply H.
Qed.

(** ** Theorems *)

(** C12: an encrypted file storage in a regular history, between its creation
    and a moment when it runs: crashes, I/O errors and torn writes may happen
    within every operation on a key and within recovery.  It answers
    [load_key] and [list_keys] from a map that results from the acknowledged
    requests in order, where each request that failed took effect entirely or
    not at all and refused ones not at all.  (Regular: ids and namespaces are
    plain file names, the process is restarted after an I/O error, and no I/O
    error hits the creation or deletion of a namespace; outside of these
    conditions acknowledged data can be lost, [acknowledged_write_lost].) *)
Theorem durable_map kek w s0 w0 ls s :
  drawn w -> ns_dirs w = ∅ -> create_with_new_key kek w = (Ok s0, w0) ->
  steps kek (Up s0) ls (Up s) -> regular ls ->
  exists m, spec_steps ∅ ls m /\
    (forall ns id, valid ns id -> load_key id ns s = lookup_key m ns id) /\
    (forall ns ks, m !! ns = Some ks ->
       exists l, list_keys ns s = Ok l /\ NoDup l /\ forall id, id ∈ l <-> is_Some (ks !! id)).
Proof.
  intros Hdr He Hc Hst Hreg. pose proof (created_represents kek w s0 w0 Hdr He Hc) as Hr.
  destruct (steps_refine kek _ _ _ _ Hr Hreg Hst) as (m & Hm & Hrm). exists m. split; [done|].
  split; intros ns; [intros id Hv; by eapply load_key_represents|intros ks Hks; by eapply list_keys_represents].
Qed.

(** C13: after any regular history that ends with the process down, opening
    the storage on a disk that works succeeds: recovery never gets stuck on
    what crashes within operations on keys and within earlier recoveries left
    behind.  (A key id that is no plain file name, or a crash while a
    namespace is created, can block every later start:
    [invalid_id_blocks_restart], [namespace_half_created].) *)
Theorem restart_succeeds kek w s0 w0 ls w1 :
  codecs_total -> drawn w -> ns_dirs w = ∅ -> create_with_new_key kek w = (Ok s0, w0) ->
  steps kek (Up s0) ls (Down w1) -> regular ls -> is_ok (open kek (set_faults [] w1)).1 = true.
Proof.
  intros HT Hdr He Hc Hst Hreg. pose proof (created_represents kek w s0 w0 Hdr He Hc) as Hr.
  destruct (steps_refine kek _ _ _ _ Hr Hreg Hst) as (m & Hm & Hrm).
  pose proof (open_represents kek [] w1 m Hrm) as H. destruct (open kek (set_faults [] w1)) as [r w']. by apply H.
Qed.
End store.
