(* ===== verification/FsWitness.v ===== *)
(** * Hazards and concrete runs of the file storage

    A request whose key id is not a plain file name is journalled before it
    is rejected: every restart replays it and fails on it.  Then codecs for the
    records on disk, with the sizes of [postcard], and runs of the storage
    through crashes, torn writes and restarts. *)

From Stdlib Require Import ZArith Lia Strings.Byte.
From stdpp Require Import base gmap strings list.
From S2P Require Import Prelude External Platform FileSystem Journal EncryptedFs CrashLogic CrashRecovery.
From S2P Require Import CrashSafety DurableStore.
Import Concrete Concrete2.

Section hazards.
Context {SHA : Sha256} {AEAD : Aead}.
Context {PED : Postcard EncryptedData} {PKM : Postcard KeyMetadata}.
Context {PCD : Postcard ChecksummedData} {PJE : Postcard JournalEntry}.
Context {SIZES : PostcardSizes}.
Implicit Types (w : World) (d : NsDir) (ns id : string) (s : EncryptedFileStorage).

Lemma not_ok_bind {A B} (c : fs A) (k : A -> fs B) w :
  (forall a w', c w = (Ok a, w') -> is_ok (k a w').1 = false) -> is_ok ((let! a := c in k a) w).1 = false.
Proof. intros H. unfold bind. destruct (c w) as [[a|e] w'] eqn:E; [by apply H|done]. Qed.

(** An entry that names no file. *)
Definition poison ns id d : Prop :=
  (exists er, get_key_file_path ns id = Err er) /\ is_Some (wal_of d) /\
  exists e data, e ∈ frames (wal_content d) /\ je_operation e = JStoreKey id ns data.

Lemma apply_poison es e id ns data er w :
  e ∈ es -> je_operation e = JStoreKey id ns data -> get_key_file_path ns id = Err er ->
  is_ok (apply_entries es w).1 = false.
Proof.
  intros Hin He Her. revert w. induction es as [|e' es IH]; intros w; [by apply not_elem_of_nil in Hin|].
  cbn [apply_entries]. apply elem_of_cons in Hin as [<-|Hin].
  - rewrite He. cbn [apply_operation]. unfold write_encrypted_to_disk. by rewrite Her.
  - apply not_ok_bind. intros u w' _. by apply IH.
Qed.

Lemma recover_poison ns id d w :
  ns_dirs w !! ns = Some d -> poison ns id d -> is_ok (recover_namespace ns w).1 = false.
Proof.
  intros Hd ([er Her] & Hw & e & data & Hin & He). unfold recover_namespace. apply not_ok_bind.
  intros p w1 [= <- <-]. rewrite (wal_file_of _ _ _ Hd), bool_decide_true by done. apply not_ok_bind.
  intros j w1 Hj. assert (is_Some (journal_dir d)) as Hjd.
  { destruct d as [kd [x|]]; [by eexists|]. by destruct Hw. }
  destruct (wal_new_triple ns d Hjd w d Hd eq_refl) as (d1 & E & _ & Hr & _).
  rewrite Hj in *. cbn in E, Hr. destruct Hr as (-> & Hjp & _). apply not_ok_bind.
  intros es w2 [= <- <-]. apply not_ok_bind. intros u w3 Ha. exfalso.
  rewrite Hjp in Ha. rewrite (wal_file_of w1 ns d) in Ha by (by rewrite E, lookup_insert_eq).
  destruct Hw as [b Hb]. rewrite Hb in Ha. rewrite wal_content_of, Hb in Hin.
  pose proof (apply_poison (frames b) e id ns data er w1 Hin He Her) as Hno. by rewrite Ha in Hno.
Qed.

Lemma recover_names_poison names ns id d w :
  ns ∈ names -> ns_dirs w !! ns = Some d -> poison ns id d ->
  (forall n, n ∈ names -> is_Some (ns_dirs w !! n)) ->
  (forall n dn, n <> ns -> ns_dirs w !! n = Some dn -> sound_dir n dn) ->
  is_ok (recover_namespaces names w).1 = false.
Proof.
  intros Hin Hd Hp. revert w Hd. induction names as [|n names IH]; [by apply not_elem_of_nil in Hin|].
  intros w Hd Hdom Hs. cbn [recover_namespaces]. apply not_ok_bind. intros u w1 H1.
  destruct (decide (n = ns)) as [->|Hne].
  { pose proof (recover_poison ns id d w Hd Hp) as H. by rewrite H1 in H. }
  apply elem_of_cons in Hin as [->|Hin]; [done|].
  destruct (Hdom n) as [dn Hdn]; [by left|].
  destruct (recover_namespace_triple n dn (Hs n dn Hne Hdn) w dn Hdn eq_refl) as (d' & E & _ & Hr & _).
  rewrite H1 in *. cbn in E, Hr. apply IH; [done|by rewrite E, lookup_insert_ne|..].
  - intros n' Hn'. rewrite E. destruct (decide (n' = n)) as [->|]; [rewrite lookup_insert_eq; eauto|].
    rewrite lookup_insert_ne by done. apply Hdom. by right.
  - intros n' d2 Hne'. rewrite E. intros [[<- <-]|[_ H]]%lookup_insert_Some; [apply Hr|by apply Hs].
Qed.

Lemma open_poison kek ns id d w :
  ns_dirs w !! ns = Some d -> poison ns id d ->
  (forall n dn, n <> ns -> ns_dirs w !! n = Some dn -> sound_dir n dn) ->
  is_ok (open kek w).1 = false.
Proof.
  intros Hd Hp Hs. unfold open. destruct (MasterKey_load kek w) as [[k|e] w0] eqn:El; [|done].
  assert (w0 = w) as -> by (unfold MasterKey_load in El; by injection El). unfold storage_new.
  assert (Hno : is_ok ((create_base_dir ;! create_base_dir ;! recover) w).1 = false).
  { apply not_ok_bind. intros u w1 [f1 ->]%disk_step_Ok. apply not_ok_bind. intros u2 w2 [f2 ->]%disk_step_Ok.
    apply not_ok_bind. intros names w3 [= <- <-]. apply (recover_names_poison _ ns id d); [|done..| |done].
    - apply list_elem_of_fmap. exists (ns, d). by rewrite elem_of_map_to_list.
    - intros n ([n' dn] & -> & Hn%elem_of_map_to_list)%list_elem_of_fmap. by exists dn. }
  by destruct ((create_base_dir ;! create_base_dir ;! recover) w) as [[[]|e] w'].
Qed.

(** Journalling any operation on a working disk. *)
Lemma journaled_works s ns op d :
  codecs_total -> idle s -> faults (disk s) = [] -> ns_dirs (disk s) !! ns = Some d ->
  is_Some (journal_dir d) ->
  exists s' e c, journaled ns op s = (Ok tt, s') /\ same_env (disk s) (disk s') /\
    u64 (je_sequence e) /\ u64 (je_timestamp e) /\ je_operation e = op /\ encode_entry e = Ok c /\
    ns_dirs (disk s') = <[ns := append_bytes (frame c) d]> (ns_dirs (disk s)).
Proof.
  intros HT Hi Hf Hd Hj. pose proof (journaled_run s ns op Hi) as H.
  destruct (journaled ns op s) as [r s']. destruct H as (E & _ & _).
  assert (Htr : triple ns (fun d0 => d0 = d) (let! seq := next_sequence s ns in commit_one ns seq op)
    (fun _ d' => exists e c, u64 (je_sequence e) /\ u64 (je_timestamp e) /\ je_operation e = op /\
                             encode_entry e = Ok c /\ d' = append_bytes (frame c) d) (fun _ => True)).
  { eapply triple_bind; [by apply next_sequence_triple|]. intros seq. apply triple_guard. intros d' [Hseq ->].
    by apply commit_one_general. }
  destruct (Htr (disk s) d Hd eq_refl) as (d' & Ed & V & Hr & L). rewrite E in *. cbn in *.
  destruct (L HT Hf) as [_ Hok]. destruct r as [[]|]; [|done].
  destruct Hr as (e & c & H1 & H2 & H3 & H4 & ->). by exists s', e, c.
Qed.

(** The key id is checked after the operation was journalled.  Storing a key under
    an id that is no plain file name (one with a slash, say) returns the
    error of the check, and from then on the storage cannot be opened:
    recovery replays the journalled operation and stops with the same error,
    whatever the disk does. *)
Theorem invalid_id_blocks_restart kek w s0 w0 ls s id data ns er :
  codecs_total -> drawn w -> ns_dirs w = ∅ -> create_with_new_key kek w = (Ok s0, w0) ->
  steps kek (Up s0) ls (Up s) -> regular ls -> faults (disk s) = [] -> ns_exists (disk s) ns = true ->
  is_ok (encrypt_key_data data s).1 = true -> get_key_file_path ns id = Err er ->
  Z.of_nat (String.length id + String.length ns + length data) < 2 ^ 32 - 1024 ->
  exists s', store_key id data ns s = (Err er, s') /\
    forall fl, is_ok (open kek (set_faults fl (disk s'))).1 = false.
Proof.
  intros HT Hdr He Hc Hst Hreg Hf Hn Henc Her Hl.
  pose proof (created_represents kek w s0 w0 Hdr He Hc) as Hr0.
  destruct (steps_refine kek _ _ _ _ Hr0 Hreg Hst) as (m & Hm & Hr). pose proof Hr as (Hcl & Hi & _ & Hdr' & _).
  pose proof (encrypt_spec s data Hdr') as Hes. unfold store_key, check_namespace.
  unfold bind at 1. rewrite Hn. unfold bind at 1.
  destruct (encrypt_key_data data s) as [[b|e] s1]; [|done].
  destruct Hes as [(w1 & -> & E & V & F) Hb]. destruct (Hb b eq_refl) as [_ Hbl]. clear Hb Henc.
  set (s1 := MkStorage (master_key s) (journals s) w1) in *.
  apply ns_exists_spec in Hn as [d Hd]. pose proof (Hcl ns d Hd) as Hcd.
  destruct (journaled_works s1 ns (JStoreKey id ns b) d) as (s2 & e & c & Ej & V2 & H1 & H2 & H3 & H4 & Ed);
    [done|done|by rewrite <- Hf|by cbn; rewrite E|apply Hcd|].
  unfold bind at 1. rewrite Ej. unfold on_world, write_encrypted_to_disk. rewrite Her. cbn.
  eexists. split; [done|]. intros fl. change (disk s1) with w1 in Ed. rewrite E in Ed.
  apply (open_poison kek ns id (append_bytes (frame c) d) (set_faults fl (next_tick (disk s2)))).
  - cbn. by rewrite Ed, lookup_insert_eq.
  - split; [by eexists|]. split; [by eexists|]. exists e, b. split; [|done]. rewrite wal_content_append.
    rewrite (frames_exact (frames (wal_content d) ++ [e])); [set_solver|].
    apply framed_snoc; [apply Hcd|done|]. pose proof (entry_size e c H1 H2) as Hsz.
    rewrite H3 in Hsz. cbn in Hsz. specialize (Hsz ltac:(lia) H4). lia.
  - intros n dn Hne. cbn. rewrite Ed, lookup_insert_ne by done. intros Hdn. apply (Hcl n dn Hdn).
Qed.
End hazards.

(** ** Codecs *)

(** Small values compactly, the others in the codec of a countable type. *)
Section compact.
Context {A : Type} `{Countable A} (small : A -> option bytes) (parse : bytes -> option A).
Context (Hs : forall a b, small a = Some b -> parse b = Some a).

Definition compact_encode (a : A) : result bytes string :=
  match small a with
  | Some b => Ok (Byte.x00 :: b)
  | None => let? b := @to_allocvec A countable_postcard a in Ok (Byte.x01 :: b)
  end.
Definition compact_decode (b : bytes) : result A string :=
  match b with
  | Byte.x00 :: b => ok_or "compact" (parse b)
  | _ :: b => @from_postcard A countable_postcard b
  | [] => Err "end"
  end.

Lemma compact_decode_encode a b : compact_encode a = Ok b -> compact_decode b = Ok a.
Proof using Hs.
  unfold compact_encode. destruct (small a) as [c|] eqn:E.
  - intros [= <-]. cbn. by rewrite (Hs a c E).
  - intros (c & Hc & [= <-])%rbind_Ok. by apply (@from_postcard_to_allocvec A countable_postcard).
Qed.

Definition compact_postcard : Postcard A :=
  {| to_allocvec := compact_encode; from_postcard := compact_decode;
     from_postcard_to_allocvec := compact_decode_encode |}.
End compact.

Lemma compact_postcard_total {A} `{Countable A} small parse Hs (a : A) :
  exists b, @to_allocvec A (compact_postcard small parse Hs) a = Ok b.
Proof. cbn. unfold compact_encode. destruct (small a); by eexists. Qed.

#[local] Instance encrypted_eq_dec : EqDecision EncryptedData.
Proof. solve_decision. Defined.
#[local] Instance encrypted_countable : Countable EncryptedData.
Proof. refine (inj_countable' (fun x => (ed_nonce x, ed_ciphertext x)) (fun '(a, b) => MkEncrypted a b) _). by intros []. Defined.
#[local] Instance checksum_eq_dec : EqDecision Checksum.
Proof. solve_decision. Defined.
#[local] Instance checksummed_eq_dec : EqDecision ChecksummedData.
Proof. solve_decision. Defined.
#[local] Instance checksummed_countable : Countable ChecksummedData.
Proof.
  refine (inj_countable' (fun x => (cd_data x, checksum_bytes (cd_checksum x)))
            (fun '(a, b) => MkChecksummed a (MkChecksum b)) _). by intros [? []].
Defined.
#[local] Instance metadata_eq_dec : EqDecision KeyMetadata.
Proof. solve_decision. Defined.
#[local] Instance metadata_countable : Countable KeyMetadata.
Proof.
  refine (inj_countable' (fun x => (checksum_bytes (km_checksum x), km_timestamp x, km_size x, km_version x))
            (fun '(a, b, c, d) => MkKeyMeta (MkChecksum a) b c d) _). by intros [[] ? ? ?].
Defined.
#[local] Instance op_eq_dec : EqDecision JournalOp.
Proof. solve_decision. Defined.
#[local] Instance op_countable : Countable JournalOp.
Proof.
  refine (inj_countable'
    (fun o => match o with
              | JStoreKey i n d => inl (i, n, d) | JDeleteKey i n => inr (inl (i, n))
              | JCreateNamespace n => inr (inr (inl n)) | JDeleteNamespace n => inr (inr (inr n))
              end)
    (fun x => match x with
              | inl (i, n, d) => JStoreKey i n d | inr (inl (i, n)) => JDeleteKey i n
              | inr (inr (inl n)) => JCreateNamespace n | inr (inr (inr n)) => JDeleteNamespace n
              end) _). by intros [].
Defined.
#[local] Instance entry_eq_dec : EqDecision JournalEntry.
Proof. solve_decision. Defined.
#[local] Instance entry_countable : Countable JournalEntry.
Proof.
  refine (inj_countable' (fun x => (je_sequence x, je_operation x, je_timestamp x))
            (fun '(a, b, c) => MkEntry a b c) _). by intros [].
Defined.

(** A prefix of known length. *)
Definition small_pair (n : nat) (a b : bytes) : option bytes :=
  if (length a =? n)%nat then Some (a ++ b) else None.
Lemma small_pair_Some n a b c : small_pair n a b = Some c -> take n c = a /\ drop n c = b /\ length c = (n + length b)%nat.
Proof.
  unfold small_pair. case_match eqn:E; [|done]. apply Nat.eqb_eq in E as <-. intros [= <-].
  rewrite take_app_length, drop_app_length, length_app. done.
Qed.

#[local] Program Instance encrypted_postcard : Postcard EncryptedData :=
  compact_postcard (fun x => small_pair 12 (ed_nonce x) (ed_ciphertext x))
    (fun b => Some (MkEncrypted (take 12 b) (drop 12 b))) _.
Next Obligation. intros [n c] b (-> & -> & _)%small_pair_Some. done. Qed.

#[local] Program Instance checksummed_postcard : Postcard ChecksummedData :=
  compact_postcard (fun x => small_pair 32 (checksum_bytes (cd_checksum x)) (cd_data x))
    (fun b => Some (MkChecksummed (drop 32 b) (MkChecksum (take 32 b)))) _.
Next Obligation. intros [d [c]] b (-> & -> & _)%small_pair_Some. done. Qed.

#[local] Instance metadata_postcard : Postcard KeyMetadata := countable_postcard.

(** Journal entries: numbers in eight bytes, lengths before strings. *)
Definition op_fields (o : JournalOp) : byte * string * string * bytes :=
  match o with
  | JStoreKey i n d => (Byte.x00, i, n, d)
  | JDeleteKey i n => (Byte.x01, i, n, [])
  | JCreateNamespace n => (Byte.x02, EmptyString, n, [])
  | JDeleteNamespace n => (Byte.x03, EmptyString, n, [])
  end.
Definition fields_op (t : byte) (i n : string) (d : bytes) : option JournalOp :=
  match t with
  | Byte.x00 => Some (JStoreKey i n d)
  | Byte.x01 => Some (JDeleteKey i n)
  | Byte.x02 => Some (JCreateNamespace n)
  | Byte.x03 => Some (JDeleteNamespace n)
  | _ => None
  end.
Definition small_entry (e : JournalEntry) : option bytes :=
  let '(t, i, n, d) := op_fields (je_operation e) in
  let li := Z.of_nat (String.length i) in
  let ln := Z.of_nat (String.length n) in
  if forallb (in_ub 64) [je_sequence e; je_timestamp e; li; ln] then
    Some (le_bytes 8 (je_sequence e) ++ le_bytes 8 (je_timestamp e) ++ le_bytes 8 li ++ le_bytes 8 ln ++
          t :: as_bytes i ++ as_bytes n ++ d)
  else None.
Definition read8 (b : bytes) : Z * bytes := (from_le_bytes (take 8 b), drop 8 b).
Definition parse_entry (b : bytes) : option JournalEntry :=
  let '(sequence, b) := read8 b in
  let '(timestamp, b) := read8 b in
  let '(li, b) := read8 b in
  let '(ln, b) := read8 b in
  match b with
  | t :: body =>
      o ← fields_op t (of_bytes (take (Z.to_nat li) body)) (of_bytes (take (Z.to_nat ln) (drop (Z.to_nat li) body)))
            (drop (Z.to_nat ln) (drop (Z.to_nat li) body));
      Some (MkEntry sequence o timestamp)
  | [] => None
  end.

Lemma read8_le z b : in_u 64 z -> read8 (le_bytes 8 z ++ b) = (z, b).
Proof.
  intros Hz. unfold read8.
  rewrite take_app_length', drop_app_length' by (by rewrite length_le_bytes).
  rewrite from_le_le_bytes. f_equal. apply Z.mod_small. apply Hz.
Qed.

Lemma fields_op_fields o t i n d : op_fields o = (t, i, n, d) -> fields_op t i n d = Some o.
Proof. by destruct o; intros [= <- <- <- <-]. Qed.

#[local] Opaque le_bytes.
Lemma small_entry_parse e b : small_entry e = Some b -> parse_entry b = Some e.
Proof.
  unfold small_entry. destruct (op_fields (je_operation e)) as [[[t i] n] d] eqn:Eo.
  case_match eqn:Hf; [|done]. intros [= <-].
  cbn [forallb] in Hf. rewrite !andb_true_iff, !in_ub_spec in Hf. destruct Hf as (H1 & H2 & H3 & H4 & _).
  unfold parse_entry. rewrite !read8_le by done.
  rewrite !Nat2Z.id, <- !length_as_bytes, take_app_length, drop_app_length, take_app_length, drop_app_length.
  rewrite !of_as_bytes, (fields_op_fields _ _ _ _ _ Eo). by destruct e.
Qed.

#[local] Instance entry_postcard : Postcard JournalEntry := compact_postcard small_entry parse_entry small_entry_parse.

Lemma codecs : codecs_total.
Proof.
  split; [by eexists|]. split; [apply compact_postcard_total|].
  split; [apply compact_postcard_total|apply compact_postcard_total].
Qed.

Lemma small_entry_size e :
  u64 (je_sequence e) -> u64 (je_timestamp e) -> op_size (je_operation e) < 2 ^ 32 ->
  exists b, small_entry e = Some b /\ Z.of_nat (length b) = 33 + op_size (je_operation e).
Proof.
  intros H1 H2 H3. unfold small_entry. destruct (op_fields (je_operation e)) as [[[t i] n] d] eqn:Eo.
  assert (Es : op_size (je_operation e) = Z.of_nat (String.length i + String.length n + length d))
    by (destruct (je_operation e); injection Eo as <- <- <- <-; cbn; lia).
  rewrite Es in *. cbn [forallb]. rewrite !(proj2 (in_ub_spec _ _)) by (done || split; lia). cbn [andb].
  eexists. split; [done|]. rewrite !length_app. cbn [length]. rewrite !length_app, !length_le_bytes, !length_as_bytes. cbn [length]. lia.
Qed.

#[local] Transparent le_bytes.

Lemma encode_checksummed b : to_allocvec (ChecksummedData_new b) = Ok (Byte.x00 :: sha256 b ++ b).
Proof.
  assert (Hp : small_pair 32 (sha256 b) b = Some (sha256 b ++ b)) by (unfold small_pair; by rewrite length_sha256).
  unfold to_allocvec, checksummed_postcard, compact_postcard, compact_encode. cbn [ChecksummedData_new cd_checksum cd_data Checksum_compute checksum_bytes].
  by rewrite Hp.
Qed.

#[local] Instance sizes : PostcardSizes.
Proof.
  split.
  - intros e c H1 H2 H3. unfold encode_entry. intros (eb & He%rmap_err_Ok & Hc%rmap_err_Ok)%rbind_Ok.
    destruct (small_entry_size e H1 H2 H3) as (b & Hb & Hl). cbn in He. unfold compact_encode in He.
    rewrite Hb in He. injection He as <-. rewrite encode_checksummed in Hc. apply (inj Ok) in Hc as <-.
    cbn [length]. rewrite length_app, length_sha256. cbn [length]. lia.
  - intros x b Hn. cbn. unfold compact_encode, small_pair. rewrite Hn. cbn. intros [= <-].
    cbn [length]. rewrite length_app, Hn. unfold NONCE_SIZE. lia.
Qed.

(** ** Runs *)

Definition blank (fl : list fault) : World :=
  MkWorld ∅ None fl (fun t n => replicate n (byte_of_Z (Z.of_nat t))) (fun t => 1700000000 + Z.of_nat t) 0.
Definition kek : bytes := replicate 32 Byte.x2a.

Lemma blank_drawn fl : drawn (blank fl).
Proof. intros t n. apply length_replicate. Qed.

Definition or_storage (s : EncryptedFileStorage) (r : result EncryptedFileStorage StorageError) : EncryptedFileStorage :=
  match r with Ok s => s | Err _ => s end.
Definition nowhere : EncryptedFileStorage := MkStorage (MkMasterKey []) ∅ (blank []).

Lemma is_ok_unit {E S} (x : result unit E * S) : is_ok x.1 = true -> x = (Ok tt, x.2).
Proof. by destruct x as [[[]|] s]. Qed.

Lemma is_ok_storage (x : result EncryptedFileStorage StorageError * World) :
  is_ok x.1 = true -> x = (Ok (or_storage nowhere x.1), x.2).
Proof. by destruct x as [[s|] w]. Qed.

Lemma is_ok_or (r : result EncryptedFileStorage StorageError) : is_ok r = true -> r = Ok (or_storage nowhere r).
Proof. by destruct r. Qed.

Definition error_of {A S} (x : result A StorageError * S) : StorageError :=
  match x.1 with Ok _ => OperationFailed "none" | Err e => e end.
Lemma is_err_unit {A S} (x : result A StorageError * S) : is_ok x.1 = false -> x = (Err (error_of x), x.2).
Proof. by destruct x as [[a|e] s]. Qed.

Definition v1 : bytes := as_bytes "first".
Definition v2 : bytes := as_bytes "second".

Definition started : EncryptedFileStorage := or_storage nowhere (create_with_new_key kek (blank [])).1.
Definition made : EncryptedFileStorage := (execute (RCreate "prod") started).2.
Definition filled : EncryptedFileStorage := (execute (RStore "k1" v1 "prod") made).2.

(** Storing [v2] is cut off while its journal entry is written; the first restart is cut off during recovery. *)
Definition torn_store : EncryptedFileStorage := with_faults [Works; Works; Torn 9] filled.
Definition broken : EncryptedFileStorage := (execute (RStore "k1" v2 "prod") torn_store).2.
Definition crashed : World := disk broken.
Definition crashed_again : World := (open kek (set_faults [Works; Works; Works; Works; Torn 3] crashed)).2.
Definition back : EncryptedFileStorage := or_storage nowhere (open kek (set_faults [] crashed_again)).1.

Definition the_events : list event :=
  [Done (RCreate "prod"); Done (RStore "k1" v1 "prod"); Silent; Failed (RStore "k1" v2 "prod"); Killed;
   Silent; Silent].

Lemma started_ok : create_with_new_key kek (blank []) = (Ok started, (create_with_new_key kek (blank [])).2).
Proof. apply is_ok_storage. vm_compute. reflexivity. Qed.

Lemma acceptable_store id data ns :
  validate_path_component ns "namespace" = Ok tt -> validate_path_component id "key ID" = Ok tt ->
  (Z.of_nat (String.length id + String.length ns + length data) <? 2 ^ 32 - 1024) = true ->
  acceptable (RStore id data ns).
Proof. intros H1 H2 H3%Z.ltb_lt. by repeat split. Qed.

Lemma made_ok : execute (RCreate "prod") started = (Ok tt, made).
Proof. unfold made. apply is_ok_unit. vm_compute. reflexivity. Qed.
Lemma filled_ok : execute (RStore "k1" v1 "prod") made = (Ok tt, filled).
Proof. unfold filled. apply is_ok_unit. vm_compute. reflexivity. Qed.
Lemma broken_err :
  execute (RStore "k1" v2 "prod") torn_store = (Err io_error, broken).
Proof.
  unfold broken. assert (error_of (execute (RStore "k1" v2 "prod") torn_store) = io_error) as <- by (vm_compute; reflexivity).
  apply is_err_unit. vm_compute. reflexivity.
Qed.
Lemma crashed_again_err :
  open kek (set_faults [Works; Works; Works; Works; Torn 3] crashed) = (Err io_error, crashed_again).
Proof.
  unfold crashed_again.
  assert (error_of (open kek (set_faults [Works; Works; Works; Works; Torn 3] crashed)) = io_error) as <-
    by (vm_compute; reflexivity).
  apply is_err_unit. vm_compute. reflexivity.
Qed.
Lemma back_ok : open kek (set_faults [] crashed_again) = (Ok back, (open kek (set_faults [] crashed_again)).2).
Proof. unfold back. apply is_ok_storage. vm_compute. reflexivity. Qed.

Lemma steps_to_filled ls σ :
  steps kek (Up filled) ls σ ->
  steps kek (Up started) (Done (RCreate "prod") :: Done (RStore "k1" v1 "prod") :: ls) σ.
Proof.
  intros H. eapply steps_cons; [apply step_done, made_ok|].
  eapply steps_cons; [apply step_done, filled_ok|]. done.
Qed.

Lemma steps_to_crash ls σ :
  steps kek (Down crashed) ls σ ->
  steps kek (Up filled) (Silent :: Failed (RStore "k1" v2 "prod") :: Killed :: ls) σ.
Proof.
  intros H. eapply steps_cons; [apply (step_faults kek [Works; Works; Torn 9])|].
  eapply steps_cons; [eapply step_failed; [exact broken_err|done]|].
  eapply steps_cons; [apply step_killed|]. exact H.
Qed.

Ltac regular_history := repeat (split; [first [reflexivity | by apply acceptable_store | exact I]|]); exact I.

Lemma the_steps : steps kek (Up started) the_events (Up back).
Proof.
  apply steps_to_filled, steps_to_crash.
  eapply steps_cons; [exact (step_not_opened _ _ _ _ _ crashed_again_err)|].
  eapply steps_cons; [exact (step_opened _ _ _ _ _ back_ok)|]. apply steps_nil.
Qed.

Lemma durable_map_witness :
  load_key "k1" "prod" back = Ok v1 /\
  exists m, spec_steps ∅ the_events m /\
    (forall ns id, valid ns id -> load_key id ns back = lookup_key m ns id) /\
    (forall ns ks, m !! ns = Some ks ->
       exists l, list_keys ns back = Ok l /\ NoDup l /\ forall id, id ∈ l <-> is_Some (ks !! id)).
Proof.
  split; [vm_compute; reflexivity|].
  eapply (durable_map kek (blank [])); [apply blank_drawn|reflexivity|apply started_ok|apply the_steps|].
  regular_history.
Defined.

Lemma restart_succeeds_witness : is_ok (open kek (set_faults [] crashed_again)).1 = true.
Proof.
  eapply (restart_succeeds kek (blank [])); [apply codecs|apply blank_drawn|reflexivity|apply started_ok|..].
  - apply steps_to_filled, steps_to_crash.
    eapply steps_cons; [exact (step_not_opened _ _ _ _ _ crashed_again_err)|]. apply steps_nil.
  - regular_history.
Defined.

Lemma invalid_id_blocks_restart_witness :
  exists s', store_key "../k1" v2 "prod" filled =
      (Err (OperationFailed "Invalid key ID: contains path traversal characters"), s') /\
    forall fl, is_ok (open kek (set_faults fl (disk s'))).1 = false.
Proof.
  eapply (invalid_id_blocks_restart kek (blank []));
    [apply codecs|apply blank_drawn|reflexivity|apply started_ok|apply steps_to_filled, steps_nil|regular_history|..];
    try (vm_compute; reflexivity).
Defined.

(** ** Hazards of a process that goes on after an I/O error *)

Definition half_written : EncryptedFileStorage := (execute (RStore "k2" v1 "prod") torn_store).2.
Definition after_torn : EncryptedFileStorage := with_faults [] half_written.
Definition updated : EncryptedFileStorage := (execute (RStore "k1" v2 "prod") after_torn).2.
Definition reopened : EncryptedFileStorage := or_storage nowhere (open kek (set_faults [] (disk updated))).1.

Lemma half_written_err : execute (RStore "k2" v1 "prod") torn_store = (Err io_error, half_written).
Proof.
  unfold half_written.
  assert (error_of (execute (RStore "k2" v1 "prod") torn_store) = io_error) as <- by (vm_compute; reflexivity).
  apply is_err_unit. vm_compute. reflexivity.
Qed.
Lemma updated_ok : execute (RStore "k1" v2 "prod") after_torn = (Ok tt, updated).
Proof. unfold updated. apply is_ok_unit. vm_compute. reflexivity. Qed.
Lemma reopened_ok :
  open kek (set_faults [] (disk updated)) = (Ok reopened, (open kek (set_faults [] (disk updated))).2).
Proof. unfold reopened. apply is_ok_storage. vm_compute. reflexivity. Qed.

(** A torn journal write hides what is journalled after it.  When the
    process goes on after such an error, a later update is acknowledged and
    read back, and lost at the next restart, which also succeeds: recovery
    stops at the torn entry and puts the older, journalled value back. *)
Theorem acknowledged_write_lost :
  steps kek (Up started)
    [Done (RCreate "prod"); Done (RStore "k1" v1 "prod"); Silent; Failed (RStore "k2" v1 "prod"); Silent;
     Done (RStore "k1" v2 "prod"); Killed; Silent] (Up reopened) /\
  load_key "k1" "prod" updated = Ok v2 /\ load_key "k1" "prod" reopened = Ok v1.
Proof.
  split; [|split; vm_compute; reflexivity]. apply steps_to_filled.
  eapply steps_cons; [apply (step_faults kek [Works; Works; Torn 9])|].
  eapply steps_cons; [eapply step_failed; [exact half_written_err|done]|].
  eapply steps_cons; [apply (step_faults kek [])|].
  eapply steps_cons; [apply step_done, updated_ok|].
  eapply steps_cons; [apply step_killed|].
  eapply steps_cons; [exact (step_opened _ _ _ _ _ reopened_ok)|]. apply steps_nil.
Qed.

(** The disk fails while a deletion is journalled; the key is still there,
    and another key is stored.  The deletion is journalled with it, and the
    restart performs it. *)
Example failed_delete_happens_later :
  let failed := execute (RDelete "k1" "prod") (with_faults [Works; Fails] filled) in
  let later := execute (RStore "k2" v2 "prod") (with_faults [] failed.2) in
  failed.1 = Err io_error /\ later.1 = Ok tt /\ load_key "k1" "prod" later.2 = Ok v1 /\
  load_key "k1" "prod" (or_storage nowhere (open kek (disk later.2)).1) = Err (SKeyNotFound "k1").
Proof. vm_compute. auto. Qed.

(** A crash between the directories of a new namespace: it exists, cannot be
    created again, and the first key stored in it makes every restart fail. *)
Example namespace_half_created :
  let failed := execute (RCreate "prod") (with_faults [Works; Fails] started) in
  let again := or_storage nowhere (open kek (set_faults [] (disk failed.2))).1 in
  let stored := execute (RStore "k1" v1 "prod") again in
  failed.1 = Err io_error /\ is_ok (execute (RCreate "prod") again).1 = false /\
  stored.1 = Err no_entry /\ is_ok (open kek (disk stored.2)).1 = false.
Proof. vm_compute. auto. Qed.
