(* ===== verification/KeyTypes.v ===== *)
(** * Keys

    [crates/key-manager/src/key.rs], [metadata.rs], [namespace.rs] and
    [error.rs].  A [KeyId] is the text of its UUID.  [now] is the clock. *)

From Stdlib Require Import ZArith Lia.
From stdpp Require Import base gmap strings list.
From S2P Require Import Prelude External Platform AesGcm.

Abbreviation KeyId := string.

Inductive KeyType :=
| Rsa2048 | Rsa3072 | Rsa4096 | EcdsaP256 | EcdsaP384 | EcdsaP521 | KSecp256k1 | Bls12381
| Ed25519 | Ed448 | KAes128 | KAes256 | HdMaster | HdDerived.
#[export] Instance KeyType_eq_dec : EqDecision KeyType.
Proof. solve_decision. Defined.

Definition is_asymmetric (t : KeyType) : bool :=
  match t with
  | Rsa2048 | Rsa3072 | Rsa4096 | EcdsaP256 | EcdsaP384 | EcdsaP521 | KSecp256k1 | Bls12381
  | Ed25519 | Ed448 | HdMaster | HdDerived => true
  | _ => false
  end.
Definition is_symmetric (t : KeyType) : bool := negb (is_asymmetric t).
Definition is_hd (t : KeyType) : bool := match t with HdMaster | HdDerived => true | _ => false end.
Definition private_key_size (t : KeyType) : Z :=
  match t with
  | Ed25519 => 32 | EcdsaP256 => 32 | EcdsaP384 => 48 | EcdsaP521 => 66 | KSecp256k1 => 32
  | Bls12381 => 32 | Rsa2048 => 256 | Rsa3072 => 384 | Rsa4096 => 512 | Ed448 => 57
  | KAes128 => 16 | KAes256 => 32 | HdMaster => 64 | HdDerived => 64
  end.

Inductive KeyState := Pending | Active | Deactivated | Compromised | Destroyed.
#[export] Instance KeyState_eq_dec : EqDecision KeyState.
Proof. solve_decision. Defined.

Record KeyUsagePolicy := MkKeyUsagePolicy {
  can_sign : bool;
  can_encrypt : bool;
  can_derive : bool;
  can_export : bool;
  max_operations : option Z;
  expires_at : option DateTime
}.
Definition KeyUsagePolicy_default : KeyUsagePolicy := MkKeyUsagePolicy true true false false None None.

Record HdKeyInfo := MkHdKeyInfo {
  derivation_path : option string;
  master_key_id : option KeyId;
  chain_code : option bytes;
  coin_type : option Z;
  account_index : option Z;
  can_derive_children : bool;
  depth : Z;
  child_index : option Z;
  parent_fingerprint : option bytes
}.

Record Key := MkKey {
  id : KeyId;
  key_type : KeyType;
  private_material : option KeyMaterial;
  public_material : option bytes;
  state : KeyState;
  namespace : string;
  created_at : DateTime;
  policy : KeyUsagePolicy;
  version : Z;
  previous_version : option KeyId;
  operation_count : Z;
  hd_info : option HdKeyInfo
}.

Definition set_state (s : KeyState) (k : Key) : Key :=
  MkKey (id k) (key_type k) (private_material k) (public_material k) s (namespace k) (created_at k)
    (policy k) (version k) (previous_version k) (operation_count k) (hd_info k).
Definition set_operation_count (n : Z) (k : Key) : Key :=
  MkKey (id k) (key_type k) (private_material k) (public_material k) (state k) (namespace k) (created_at k)
    (policy k) (version k) (previous_version k) n (hd_info k).
(** [key.previous_version = Some(p); key.version = v] *)
Definition set_version (p : KeyId) (v : Z) (k : Key) : Key :=
  MkKey (id k) (key_type k) (private_material k) (public_material k) (state k) (namespace k) (created_at k)
    (policy k) v (Some p) (operation_count k) (hd_info k).

Definition is_expired (now : DateTime) (k : Key) : bool :=
  match expires_at (policy k) with Some t => now >? t | None => false end.
Definition can_use (now : DateTime) (k : Key) : bool :=
  bool_decide (state k = Active) && negb (is_expired now k).
Definition increment_operations (k : Key) : Key :=
  set_operation_count (wrap 64 (operation_count k + 1)) k.
Definition has_reached_max_operations (k : Key) : bool :=
  match max_operations (policy k) with Some max => operation_count k >=? max | None => false end.

Record KeySpec := MkKeySpec {
  ks_key_type : KeyType;
  ks_namespace : string;
  ks_policy : KeyUsagePolicy;
  ks_labels : gmap string string
}.

Inductive Error :=
| KeyNotFound (key : KeyId)
| KeyAlreadyExists (key : KeyId)
| NamespaceNotFound (msg : string)
| KeyGenerationFailed (msg : string)
| KeyNotUsable (key : KeyId)
| MaxOperationsReached (key : KeyId)
| UnsupportedKeyType (t : KeyType)
| InvalidKeyData (msg : string)
| NotImplemented (msg : string)
| NamespaceViolation (expected actual : string)
| CryptoEngine (e : CryptoError)
| KStorageError (msg : string)
| HardwareNotAvailable
| HardwareError (msg : string).

(** ** Metadata *)

Record KeyMetadata := MkKeyMetadata {
  m_id : KeyId;
  m_key_type : KeyType;
  m_state : KeyState;
  m_namespace : string;
  m_created_at : DateTime;
  m_updated_at : DateTime;
  m_version : Z;
  m_previous_version : option KeyId;
  m_operation_count : Z;
  m_labels : gmap string string;
  m_fingerprint : string
}.

Section metadata.
Context {SHA : Sha256} {HEX : Hex}.

Definition compute_fingerprint (key_id : KeyId) : string := hex_encode (sha256 (as_bytes key_id)).

Definition from_key (now : DateTime) (k : Key) : KeyMetadata :=
  MkKeyMetadata (id k) (key_type k) (state k) (namespace k) (created_at k) now (version k)
    (previous_version k) (operation_count k) ∅ (compute_fingerprint (id k)).
End metadata.

Record KeyFilter := MkKeyFilter {
  f_key_type : option KeyType;
  f_state : option KeyState;
  f_labels : gmap string string
}.

(** ** Namespaces *)

Record NamespaceConfig := MkNamespaceConfig {
  nc_name : string;
  nc_max_keys : Z;
  nc_allowed_key_types : list KeyType
}.

Definition NamespaceManager := gmap string NamespaceConfig.

Definition create_namespace_config (c : NamespaceConfig) : M NamespaceManager Error unit := fun m =>
  match m !! nc_name c with
  | Some _ => (Err (NamespaceNotFound ("Namespace already exists: " +:+ nc_name c)), m)
  | None => (Ok tt, <[nc_name c := c]> m)
  end.
Definition get_config (ns : string) (m : NamespaceManager) : result NamespaceConfig Error :=
  ok_or (NamespaceNotFound ns) (m !! ns).
Definition validate_key_type (ns : string) (t : KeyType) (m : NamespaceManager) : result unit Error :=
  let? c := get_config ns m in
  if bool_decide (t ∈ nc_allowed_key_types c) then Ok tt else Err (UnsupportedKeyType t).
