(* ===== verification/KeyStore.v ===== *)
(** * The in-memory key store

    [crates/key-manager/src/store.rs]: a concurrent map of keys by namespace
    and id with an LRU cache in front of it.  A map entry stays locked until
    the end of [get], [update] and the removal in [delete]; [insert] releases
    it before it fills the cache, so its two halves are [insert_main] and
    [insert_cache].

    The first theorem states how little of the cache can be observed: every
    sequence of operations is answered as by the map alone, but for the error
    of a [get] for a key that was filed under a foreign namespace and then
    deleted.  The other two show where that fails: a deletion between the
    halves of an insertion, and a clone of the store, which shares the map but
    not the cache. *)

From Stdlib Require Import ZArith Lia.
From stdpp Require Import base gmap strings list.
From S2P Require Import Prelude Platform KeyTypes.

Definition HOT_CACHE_SIZE : nat := 256.
Abbreviation CompositeKey := (string * KeyId)%type.

Section store.
Context {Cache : Type} {LRU : Lru CompositeKey Key Cache}.

Record KeyStore := MkKeyStore {
  keys : gmap CompositeKey Key;
  hot_cache : Cache
}.

Definition KeyStore_new : KeyStore := MkKeyStore ∅ (lru_new HOT_CACHE_SIZE).

(** [KeyStore::clone]: a new handle on the same map. *)
Definition KeyStore_clone (s : KeyStore) : KeyStore := MkKeyStore (keys s) (lru_new HOT_CACHE_SIZE).

Definition cache_put (k : CompositeKey) (key : Key) (s : KeyStore) : KeyStore :=
  MkKeyStore (keys s) (lru_put k key (hot_cache s)).
Definition map_put (k : CompositeKey) (key : Key) (s : KeyStore) : KeyStore :=
  MkKeyStore (<[k := key]> (keys s)) (hot_cache s).

Definition insert_main (ns : string) (key : Key) : M KeyStore Error unit := fun s =>
  match keys s !! (ns, id key) with
  | Some _ => (Err (KeyAlreadyExists (id key)), s)
  | None => (Ok tt, map_put (ns, id key) key s)
  end.
Definition insert_cache (ns : string) (key : Key) : M KeyStore Error unit :=
  modify (cache_put (ns, id key) key).
Definition insert (ns : string) (key : Key) : M KeyStore Error unit :=
  insert_main ns key ;! insert_cache ns key.

Definition check_namespace (ns : string) (key : Key) : result unit Error :=
  if decide (namespace key = ns) then Ok tt else Err (NamespaceViolation ns (namespace key)).

Definition get (ns : string) (key_id : KeyId) : M KeyStore Error Key := fun s =>
  let '(hit, cache) := lru_get (ns, key_id) (hot_cache s) in
  let s := MkKeyStore (keys s) cache in
  match hit with
  | Some key => (let? _ := check_namespace ns key in Ok key, s)
  | None =>
      match keys s !! (ns, key_id) with
      | None => (Err (KeyNotFound key_id), s)
      | Some key =>
          match check_namespace ns key with
          | Err e => (Err e, s)
          | Ok _ => (Ok key, cache_put (ns, key_id) key s)
          end
      end
  end.

Definition update (ns : string) (key_id : KeyId) (updater : Key -> Key) : M KeyStore Error unit := fun s =>
  match keys s !! (ns, key_id) with
  | None => (Err (KeyNotFound key_id), s)
  | Some key =>
      match check_namespace ns key with
      | Err e => (Err e, s)
      | Ok _ =>
          let new_key := updater key in
          (Ok tt, cache_put (ns, key_id) new_key (map_put (ns, key_id) new_key s))
      end
  end.

Definition delete (ns : string) (key_id : KeyId) : M KeyStore Error Key := fun s =>
  match keys s !! (ns, key_id) with
  | None => (Err (KeyNotFound key_id), s)
  | Some key =>
      let s := MkKeyStore (base.delete (ns, key_id) (keys s)) (hot_cache s) in
      match check_namespace ns key with
      | Err e => (Err e, s)
      | Ok _ => (Ok key, MkKeyStore (keys s) (lru_pop (ns, key_id) (hot_cache s)))
      end
  end.

(** The order of the map's entries is unspecified. *)
Definition list_ids (ns : string) (m : gmap CompositeKey Key) : list KeyId :=
  omap (fun k => if decide (k.1 = ns) then Some k.2 else None) (map_to_list m).*1.
Definition list (ns : string) (s : KeyStore) : Datatypes.list KeyId := list_ids ns (keys s).

(** [usize] has 64 bits. *)
Definition saturating_add (a b : Z) : Z := Z.min (a + b) (2 ^ 64 - 1).
Definition page {A} (offset limit : Z) (l : Datatypes.list A) : Datatypes.list A :=
  let len := Z.of_nat (length l) in
  let start := Z.min offset len in
  let end_ := Z.min (saturating_add offset limit) len in
  take (Z.to_nat (end_ - start)) (drop (Z.to_nat start) l).
Definition list_batch (ns : string) (offset limit : Z) (s : KeyStore) : Datatypes.list KeyId :=
  page offset limit (list ns s).

Definition count (ns : string) (s : KeyStore) : nat :=
  length (filter (fun k => k.1 = ns) (map_to_list (keys s)).*1).

Fixpoint delete_batch (ns : string) (key_ids : Datatypes.list KeyId)
  : M KeyStore Error (Datatypes.list Key) :=
  match key_ids with
  | [] => ret []
  | key_id :: rest =>
      let! key := delete ns key_id in
      let! deleted := delete_batch ns rest in
      ret (key :: deleted)
  end.

(** ** The store without a cache *)

(** [map_exec] is the map alone, with the namespace checks of the code; [spec]
    is what remains of it while every key is filed under its own
    namespace. *)

Inductive op :=
| OpInsert (ns : string) (key : Key)
| OpGet (ns : string) (key_id : KeyId)
| OpUpdate (ns : string) (key_id : KeyId) (updater : Key -> Key)
| OpDelete (ns : string) (key_id : KeyId)
| OpDeleteBatch (ns : string) (key_ids : Datatypes.list KeyId)
| OpList (ns : string)
| OpListBatch (ns : string) (offset limit : Z)
| OpCount (ns : string).

Inductive answer :=
| AUnit (r : result unit Error)
| AKey (r : result Key Error)
| AKeys (r : result (Datatypes.list Key) Error)
| AIds (l : Datatypes.list KeyId)
| ACount (n : nat).

Definition with_answer {A S} (f : A -> answer) (p : A * S) : answer * S := (f p.1, p.2).

Definition exec (o : op) (s : KeyStore) : answer * KeyStore :=
  match o with
  | OpInsert ns key => with_answer AUnit (insert ns key s)
  | OpGet ns key_id => with_answer AKey (get ns key_id s)
  | OpUpdate ns key_id f => with_answer AUnit (update ns key_id f s)
  | OpDelete ns key_id => with_answer AKey (delete ns key_id s)
  | OpDeleteBatch ns key_ids => with_answer AKeys (delete_batch ns key_ids s)
  | OpList ns => (AIds (list ns s), s)
  | OpListBatch ns offset limit => (AIds (list_batch ns offset limit s), s)
  | OpCount ns => (ACount (count ns s), s)
  end.

Abbreviation table := (gmap CompositeKey Key).

Definition t_delete (ns : string) (key_id : KeyId) : M table Error Key := fun t =>
  match t !! (ns, key_id) with
  | Some key => (Ok key, base.delete (ns, key_id) t)
  | None => (Err (KeyNotFound key_id), t)
  end.
Fixpoint t_delete_batch (ns : string) (key_ids : Datatypes.list KeyId)
  : M table Error (Datatypes.list Key) :=
  match key_ids with
  | [] => ret []
  | key_id :: rest =>
      let! key := t_delete ns key_id in
      let! deleted := t_delete_batch ns rest in
      ret (key :: deleted)
  end.

Definition spec (o : op) (t : table) : answer * table :=
  match o with
  | OpInsert ns key =>
      match t !! (ns, id key) with
      | Some _ => (AUnit (Err (KeyAlreadyExists (id key))), t)
      | None => (AUnit (Ok tt), <[(ns, id key) := key]> t)
      end
  | OpGet ns key_id => (AKey (ok_or (KeyNotFound key_id) (t !! (ns, key_id))), t)
  | OpUpdate ns key_id f =>
      match t !! (ns, key_id) with
      | Some key => (AUnit (Ok tt), <[(ns, key_id) := f key]> t)
      | None => (AUnit (Err (KeyNotFound key_id)), t)
      end
  | OpDelete ns key_id => with_answer AKey (t_delete ns key_id t)
  | OpDeleteBatch ns key_ids => with_answer AKeys (t_delete_batch ns key_ids t)
  | OpList ns => (AIds (list_ids ns t), t)
  | OpListBatch ns offset limit => (AIds (page offset limit (list_ids ns t)), t)
  | OpCount ns => (ACount (length (list_ids ns t)), t)
  end.

Definition m_delete (ns : string) (key_id : KeyId) : M table Error Key := fun t =>
  match t !! (ns, key_id) with
  | None => (Err (KeyNotFound key_id), t)
  | Some key => (let? _ := check_namespace ns key in Ok key, base.delete (ns, key_id) t)
  end.
Fixpoint m_delete_batch (ns : string) (key_ids : Datatypes.list KeyId)
  : M table Error (Datatypes.list Key) :=
  match key_ids with
  | [] => ret []
  | key_id :: rest =>
      let! key := m_delete ns key_id in
      let! deleted := m_delete_batch ns rest in
      ret (key :: deleted)
  end.

Definition map_exec (o : op) (t : table) : answer * table :=
  match o with
  | OpGet ns key_id =>
      (AKey (let? key := ok_or (KeyNotFound key_id) (t !! (ns, key_id)) in
             let? _ := check_namespace ns key in Ok key), t)
  | OpUpdate ns key_id f =>
      match t !! (ns, key_id) with
      | None => (AUnit (Err (KeyNotFound key_id)), t)
      | Some key =>
          match check_namespace ns key with
          | Err e => (AUnit (Err e), t)
          | Ok _ => (AUnit (Ok tt), <[(ns, key_id) := f key]> t)
          end
      end
  | OpDelete ns key_id => with_answer AKey (m_delete ns key_id t)
  | OpDeleteBatch ns key_ids => with_answer AKeys (m_delete_batch ns key_ids t)
  | _ => spec o t
  end.

(** Keys are inserted under their own namespace, and updates keep it. *)
Definition op_ok (o : op) : Prop :=
  match o with
  | OpInsert ns key => namespace key = ns
  | OpUpdate _ _ f => forall k, namespace (f k) = namespace k
  | _ => True
  end.

Fixpoint exec_all (os : Datatypes.list op) (s : KeyStore) : Datatypes.list answer * KeyStore :=
  match os with
  | [] => ([], s)
  | o :: rest =>
      let '(a, s1) := exec o s in let '(l, s2) := exec_all rest s1 in (a :: l, s2)
  end.
Fixpoint spec_all (os : Datatypes.list op) (t : table) : Datatypes.list answer * table :=
  match os with
  | [] => ([], t)
  | o :: rest =>
      let '(a, t1) := spec o t in let '(l, t2) := spec_all rest t1 in (a :: l, t2)
  end.

Fixpoint map_all (os : Datatypes.list op) (t : table) : Datatypes.list answer * table :=
  match os with
  | [] => ([], t)
  | o :: rest =>
      let '(a, t1) := map_exec o t in let '(l, t2) := map_all rest t1 in (a :: l, t2)
  end.

(** ** Coherence *)

Definition filed (t : table) : Prop := forall ns i k, t !! (ns, i) = Some k -> namespace k = ns.
Record coherent (s : KeyStore) : Prop := {
  co_cache : lru_view (hot_cache s) ⊆ keys s;
  co_filed : filed (keys s)
}.

Lemma check_namespace_ok ns k : namespace k = ns -> check_namespace ns k = Ok tt.
Proof. intros H. unfold check_namespace. by rewrite decide_True. Qed.

Lemma filed_insert t ns i k : filed t -> namespace k = ns -> filed (<[(ns, i) := k]> t).
Proof. intros Hf Hk ns' i' k' [[[= <- <-] <-]|[_ H]]%lookup_insert_Some; [done|]. by eapply Hf. Qed.

Lemma filed_delete t k : filed t -> filed (base.delete k t).
Proof. intros Hf ns i k' [_ H]%lookup_delete_Some. by eapply Hf. Qed.

(** Whatever the cache forgets, it keeps what the map has. *)
Lemma cache_put_coherent s k key :
  coherent s -> keys s !! k = Some key -> coherent (cache_put k key s).
Proof.
  intros [Hc Hf] Hk. split; [|done]. simpl. etrans; [apply lru_view_put|].
  by apply insert_subseteq_l.
Qed.

Lemma put_coherent s k key :
  coherent s -> namespace key = k.1 -> coherent (cache_put k key (map_put k key s)).
Proof.
  destruct k as [ns i]. intros [Hc Hf] Hk. split; simpl; [|by apply filed_insert].
  etrans; [apply lru_view_put|]. by apply insert_mono.
Qed.

Lemma get_spec ns i s :
  coherent s ->
  (get ns i s).1 = ok_or (KeyNotFound i) (keys s !! (ns, i)) /\
  keys (get ns i s).2 = keys s /\ coherent (get ns i s).2.
Proof.
  intros [Hc Hf]. unfold get. pose proof (lru_view_get (ns, i) (hot_cache s)) as [Hg Hv].
  destruct (lru_get (ns, i) (hot_cache s)) as [hit cache]. simpl in *.
  assert (coherent (MkKeyStore (keys s) cache)) as Hco by (split; simpl; [by rewrite Hv|done]).
  destruct hit as [key|]; simpl.
  - symmetry in Hg. pose proof (lookup_weaken _ _ _ _ Hg Hc) as Hk. rewrite Hk.
    by rewrite (check_namespace_ok ns key (Hf _ _ _ Hk)).
  - destruct (keys s !! (ns, i)) as [key|] eqn:Hk; [|done].
    rewrite (check_namespace_ok ns key (Hf _ _ _ Hk)). simpl. split; [done|]. split; [done|].
    by apply cache_put_coherent.
Qed.

Lemma delete_spec ns i s :
  coherent s ->
  (delete ns i s).1 = (t_delete ns i (keys s)).1 /\
  keys (delete ns i s).2 = (t_delete ns i (keys s)).2 /\ coherent (delete ns i s).2.
Proof.
  intros [Hc Hf]. unfold delete, t_delete. destruct (keys s !! (ns, i)) as [key|] eqn:Hk; [|done].
  rewrite (check_namespace_ok ns key (Hf _ _ _ Hk)). simpl. split; [done|]. split; [done|].
  split; simpl; [|by apply filed_delete]. rewrite lru_view_pop. by apply delete_mono.
Qed.

Lemma delete_batch_spec ns l s :
  coherent s ->
  (delete_batch ns l s).1 = (t_delete_batch ns l (keys s)).1 /\
  keys (delete_batch ns l s).2 = (t_delete_batch ns l (keys s)).2 /\ coherent (delete_batch ns l s).2.
Proof.
  revert s. induction l as [|i l IH]; intros s Hco; [done|]. simpl. unfold bind.
  destruct (delete_spec ns i s Hco) as (H1 & H2 & H3).
  destruct (delete ns i s) as [r s1], (t_delete ns i (keys s)) as [r' t1]. simpl in *. subst.
  destruct r' as [key|]; [|done]. destruct (IH s1 H3) as (J1 & J2 & J3).
  destruct (delete_batch ns l s1) as [q s2], (t_delete_batch ns l (keys s1)) as [q' t2].
  simpl in *. subst. by destruct q'.
Qed.

Lemma length_list_ids ns t :
  length (list_ids ns t) = length (filter (fun k => k.1 = ns) (map_to_list t).*1).
Proof.
  unfold list_ids. induction (map_to_list t).*1 as [|k l IH]; [done|]. simpl.
  rewrite filter_cons. destruct (decide (k.1 = ns)); simpl; [f_equal|]; exact IH.
Qed.

Lemma exec_spec o s :
  coherent s -> op_ok o ->
  (exec o s).1 = (spec o (keys s)).1 /\ keys (exec o s).2 = (spec o (keys s)).2 /\ coherent (exec o s).2.
Proof.
  intros Hco Ho. destruct o as [ns key|ns i|ns i f|ns i|ns l|ns|ns off lim|ns]; simpl.
  - unfold insert, bind, insert_main. destruct (keys s !! (ns, id key)); [done|]. simpl.
    split; [done|]. split; [done|]. by apply put_coherent.
  - destruct (get_spec ns i s Hco) as (-> & -> & ?). done.
  - unfold update. destruct (keys s !! (ns, i)) as [key|] eqn:Hk; [|done].
    pose proof (co_filed _ Hco _ _ _ Hk) as Hn.
    rewrite (check_namespace_ok ns key Hn). simpl. split; [done|]. split; [done|].
    apply put_coherent; [done|]. by rewrite (Ho key).
  - destruct (delete_spec ns i s Hco) as (-> & -> & ?). done.
  - destruct (delete_batch_spec ns l s Hco) as (-> & -> & ?). done.
  - done.
  - done.
  - by rewrite length_list_ids.
Qed.

Lemma new_coherent : coherent KeyStore_new.
Proof. split; simpl; [by rewrite lru_view_new|]. intros ns i k. by rewrite lookup_empty. Qed.

(** ** Keys under foreign namespaces *)

(** A cached key is in the map, unless it is filed under a foreign namespace and
    was deleted: the failed check then leaves it in the cache. *)
Definition in_step (s : KeyStore) : Prop := forall k key,
  lru_view (hot_cache s) !! k = Some key ->
  keys s !! k = Some key \/ (keys s !! k = None /\ namespace key <> k.1).

(** Equal, but for the error of a [get] for a key that is not in the map. *)
Definition agree (a a' : answer) : Prop :=
  a = a' \/ exists ns n i, n <> ns /\ a = AKey (Err (NamespaceViolation ns n)) /\ a' = AKey (Err (KeyNotFound i)).

Lemma cache_put_in_step s k key : in_step s -> keys s !! k = Some key -> in_step (cache_put k key s).
Proof.
  intros Hs Hk k' key' H. pose proof (lookup_weaken _ _ _ _ H (lru_view_put k key (hot_cache s))) as H'.
  apply lookup_insert_Some in H' as [[<- <-]|[_ H']]; [by left|by apply Hs].
Qed.

Lemma put_in_step s k key : in_step s -> in_step (cache_put k key (map_put k key s)).
Proof.
  intros Hs k' key' H. pose proof (lookup_weaken _ _ _ _ H (lru_view_put k key (hot_cache s))) as H'.
  simpl. apply lookup_insert_Some in H' as [[<- <-]|[Hne H']]; [left; apply lookup_insert_eq|].
  rewrite lookup_insert_ne by done. by apply Hs.
Qed.

Lemma get_in_step ns i s :
  in_step s ->
  agree (AKey (get ns i s).1) (map_exec (OpGet ns i) (keys s)).1 /\
  keys (get ns i s).2 = keys s /\ in_step (get ns i s).2.
Proof.
  intros Hs. unfold get. pose proof (lru_view_get (ns, i) (hot_cache s)) as [Hg Hv].
  destruct (lru_get (ns, i) (hot_cache s)) as [hit cache]. simpl in *.
  assert (in_step (MkKeyStore (keys s) cache)) as Hs' by (intros k key; simpl; rewrite Hv; apply Hs).
  destruct hit as [key|]; simpl.
  - split; [|done]. symmetry in Hg. destruct (Hs _ _ Hg) as [->|[-> Hne]]; [by left|]. right. simpl in Hne.
    exists ns, (namespace key), i. unfold check_namespace. by rewrite decide_False.
  - destruct (keys s !! (ns, i)) as [key|] eqn:Hk; [|(split; [by left|done])]. simpl.
    destruct (check_namespace ns key) as [[]|] eqn:Hc; simpl; (split; [by left|]); [|done].
    split; [done|]. by apply cache_put_in_step.
Qed.

Lemma delete_in_step ns i s :
  in_step s ->
  (delete ns i s).1 = (m_delete ns i (keys s)).1 /\
  keys (delete ns i s).2 = (m_delete ns i (keys s)).2 /\ in_step (delete ns i s).2.
Proof.
  intros Hs. unfold delete, m_delete. destruct (keys s !! (ns, i)) as [key|] eqn:Hk; [|done].
  assert (forall k x, (k <> (ns, i) \/ namespace x <> ns) -> lru_view (hot_cache s) !! k = Some x ->
    base.delete (ns, i) (keys s) !! k = Some x \/
    (base.delete (ns, i) (keys s) !! k = None /\ namespace x <> k.1)) as Hdel.
  { intros k x Hor Hx. destruct (decide (k = (ns, i))) as [->|Hne].
    - right. rewrite lookup_delete_eq. naive_solver.
    - rewrite lookup_delete_ne by done. by apply Hs. }
  destruct (check_namespace ns key) as [[]|e] eqn:Hc; simpl; (split; [done|]); (split; [done|]); intros k x; simpl.
  - rewrite lru_view_pop. intros [Hne Hx]%lookup_delete_Some. apply Hdel; auto.
  - intros Hx. apply Hdel; [|done]. destruct (decide (k = (ns, i))) as [->|]; [right|by left].
    destruct (Hs _ _ Hx) as [H|[_ H]]; [|done]. assert (x = key) as -> by congruence.
    unfold check_namespace in Hc. by destruct (decide _).
Qed.

Lemma delete_batch_in_step ns l s :
  in_step s ->
  (delete_batch ns l s).1 = (m_delete_batch ns l (keys s)).1 /\
  keys (delete_batch ns l s).2 = (m_delete_batch ns l (keys s)).2 /\ in_step (delete_batch ns l s).2.
Proof.
  revert s. induction l as [|i l IH]; intros s Hco; [done|]. simpl. unfold bind.
  destruct (delete_in_step ns i s Hco) as (H1 & H2 & H3).
  destruct (delete ns i s) as [r s1], (m_delete ns i (keys s)) as [r' t1]. simpl in *. subst.
  destruct r' as [key|]; [|done]. destruct (IH s1 H3) as (J1 & J2 & J3).
  destruct (delete_batch ns l s1) as [q s2], (m_delete_batch ns l (keys s1)) as [q' t2].
  simpl in *. subst. by destruct q'.
Qed.

Lemma exec_in_step o s :
  in_step s ->
  agree (exec o s).1 (map_exec o (keys s)).1 /\ keys (exec o s).2 = (map_exec o (keys s)).2 /\ in_step (exec o s).2.
Proof.
  intros Hs. destruct o as [ns key|ns i|ns i f|ns i|ns l|ns|ns off lim|ns]; simpl.
  - unfold insert, bind, insert_main. destruct (keys s !! (ns, id key)); [(split; [by left|done])|]. simpl.
    split; [by left|]. split; [done|]. by apply put_in_step.
  - by apply get_in_step.
  - unfold update. destruct (keys s !! (ns, i)) as [key|]; [|(split; [by left|done])].
    destruct (check_namespace ns key) as [[]|]; [|(split; [by left|done])]. simpl.
    split; [by left|]. split; [done|]. by apply put_in_step.
  - destruct (delete_in_step ns i s Hs) as (-> & -> & ?). (split; [by left|done]).
  - destruct (delete_batch_in_step ns l s Hs) as (-> & -> & ?). (split; [by left|done]).
  - (split; [by left|done]).
  - (split; [by left|done]).
  - rewrite length_list_ids. (split; [by left|done]).
Qed.

Lemma new_in_step : in_step KeyStore_new.
Proof. intros k key. simpl. by rewrite lru_view_new, lookup_empty. Qed.

Lemma execs_in_step os s :
  in_step s ->
  Forall2 agree (exec_all os s).1 (map_all os (keys s)).1 /\ keys (exec_all os s).2 = (map_all os (keys s)).2.
Proof.
  revert s. induction os as [|o os IH]; intros s Hs; [done|]. simpl.
  destruct (exec_in_step o s Hs) as (H1 & H2 & H3).
  destruct (exec o s) as [a s1], (map_exec o (keys s)) as [a' t1]. simpl in *. subst.
  specialize (IH s1 H3). destruct (exec_all os s1), (map_all os (keys s1)). simpl in *.
  split; [constructor|]; by destruct IH.
Qed.

Lemma execs_spec os s :
  coherent s -> Forall op_ok os ->
  (exec_all os s).1 = (spec_all os (keys s)).1 /\ keys (exec_all os s).2 = (spec_all os (keys s)).2.
Proof.
  intros Hco Hos. revert s Hco. induction Hos as [|o os Ho _ IH]; intros s Hco; [done|]. simpl.
  destruct (exec_spec o s Hco Ho) as (H1 & H2 & H3).
  destruct (exec o s) as [a s1], (spec o (keys s)) as [a' t1]. simpl in *. subst.
  specialize (IH s1 H3). destruct (exec_all os s1), (spec_all os (keys s1)). simpl in *. naive_solver.
Qed.

(** ** Theorems *)

(** C21: the hot cache is transparent up to one error: every sequence of
    operations on a new store leaves the map that the operations make without
    a cache, whatever the cache evicts, and is answered as they are without a
    cache, except that a [get] may report a violation of the namespace instead
    of a missing key (for a key that was inserted under a foreign namespace
    and then deleted).  If keys are only filed under their own namespace, the
    answers are those of a plain map. *)
Theorem key_store_transparent os :
  Forall2 agree (exec_all os KeyStore_new).1 (map_all os ∅).1 /\
  keys (exec_all os KeyStore_new).2 = (map_all os ∅).2 /\
  (Forall op_ok os ->
   (exec_all os KeyStore_new).1 = (spec_all os ∅).1 /\
   keys (exec_all os KeyStore_new).2 = (spec_all os ∅).2).
Proof.
  destruct (execs_in_step os KeyStore_new new_in_step) as [H1 H2]. split; [exact H1|]. split; [exact H2|].
  exact (execs_spec os KeyStore_new new_coherent).
Qed.

(** A key deleted between the two halves of its insertion is served from
    the cache although it is not in the map. *)
Theorem deleted_key_served ns key s s1 s2 :
  namespace key = ns -> keys s !! (ns, id key) = None ->
  insert_main ns key s = (Ok tt, s1) -> delete ns (id key) s1 = (Ok key, s2) ->
  let s3 := (insert_cache ns key s2).2 in
  keys s3 !! (ns, id key) = None /\ (get ns (id key) s3).1 = Ok key.
Proof.
  intros Hns Hk Hi Hd. unfold insert_main in Hi. rewrite Hk in Hi. injection Hi as <-.
  unfold delete in Hd. simpl in Hd. rewrite lookup_insert_eq, (check_namespace_ok ns key Hns) in Hd.
  injection Hd as <-. simpl. split; [by rewrite lookup_delete_eq|]. unfold get. simpl.
  pose proof (lru_view_get (ns, id key) (lru_put (ns, id key) key (lru_pop (ns, id key) (hot_cache s)))) as [Hg _].
  rewrite lru_view_put_hit in Hg. destruct (lru_get _ _) as [hit c]. simpl in *. subst hit. simpl.
  by rewrite (check_namespace_ok ns key Hns).
Qed.

(** A handle made with [clone] keeps serving a key that it has read
    before, after the key was deleted through the other handle. *)
Theorem clone_serves_deleted_key ns i s key s1 :
  coherent s -> keys s !! (ns, i) = Some key -> delete ns i s = (Ok key, s1) ->
  let b := (get ns i (KeyStore_clone s)).2 in
  let b' := MkKeyStore (keys s1) (hot_cache b) in
  keys b' !! (ns, i) = None /\ (get ns i b').1 = Ok key.
Proof.
  intros [_ Hf] Hk. unfold delete. rewrite Hk. pose proof (check_namespace_ok ns key (Hf _ _ _ Hk)) as Hn.
  rewrite Hn. intros [= <-]. simpl. split; [by rewrite lookup_delete_eq|].
  assert (lru_view (hot_cache (get ns i (KeyStore_clone s)).2) !! (ns, i) = Some key) as Hb.
  { unfold get. simpl. pose proof (lru_view_get (ns, i) (lru_new HOT_CACHE_SIZE)) as [Hg Hv].
    rewrite lru_view_new, lookup_empty in Hg. destruct (lru_get _ _) as [hit c]. simpl in *. subst.
    rewrite Hk, Hn. simpl. apply lru_view_put_hit. }
  unfold get at 1. simpl. pose proof (lru_view_get (ns, i) (hot_cache (get ns i (KeyStore_clone s)).2)) as [Hg _].
  rewrite Hb in Hg. destruct (lru_get _ (hot_cache _)) as [hit c]. simpl in *. subst. simpl. by rewrite Hn.
Qed.
End store.
