(* ===== verification/KeyManager.v ===== *)
(** * The key manager

    [DefaultKeyManager] of [crates/key-manager/src/lib.rs]: the key store and
    an optional durable backend, the [StorageBackend] trait of
    [crates/storage/src/backend.rs].  Errors of the backend are used only
    through their text.  A release build aborts on a panic, so the mutex
    around the backend is never poisoned.

    Arguments that stand for effects and for other packages: [id], the random
    id of a new key; [now], the clock; [generated], the outcome of the key
    pair generation of the crypto engine; [PublicKeys], the derivation of
    public keys from imported private keys. *)

From Stdlib Require Import ZArith Lia.
From stdpp Require Import base gmap strings list.
From S2P Require Import Prelude External Platform AesGcm KeyTypes KeyStore.

Class StorageBackend (S : Type) := {
  sb_store_key : KeyId -> bytes -> string -> M S string unit;
  sb_load_key : KeyId -> string -> S -> result bytes string;
  sb_delete_key : KeyId -> string -> M S string unit;
  sb_list_keys : string -> S -> result (Datatypes.list KeyId) string;
  sb_key_exists : KeyId -> string -> S -> result bool string;
  sb_sync : M S string unit;
  sb_create_namespace : string -> M S string unit;
  sb_delete_namespace : string -> M S string unit;
  sb_list_namespaces : S -> result (Datatypes.list string) string
}.

(** Public keys of private keys: [ed25519_dalek], [p256], [p384], [k256],
    [blst], and [rsa] with the size of its modulus in bytes. *)
Class PublicKeys := {
  ed25519_public : bytes -> bytes;
  p256_public : bytes -> result bytes string;
  p384_public : bytes -> result bytes string;
  secp256k1_public : bytes -> result bytes string;
  bls_public : bytes -> result bytes string;
  rsa_parse : bytes -> result (Z * result bytes string) string
}.

Section manager.
Context {Cache : Type} {LRU : Lru CompositeKey Key Cache}.
Context {S : Type} {SB : StorageBackend S} {PC : Postcard Key}.
Context {SHA : Sha256} {HEX : Hex} {PK : PublicKeys}.

Record DefaultKeyManager := MkKeyManager {
  store : @KeyStore Cache;
  storage : option S
}.

Definition manager_new : DefaultKeyManager := MkKeyManager KeyStore_new None.
Definition with_storage (s : S) : DefaultKeyManager := MkKeyManager KeyStore_new (Some s).

Definition on_store {A} (c : M KeyStore Error A) : M DefaultKeyManager Error A := fun m =>
  let '(r, s) := c (store m) in (r, MkKeyManager s (storage m)).

(** A call of the backend, with its error mapped. *)
Definition on_storage {A} (s : S) (c : M S string A) : M DefaultKeyManager Error (A * S) := fun m =>
  let '(r, s') := c s in
  (match r with Ok a => Ok (a, s') | Err e => Err (KStorageError e) end, MkKeyManager (store m) (Some s')).

Definition persist_key (ns : string) (key : Key) : M DefaultKeyManager Error unit := fun m =>
  match storage m with
  | None => (Ok tt, m)
  | Some s =>
      match to_allocvec key with
      | Err e => (Err (KStorageError ("failed to serialize key: " +:+ e)), m)
      | Ok bytes =>
          match sb_list_namespaces s with
          | Err e => (Err (KStorageError e), m)
          | Ok namespaces =>
              (let! s1 := (if bool_decide (ns ∈ namespaces) then ret s
                           else let! p := on_storage s (sb_create_namespace ns) in ret p.2) in
               let! p := on_storage s1 (sb_store_key (id key) bytes ns) in
               ret tt) m
          end
      end
  end.

Definition persist_existing (ns : string) (key_id : KeyId) : M DefaultKeyManager Error unit := fun m =>
  match storage m with
  | None => (Ok tt, m)
  | Some _ => (let! key := on_store (get ns key_id) in persist_key ns key) m
  end.

(** The result of the backend's deletion is dropped. *)
Definition remove_persisted (ns : string) (key_id : KeyId) : M DefaultKeyManager Error unit := fun m =>
  match storage m with
  | None => (Ok tt, m)
  | Some s => (Ok tt, MkKeyManager (store m) (Some (sb_delete_key key_id ns s).2))
  end.

(** The inner loop of [hydrate] over the keys of a namespace. *)
Fixpoint hydrate_keys (s : S) (ns : string) (key_ids : Datatypes.list KeyId) (loaded : Z)
  : M DefaultKeyManager Error Z :=
  match key_ids with
  | [] => ret loaded
  | key_id :: rest =>
      let! bytes := lift (rmap_err KStorageError (sb_load_key key_id ns s)) in
      let! key := lift (rmap_err (fun e => KStorageError ("failed to deserialize persisted key: " +:+ e))
                          (from_postcard bytes)) in
      on_store (insert ns key) ;!
      hydrate_keys s ns rest (loaded + 1)
  end.
Fixpoint hydrate_namespaces (s : S) (namespaces : Datatypes.list string) (loaded : Z)
  : M DefaultKeyManager Error Z :=
  match namespaces with
  | [] => ret loaded
  | ns :: rest =>
      let! key_ids := lift (rmap_err KStorageError (sb_list_keys ns s)) in
      let! loaded := hydrate_keys s ns key_ids loaded in
      hydrate_namespaces s rest loaded
  end.
Definition hydrate : M DefaultKeyManager Error Z := fun m =>
  match storage m with
  | None => (Ok 0, m)
  | Some s =>
      (let! namespaces := lift (rmap_err KStorageError (sb_list_namespaces s)) in
       hydrate_namespaces s namespaces 0) m
  end.

(** Persist, then publish. *)
Definition persist_and_insert (ns : string) (key : Key) : M DefaultKeyManager Error KeyId :=
  persist_key ns key ;! on_store (insert ns key) ;! ret (id key).

Definition supported (t : KeyType) : bool :=
  match t with
  | Ed25519 | EcdsaP256 | EcdsaP384 | KSecp256k1 | Bls12381 | Rsa2048 | Rsa3072 | Rsa4096 => true
  | _ => false
  end.

Definition new_key (i : KeyId) (spec : KeySpec) (private_material : KeyMaterial) (public_material : bytes)
    (now : DateTime) : Key :=
  MkKey i (ks_key_type spec) (Some private_material) (Some public_material) Active (ks_namespace spec) now
    (ks_policy spec) 1 None 0 None.

Definition generate_key (spec : KeySpec) (generated : result (KeyMaterial * bytes) string) (i : KeyId)
    (now : DateTime) : M DefaultKeyManager Error KeyId :=
  let! p := lift (if supported (ks_key_type spec) then rmap_err KeyGenerationFailed generated
                  else Err (UnsupportedKeyType (ks_key_type spec))) in
  persist_and_insert (ks_namespace spec) (new_key i spec p.1 p.2 now).

Definition get_key (key_id : KeyId) (ns : string) (now : DateTime) : M DefaultKeyManager Error Key :=
  let! key := on_store (get ns key_id) in
  if negb (can_use now key) then throw (KeyNotUsable key_id)
  else if has_reached_max_operations key then throw (MaxOperationsReached key_id)
  else ret key.

Definition get_metadata (key_id : KeyId) (ns : string) (now : DateTime)
  : M DefaultKeyManager Error KeyMetadata :=
  let! key := on_store (get ns key_id) in ret (from_key now key).

Definition matches_filter (filter : KeyFilter) (key : Key) : bool :=
  match f_key_type filter with Some t => bool_decide (key_type key = t) | None => true end &&
  match f_state filter with Some s => bool_decide (state key = s) | None => true end.

(** The metadata of the listed keys; keys that are gone are skipped. *)
Fixpoint collect_metadata (ns : string) (accept : Key -> bool) (now : DateTime)
    (key_ids : Datatypes.list KeyId) : M DefaultKeyManager Error (Datatypes.list KeyMetadata) :=
  match key_ids with
  | [] => ret []
  | key_id :: rest =>
      let! r := attempt (on_store (get ns key_id)) in
      let! tail := collect_metadata ns accept now rest in
      ret match r with
          | Ok key => if accept key then from_key now key :: tail else tail
          | Err _ => tail
          end
  end.
Definition list_keys (ns : string) (filter : KeyFilter) (now : DateTime)
  : M DefaultKeyManager Error (Datatypes.list KeyMetadata) := fun m =>
  collect_metadata ns (matches_filter filter) now (list ns (store m)) m.
Definition list_keys_batch (ns : string) (offset limit : Z) (now : DateTime)
  : M DefaultKeyManager Error (Datatypes.list KeyMetadata) := fun m =>
  collect_metadata ns (fun _ => true) now (list_batch ns offset limit (store m)) m.

Definition update_state (key_id : KeyId) (ns : string) (s : KeyState) : M DefaultKeyManager Error unit :=
  on_store (update ns key_id (set_state s)) ;! persist_existing ns key_id.

Definition rotate_key (key_id : KeyId) (ns : string) (generated : result (KeyMaterial * bytes) string)
    (i : KeyId) (now : DateTime) : M DefaultKeyManager Error KeyId :=
  let! old_key := on_store (get ns key_id) in
  let spec := MkKeySpec (key_type old_key) ns (policy old_key) ∅ in
  let! new_key_id := generate_key spec generated i now in
  on_store (update ns new_key_id (set_version key_id (wrap 32 (version old_key + 1)))) ;!
  persist_existing ns new_key_id ;!
  update_state key_id ns Deactivated ;!
  ret new_key_id.

Definition delete_key (key_id : KeyId) (ns : string) : M DefaultKeyManager Error unit :=
  on_store (delete ns key_id) ;! remove_persisted ns key_id.

(** Not written through to the backend. *)
Definition manager_increment_operations (key_id : KeyId) (ns : string) : M DefaultKeyManager Error unit :=
  on_store (update ns key_id increment_operations).

(** The public key of imported key data, by type. *)
Definition check_length (what : string) (n : Z) (data : bytes) : result unit Error :=
  if Z.of_nat (length data) =? n then Ok tt
  else Err (InvalidKeyData (what +:+ " private key must be " +:+ to_decimal n +:+ " bytes, got " +:+
              to_decimal (Z.of_nat (length data)))).
Definition expected_bits (t : KeyType) : Z :=
  match t with Rsa2048 => 2048 | Rsa3072 => 3072 | _ => 4096 end.
Definition import_public (t : KeyType) (data : bytes) : result bytes Error :=
  match t with
  | Ed25519 => let? _ := check_length "Ed25519" 32 data in Ok (ed25519_public data)
  | EcdsaP256 =>
      let? _ := check_length "ECDSA P-256" 32 data in
      rmap_err (fun e => InvalidKeyData ("Invalid P-256 key: " +:+ e)) (p256_public data)
  | EcdsaP384 =>
      let? _ := check_length "ECDSA P-384" 48 data in
      rmap_err (fun e => InvalidKeyData ("Invalid P-384 key: " +:+ e)) (p384_public data)
  | KSecp256k1 =>
      let? _ := check_length "secp256k1" 32 data in
      rmap_err (fun e => InvalidKeyData ("Invalid secp256k1 key: " +:+ e)) (secp256k1_public data)
  | Bls12381 =>
      let? _ := check_length "BLS" 32 data in
      rmap_err (fun e => InvalidKeyData ("Invalid BLS key: " +:+ e)) (bls_public data)
  | Rsa2048 | Rsa3072 | Rsa4096 =>
      let? p := rmap_err (fun e => InvalidKeyData ("Invalid RSA key: " +:+ e)) (rsa_parse data) in
      if p.1 * 8 =? expected_bits t then
        rmap_err (fun e => InvalidKeyData ("Failed to encode public key: " +:+ e)) p.2
      else Err (InvalidKeyData ("RSA key size mismatch: expected " +:+ to_decimal (expected_bits t) +:+
                  " bits, got " +:+ to_decimal (p.1 * 8)))
  | _ => Err (UnsupportedKeyType t)
  end.
Definition import_key (data : bytes) (spec : KeySpec) (i : KeyId) (now : DateTime)
  : M DefaultKeyManager Error KeyId :=
  let! public := lift (import_public (ks_key_type spec) data) in
  persist_and_insert (ks_namespace spec) (new_key i spec (KeyMaterial_from_bytes data) public now).

(** Each spec of a batch with its own generation outcome and id. *)
Fixpoint generate_keys_batch
    (specs : Datatypes.list (KeySpec * result (KeyMaterial * bytes) string * KeyId)) (now : DateTime)
  : M DefaultKeyManager Error (Datatypes.list KeyId) :=
  match specs with
  | [] => ret []
  | (spec, generated, i) :: rest =>
      let! key_id := generate_key spec generated i now in
      let! key_ids := generate_keys_batch rest now in
      ret (key_id :: key_ids)
  end.
Fixpoint delete_keys_batch (key_ids : Datatypes.list (KeyId * string)) : M DefaultKeyManager Error unit :=
  match key_ids with
  | [] => ret tt
  | (key_id, ns) :: rest => delete_key key_id ns ;! delete_keys_batch rest
  end.
End manager.
