(* ===== verification/KeyManagerCorrect.v ===== *)
(** * Durability and lifecycle of keys

    [SteadyStorage] is a durable backend that works: its view maps
    namespaces to keys to bytes, and it takes the data it accepts.  Over such a backend the key store and the
    view agree after every operation, except for the operation counters, and
    a restarted manager recovers the keys.  The theorems on rotation and on
    [get_key] describe single operations. *)

From Stdlib Require Import ZArith Lia.
From stdpp Require Import base gmap strings list.
From S2P Require Import Prelude External Platform AesGcm KeyTypes KeyStore KeyManager.

Class SteadyStorage (S : Type) `{StorageBackend S} := {
  sb_view : S -> gmap string (gmap KeyId bytes);
  steady : S -> Prop;
  (** Ids, data and namespaces the backend can store. *)
  sb_accepts : string -> KeyId -> bytes -> Prop;
  steady_store s i b ns m : steady s -> sb_accepts ns i b -> sb_view s !! ns = Some m ->
    exists s', sb_store_key i b ns s = (Ok tt, s') /\ steady s' /\
      sb_view s' = <[ns := <[i := b]> m]> (sb_view s);
  steady_delete s i ns : steady s ->
    steady (sb_delete_key i ns s).2 /\
    sb_view (sb_delete_key i ns s).2 = alter (base.delete i) ns (sb_view s);
  steady_create s ns : steady s -> sb_view s !! ns = None ->
    exists s', sb_create_namespace ns s = (Ok tt, s') /\ steady s' /\
      sb_view s' = <[ns := ∅]> (sb_view s);
  steady_namespaces s : steady s ->
    exists l, sb_list_namespaces s = Ok l /\ NoDup l /\ forall ns, ns ∈ l <-> is_Some (sb_view s !! ns);
  steady_keys s ns m : steady s -> sb_view s !! ns = Some m ->
    exists l, sb_list_keys ns s = Ok l /\ NoDup l /\ forall i, i ∈ l <-> is_Some (m !! i);
  steady_load s i ns m b : steady s -> sb_view s !! ns = Some m -> m !! i = Some b ->
    sb_load_key i ns s = Ok b
}.

Section correctness.
Context {Cache : Type} {LRU : Lru CompositeKey Key Cache}.
Context {S : Type} {SB : StorageBackend S} {SS : SteadyStorage S} {PC : Postcard Key}.
Context {SHA : Sha256} {HEX : Hex} {PK : PublicKeys}.
Hypothesis to_allocvec_total : forall k : Key, exists b, to_allocvec k = Ok b.
Abbreviation manager := (@DefaultKeyManager Cache S).
Implicit Types (m : manager) (ns : string) (i : KeyId) (k : Key).

(** The bytes the backend has for a key. *)
Definition raw (s : S) (c : CompositeKey) : option bytes := sb_view s !! c.1 ≫= (.!! c.2).

(** Equal keys up to the operation counter. *)
Definition same (k k' : Key) : Prop := set_operation_count 0 k = set_operation_count 0 k'.

Lemma same_refl k : same k k.
Proof. done. Qed.

Lemma same_id k k' : same k k' -> id k = id k' /\ namespace k = namespace k'.
Proof. by intros [=]. Qed.

Definition agrees (k : option Key) (b : option bytes) : Prop :=
  match k, b with
  | Some k, Some b => exists k', from_postcard b = Ok k' /\ same k k'
  | None, None => True
  | _, _ => False
  end.

(** Store and backend agree. *)
Record synced (s : S) (m : manager) : Prop := {
  sy_storage : storage m = Some s;
  sy_steady : steady s;
  sy_coherent : coherent (store m);
  sy_ids ns i k : keys (store m) !! (ns, i) = Some k -> id k = i;
  sy_agrees c : agrees (keys (store m) !! c) (raw s c)
}.

Lemma raw_store s s' ns i b (mm : gmap KeyId bytes) c :
  sb_view s !! ns = Some mm -> sb_view s' = <[ns := <[i := b]> mm]> (sb_view s) ->
  raw s' c = if decide (c = (ns, i)) then Some b else raw s c.
Proof.
  intros Hm Hv. unfold raw. rewrite Hv. destruct c as [ns' i']. simpl.
  destruct (decide (ns' = ns)) as [->|Hne].
  - rewrite lookup_insert_eq, Hm. simpl. destruct (decide (i' = i)) as [->|Hi].
    + by rewrite lookup_insert_eq, decide_True.
    + rewrite lookup_insert_ne, decide_False by congruence. done.
  - rewrite lookup_insert_ne, decide_False by congruence. done.
Qed.

Lemma raw_create s s' ns c :
  sb_view s !! ns = None -> sb_view s' = <[ns := ∅]> (sb_view s) -> raw s' c = raw s c.
Proof.
  intros Hn Hv. unfold raw. rewrite Hv. destruct (decide (c.1 = ns)) as [->|Hne].
  - rewrite lookup_insert_eq, Hn. simpl. apply lookup_empty.
  - by rewrite lookup_insert_ne.
Qed.

Lemma raw_delete s s' ns i c :
  sb_view s' = alter (base.delete i) ns (sb_view s) ->
  raw s' c = if decide (c = (ns, i)) then None else raw s c.
Proof.
  intros Hv. unfold raw. rewrite Hv. destruct c as [ns' i']. simpl.
  destruct (decide (ns' = ns)) as [->|Hne].
  - rewrite lookup_alter_eq. destruct (sb_view s !! ns) as [m|]; simpl.
    + destruct (decide (i' = i)) as [->|Hi].
      * by rewrite lookup_delete_eq, decide_True.
      * rewrite lookup_delete_ne, decide_False by congruence. done.
    + by case_decide.
  - rewrite lookup_alter_ne, decide_False by congruence. done.
Qed.

(** The backend can store the key. *)
Definition storable ns k : Prop := forall b, to_allocvec k = Ok b -> sb_accepts ns (id k) b.

(** Persisting a key works and writes exactly that key. *)
Lemma persist_key_steady s m ns k :
  storage m = Some s -> steady s -> storable ns k ->
  exists s' b, persist_key ns k m = (Ok tt, MkKeyManager (store m) (Some s')) /\ steady s' /\
    to_allocvec k = Ok b /\ forall c, raw s' c = if decide (c = (ns, id k)) then Some b else raw s c.
Proof.
  intros Hs Hst Hok. unfold persist_key. rewrite Hs. destruct (to_allocvec_total k) as [b Hb]. rewrite Hb.
  specialize (Hok b Hb).
  destruct (steady_namespaces s Hst) as (l & -> & _ & Hl).
  destruct (sb_view s !! ns) as [mm|] eqn:Hm.
  - rewrite bool_decide_eq_true_2 by (apply Hl; eauto).
    destruct (steady_store s (id k) b ns mm Hst Hok Hm) as (s' & He & Hst' & Hv).
    exists s', b. unfold bind, on_storage. simpl. rewrite He. split; [done|]. split; [done|]. split; [done|].
    intros c. by eapply raw_store.
  - rewrite bool_decide_eq_false_2 by (rewrite Hl, Hm; by intros [? [=]]).
    destruct (steady_create s ns Hst Hm) as (s1 & He1 & Hst1 & Hv1).
    destruct (steady_store s1 (id k) b ns ∅ Hst1 Hok) as (s' & He & Hst' & Hv);
      [by rewrite Hv1, lookup_insert_eq|].
    exists s', b. unfold bind, on_storage. simpl. rewrite He1. simpl. rewrite He.
    split; [done|]. split; [done|]. split; [done|]. intros c.
    rewrite (raw_store s1 s' ns (id k) b ∅ c) by (done || by rewrite Hv1, lookup_insert_eq).
    case_decide; [done|]. by eapply raw_create.
Qed.

(** ** Operations that keep agreement *)

Definition preserves {A} (c : M manager Error A) : Prop := forall s m,
  synced s m -> exists s', synced s' (c m).2.

Lemma preserves_bind {A B} (c : M manager Error A) (f : A -> M manager Error B) :
  preserves c -> (forall a, preserves (f a)) -> preserves (bind c f).
Proof.
  intros Hc Hf s m Hs. unfold bind. destruct (Hc s m Hs) as [s1 H1].
  destruct (c m) as [[a|e] m1]; simpl in *; [|eauto]. by eapply Hf.
Qed.

Lemma preserves_pure {A} (c : M manager Error A) : (forall m, (c m).2 = m) -> preserves c.
Proof. intros Hc s m Hs. exists s. by rewrite Hc. Qed.

(** Replacing the store by one with the same keys. *)
Lemma synced_store s m st :
  synced s m -> keys st = keys (store m) -> coherent st -> synced s (MkKeyManager st (storage m)).
Proof. intros [? ? ? ? ?] Hk Hc. split; simpl; try rewrite Hk; done. Qed.

Lemma preserves_get ns i : preserves (on_store (get ns i)).
Proof.
  intros s m Hs. exists s. unfold on_store. destruct (get_spec ns i (store m) (sy_coherent _ _ Hs)) as (_ & Hk & Hc).
  destruct (get ns i (store m)) as [r st]. simpl in *. by apply synced_store.
Qed.

(** The store after [update]. *)
Lemma update_cases ns i f st :
  coherent st -> (forall k, namespace (f k) = namespace k) ->
  (keys st !! (ns, i) = None /\ update ns i f st = (Err (KeyNotFound i), st)) \/
  (exists k st', keys st !! (ns, i) = Some k /\ update ns i f st = (Ok tt, st') /\ coherent st' /\
     keys st' = <[(ns, i) := f k]> (keys st)).
Proof.
  intros Hc Hf. destruct (exec_spec (OpUpdate ns i f) st Hc Hf) as (H1 & H2 & H3). revert H1 H2 H3. simpl.
  unfold with_answer. unfold update. destruct (keys st !! (ns, i)) as [k|] eqn:Hk; [|by left].
  rewrite (check_namespace_ok ns k (co_filed _ Hc _ _ _ Hk)). simpl. intros _ H2 H3. right. eauto 10.
Qed.

(** Writing one key through to the backend. *)
Lemma synced_write s m st ns i k :
  synced s m -> coherent st -> keys st = <[(ns, i) := k]> (keys (store m)) -> id k = i ->
  forall s' b, steady s' -> to_allocvec k = Ok b ->
  (forall c, raw s' c = if decide (c = (ns, i)) then Some b else raw s c) ->
  synced s' (MkKeyManager st (Some s')).
Proof.
  intros [_ _ _ Hids Hag] Hc Hk Hi s' b Hst Hb Hraw. split; simpl; [done..| |].
  - intros ns' i' k'. rewrite Hk. intros [[[= <- <-] <-]|[_ H]]%lookup_insert_Some; [done|]. by eapply Hids.
  - intros c. rewrite Hk, Hraw. case_decide as Hd.
    + subst c. rewrite lookup_insert_eq. exists k. split; [|done]. by eapply from_postcard_to_allocvec.
    + by rewrite lookup_insert_ne.
Qed.

(** Changing a key and writing it through. *)
Lemma update_persist_Ok s m ns i f k :
  (forall k, namespace (f k) = namespace k) -> (forall k, id (f k) = id k) ->
  synced s m -> keys (store m) !! (ns, i) = Some k -> storable ns (f k) ->
  exists s' m', (on_store (update ns i f) ;! persist_existing ns i) m = (Ok tt, m') /\ synced s' m' /\
    keys (store m') = <[(ns, i) := f k]> (keys (store m)).
Proof.
  intros Hns Hid Hs Hkey Hok. unfold bind, on_store.
  destruct (update_cases ns i f (store m) (sy_coherent _ _ Hs) Hns) as [(H & _)|(k0 & st & Hk & -> & Hc & Hst)];
    [congruence|]. assert (k0 = k) as -> by congruence.
  unfold persist_existing. simpl. rewrite (sy_storage _ _ Hs). unfold bind, on_store. simpl.
  destruct (get_spec ns i st Hc) as (Hg & Hk' & Hc'). rewrite Hst, lookup_insert_eq in Hg. simpl in Hg.
  destruct (get ns i st) as [r st']. simpl in *. subst r.
  assert (id (f k) = i) as Hi by (rewrite Hid; by eapply (sy_ids _ _ Hs)).
  destruct (persist_key_steady s (MkKeyManager st' (Some s)) ns (f k)) as (s' & b & He & Hst' & Hb & Hraw);
    [done|apply Hs|done|].
  rewrite He. exists s'. eexists. rewrite Hi in Hraw. split; [done|]. simpl. rewrite Hk', Hst.
  split; [|done]. eapply (synced_write s m st' ns i (f k)); try done. by rewrite Hk', Hst.
Qed.

Lemma update_persist_synced s m ns i f :
  (forall k, namespace (f k) = namespace k) -> (forall k, id (f k) = id k) ->
  synced s m -> (forall k, keys (store m) !! (ns, i) = Some k -> storable ns (f k)) ->
  exists s', synced s' ((on_store (update ns i f) ;! persist_existing ns i) m).2.
Proof.
  intros Hns Hid Hs Hok. destruct (keys (store m) !! (ns, i)) as [k|] eqn:Hk.
  - destruct (update_persist_Ok s m ns i f k Hns Hid Hs Hk) as (s' & m' & -> & ? & _); eauto.
  - exists s. unfold bind, on_store, update. rewrite Hk. simpl. by apply synced_store; [..|apply Hs].
Qed.

Lemma preserves_increment ns i : preserves (manager_increment_operations i ns).
Proof.
  intros s m Hs. exists s. unfold manager_increment_operations, on_store.
  destruct (update_cases ns i increment_operations (store m) (sy_coherent _ _ Hs) (fun _ => eq_refl))
    as [(_ & ->)|(k & st & Hk & -> & Hc & Hst)]; simpl; [by apply synced_store; [..|apply Hs]|].
  destruct Hs as [? ? ? Hids Hag]. split; simpl; [done..| |].
  - intros ns' i' k'. rewrite Hst. intros [[[= <- <-] <-]|[_ H]]%lookup_insert_Some; [|by eapply Hids].
    simpl. by eapply Hids.
  - intros c. rewrite Hst. destruct (decide (c = (ns, i))) as [->|Hne]; [|by rewrite lookup_insert_ne].
    rewrite lookup_insert_eq. specialize (Hag (ns, i)). by rewrite Hk in Hag.
Qed.

Lemma preserves_delete i ns : preserves (delete_key i ns).
Proof.
  intros s m Hs. unfold delete_key, bind, on_store, remove_persisted.
  destruct (delete_spec ns i (store m) (sy_coherent _ _ Hs)) as (H1 & H2 & H3).
  destruct (delete ns i (store m)) as [r st]. simpl in *. subst r. unfold t_delete in *.
  destruct (keys (store m) !! (ns, i)) as [k|] eqn:Hk; simpl in *.
  2: { exists s. by apply synced_store. }
  rewrite (sy_storage _ _ Hs). destruct (steady_delete s i ns (sy_steady _ _ Hs)) as [Hst Hv].
  exists (sb_delete_key i ns s).2. destruct Hs as [? ? ? Hids Hag]. split; simpl; [done..| |].
  - intros ns' i' k'. rewrite H2. intros [_ H]%lookup_delete_Some. by eapply Hids.
  - intros c. rewrite H2, (raw_delete _ _ _ _ c Hv). case_decide as Hd.
    + subst c. by rewrite lookup_delete_eq.
    + by rewrite lookup_delete_ne.
Qed.

(** A key that is written and then published under a free id. *)
Lemma publish s m ns k :
  synced s m -> keys (store m) !! (ns, id k) = None -> namespace k = ns -> storable ns k ->
  exists s' m', persist_and_insert ns k m = (Ok (id k), m') /\ synced s' m' /\
    keys (store m') = <[(ns, id k) := k]> (keys (store m)).
Proof.
  intros Hs Hfree Hns Hok. unfold persist_and_insert, bind, on_store.
  destruct (persist_key_steady s m ns k) as (s' & b & -> & Hst & Hb & Hraw); [apply Hs..|done|].
  destruct (exec_spec (OpInsert ns k) (store m) (sy_coherent _ _ Hs) Hns) as (_ & H2 & H3). revert H2 H3.
  simpl. unfold with_answer, insert, bind, insert_main. rewrite Hfree. simpl. intros H2 H3.
  do 2 eexists. split; [done|]. split; [|done].
  by eapply (synced_write s m _ ns (id k) k).
Qed.

Lemma generate_Ok s m spec pr pb i now :
  synced s m -> supported (ks_key_type spec) = true -> keys (store m) !! (ks_namespace spec, i) = None ->
  storable (ks_namespace spec) (new_key i spec pr pb now) ->
  exists s' m', generate_key spec (Ok (pr, pb)) i now m = (Ok i, m') /\ synced s' m' /\
    keys (store m') = <[(ks_namespace spec, i) := new_key i spec pr pb now]> (keys (store m)).
Proof.
  intros Hs Hsup Hfree Hok. unfold generate_key. rewrite Hsup. unfold bind at 1, lift. simpl.
  by apply (publish s m (ks_namespace spec) (new_key i spec pr pb now)).
Qed.

Lemma generate_synced s m spec generated i now :
  synced s m -> keys (store m) !! (ks_namespace spec, i) = None ->
  (forall pr pb, generated = Ok (pr, pb) -> storable (ks_namespace spec) (new_key i spec pr pb now)) ->
  exists s', synced s' (generate_key spec generated i now m).2.
Proof.
  intros Hs Hfree Hok. destruct (supported (ks_key_type spec)) eqn:Hsup.
  - destruct generated as [[pr pb]|e].
    + destruct (generate_Ok s m spec pr pb i now Hs Hsup Hfree (Hok _ _ eq_refl)) as (s' & m' & -> & ? & _). eauto.
    + exists s. unfold generate_key. by rewrite Hsup.
  - exists s. unfold generate_key. by rewrite Hsup.
Qed.

Lemma import_synced s m data spec i now :
  synced s m -> keys (store m) !! (ks_namespace spec, i) = None ->
  (forall pb, import_public (ks_key_type spec) data = Ok pb ->
     storable (ks_namespace spec) (new_key i spec (KeyMaterial_from_bytes data) pb now)) ->
  exists s', synced s' (import_key data spec i now m).2.
Proof.
  intros Hs Hfree Hok. unfold import_key, bind at 1, lift.
  destruct (import_public (ks_key_type spec) data) as [pb|e]; simpl; [|eauto]. specialize (Hok pb eq_refl).
  destruct (publish s m (ks_namespace spec) (new_key i spec (KeyMaterial_from_bytes data) pb now))
    as (s' & m' & -> & ? & _); [done..|]. eauto.
Qed.

Lemma bind_assoc {A B C} (a : M manager Error A) (f : A -> M manager Error B) (g : B -> M manager Error C) m :
  bind (bind a f) g m = bind a (fun x => bind (f x) g) m.
Proof. unfold bind. by destruct (a m) as [[]]. Qed.

Lemma preserves_ret {A} (a : A) : preserves (ret a).
Proof. by apply preserves_pure. Qed.

Lemma get_key_spec ns i m s :
  synced s m -> exists m1, synced s m1 /\ keys (store m1) = keys (store m) /\
    on_store (get ns i) m = (ok_or (KeyNotFound i) (keys (store m) !! (ns, i)), m1).
Proof.
  intros Hs. destruct (get_spec ns i (store m) (sy_coherent _ _ Hs)) as (Hg & Hk & Hc). unfold on_store.
  destruct (get ns i (store m)) as [r st]. simpl in *. subst r.
  exists (MkKeyManager st (storage m)). split; [by apply synced_store|]. done.
Qed.

(** The three keys a rotation writes. *)
Definition rotated i0 ns (old : Key) pr pb i (now : DateTime) : Key :=
  MkKey i (key_type old) (Some pr) (Some pb) Active ns now (policy old) (wrap 32 (version old + 1)) (Some i0) 0 None.
Definition rotation_storable i0 ns (old : Key) pr pb i (now : DateTime) : Prop :=
  storable ns (new_key i (MkKeySpec (key_type old) ns (policy old) ∅) pr pb now) /\
  storable ns (rotated i0 ns old pr pb i now) /\ storable ns (set_state Deactivated old).

Lemma rotate_Ok s m i0 ns old pr pb i now :
  synced s m -> keys (store m) !! (ns, i0) = Some old -> keys (store m) !! (ns, i) = None ->
  supported (key_type old) = true -> rotation_storable i0 ns old pr pb i now ->
  exists s' m', rotate_key i0 ns (Ok (pr, pb)) i now m = (Ok i, m') /\ synced s' m' /\
    keys (store m') =
      <[(ns, i0) := set_state Deactivated old]> (<[(ns, i) := rotated i0 ns old pr pb i now]> (keys (store m))).
Proof.
  intros Hs Hold Hfree Hsup (Hok1 & Hok2 & Hok3). unfold rotate_key.
  destruct (get_key_spec ns i0 m s Hs) as (m1 & Hs1 & Hk1 & Hg).
  unfold bind at 1. rewrite Hg, Hold. simpl. set (spec := MkKeySpec _ _ _ _) in *. rewrite <- Hk1 in Hold, Hfree |- *.
  destruct (generate_Ok s m1 spec pr pb i now Hs1 Hsup Hfree Hok1) as (s2 & m2 & He2 & Hs2 & Hk2).
  unfold bind at 1. rewrite He2. simpl in Hk2.
  destruct (update_persist_Ok s2 m2 ns i (set_version i0 (wrap 32 (version old + 1))) (new_key i spec pr pb now))
    as (s3 & m3 & He3 & Hs3 & Hk3); [done..|by rewrite Hk2, lookup_insert_eq|done|].
  rewrite Hk2, insert_insert_eq in Hk3.
  rewrite <- (bind_assoc (on_store _) (fun _ => persist_existing ns i)). unfold bind at 1. rewrite He3.
  assert ((ns, i) <> (ns, i0)) as Hne by (intros [= ->]; congruence).
  destruct (update_persist_Ok s3 m3 ns i0 (set_state Deactivated) old) as (s4 & m4 & He4 & Hs4 & Hk4);
    [done..|by rewrite Hk3, lookup_insert_ne|done|].
  unfold bind at 1, update_state. rewrite He4. exists s4, m4. split; [done|]. split; [done|].
  by rewrite Hk4, Hk3.
Qed.

Lemma rotate_synced s m i0 ns generated i now :
  synced s m -> keys (store m) !! (ns, i) = None ->
  (forall old pr pb, keys (store m) !! (ns, i0) = Some old -> generated = Ok (pr, pb) ->
     rotation_storable i0 ns old pr pb i now) ->
  exists s', synced s' (rotate_key i0 ns generated i now m).2.
Proof.
  intros Hs Hfree Hok. destruct (keys (store m) !! (ns, i0)) as [old|] eqn:Hold.
  2: { unfold rotate_key. destruct (get_key_spec ns i0 m s Hs) as (m1 & Hs1 & _ & Hg).
       unfold bind at 1. rewrite Hg, Hold. simpl. eauto. }
  destruct (supported (key_type old)) eqn:Hsup; [destruct generated as [[pr pb]|e]|].
  { destruct (rotate_Ok s m i0 ns old pr pb i now) as (s' & m' & -> & ? & _); eauto. }
  all: unfold rotate_key; destruct (get_key_spec ns i0 m s Hs) as (m1 & Hs1 & _ & Hg);
    unfold bind at 1; rewrite Hg, Hold; simpl; unfold bind at 1, generate_key; simpl; rewrite Hsup; eauto.
Qed.

Lemma preserves_collect ns accept now l : preserves (collect_metadata ns accept now l).
Proof.
  induction l as [|i l IH]; [apply preserves_ret|]. simpl. apply preserves_bind.
  - intros s m Hs. destruct (preserves_get ns i s m Hs) as [s' Hs']. exists s'. unfold attempt.
    by destruct (on_store (get ns i) m).
  - intros r. apply preserves_bind; [done|]. intros tail. apply preserves_ret.
Qed.

(** ** Runs *)

Inductive key_op :=
| KGenerate (spec : KeySpec) (generated : result (KeyMaterial * bytes) string) (i : KeyId) (now : DateTime)
| KImport (data : bytes) (spec : KeySpec) (i : KeyId) (now : DateTime)
| KRotate (key_id : KeyId) (ns : string) (generated : result (KeyMaterial * bytes) string) (i : KeyId)
    (now : DateTime)
| KUpdateState (key_id : KeyId) (ns : string) (st : KeyState)
| KDelete (key_id : KeyId) (ns : string)
| KIncrement (key_id : KeyId) (ns : string)
| KGet (key_id : KeyId) (ns : string) (now : DateTime)
| KList (ns : string) (filter : KeyFilter) (now : DateTime)
| KListBatch (ns : string) (offset limit : Z) (now : DateTime).

Definition perform (o : key_op) (m : manager) : manager :=
  match o with
  | KGenerate spec generated i now => (generate_key spec generated i now m).2
  | KImport data spec i now => (import_key data spec i now m).2
  | KRotate key_id ns generated i now => (rotate_key key_id ns generated i now m).2
  | KUpdateState key_id ns st => (update_state key_id ns st m).2
  | KDelete key_id ns => (delete_key key_id ns m).2
  | KIncrement key_id ns => (manager_increment_operations key_id ns m).2
  | KGet key_id ns now => (get_key key_id ns now m).2
  | KList ns filter now => (list_keys ns filter now m).2
  | KListBatch ns offset limit now => (list_keys_batch ns offset limit now m).2
  end.
Definition performs (os : Datatypes.list key_op) (m : manager) : manager := foldl (flip perform) m os.

(** The random id of a new key is not in use in its namespace, and the backend
    can store the keys that are written. *)
Definition fresh_op (o : key_op) (m : manager) : Prop :=
  match o with
  | KGenerate spec generated i now =>
      keys (store m) !! (ks_namespace spec, i) = None /\
      forall pr pb, generated = Ok (pr, pb) -> storable (ks_namespace spec) (new_key i spec pr pb now)
  | KImport data spec i now =>
      keys (store m) !! (ks_namespace spec, i) = None /\
      forall pb, import_public (ks_key_type spec) data = Ok pb ->
        storable (ks_namespace spec) (new_key i spec (KeyMaterial_from_bytes data) pb now)
  | KRotate i0 ns generated i now =>
      keys (store m) !! (ns, i) = None /\
      forall old pr pb, keys (store m) !! (ns, i0) = Some old -> generated = Ok (pr, pb) ->
        rotation_storable i0 ns old pr pb i now
  | KUpdateState i ns st =>
      forall k, keys (store m) !! (ns, i) = Some k -> storable ns (set_state st k)
  | _ => True
  end.
Fixpoint fresh_run (os : Datatypes.list key_op) (m : manager) : Prop :=
  match os with
  | [] => True
  | o :: rest => fresh_op o m /\ fresh_run rest (perform o m)
  end.

Lemma perform_synced o s m : synced s m -> fresh_op o m -> exists s', synced s' (perform o m).
Proof.
  intros Hs Hf. destruct o; simpl in *.
  - destruct Hf. by eapply generate_synced.
  - destruct Hf. by eapply import_synced.
  - destruct Hf. by eapply rotate_synced.
  - by eapply update_persist_synced.
  - by eapply preserves_delete.
  - by eapply preserves_increment.
  - revert s m Hs Hf. intros s m Hs _. revert s m Hs. apply preserves_bind; [apply preserves_get|].
    intros k. apply preserves_pure. intros m. by repeat case_match.
  - by eapply preserves_collect.
  - by eapply preserves_collect.
Qed.

Lemma performs_synced os s m : synced s m -> fresh_run os m -> exists s', synced s' (performs os m).
Proof.
  revert s m. induction os as [|o os IH]; intros s m Hs; simpl; [eauto|]. intros [Ho Hos].
  destruct (perform_synced o s m Hs Ho) as [s1 Hs1]. by eapply IH.
Qed.

(** ** Restart *)

(** The key the backend has under [c]. *)
Definition stored (s : S) (c : CompositeKey) : option Key :=
  match raw s c with
  | Some b => match from_postcard b with Ok k => Some k | Err _ => None end
  | None => None
  end.

(** Every stored key decodes and is filed under its own namespace and id. *)
Definition readable (s : S) : Prop := forall c b,
  raw s c = Some b -> exists k, from_postcard b = Ok k /\ id k = c.2 /\ namespace k = c.1.

Lemma synced_readable s m : synced s m -> readable s.
Proof.
  intros Hs [ns i] b Hb. pose proof (sy_agrees _ _ Hs (ns, i)) as Ha. rewrite Hb in Ha.
  destruct (keys (store m) !! (ns, i)) as [k|] eqn:Hk; [|done]. destruct Ha as (k' & Hk' & [Hi Hn]%same_id).
  exists k'. split; [done|]. simpl. rewrite <- Hi, <- Hn. split; [by eapply (sy_ids _ _ Hs)|].
  by eapply (co_filed _ (sy_coherent _ _ Hs)).
Qed.

Lemma hydrate_keys_spec s ns (mm : gmap KeyId bytes) l n m :
  steady s -> readable s -> sb_view s !! ns = Some mm -> NoDup l -> (forall i, i ∈ l -> is_Some (mm !! i)) ->
  coherent (store m) -> (forall i, i ∈ l -> keys (store m) !! (ns, i) = None) ->
  exists m' n', hydrate_keys s ns l n m = (Ok n', m') /\ coherent (store m') /\
    forall c, keys (store m') !! c =
      if decide (c.1 = ns /\ c.2 ∈ l) then stored s c else keys (store m) !! c.
Proof.
  intros Hst Hr Hm Hnd. revert n m. induction Hnd as [|i l Hi Hnd IH]; intros n m Hl Hc Hfree.
  { exists m, n. split; [done|]. split; [done|]. intros c. rewrite decide_False; [done|].
    intros [_ ?%elem_of_nil]. done. }
  destruct (Hl i) as [b Hb]; [by left|].
  assert (raw s (ns, i) = Some b) as Hraw by (unfold raw; simpl; by rewrite Hm).
  destruct (Hr _ _ Hraw) as (k & Hk & Hid & Hns). simpl in Hid, Hns.
  cbn [hydrate_keys]. unfold bind, lift. rewrite (steady_load s i ns mm b Hst Hm Hb). simpl. rewrite Hk. simpl.
  destruct (exec_spec (OpInsert ns k) (store m) Hc Hns) as (_ & H2 & H3). revert H2 H3. simpl.
  unfold with_answer, on_store, insert, bind, insert_main. rewrite Hid, (Hfree i) by (by left). simpl.
  intros H2 H3. set (m1 := MkKeyManager _ _).
  destruct (IH (n + 1) m1) as (m' & n' & He & Hc' & Hk'); [by intros; apply Hl; right|done| |].
  { intros j Hj. simpl. rewrite lookup_insert_ne; [apply Hfree; by right|]. intros [= ->]. done. }
  exists m', n'. split; [exact He|]. split; [done|]. intros c. rewrite Hk'. simpl.
  destruct (decide (c = (ns, i))) as [->|Hne].
  - simpl. rewrite (decide_True (P := ns = ns /\ i ∈ i :: l)) by (split; [done|by left]).
    rewrite decide_False by (intros [_ ?]; done). rewrite lookup_insert_eq.
    unfold stored. by rewrite Hraw, Hk.
  - rewrite lookup_insert_ne by done. destruct c as [ns' j]. simpl.
    assert (ns' = ns /\ j ∈ l <-> ns' = ns /\ j ∈ i :: l) as Hiff.
    { rewrite elem_of_cons. split; [intros [? ?]; eauto|]. intros [-> [->|?]]; [done|done]. }
    by rewrite (decide_ext _ _ _ _ Hiff).
Qed.

Lemma hydrate_namespaces_spec s nss n m :
  steady s -> readable s -> NoDup nss -> (forall ns, ns ∈ nss -> is_Some (sb_view s !! ns)) ->
  coherent (store m) -> (forall ns i, ns ∈ nss -> keys (store m) !! (ns, i) = None) ->
  exists m' n', hydrate_namespaces s nss n m = (Ok n', m') /\ coherent (store m') /\
    forall c, keys (store m') !! c = if decide (c.1 ∈ nss) then stored s c else keys (store m) !! c.
Proof.
  intros Hst Hr Hnd. revert n m. induction Hnd as [|ns nss Hns Hnd IH]; intros n m Hv Hc Hfree.
  { exists m, n. split; [done|]. split; [done|]. intros c. by rewrite decide_False by apply not_elem_of_nil. }
  destruct (Hv ns) as [mm Hm]; [by left|]. cbn [hydrate_namespaces]. unfold bind, lift.
  destruct (steady_keys s ns mm Hst Hm) as (l & -> & Hndl & Hl). simpl.
  destruct (hydrate_keys_spec s ns mm l n m) as (m1 & n1 & -> & Hc1 & Hk1); try done.
  { intros i Hi. by apply Hl. }
  { intros i Hi. apply Hfree. by left. }
  destruct (IH n1 m1) as (m' & n' & He & Hc' & Hk'); [by intros; apply Hv; right|done| |].
  { intros ns' i Hns'. rewrite Hk1. rewrite decide_False by (simpl; intros [-> _]; done).
    apply Hfree. by right. }
  exists m', n'. split; [exact He|]. split; [done|]. intros [ns' i]. rewrite Hk', Hk1. simpl.
  destruct (decide (ns' = ns)) as [->|Hne].
  - rewrite decide_False, (decide_True (P := ns ∈ ns :: nss)) by (done || by left).
    destruct (decide (i ∈ l)) as [Hi|Hi]; [by rewrite decide_True|]. rewrite decide_False by (by intros []).
    rewrite Hfree by (by left). unfold stored, raw. simpl. rewrite Hm. simpl.
    destruct (mm !! i) as [b|] eqn:Hb; [|done]. destruct Hi. by apply Hl.
  - assert (ns' ∈ nss <-> ns' ∈ ns :: nss) as Hiff.
    { rewrite elem_of_cons. split; [by right|]. by intros [?|?]. }
    rewrite (decide_ext _ _ _ _ Hiff). case_decide; [done|]. rewrite decide_False; [done|]. by intros [-> _].
Qed.

Lemma hydrate_spec s :
  steady s -> readable s ->
  exists m n, hydrate (with_storage s) = (Ok n, m) /\ coherent (store m) /\
    forall c, keys (store m) !! c = stored s c.
Proof.
  intros Hst Hr. unfold hydrate. simpl. destruct (steady_namespaces s Hst) as (l & Hl & Hnd & Hin).
  unfold bind at 1, lift. rewrite Hl. simpl.
  destruct (hydrate_namespaces_spec s l 0 (with_storage s)) as (m & n & He & Hc & Hk); try done.
  { intros ns Hns. by apply Hin. }
  { apply new_coherent. }
  exists m, n. split; [exact He|]. split; [done|]. intros [ns i]. rewrite Hk. simpl. case_decide as Hd; [done|].
  rewrite lookup_empty. unfold stored, raw. simpl. destruct (sb_view s !! ns) eqn:Hv; [|done].
  destruct Hd. apply Hin. by eexists.
Qed.

(** ** Theorems *)

Lemma with_storage_synced s0 :
  steady s0 -> (forall c, raw s0 c = None) -> synced s0 (with_storage s0).
Proof.
  intros Hst Hraw. split; [done..|apply new_coherent| |].
  - intros ns i k. simpl. by rewrite lookup_empty.
  - intros c. simpl. by rewrite lookup_empty, Hraw.
Qed.

(** Loading what a running manager wrote. *)
Lemma hydrate_synced s s' m :
  synced s m -> steady s' -> (forall c, raw s' c = raw s c) ->
  exists n m', hydrate (with_storage s') = (Ok n, m') /\
    forall c, set_operation_count 0 <$> keys (store m') !! c =
              set_operation_count 0 <$> keys (store m) !! c.
Proof.
  intros Hs Hst' Hraw. destruct (hydrate_spec s' Hst') as (m' & n & He & _ & Hk).
  { intros c b. rewrite Hraw. apply (synced_readable s m Hs). }
  exists n, m'. split; [done|]. intros c. rewrite Hk. unfold stored. rewrite Hraw.
  pose proof (sy_agrees _ _ Hs c) as Ha. unfold agrees in Ha.
  destruct (keys (store m) !! c) as [k|], (raw s c) as [b|]; try done.
  destruct Ha as (k' & -> & Hsame). simpl. by rewrite Hsame.
Qed.

(** Over a backend that works, whatever was generated, imported, rotated,
    re-stated, used and deleted, a manager started anew on the backend
    succeeds in loading it and has exactly the keys of the running one, equal
    up to their operation counters. *)
Theorem keys_recovered s0 os :
  steady s0 -> (forall c, raw s0 c = None) -> fresh_run os (with_storage s0) ->
  let m := performs os (with_storage s0) in
  exists s n m', storage m = Some s /\ hydrate (with_storage s) = (Ok n, m') /\
    forall c, set_operation_count 0 <$> keys (store m') !! c =
              set_operation_count 0 <$> keys (store m) !! c.
Proof.
  intros Hst Hraw Hf m.
  destruct (performs_synced os s0 _ (with_storage_synced s0 Hst Hraw) Hf) as [s Hs]. fold m in Hs.
  destruct (hydrate_synced s s m Hs (sy_steady _ _ Hs)) as (n & m' & He & Hk); [done|].
  exists s, n, m'. split; [apply Hs|]. by split.
Qed.

(** C20: Rotating a key of a supported type succeeds, whatever its state, and
    changes exactly two keys: the new one is active, of the same type and
    policy, with the next version number and a link to the old one; the old
    one is deactivated.  Both changes are on the backend. *)
Theorem rotate_key_spec s m i0 ns old pr pb i now :
  synced s m -> keys (store m) !! (ns, i0) = Some old -> keys (store m) !! (ns, i) = None ->
  supported (key_type old) = true -> rotation_storable i0 ns old pr pb i now ->
  exists s' m', rotate_key i0 ns (Ok (pr, pb)) i now m = (Ok i, m') /\ synced s' m' /\
    keys (store m') =
      <[(ns, i0) := set_state Deactivated old]>
        (<[(ns, i) := MkKey i (key_type old) (Some pr) (Some pb) Active ns now (policy old)
             (wrap 32 (version old + 1)) (Some i0) 0 None]> (keys (store m))).
Proof. apply rotate_Ok. Qed.

Lemma can_use_true now k :
  can_use now k = true <-> state k = Active /\ forall t, expires_at (policy k) = Some t -> now <= t.
Proof.
  unfold can_use, is_expired. rewrite andb_true_iff, bool_decide_eq_true, negb_true_iff. apply and_iff_compat_l.
  destruct (expires_at (policy k)) as [t|]; [|by split].
  rewrite Z.gtb_ltb, Z.ltb_ge. split; [by intros ? ? [= <-]|]. intros He. by apply He.
Qed.

Lemma below_max_operations k :
  has_reached_max_operations k = false <->
  forall max, max_operations (policy k) = Some max -> operation_count k < max.
Proof.
  unfold has_reached_max_operations. destruct (max_operations (policy k)) as [max|]; [|by split].
  rewrite Z.geb_leb, Z.leb_gt. split; [by intros ? ? [= <-]|]. intros Hm. by apply Hm.
Qed.

(** [get_key] hands out exactly the keys that are active, not expired and
    below their operation limit. *)
Theorem get_key_Ok_iff s m i ns now k :
  synced s m ->
  (get_key i ns now m).1 = Ok k <->
  keys (store m) !! (ns, i) = Some k /\ state k = Active /\
  (forall t, expires_at (policy k) = Some t -> now <= t) /\
  (forall max, max_operations (policy k) = Some max -> operation_count k < max).
Proof.
  intros Hs. unfold get_key, bind. destruct (get_key_spec ns i m s Hs) as (m1 & _ & _ & ->).
  rewrite <- below_max_operations.
  transitivity (keys (store m) !! (ns, i) = Some k /\ can_use now k = true /\
    has_reached_max_operations k = false); [|rewrite can_use_true; tauto].
  destruct (keys (store m) !! (ns, i)) as [k0|]; simpl; [|by split; [|intros ([=] & _)]].
  destruct (can_use now k0) eqn:Hu; simpl; [|split; [done|]; intros ([= ->] & ? & _); congruence].
  destruct (has_reached_max_operations k0) eqn:Hm; simpl; (split; [try done; by intros [= <-]|]);
    intros ([= ->] & ? & ?); congruence.
Qed.
End correctness.
