(* ===== verification/FileKeys.v ===== *)
(** * The key manager on the encrypted file storage

    The file storage is an instance of the backend interface, and, while its
    disk works, of the promises the key manager relies on.  The theorem
    combines the two: keys survive the end of the process, through the
    journal recovery of the storage and the loading of the manager. *)

From Stdlib Require Import ZArith Lia Strings.Byte.
From stdpp Require Import base gmap strings list.
From S2P Require Import Prelude External Platform FileSystem Journal EncryptedFs CrashLogic CrashRecovery CrashSafety.
From S2P Require Import DurableStore.
From S2P Require Import AesGcm KeyTypes KeyStore KeyManager KeyManagerCorrect.
#[local] Abbreviation list := Datatypes.list.

(** [e.to_string()] on every error of the backend. *)
Section backend.
Context {SHA : Sha256} {AEAD : Aead}.
Context {PED : Postcard EncryptedData} {PKM : Postcard FileSystem.KeyMetadata}.
Context {PCD : Postcard ChecksummedData} {PJE : Postcard JournalEntry}.

#[export] Instance file_backend : StorageBackend EncryptedFileStorage := {|
  sb_store_key i b ns := map_err StorageError_to_string (EncryptedFs.store_key i b ns);
  sb_load_key i ns s := rmap_err StorageError_to_string (EncryptedFs.load_key i ns s);
  sb_delete_key i ns := map_err StorageError_to_string (EncryptedFs.delete_key i ns);
  sb_list_keys ns s := rmap_err StorageError_to_string (EncryptedFs.list_keys ns s);
  sb_key_exists i ns s := rmap_err StorageError_to_string (EncryptedFs.key_exists i ns s);
  sb_sync := map_err StorageError_to_string EncryptedFs.sync;
  sb_create_namespace ns := map_err StorageError_to_string (EncryptedFs.create_namespace ns);
  sb_delete_namespace ns := map_err StorageError_to_string (EncryptedFs.delete_namespace ns);
  sb_list_namespaces s := rmap_err StorageError_to_string (EncryptedFs.list_namespaces s)
|}.

(** ** What the files stand for *)

Definition key_entry (k : MasterKey) (fc : string * bytes) : option (KeyId * bytes) :=
  match listed fc.1, opens k fc.2 with Some i, Some p => Some (i, p) | _, _ => None end.
Definition key_view (k : MasterKey) (files : gmap string bytes) : gmap KeyId bytes :=
  list_to_map (omap (key_entry k) (map_to_list files)).
Definition file_view (s : EncryptedFileStorage) : gmap string (gmap KeyId bytes) :=
  (fun d => key_view (master_key s) (default ∅ (keys_dir d))) <$> ns_dirs (disk s).

Lemma key_entry_Some k f c i p : key_entry k (f, c) = Some (i, p) <-> f = key_file i /\ opens k c = Some p.
Proof.
  unfold key_entry. cbn [fst snd]. split.
  - destruct (listed f) as [i'|] eqn:Hl; [|done]. apply listed_spec in Hl as ->.
    by destruct (opens k c) as [p'|]; [intros [= <- <-]|].
  - intros [-> ->]. by rewrite (proj2 (listed_spec (key_file i) i) eq_refl).
Qed.

Lemma key_view_lookup k files i : key_view k files !! i = files !! key_file i ≫= opens k.
Proof.
  assert (Hin : forall p, (i, p) ∈ omap (key_entry k) (map_to_list files) <->
                          files !! key_file i ≫= opens k = Some p).
  { intros p. rewrite list_elem_of_omap, bind_Some. split.
    - intros ([f c] & Hfc%elem_of_map_to_list & [-> Hp]%key_entry_Some). eauto.
    - intros (c & Hc & Hp). exists (key_file i, c). by rewrite elem_of_map_to_list, key_entry_Some. }
  assert (Hnd : NoDup (omap (key_entry k) (map_to_list files)).*1).
  { rewrite list_fmap_omap. apply NoDup_omap; [|apply NoDup_map_to_list].
    intros [f c] [f' c'] j Hf%elem_of_map_to_list Hf'%elem_of_map_to_list.
    intros ([j1 p1] & [-> _]%key_entry_Some & ->)%fmap_Some ([j2 p2] & [-> _]%key_entry_Some & E)%fmap_Some.
    cbn in *. congruence. }
  apply option_eq. intros p. rewrite <- Hin. unfold key_view. symmetry. by apply elem_of_list_to_map.
Qed.

Lemma file_view_represents kek s m : represents kek (Up s) m -> file_view s = m.
Proof.
  intros (Hc & _ & _ & _ & H1 & H2). apply map_eq. intros ns. unfold file_view. rewrite lookup_fmap.
  destruct (ns_dirs (disk s) !! ns) as [d|] eqn:Hd; cbn.
  - destruct (proj2 (H1 ns)) as [ks Hm]; [eauto|]. rewrite Hm. f_equal. apply map_eq. intros i.
    rewrite key_view_lookup. specialize (H2 ns i). unfold contents in H2. rewrite Hd, Hm in H2. cbn in H2.
    pose proof (Hc _ _ Hd) as Hcd. rewrite <- (cl_files _ _ Hcd i) in H2.
    destruct (so_keys _ _ (cl_sound _ _ Hcd)) as [kd Hkd]. rewrite Hkd in *. cbn in *.
    destruct (kd !! key_file i) as [c|]; cbn; [|by destruct (ks !! i)]. by destruct (ks !! i).
  - symmetry. apply eq_None_not_Some. intros Hm%H1. rewrite Hd in Hm. by destruct Hm.
Qed.

(** ** Requests on a working disk *)

Context {SIZES : PostcardSizes}.
Context (kek : bytes) (total : codecs_total).
(** AES-GCM encrypts messages below 64 GiB. *)
Hypothesis seals : forall c n a m, length n = 12%nat -> Z.of_nat (length m) < 2 ^ 32 ->
  exists ct, aead_encrypt c n a m = Ok ct.

Definition working (s : EncryptedFileStorage) m : Prop := represents kek (Up s) m /\ faults (disk s) = [].

Lemma keyed_length w k : keyed kek w k -> length (master_bytes k) = 32%nat.
Proof.
  unfold keyed, MasterKey_load. cbn. destruct (master_key_file w); [|done].
  intros (x & _ & (p & _ & H)%rbind_Ok)%rbind_Ok. unfold MasterKey_from_bytes in H.
  destruct (length p =? MASTER_KEY_SIZE)%nat eqn:E; [|done]. apply Nat.eqb_eq in E. by injection H as <-.
Qed.

Lemma encrypt_works s m data :
  represents kek (Up s) m -> Z.of_nat (length data) < 2 ^ 32 -> is_ok (encrypt_key_data data s).1 = true.
Proof.
  intros (_ & _ & Hk & Hdr & _) Hl. apply keyed_length in Hk.
  unfold encrypt_key_data, on_world, MasterKey_encrypt, seal, bind, lift, fill_bytes. cbn.
  destruct (new_from_slice_length Aes256 _ Hk) as [c ->]. cbn.
  destruct (seals c (entropy (disk s) (tick (disk s)) NONCE_SIZE) [] data) as [ct ->]; [apply Hdr|done|]. cbn.
  destruct total as (_ & _ & _ & HT). by destruct (HT (MkEncrypted (entropy (disk s) (tick (disk s)) NONCE_SIZE) ct)) as [b ->].
Qed.

Lemma perform_works s m ns op :
  working s m -> is_Some (ns_dirs (disk s) !! ns) -> proper ns op -> fits op ->
  let '(r, s') := (journaled ns op ;! on_world (apply_operation op)) s in
  is_ok r = true /\ faults (disk s') = [].
Proof.
  intros [(Hc & Hi & _) Hf] [d Hd] Hp Hfit. pose proof (perform_spec s ns op d Hc Hi Hd Hp Hfit) as H.
  destruct ((journaled ns op ;! on_world (apply_operation op)) s) as [r s']. destruct H as (_ & _ & _ & L).
  by destruct (L total Hf).
Qed.

(** A request that gets through. *)
Lemma works_of_outcome r m m1 (x : result unit StorageError * EncryptedFileStorage) :
  outcome kek r m x -> is_ok x.1 = true -> faults (disk x.2) = [] -> spec_apply r m = Some m1 ->
  exists s', x = (Ok tt, s') /\ working s' m1.
Proof.
  intros Ho Hok Hf Hm. destruct x as [[[]|] s']; [|done]. destruct (out_done _ _ _ _ Ho s' eq_refl) as (m' & E & Hr).
  exists s'. split; [done|]. by simplify_eq.
Qed.

Lemma store_key_eq s i data ns b s1 :
  is_Some (ns_dirs (disk s) !! ns) -> encrypt_key_data data s = (Ok b, s1) ->
  EncryptedFs.store_key i data ns s =
  (journaled ns (JStoreKey i ns b) ;! on_world (apply_operation (JStoreKey i ns b))) s1.
Proof.
  intros Hn%ns_exists_spec He. unfold EncryptedFs.store_key, EncryptedFs.check_namespace, bind. by rewrite Hn, He.
Qed.

Lemma delete_key_eq s i ns :
  is_Some (ns_dirs (disk s) !! ns) -> valid ns i -> is_Some (file_of (disk s) ns (key_file i)) ->
  EncryptedFs.delete_key i ns s =
  (journaled ns (JDeleteKey i ns) ;! on_world (apply_operation (JDeleteKey i ns))) s.
Proof.
  intros Hn%ns_exists_spec Hv Hf. unfold EncryptedFs.delete_key, EncryptedFs.check_namespace, bind.
  rewrite Hn. destruct (valid_paths _ _ Hv) as [-> _]. cbn. by rewrite bool_decide_true.
Qed.

Lemma store_works s m i data ns ks :
  working s m -> acceptable (RStore i data ns) -> m !! ns = Some ks ->
  exists s', EncryptedFs.store_key i data ns s = (Ok tt, s') /\ working s' (<[ns := <[i := data]> ks]> m).
Proof.
  intros [Hr Hf] Ha Hm. pose proof (store_outcome kek i data ns s m Hr Ha) as Ho.
  destruct Ha as [Hv Hl]. pose proof Hr as (Hc & Hi & Hk & Hdr & Hh).
  assert (Hn : is_Some (ns_dirs (disk s) !! ns)) by (apply Hh; eauto).
  assert (Hw : is_ok (EncryptedFs.store_key i data ns s).1 = true /\
               faults (disk (EncryptedFs.store_key i data ns s).2) = []).
  { pose proof (encrypt_works s m data Hr ltac:(lia)) as Henc. pose proof (encrypt_spec s data Hdr) as He.
    destruct (encrypt_key_data data s) as [[b|e] s1] eqn:Erun; [|done]. destruct He as [(w1 & -> & E & V & F) Hb].
    destruct (Hb b eq_refl) as [_ Hbl]. rewrite <- F in Hf. rewrite (store_key_eq _ _ _ _ _ _ Hn Erun).
    pose proof (perform_works (MkStorage (master_key s) (journals s) w1) m ns (JStoreKey i ns b)) as Hp.
    destruct ((journaled ns (JStoreKey i ns b) ;! _) _) as [r s'].
    apply Hp; [split; [by apply represents_quiet|done]|cbn; by rewrite E|done|].
    apply fits_size. cbn. lia. }
  destruct Hw. eapply works_of_outcome; [done..|]. cbn. by rewrite Hm.
Qed.

Lemma delete_works s m i ns ks p :
  working s m -> acceptable (RDelete i ns) -> m !! ns = Some ks -> ks !! i = Some p ->
  exists s', EncryptedFs.delete_key i ns s = (Ok tt, s') /\ working s' (<[ns := base.delete i ks]> m).
Proof.
  intros [Hr Hf] Ha Hm Hp. pose proof (delete_outcome kek i ns s m Hr Ha) as Ho.
  destruct Ha as [Hv Hl]. pose proof Hr as (Hc & Hi & Hk & Hdr & Hh).
  assert (Hn : is_Some (ns_dirs (disk s) !! ns)) by (apply Hh; eauto).
  assert (Hw : is_ok (EncryptedFs.delete_key i ns s).1 = true /\
               faults (disk (EncryptedFs.delete_key i ns s).2) = []).
  { assert (Hfile : is_Some (file_of (disk s) ns (key_file i))).
    { destruct Hn as [d Hd]. unfold file_of, key_files. rewrite Hd. cbn. destruct Hh as [_ H2].
      specialize (H2 ns i). unfold contents in H2. rewrite Hd, Hm in H2. cbn in H2. rewrite Hp in H2.
      rewrite <- (cl_files _ _ (Hc _ _ Hd) i) in H2. by destruct (keys_dir d ≫= _); [eexists|]. }
    rewrite (delete_key_eq _ _ _ Hn Hv Hfile). pose proof (perform_works s m ns (JDeleteKey i ns)) as Hpw.
    destruct ((journaled ns (JDeleteKey i ns) ;! _) _) as [r s'].
    apply Hpw; [done|done|done|]. apply fits_size. cbn. lia. }
  destruct Hw. eapply works_of_outcome; [done..|]. cbn. rewrite Hm. cbn. by rewrite Hp.
Qed.

(** Computations that succeed on a working disk. *)
Definition calm {A} (c : fs A) : Prop :=
  forall w, faults w = [] -> is_ok (c w).1 = true /\ faults (c w).2 = [].

Lemma calm_bind {A B} (c : fs A) (f : A -> fs B) : calm c -> (forall a, calm (f a)) -> calm (let! a := c in f a).
Proof.
  intros Hc Hf w Hw. destruct (Hc w Hw) as [Ho Hw1]. unfold bind. destruct (c w) as [[a|e] w1]; [|done]. by apply Hf.
Qed.

Lemma calm_step good cut : (forall w, faults (good w) = faults w) -> calm (disk_step good cut).
Proof. intros Hg w Hw. unfold disk_step. rewrite Hw. cbn. by rewrite Hg. Qed.

Lemma calm_pure {A} (f : World -> A) : calm (fun w => (Ok (f w), w)).
Proof. done. Qed.

Lemma calm_create ns : calm (create_namespace_impl ns ;! let! _ := wal_new ns in ret tt).
Proof.
  assert (Hw : calm (wal_new ns)).
  { apply calm_bind; [by apply calm_step|]. intros _. apply calm_bind; [apply calm_pure|].
    intros [|]; (apply calm_bind; [|intros; apply calm_pure]); [|apply calm_pure].
    apply calm_bind; [apply calm_pure|]. intros. apply calm_pure. }
  apply calm_bind; [|intros _; apply calm_bind; [done|intros; apply calm_pure]].
  intros w Hf. unfold create_namespace_impl. destruct (ns_exists w ns); [done|].
  assert (calm (create_ns_dir ns ;! create_keys_dir ns ;! create_journal_dir ns)) as Hc; [|by apply Hc].
  apply calm_bind; [by apply calm_step|]. intros _. apply calm_bind; [by apply calm_step|]. intros _. by apply calm_step.
Qed.

Lemma on_world_result {A} (c : fs A) s : (on_world c s).1 = (c (disk s)).1.
Proof. unfold on_world. by destruct (c (disk s)). Qed.

Lemma on_world_disk {A} (c : fs A) s : disk (on_world c s).2 = (c (disk s)).2.
Proof. unfold on_world. by destruct (c (disk s)). Qed.

Lemma create_works s m ns :
  working s m -> m !! ns = None ->
  exists s', EncryptedFs.create_namespace ns s = (Ok tt, s') /\ working s' (<[ns := ∅]> m).
Proof.
  intros [Hr Hf] Hm. pose proof Hr as (_ & _ & _ & _ & Hh).
  assert (Hn : ns_exists (disk s) ns = false).
  { apply not_true_iff_false. rewrite ns_exists_spec. intros Hn%Hh. rewrite Hm in Hn. by destruct Hn. }
  pose proof (create_outcome kek ns s m Hr) as Ho. destruct (calm_create ns (disk s) Hf) as [Hok Hf'].
  apply (works_of_outcome _ m _ _ Ho).
  - unfold EncryptedFs.create_namespace. rewrite Hn. by rewrite on_world_result.
  - unfold EncryptedFs.create_namespace. rewrite Hn. by rewrite on_world_disk.
  - cbn. by rewrite Hm.
Qed.

(** ** The promises to the key manager *)

(** A working storage, all of whose keys are acceptable. *)
Definition file_steady (s : EncryptedFileStorage) : Prop :=
  exists m, working s m /\
    forall ns ks i b, m !! ns = Some ks -> ks !! i = Some b -> acceptable (RStore i b ns).

Lemma acceptable_delete i b ns : acceptable (RStore i b ns) -> acceptable (RDelete i ns).
Proof. intros [Hv Hl]. split; [done|]. lia. Qed.

Lemma delete_refused s m i ns :
  working s m -> m !! ns ≫= (.!! i) = None ->
  exists e, EncryptedFs.delete_key i ns s = (Err e, s).
Proof.
  intros [Hr Hf] Hm. unfold EncryptedFs.delete_key, EncryptedFs.check_namespace, bind.
  destruct (ns_exists (disk s) ns) eqn:Hn; [|eauto].
  destruct (get_key_file_path ns i) as [p|e] eqn:Hp; cbn; [|eauto].
  assert (valid ns i /\ p = key_file i) as [Hv ->].
  { unfold get_key_file_path in Hp. unfold valid.
    destruct (validate_path_component ns "namespace") as [[]|]; [|done].
    destruct (validate_path_component i "key ID") as [[]|]; [|done]. by injection Hp as <-. }
  pose proof (load_key_represents kek s m ns i Hr Hv) as Hl. unfold lookup_key in Hl.
  rewrite bool_decide_false; [eauto|]. intros [c Hc].
  apply ns_exists_spec in Hn as [d Hd]. destruct Hr as (Hcl & _ & _ & _ & _ & H2). specialize (H2 ns i).
  unfold contents in H2. rewrite Hd, Hm in H2. cbn in H2. rewrite <- (cl_files _ _ (Hcl _ _ Hd) i) in H2.
  unfold file_of, key_files in Hc. rewrite Hd in Hc. cbn in Hc. by rewrite Hc in H2.
Qed.

#[local] Instance file_steady_storage : SteadyStorage EncryptedFileStorage.
Proof.
  refine {| sb_view := file_view; steady := file_steady; sb_accepts := fun ns i b => acceptable (RStore i b ns) |}.
  - intros s i b ns ks (m & Hw & Hacc) Ha Hm. pose proof (file_view_represents kek s m (proj1 Hw)) as Hv.
    rewrite Hv in Hm. destruct (store_works s m i b ns ks Hw Ha Hm) as (s' & E & Hw').
    exists s'. cbn. unfold map_err. rewrite E. split; [done|]. rewrite Hv.
    rewrite (file_view_represents kek s' _ (proj1 Hw')). split; [|done]. eexists. split; [done|].
    intros n ks' j c. intros [[<- <-]|[_ Hn]]%lookup_insert_Some; [|by eapply Hacc].
    intros [[<- <-]|[_ Hj]]%lookup_insert_Some; [done|by eapply Hacc].
  - intros s i ns (m & Hw & Hacc). pose proof (file_view_represents kek s m (proj1 Hw)) as Hv. cbn. unfold map_err.
    destruct (m !! ns ≫= (.!! i)) as [b|] eqn:Hb.
    + apply bind_Some in Hb as (ks & Hm & Hb).
      destruct (delete_works s m i ns ks b Hw) as (s' & E & Hw'); [by eapply acceptable_delete, Hacc|done|done|].
      rewrite E. cbn. rewrite (file_view_represents kek s' _ (proj1 Hw')), Hv. split.
      * eexists. split; [done|]. intros n ks' j c [[<- <-]|[_ Hn]]%lookup_insert_Some; [|by eapply Hacc].
        intros [_ Hj]%lookup_delete_Some. by eapply Hacc.
      * apply map_eq. intros n. destruct (decide (n = ns)) as [->|Hne].
        -- by rewrite lookup_insert_eq, lookup_alter_eq, Hm.
        -- by rewrite lookup_insert_ne, lookup_alter_ne.
    + destruct (delete_refused s m i ns Hw Hb) as [e ->]. cbn. split; [by exists m|]. rewrite Hv.
      symmetry. apply map_eq. intros n. destruct (decide (n = ns)) as [->|Hne]; [|by rewrite lookup_alter_ne].
      rewrite lookup_alter_eq. destruct (m !! ns) as [ks|]; [|done]. cbn in *. by rewrite delete_id.
  - intros s ns (m & Hw & Hacc) Hn. pose proof (file_view_represents kek s m (proj1 Hw)) as Hv. rewrite Hv in Hn.
    destruct (create_works s m ns Hw Hn) as (s' & E & Hw'). exists s'. cbn. unfold map_err. rewrite E.
    split; [done|]. rewrite Hv, (file_view_represents kek s' _ (proj1 Hw')). split; [|done]. eexists. split; [done|].
    intros n ks' j c [[<- <-]|[_ Hn']]%lookup_insert_Some; [by rewrite lookup_empty|by eapply Hacc].
  - intros s (m & Hw & _). eexists. split; [done|]. split; [apply NoDup_fst_map_to_list|].
    intros ns. unfold file_view. rewrite lookup_fmap, fmap_is_Some, list_elem_of_fmap. split.
    + intros ([n d] & -> & Hd%elem_of_map_to_list). by eexists.
    + intros [d Hd]. exists (ns, d). by rewrite elem_of_map_to_list.
  - intros s ns ks (m & Hw & _) Hm. rewrite (file_view_represents kek s m (proj1 Hw)) in Hm.
    destruct (list_keys_represents kek s m ns ks (proj1 Hw) Hm) as (l & E & Hl). exists l. cbn. by rewrite E.
  - intros s i ns ks b (m & Hw & Hacc) Hm Hb. rewrite (file_view_represents kek s m (proj1 Hw)) in Hm.
    destruct (Hacc ns ks i b Hm Hb) as [Hv _]. cbn. rewrite (load_key_represents kek s m ns i (proj1 Hw) Hv).
    unfold lookup_key. by rewrite Hm, Hb.
Defined.

(** ** Keys survive *)

Context {Cache : Type} {LRU : Lru CompositeKey Key Cache} {PC : Postcard Key}.
Context {HEX : Hex} {PK : PublicKeys}.
Abbreviation manager := (@DefaultKeyManager Cache EncryptedFileStorage).

Lemma reopen_steady s :
  file_steady s ->
  exists s', (open kek (disk s)).1 = Ok s' /\ file_steady s' /\ file_view s' = file_view s.
Proof.
  intros (m & [Hr Hf] & Hacc). pose proof (open_represents kek [] (disk s) m (represents_down kek s m Hr)) as H.
  assert (Ef : set_faults [] (disk s) = disk s) by (destruct (disk s); cbn in *; by subst). rewrite Ef in H.
  destruct (open kek (disk s)) as [r w']. destruct H as [H L]. destruct (L total eq_refl) as [Hok Hf'].
  destruct r as [s'|]; [|done]. destruct H as [Hr' <-]. exists s'. split; [done|].
  rewrite (file_view_represents kek s m Hr), (file_view_represents kek s' m Hr'). split; [|done]. by exists m.
Qed.

(** C14: keys survive the process: after any run of generations, imports,
    rotations, state changes and deletions of a manager on a new encrypted
    file storage, opening the storage again (which replays its journals) and
    loading it into a new manager succeed and give exactly the keys of the old
    one, up to their operation counters.  The disk works, and in the run new
    keys get ids that are not in use, namespaces and ids are plain file names,
    and serialised keys stay below 4 GiB ([fresh_run]); the manager itself
    accepts other names, and one of them blocks the restart
    ([bad_namespace_blocks_restart]). *)
Theorem keys_survive_restart w s0 w0 os :
  (forall k : Key, exists b, to_allocvec k = Ok b) ->
  drawn w -> ns_dirs w = ∅ -> create_with_new_key kek w = (Ok s0, w0) -> faults (disk s0) = [] ->
  fresh_run os (with_storage s0 : manager) ->
  let m := performs os (with_storage s0 : manager) in
  exists s s' n m', storage m = Some s /\ (open kek (disk s)).1 = Ok s' /\
    hydrate (with_storage s' : manager) = (Ok n, m') /\
    forall c, set_operation_count 0 <$> keys (store m') !! c =
              set_operation_count 0 <$> keys (store m) !! c.
Proof.
  intros Htot Hdr He Hc Hf Hos m.
  assert (Hw0 : working s0 ∅) by (split; [by eapply created_represents|done]).
  assert (Hst0 : file_steady s0) by (exists ∅; split; [done|]; intros ns ks i b; by rewrite lookup_empty).
  assert (Hraw : forall c, raw s0 c = None).
  { intros c. unfold raw. cbn. by rewrite (file_view_represents kek s0 ∅ (proj1 Hw0)), lookup_empty. }
  assert (Hsync : synced s0 (with_storage s0 : manager)) by (by apply with_storage_synced).
  destruct (performs_synced Htot os s0 _ Hsync Hos) as [s Hs]. fold m in Hs.
  destruct (reopen_steady s (sy_steady _ _ Hs)) as (s' & Ho & Hst' & Hv).
  destruct (hydrate_synced s s' m Hs Hst') as (n & m' & Hh & Hk); [intros c; unfold raw; cbn; by rewrite Hv|].
  exists s, s', n, m'. split; [apply Hs|done].
Qed.
End backend.
