(* ===== verification/KeyWitness.v ===== *)
(** * Concrete runs of the key store and the key manager

    [mem_storage] is a backend in memory whose deletions can be made to fail.
    The two theorems at the end of the file show what a restart brings back:
    the operation budget of a key, and a key whose deletion the backend
    refused. *)

From Stdlib Require Import ZArith Lia.
From stdpp Require Import base gmap strings list.
From S2P Require Import Prelude External Platform AesGcm KeyTypes KeyStore KeyManager KeyManagerCorrect.
Import Concrete Concrete2.

(** ** A codec for keys *)

Definition type_code (t : KeyType) : nat :=
  match t with
  | Rsa2048 => 0 | Rsa3072 => 1 | Rsa4096 => 2 | EcdsaP256 => 3 | EcdsaP384 => 4 | EcdsaP521 => 5
  | KSecp256k1 => 6 | Bls12381 => 7 | Ed25519 => 8 | Ed448 => 9 | KAes128 => 10 | KAes256 => 11
  | HdMaster => 12 | HdDerived => 13
  end.
Definition type_decode (n : nat) : KeyType :=
  match n with
  | 0 => Rsa2048 | 1 => Rsa3072 | 2 => Rsa4096 | 3 => EcdsaP256 | 4 => EcdsaP384 | 5 => EcdsaP521
  | 6 => KSecp256k1 | 7 => Bls12381 | 8 => Ed25519 | 9 => Ed448 | 10 => KAes128 | 11 => KAes256
  | 12 => HdMaster | _ => HdDerived
  end%nat.
#[local] Instance type_countable : Countable KeyType.
Proof. refine (inj_countable' type_code type_decode _). by intros []. Defined.

Definition state_code (s : KeyState) : nat :=
  match s with Pending => 0 | Active => 1 | Deactivated => 2 | Compromised => 3 | Destroyed => 4 end.
Definition state_decode (n : nat) : KeyState :=
  match n with 0 => Pending | 1 => Active | 2 => Deactivated | 3 => Compromised | _ => Destroyed end%nat.
#[local] Instance state_countable : Countable KeyState.
Proof. refine (inj_countable' state_code state_decode _). by intros []. Defined.

#[local] Instance policy_eq_dec : EqDecision KeyUsagePolicy.
Proof. solve_decision. Defined.
#[local] Instance policy_countable : Countable KeyUsagePolicy.
Proof.
  refine (inj_countable' (fun p => (can_sign p, can_encrypt p, can_derive p, can_export p, max_operations p, expires_at p))
    (fun '(a, b, c, d, e, f) => MkKeyUsagePolicy a b c d e f) _). by intros [].
Defined.
#[local] Instance hd_eq_dec : EqDecision HdKeyInfo.
Proof. solve_decision. Defined.
#[local] Instance hd_countable : Countable HdKeyInfo.
Proof.
  refine (inj_countable' (fun h => (derivation_path h, master_key_id h, chain_code h, coin_type h, account_index h,
      can_derive_children h, depth h, child_index h, parent_fingerprint h))
    (fun '(a, b, c, d, e, f, g, h, i) => MkHdKeyInfo a b c d e f g h i) _). by intros [].
Defined.
#[local] Instance material_eq_dec : EqDecision KeyMaterial.
Proof. solve_decision. Defined.
#[local] Instance material_countable : Countable KeyMaterial.
Proof. refine (inj_countable' key_bytes MkKeyMaterial _). by intros []. Defined.
#[local] Instance key_eq_dec : EqDecision Key.
Proof. solve_decision. Defined.
#[local] Instance key_countable : Countable Key.
Proof.
  refine (inj_countable' (fun k => (id k, key_type k, private_material k, public_material k, state k, namespace k,
      created_at k, policy k, version k, previous_version k, operation_count k, hd_info k))
    (fun '(a, b, c, d, e, f, g, h, i, j, k, l) => MkKey a b c d e f g h i j k l) _). by intros [].
Defined.
#[local] Instance key_postcard : Postcard Key := countable_postcard.

Lemma key_postcard_total (k : Key) : exists b, to_allocvec k = Ok b.
Proof. by eexists. Qed.

(** ** A backend *)

Record mem_storage := MemStorage {
  st_map : gmap string (gmap KeyId bytes);
  st_deletable : bool
}.

#[local] Instance mem_backend : StorageBackend mem_storage := {|
  sb_store_key i b ns s :=
    match st_map s !! ns with
    | Some m => (Ok tt, MemStorage (<[ns := <[i := b]> m]> (st_map s)) (st_deletable s))
    | None => (Err "Namespace not found", s)
    end;
  sb_load_key i ns s := ok_or "Key not found" (st_map s !! ns ≫= (.!! i));
  sb_delete_key i ns s :=
    if st_deletable s then
      match st_map s !! ns ≫= (.!! i) with
      | Some _ => (Ok tt, MemStorage (alter (base.delete i) ns (st_map s)) true)
      | None => (Err "Key not found", s)
      end
    else (Err "IO error", s);
  sb_list_keys ns s := let? m := ok_or "Namespace not found" (st_map s !! ns) in Ok (map_to_list m).*1;
  sb_key_exists i ns s := Ok (bool_decide (is_Some (st_map s !! ns ≫= (.!! i))));
  sb_sync s := (Ok tt, s);
  sb_create_namespace ns s :=
    match st_map s !! ns with
    | Some _ => (Err "Namespace exists", s)
    | None => (Ok tt, MemStorage (<[ns := ∅]> (st_map s)) (st_deletable s))
    end;
  sb_delete_namespace ns s :=
    match st_map s !! ns with
    | Some _ => (Ok tt, MemStorage (base.delete ns (st_map s)) (st_deletable s))
    | None => (Err "Namespace not found", s)
    end;
  sb_list_namespaces s := Ok (map_to_list (st_map s)).*1
|}.

Lemma elem_of_keys {A} (m : gmap string A) k : k ∈ (map_to_list m).*1 <-> is_Some (m !! k).
Proof.
  rewrite list_elem_of_fmap. split.
  - intros ([k' a] & -> & H%elem_of_map_to_list). by eexists.
  - intros [a Ha]. exists (k, a). by rewrite elem_of_map_to_list.
Qed.

#[local] Instance mem_steady : SteadyStorage mem_storage.
Proof.
  refine {| sb_view := st_map; steady := fun s => st_deletable s = true; sb_accepts := fun _ _ _ => True |}.
  - intros s i b ns m Hs _ Hm. simpl. rewrite Hm. by eexists.
  - intros s i ns Hs. simpl. rewrite Hs. destruct (st_map s !! ns ≫= (.!! i)) eqn:Hi; [done|].
    simpl. split; [done|]. symmetry. apply map_eq. intros ns'. destruct (decide (ns' = ns)) as [->|Hne].
    + rewrite lookup_alter_eq. destruct (st_map s !! ns) as [m|] eqn:Hm; [|done]. simpl in *.
      by rewrite delete_id.
    + by rewrite lookup_alter_ne.
  - intros s ns Hs Hn. simpl. rewrite Hn. by eexists.
  - intros s Hs. eexists. split; [done|]. split; [apply NoDup_fst_map_to_list|]. intros ns. apply elem_of_keys.
  - intros s ns m Hs Hm. simpl. rewrite Hm. eexists. split; [done|].
    split; [apply NoDup_fst_map_to_list|]. intros i. apply elem_of_keys.
  - intros s i ns m b Hs Hm Hb. simpl. by rewrite Hm; simpl; rewrite Hb.
Defined.

#[local] Instance toy_public_keys : PublicKeys := {|
  ed25519_public := fun b => b; p256_public := Ok; p384_public := Ok; secp256k1_public := Ok;
  bls_public := Ok; rsa_parse := fun b => Ok (Z.of_nat (length b), Ok b) |}.

(** ** The key store *)

Abbreviation cache := (option (CompositeKey * Key)).
Definition key1 : Key :=
  new_key "k1" (MkKeySpec Ed25519 "prod" (MkKeyUsagePolicy true false false false (Some 1) None) ∅)
    (MkKeyMaterial [Byte.x01]) [Byte.x02] 0.
Definition store1 : @KeyStore cache := (insert "prod" key1 KeyStore_new).2.

Lemma store1_coherent : coherent store1.
Proof. by apply (put_coherent KeyStore_new ("prod", "k1") key1); [apply new_coherent|]. Qed.

Lemma key_store_transparent_witness :
  (exec_all (Cache := cache)
     [OpInsert "prod" key1; OpGet "prod" "k1"; OpUpdate "prod" "k1" (set_state Compromised);
      OpGet "prod" "k1"; OpDelete "prod" "k1"; OpGet "prod" "k1"; OpCount "prod"] KeyStore_new).1 =
  [AUnit (Ok tt); AKey (Ok key1); AUnit (Ok tt); AKey (Ok (set_state Compromised key1));
   AKey (Ok (set_state Compromised key1)); AKey (Err (KeyNotFound "k1")); ACount 0].
Proof.
  edestruct (key_store_transparent (Cache := cache)) as (_ & _ & H). destruct H as [-> _].
  - repeat constructor.
  - vm_compute. reflexivity.
Defined.

(** A key under a foreign namespace: its deletion fails the check after it was
    removed from the map, and it stays in the cache. *)
Example misfiled_key_cached :
  (exec_all (Cache := cache) [OpInsert "test" key1; OpDelete "test" "k1"; OpGet "test" "k1"; OpCount "test"]
     KeyStore_new).1 =
  [AUnit (Ok tt); AKey (Err (NamespaceViolation "test" "prod")); AKey (Err (NamespaceViolation "test" "prod"));
   ACount 0].
Proof. vm_compute. reflexivity. Qed.

Lemma deleted_key_served_witness :
  (get "prod" "k1" (insert_cache "prod" key1 (MkKeyStore ∅ None : @KeyStore cache)).2).1 = Ok key1.
Proof.
  refine (proj2 (deleted_key_served (Cache := cache) "prod" key1 KeyStore_new
    (map_put ("prod", "k1") key1 KeyStore_new) (MkKeyStore ∅ None) _ _ _ _)); vm_compute; reflexivity.
Defined.

Lemma clone_serves_deleted_key_witness :
  (get "prod" "k1" (MkKeyStore ∅ (hot_cache (get "prod" "k1" (KeyStore_clone store1)).2))).1 = Ok key1.
Proof.
  refine (proj2 (clone_serves_deleted_key (Cache := cache) "prod" "k1" store1 key1 (MkKeyStore ∅ None)
    store1_coherent _ _)); vm_compute; reflexivity.
Defined.

(** ** The manager *)

Abbreviation manager := (@DefaultKeyManager cache mem_storage).
Definition empty_storage : mem_storage := MemStorage ∅ true.
Definition spec1 : KeySpec :=
  MkKeySpec Ed25519 "prod" (MkKeyUsagePolicy true false false false (Some 1) None) ∅.
Definition pair1 : result (KeyMaterial * bytes) string := Ok (MkKeyMaterial [Byte.x01], [Byte.x02]).
Definition ops1 : Datatypes.list key_op :=
  [KGenerate spec1 pair1 "k1" 0; KIncrement "k1" "prod"; KRotate "k1" "prod" pair1 "k2" 10;
   KUpdateState "k1" "prod" Compromised; KGenerate spec1 pair1 "k3" 20; KDelete "k3" "prod"].

Lemma keys_recovered_witness :
  exists s n m', storage (performs ops1 (with_storage empty_storage) : manager) = Some s /\
    hydrate (with_storage s : manager) = (Ok n, m') /\
    state <$> keys (store m') !! ("prod", "k2") = Some Active.
Proof.
  destruct (keys_recovered (Cache := cache) key_postcard_total empty_storage ops1) as (s & n & m' & Hs & Hh & Hk);
    [reflexivity| | |].
  - intros c. unfold raw. simpl. by rewrite lookup_empty.
  - repeat split; vm_compute; reflexivity.
  - exists s, n, m'. split; [exact Hs|]. split; [exact Hh|]. specialize (Hk ("prod", "k2")).
    assert (set_operation_count 0 <$> keys (store (performs ops1 (with_storage empty_storage) : manager)) !! ("prod", "k2")
      = Some (MkKey "k2" Ed25519 (Some (MkKeyMaterial [Byte.x01])) (Some [Byte.x02]) Active "prod" 10
           (ks_policy spec1) 2 (Some "k1") 0 None)) as Hv by (vm_compute; reflexivity).
    rewrite Hv in Hk. apply fmap_Some in Hk as (k & -> & Hk).
    change (Some (state (set_operation_count 0 k)) = Some Active). rewrite <- Hk. reflexivity.
Defined.

Definition running1 : manager := (generate_key spec1 pair1 "k1" 0 (with_storage empty_storage)).2.
Definition storage1 : mem_storage := default empty_storage (storage running1).

Lemma empty_storage_synced : synced empty_storage (with_storage empty_storage : manager).
Proof. apply with_storage_synced; [reflexivity|]. intros c. unfold raw. simpl. by rewrite lookup_empty. Qed.

Lemma running1_synced : exists s, synced s running1.
Proof.
  apply (generate_synced key_postcard_total empty_storage); [apply empty_storage_synced| |done].
  simpl. apply lookup_empty.
Qed.

Lemma rotate_key_spec_witness :
  exists m', rotate_key "k1" "prod" pair1 "k2" 10 running1 = (Ok "k2", m') /\
    version <$> keys (store m') !! ("prod", "k2") = Some 2 /\
    state <$> keys (store m') !! ("prod", "k1") = Some Deactivated.
Proof.
  destruct running1_synced as [s Hs].
  destruct (rotate_key_spec key_postcard_total s running1 "k1" "prod" key1 (MkKeyMaterial [Byte.x01]) [Byte.x02]
    "k2" 10 Hs) as (s' & m' & Hr & _ & Hk); [vm_compute; reflexivity..|done|].
  exists m'. split; [exact Hr|]. rewrite Hk. split; vm_compute; reflexivity.
Defined.

Lemma on_store_storage {A} (c : M KeyStore Error A) (m : manager) : storage (on_store c m).2 = storage m.
Proof. unfold on_store. by destruct (c (store m)). Qed.

(** The operation limit of a key does not survive a restart: a key that
    has used up its budget is refused, and handed out again by a manager that
    loaded it from the backend, since counting does not write through. *)
Theorem operation_limit_reset :
  let used := (manager_increment_operations "k1" "prod" running1).2 in
  let restarted := (hydrate (with_storage storage1 : manager)).2 in
  storage used = storage running1 /\
  (get_key "k1" "prod" 5 used).1 = Err (MaxOperationsReached "k1") /\
  (get_key "k1" "prod" 5 restarted).1 = Ok key1.
Proof.
  intros used restarted. split; [apply on_store_storage|]. split; vm_compute; reflexivity.
Qed.

(** A deletion that the backend refuses is reported as a success, and the
    key is back, active, after a restart. *)
Theorem deleted_key_returns :
  let stuck := MemStorage (st_map storage1) false in
  let running : manager := MkKeyManager (store running1) (Some stuck) in
  let after := (delete_key "k1" "prod" running).2 in
  (delete_key "k1" "prod" running).1 = Ok tt /\
  (get_key "k1" "prod" 5 after).1 = Err (KeyNotFound "k1") /\
  (get_key "k1" "prod" 5 (hydrate (with_storage (default empty_storage (storage after)) : manager)).2).1
    = Ok key1.
Proof. vm_compute. split; [reflexivity|]. split; reflexivity. Qed.
