(* ===== verification/FileKeysWitness.v ===== *)
(** * A run of the key manager on the encrypted file storage *)

From Stdlib Require Import ZArith Lia Strings.Byte.
From stdpp Require Import base gmap strings list.
From S2P Require Import Prelude External Platform FileSystem Journal EncryptedFs CrashLogic CrashRecovery CrashSafety.
From S2P Require Import DurableStore FsWitness.
From S2P Require Import AesGcm KeyTypes KeyStore KeyManager KeyManagerCorrect FileKeys KeyWitness.
Import Concrete Concrete2.
#[local] Abbreviation list := Datatypes.list.
#[local] Existing Instances encrypted_postcard checksummed_postcard metadata_postcard entry_postcard sizes.
#[local] Existing Instances key_eq_dec key_countable toy_public_keys.

(** The keys of the run by number, other keys in the codec of a countable
    type. *)
Definition key2 : Key := new_key "k2" spec1 (MkKeyMaterial [Byte.x01]) [Byte.x02] 10.
Definition bad_namespace : KeySpec := MkKeySpec (ks_key_type spec1) "a..b" (ks_policy spec1) (ks_labels spec1).
Definition bad_key : Key := new_key "k1" bad_namespace (MkKeyMaterial [Byte.x01]) [Byte.x02] 0.
Definition table : list Key := [key1; key2; set_state Compromised key1; bad_key].
Definition small_key (k : Key) : option bytes :=
  (fun p => [byte_of_Z (Z.of_nat p.1)]) <$> list_find (k =.) table.
Definition parse_key (b : bytes) : option Key :=
  match b with [x] => table !! Z.to_nat (byte_to_Z x) | _ => None end.

Lemma small_key_parse k b : small_key k = Some b -> parse_key b = Some k.
Proof.
  unfold small_key. intros ([n k'] & (Hn & -> & _)%list_find_Some & ->)%fmap_Some. cbn.
  pose proof (lookup_lt_Some _ _ _ Hn) as Hl. cbn in Hl. rewrite byte_to_of, Z.mod_small by lia. by rewrite Nat2Z.id.
Qed.

#[local] Instance numbered_postcard : Postcard Key := compact_postcard small_key parse_key small_key_parse.

Lemma toy_seals c n a m :
  length n = 12%nat -> Z.of_nat (length m) < 2 ^ 32 -> exists ct, aead_encrypt (Aead := toy_aead) c n a m = Ok ct.
Proof. by eexists. Qed.

Abbreviation file_manager := (@DefaultKeyManager cache EncryptedFileStorage).
#[local] Instance files_steady : SteadyStorage EncryptedFileStorage :=
  file_steady_storage kek codecs toy_seals.

Definition file_ops : list key_op :=
  [KGenerate spec1 pair1 "k1" 0; KGenerate spec1 pair1 "k2" 10; KUpdateState "k1" "prod" Compromised;
   KDelete "k2" "prod"].
Definition file_run : file_manager := performs file_ops (with_storage started).

(** Deciding whether the storage takes a key. *)
Definition takes (ns : string) (k : Key) : bool :=
  match to_allocvec k with
  | Ok b =>
      is_ok (validate_path_component ns "namespace") && is_ok (validate_path_component (id k) "key ID") &&
      (Z.of_nat (String.length (id k) + String.length ns + length b) <? 2 ^ 32 - 1024)
  | Err _ => true
  end.

Lemma takes_storable ns k : takes ns k = true -> storable ns k.
Proof.
  unfold takes. intros H b Hb. rewrite Hb in H. apply andb_true_iff in H as [[H1 H2]%andb_true_iff H3%Z.ltb_lt].
  split; [split|done]; [destruct (validate_path_component ns _) as [[]|]|destruct (validate_path_component (id k) _) as [[]|]]; done.
Qed.

Lemma file_ops_fresh : fresh_run file_ops (with_storage started : file_manager).
Proof.
  split; [split; [vm_compute; reflexivity|]|].
  { intros pr pb [= <- <-]. apply takes_storable. vm_compute. reflexivity. }
  split; [split; [vm_compute; reflexivity|]|].
  { intros pr pb [= <- <-]. apply takes_storable. vm_compute. reflexivity. }
  split; [|by split].
  intros k Hk. apply takes_storable. vm_compute in Hk. injection Hk as <-. vm_compute. reflexivity.
Qed.

(** A namespace whose name is not a plain file name: the manager creates it and
    journals the key before the storage rejects the name, and from then on
    the storage can not be opened. *)
Definition bad_run : result KeyId Error * file_manager :=
  generate_key bad_namespace pair1 "k1" 0 (with_storage started).
Example bad_namespace_blocks_restart :
  is_ok bad_run.1 = false /\ from_option (fun s => is_ok (open kek (disk s)).1) true (storage bad_run.2) = false.
Proof. split; vm_compute; reflexivity. Qed.

Lemma keys_survive_restart_witness :
  exists s s' n m', storage file_run = Some s /\ (open kek (disk s)).1 = Ok s' /\
    hydrate (with_storage s' : file_manager) = (Ok n, m') /\
    state <$> keys (store m') !! ("prod", "k1") = Some Compromised /\ keys (store m') !! ("prod", "k2") = None.
Proof.
  destruct (keys_survive_restart kek codecs toy_seals (Cache := cache) (blank []) started
    (create_with_new_key kek (blank [])).2 file_ops (compact_postcard_total small_key parse_key small_key_parse) (blank_drawn []) eq_refl started_ok)
    as (s & s' & n & m' & Hs & Ho & Hh & Hk); [vm_compute; reflexivity|apply file_ops_fresh|].
  exists s, s', n, m'. split; [exact Hs|]. split; [exact Ho|]. split; [exact Hh|].
  pose proof (Hk ("prod", "k1")) as H1. pose proof (Hk ("prod", "k2")) as H2.
  assert (E1 : (state <$> (set_operation_count 0 <$> keys (store m') !! ("prod", "k1"))) = Some Compromised)
    by (rewrite H1; vm_compute; reflexivity).
  assert (E2 : set_operation_count 0 <$> keys (store m') !! ("prod", "k2") = None)
    by (rewrite H2; vm_compute; reflexivity).
  split; [by destruct (keys (store m') !! ("prod", "k1"))|by destruct (keys (store m') !! ("prod", "k2"))].
Defined.
