(* ===== verification/AccessControl.v ===== *)
(** * Roles, namespaces and access control lists

    [crates/auth/src/rbac], [namespace.rs], [acl.rs], [error.rs] and
    [mtls/identity.rs]: the three layers every request has to pass.  Hash maps
    and hash sets are finite maps and sets; where the source iterates over
    one, the order is that of [map_to_list] or [elements], and the theorems
    speak of membership only.  [now] is the clock. *)

From Stdlib Require Import ZArith Lia.
From stdpp Require Import base gmap strings list finite.
From S2P Require Import Prelude Platform.

(** ** Errors ([error.rs]) *)

Inductive AuthError :=
| InvalidCertificate (s : string) | CertificateValidationFailed (s : string)
| CertificateExpired | CertificateNotYetValid | InvalidCertificateChain | IdentityNotFound
| PermissionDenied (s : string) | NamespaceAccessDenied (s : string)
| InvalidSession (s : string) | SessionExpired | RoleNotFound (s : string) | InvalidAcl (s : string)
| TlsConfigError (s : string) | CertificateParsingError (s : string)
| CertificateRevoked | CertificatePinningFailed | InvalidKeyUsage
| RateLimitExceeded (s : string) | RateLimited | AuthUnauthorized (s : string)
| CircuitBreakerOpen | AuthIo (s : string) | AuthJson (s : string) | AuthInternal (s : string).

Definition AuthError_to_string (e : AuthError) : string :=
  match e with
  | InvalidCertificate s => "Invalid certificate: " +:+ s
  | CertificateValidationFailed s => "Certificate validation failed: " +:+ s
  | CertificateExpired => "Certificate expired"
  | CertificateNotYetValid => "Certificate not yet valid"
  | InvalidCertificateChain => "Invalid certificate chain"
  | IdentityNotFound => "Client identity not found in certificate"
  | PermissionDenied s => "Permission denied: " +:+ s
  | NamespaceAccessDenied s => "Access denied to namespace: " +:+ s
  | InvalidSession s => "Invalid session: " +:+ s
  | SessionExpired => "Session expired"
  | RoleNotFound s => "Role not found: " +:+ s
  | InvalidAcl s => "Invalid ACL: " +:+ s
  | TlsConfigError s => "TLS configuration error: " +:+ s
  | CertificateParsingError s => "Certificate parsing error: " +:+ s
  | CertificateRevoked => "Certificate revoked"
  | CertificatePinningFailed => "Certificate pinning failed"
  | InvalidKeyUsage => "Invalid key usage"
  | RateLimitExceeded s => "Rate limit exceeded: " +:+ s
  | RateLimited => "Rate limited"
  | AuthUnauthorized s => "Unauthorized: " +:+ s
  | CircuitBreakerOpen => "Circuit breaker open"
  | AuthIo s => "IO error: " +:+ s
  | AuthJson s => "JSON error: " +:+ s
  | AuthInternal s => "Internal error: " +:+ s
  end.

(** ** Roles ([rbac/role.rs]) *)

Inductive Role := Admin | Operator | User | Auditor.
#[export] Instance Role_eq_dec : EqDecision Role.
Proof. solve_decision. Defined.
Definition Role_all : list Role := [Admin; Operator; User; Auditor].
#[export] Instance Role_finite : Finite Role.
Proof.
  refine {| enum := Role_all |}; [|by intros []; repeat constructor].
  by apply (bool_decide_unpack _).
Defined.

Definition Role_as_str (r : Role) : string :=
  match r with Admin => "admin" | Operator => "operator" | User => "user" | Auditor => "auditor" end.
(** [{:?}] *)
Definition Role_debug (r : Role) : string :=
  match r with Admin => "Admin" | Operator => "Operator" | User => "User" | Auditor => "Auditor" end.
Definition can_assume (r other : Role) : bool :=
  match r, other with
  | Admin, _ => true
  | Operator, (User | Auditor) => true
  | User, Auditor => true
  | _, _ => false
  end.
Definition hierarchy_level (r : Role) : Z :=
  match r with Admin => 3 | Operator => 2 | User => 1 | Auditor => 0 end.

(** ** Permissions ([rbac/permission.rs]) *)

Inductive Permission :=
| PGenerateKey | PImportKey | PDeleteKey | PSign | PEncrypt | PDecrypt | PRotateKey | PViewMetadata
| PViewAuditLogs | PExportKey | PManageNamespaces | PManageWebhooks | PManageAcls | PManageRoles
| PBackupKeys | PRestoreKeys.
#[export] Instance Permission_eq_dec : EqDecision Permission.
Proof. solve_decision. Defined.
Definition Permission_all : list Permission :=
  [PGenerateKey; PImportKey; PDeleteKey; PSign; PEncrypt; PDecrypt; PRotateKey; PViewMetadata;
   PViewAuditLogs; PExportKey; PManageNamespaces; PManageWebhooks; PManageAcls; PManageRoles;
   PBackupKeys; PRestoreKeys].
#[export] Instance Permission_finite : Finite Permission.
Proof.
  refine {| enum := Permission_all |}; [|by intros []; repeat constructor].
  by apply (bool_decide_unpack _).
Defined.

Definition is_privileged (p : Permission) : bool :=
  match p with
  | PExportKey | PManageNamespaces | PManageWebhooks | PManageRoles | PDeleteKey | PBackupKeys
  | PRestoreKeys => true
  | _ => false
  end.
Definition Permission_as_str (p : Permission) : string :=
  match p with
  | PGenerateKey => "generate_key" | PImportKey => "import_key" | PDeleteKey => "delete_key"
  | PSign => "sign" | PEncrypt => "encrypt" | PDecrypt => "decrypt" | PRotateKey => "rotate_key"
  | PViewMetadata => "view_metadata" | PViewAuditLogs => "view_audit_logs"
  | PExportKey => "export_key" | PManageNamespaces => "manage_namespaces"
  | PManageWebhooks => "manage_webhooks" | PManageAcls => "manage_acls"
  | PManageRoles => "manage_roles" | PBackupKeys => "backup_keys" | PRestoreKeys => "restore_keys"
  end.

(** The bit of each constant of the [bitflags!] block; a set of flags is a
    [u64]. *)
Abbreviation PermissionFlags := Z (only parsing).
Definition flag_bit (p : Permission) : Z :=
  match p with
  | PGenerateKey => 0 | PImportKey => 1 | PDeleteKey => 2 | PSign => 3 | PEncrypt => 4
  | PDecrypt => 5 | PRotateKey => 6 | PViewMetadata => 7 | PViewAuditLogs => 8 | PExportKey => 9
  | PManageNamespaces => 10 | PManageAcls => 11 | PManageRoles => 12 | PBackupKeys => 13
  | PRestoreKeys => 14 | PManageWebhooks => 15
  end.
Definition to_flag (p : Permission) : PermissionFlags := Z.shiftl 1 (flag_bit p).
Definition READ_ONLY : PermissionFlags := Z.lor (to_flag PViewMetadata) (to_flag PViewAuditLogs).
Definition CRYPTO_OPS : PermissionFlags :=
  Z.lor (Z.lor (to_flag PSign) (to_flag PEncrypt)) (to_flag PDecrypt).
Definition ADMIN : PermissionFlags :=
  Z.lor (Z.lor (to_flag PManageNamespaces) (to_flag PManageAcls)) (to_flag PManageRoles).
Definition ALL : PermissionFlags := 2 ^ 64 - 1.
(** [contains] of a [bitflags!] type. *)
Definition flags_contain (self other : PermissionFlags) : bool := Z.land self other =? other.
Definition from_permissions (permissions : list Permission) : PermissionFlags :=
  foldl (fun acc p => Z.lor acc (to_flag p)) 0 permissions.
Definition has_permission (self : PermissionFlags) (p : Permission) : bool :=
  flags_contain self (to_flag p).

(** ** The role policy ([rbac/policy.rs]) *)

Record RbacPolicy := MkRbacPolicy { role_permissions : gmap Role (gset Permission) }.

Definition default_permissions (r : Role) : gset Permission :=
  match r with
  | Admin => list_to_set Permission_all
  | Operator =>
      {[ PGenerateKey; PImportKey; PSign; PEncrypt; PDecrypt; PRotateKey; PViewMetadata; PManageAcls;
         PBackupKeys ]}
  | User => {[ PSign; PEncrypt; PDecrypt; PViewMetadata ]}
  | Auditor => {[ PViewMetadata; PViewAuditLogs ]}
  end.
Definition initialize_default_permissions (p : RbacPolicy) : RbacPolicy :=
  MkRbacPolicy
    (<[Auditor := default_permissions Auditor]> (<[User := default_permissions User]>
      (<[Operator := default_permissions Operator]> (<[Admin := default_permissions Admin]>
        (role_permissions p))))).
Definition RbacPolicy_new : RbacPolicy := initialize_default_permissions (MkRbacPolicy ∅).

Definition can (policy : RbacPolicy) (role : Role) (permission : Permission) : bool :=
  match role_permissions policy !! role with
  | Some perms => bool_decide (permission ∈ perms)
  | None => false
  end.
Definition can_any (policy : RbacPolicy) (roles : list Role) (permission : Permission) : bool :=
  existsb (fun role => can policy role permission) roles.
Definition can_all (policy : RbacPolicy) (roles : list Role) (permission : Permission) : bool :=
  forallb (fun role => can policy role permission) roles.
Definition require (policy : RbacPolicy) (role : Role) (permission : Permission) : result unit AuthError :=
  if can policy role permission then Ok tt
  else Err (PermissionDenied ("Role " +:+ Role_as_str role +:+ " does not have permission " +:+
                              Permission_as_str permission)).
Definition require_any (policy : RbacPolicy) (roles : list Role) (permission : Permission)
  : result unit AuthError :=
  if can_any policy roles permission then Ok tt
  else Err (PermissionDenied ("None of the roles have permission " +:+ Permission_as_str permission)).
Definition get_permissions (policy : RbacPolicy) (role : Role) : option (gset Permission) :=
  role_permissions policy !! role.
Definition grant (role : Role) (permission : Permission) (policy : RbacPolicy) : RbacPolicy :=
  MkRbacPolicy (<[role := default ∅ (role_permissions policy !! role) ∪ {[ permission ]}]>
                  (role_permissions policy)).
Definition revoke (role : Role) (permission : Permission) (policy : RbacPolicy) : bool * RbacPolicy :=
  match role_permissions policy !! role with
  | Some perms =>
      (bool_decide (permission ∈ perms),
       MkRbacPolicy (<[role := perms ∖ {[ permission ]}]> (role_permissions policy)))
  | None => (false, policy)
  end.
Definition roles_with_permission (policy : RbacPolicy) (permission : Permission) : list Role :=
  (map_to_list (filter (fun '(_, perms) => permission ∈ perms) (role_permissions policy))).*1.

(** ** Clients ([mtls/identity.rs]) *)

Record ClientIdentity := MkIdentity {
  common_name : string;
  organization : option string;
  namespace : string;
  roles : list Role;
  serial_number : string
}.
#[export] Instance ClientIdentity_eq_dec : EqDecision ClientIdentity.
Proof. solve_decision. Defined.

Definition has_role (i : ClientIdentity) (role : Role) : bool := bool_decide (role ∈ roles i).
Definition can_access_namespace (i : ClientIdentity) (ns : string) : bool := bool_decide (namespace i = ns).
Definition validate (i : ClientIdentity) : result unit AuthError :=
  if bool_decide (roles i = []) then Err (InvalidCertificate "Identity must have at least one role")
  else if bool_decide (common_name i = EmptyString) then
    Err (InvalidCertificate "Common name cannot be empty")
  else if bool_decide (namespace i = EmptyString) then
    Err (InvalidCertificate "Namespace cannot be empty")
  else Ok tt.

(** ** Namespaces ([namespace.rs]) *)

Record NamespaceAcl := MkNamespaceAcl {
  allowed_clients : gset string;
  is_restricted : bool
}.
Record NamespaceMetadata := MkNamespaceMetadata {
  ns_acl : NamespaceAcl;
  ns_created_at : DateTime
}.
Abbreviation NamespaceManager := (gmap string NamespaceMetadata).

(** [create_namespace] looks the name up and inserts it in two steps. *)
Definition create_check (ns : string) (m : NamespaceManager) : result unit AuthError :=
  if bool_decide (ns = EmptyString) then Err (InvalidCertificate "Namespace name cannot be empty")
  else if bool_decide (is_Some (m !! ns)) then
    Err (AuthInternal ("Namespace " +:+ ns +:+ " already exists"))
  else Ok tt.
Definition create_insert (ns : string) (now : DateTime) (m : NamespaceManager) : NamespaceManager :=
  <[ns := MkNamespaceMetadata (MkNamespaceAcl ∅ false) now]> m.
Definition create_namespace (ns : string) (now : DateTime) : M NamespaceManager AuthError unit := fun m =>
  match create_check ns m with
  | Ok _ => (Ok tt, create_insert ns now m)
  | Err e => (Err e, m)
  end.
Definition created_at (ns : string) (m : NamespaceManager) : option DateTime := ns_created_at <$> m !! ns.
Definition delete_namespace (ns : string) : M NamespaceManager AuthError unit := fun m =>
  match m !! ns with
  | Some _ => (Ok tt, delete ns m)
  | None => (Err (AuthInternal ("Namespace " +:+ ns +:+ " does not exist")), m)
  end.
Definition grant_access (ns client_cn : string) (now : DateTime) : M NamespaceManager AuthError unit :=
  fun m =>
  match m !! ns with
  | Some metadata =>
      (Ok tt, <[ns := MkNamespaceMetadata
                        (MkNamespaceAcl (allowed_clients (ns_acl metadata) ∪ {[ client_cn ]}) true)
                        (ns_created_at metadata)]> m)
  | None => (Ok tt, <[ns := MkNamespaceMetadata (MkNamespaceAcl {[ client_cn ]} true) now]> m)
  end.
Definition revoke_access (ns client_cn : string) : M NamespaceManager AuthError unit := fun m =>
  match m !! ns with
  | Some metadata =>
      (Ok tt, <[ns := MkNamespaceMetadata
                        (MkNamespaceAcl (allowed_clients (ns_acl metadata) ∖ {[ client_cn ]})
                                        (is_restricted (ns_acl metadata)))
                        (ns_created_at metadata)]> m)
  | None => (Err (AuthInternal ("Namespace " +:+ ns +:+ " does not exist")), m)
  end.
Definition acl_admits (acl : NamespaceAcl) (client_cn : string) : bool :=
  negb (is_restricted acl) || bool_decide (client_cn ∈ allowed_clients acl).
Definition has_access (m : NamespaceManager) (i : ClientIdentity) (ns : string) : bool :=
  if negb (bool_decide (namespace i = ns)) then false
  else match m !! ns with
       | Some metadata => acl_admits (ns_acl metadata) (common_name i)
       | None => true
       end.
Definition require_access (m : NamespaceManager) (i : ClientIdentity) (ns : string) : result unit AuthError :=
  if has_access m i ns then Ok tt
  else Err (NamespaceAccessDenied ("Client " +:+ common_name i +:+ " does not have access to namespace "
                                   +:+ ns)).
Definition get_accessible_namespaces (m : NamespaceManager) (i : ClientIdentity) : list string :=
  let found :=
    (filter (fun '(ns, metadata) => namespace i = ns /\ acl_admits (ns_acl metadata) (common_name i))
       (map_to_list m)).*1 in
  if bool_decide (found = []) && negb (bool_decide (namespace i = EmptyString)) then [namespace i]
  else found.
Definition list_namespaces (m : NamespaceManager) : list string := (map_to_list m).*1.
Definition get_namespace_clients (m : NamespaceManager) (ns : string) : option (list string) :=
  (fun metadata => elements (allowed_clients (ns_acl metadata))) <$> m !! ns.

(** ** Key access control lists ([acl.rs]) *)

Record KeyAcl := MkKeyAcl {
  acl_key_id : string;
  acl_allowed : gset string;
  acl_denied : gset string;
  required_permissions : gset Permission;
  acl_restricted : bool
}.

Definition KeyAcl_new (key_id : string) : KeyAcl := MkKeyAcl key_id ∅ ∅ ∅ false.
Definition KeyAcl_new_restricted (key_id : string) (allowed : gset string) : KeyAcl :=
  MkKeyAcl key_id allowed ∅ ∅ true.
Definition acl_allow_client (cn : string) (a : KeyAcl) : KeyAcl :=
  MkKeyAcl (acl_key_id a) (acl_allowed a ∪ {[ cn ]}) (acl_denied a) (required_permissions a) true.
Definition acl_deny_client (cn : string) (a : KeyAcl) : KeyAcl :=
  MkKeyAcl (acl_key_id a) (acl_allowed a) (acl_denied a ∪ {[ cn ]}) (required_permissions a)
    (acl_restricted a).
Definition remove_allowed (cn : string) (a : KeyAcl) : KeyAcl :=
  MkKeyAcl (acl_key_id a) (acl_allowed a ∖ {[ cn ]}) (acl_denied a) (required_permissions a)
    (acl_restricted a).
Definition remove_denied (cn : string) (a : KeyAcl) : KeyAcl :=
  MkKeyAcl (acl_key_id a) (acl_allowed a) (acl_denied a ∖ {[ cn ]}) (required_permissions a)
    (acl_restricted a).
Definition require_permission (p : Permission) (a : KeyAcl) : KeyAcl :=
  MkKeyAcl (acl_key_id a) (acl_allowed a) (acl_denied a) (required_permissions a ∪ {[ p ]})
    (acl_restricted a).
Definition remove_permission (p : Permission) (a : KeyAcl) : KeyAcl :=
  MkKeyAcl (acl_key_id a) (acl_allowed a) (acl_denied a) (required_permissions a ∖ {[ p ]})
    (acl_restricted a).
Definition acl_can_access (a : KeyAcl) (cn : string) : bool :=
  if bool_decide (cn ∈ acl_denied a) then false
  else if negb (acl_restricted a) then true
  else bool_decide (cn ∈ acl_allowed a).
Definition acl_can_access_with_permission (a : KeyAcl) (cn : string) (p : Permission) : bool :=
  if negb (acl_can_access a cn) then false
  else if bool_decide (required_permissions a = ∅) then true
  else bool_decide (p ∈ required_permissions a).

Abbreviation AclManager := (gmap string KeyAcl).

Definition create_acl (key_id : string) (restricted : bool) (m : AclManager) : KeyAcl * AclManager :=
  let acl := if restricted then KeyAcl_new_restricted key_id ∅ else KeyAcl_new key_id in
  (acl, <[key_id := acl]> m).
Definition get_acl (m : AclManager) (key_id : string) : option KeyAcl := m !! key_id.
Definition update_acl (a : KeyAcl) (m : AclManager) : AclManager := <[acl_key_id a := a]> m.
Definition delete_acl (key_id : string) (m : AclManager) : bool * AclManager :=
  (bool_decide (is_Some (m !! key_id)), delete key_id m).
Definition on_acl (key_id : string) (f : KeyAcl -> KeyAcl) : M AclManager AuthError unit := fun m =>
  match m !! key_id with
  | Some acl => (Ok tt, <[key_id := f acl]> m)
  | None => (Err (InvalidAcl ("ACL not found for key " +:+ key_id)), m)
  end.
Definition allow_client (key_id cn : string) : M AclManager AuthError unit :=
  on_acl key_id (acl_allow_client cn).
Definition deny_client (key_id cn : string) : M AclManager AuthError unit :=
  on_acl key_id (acl_deny_client cn).
Definition can_access (m : AclManager) (key_id : string) (i : ClientIdentity) : bool :=
  match m !! key_id with Some acl => acl_can_access acl (common_name i) | None => true end.
Definition require_key_access (m : AclManager) (key_id : string) (i : ClientIdentity)
  : result unit AuthError :=
  if can_access m key_id i then Ok tt
  else Err (PermissionDenied ("Client " +:+ common_name i +:+ " does not have access to key " +:+ key_id)).
Definition can_access_with_permission (m : AclManager) (key_id : string) (i : ClientIdentity)
    (p : Permission) : bool :=
  match m !! key_id with
  | Some acl => acl_can_access_with_permission acl (common_name i) p
  | None => true
  end.
Definition require_access_with_permission (m : AclManager) (key_id : string) (i : ClientIdentity)
    (p : Permission) : result unit AuthError :=
  if can_access_with_permission m key_id i p then Ok tt
  else Err (PermissionDenied ("Client " +:+ common_name i +:+ " does not have access to key " +:+ key_id
                              +:+ " for permission " +:+ Permission_as_str p)).
Definition get_accessible_keys (m : AclManager) (i : ClientIdentity) : list string :=
  (filter (fun '(_, acl) => acl_can_access acl (common_name i)) (map_to_list m)).*1.
Definition get_namespace_keys (m : AclManager) (ns : string) : list string :=
  filter (fun key_id => is_Some (strip_prefix (ns +:+ ":") key_id)) (map_to_list m).*1.
Definition list_acls (m : AclManager) : list KeyAcl := (map_to_list m).*2.

(** ** Permission flags are sets of permissions *)

Lemma flag_bit_nonneg p : 0 <= flag_bit p.
Proof. by destruct p. Qed.

Lemma flag_bit_inj p q : flag_bit p = flag_bit q -> p = q.
Proof. by destruct p, q. Qed.

Lemma testbit_to_flag p i : 0 <= i -> Z.testbit (to_flag p) i = bool_decide (i = flag_bit p).
Proof.
  intros Hi. unfold to_flag. rewrite Z.shiftl_1_l, Z.pow2_bits_eqb by apply flag_bit_nonneg.
  case_bool_decide; [by apply Z.eqb_eq|by apply Z.eqb_neq].
Qed.

Lemma has_permission_testbit f p : has_permission f p = Z.testbit f (flag_bit p).
Proof.
  pose proof (flag_bit_nonneg p) as Hp. unfold has_permission, flags_contain, to_flag.
  rewrite Z.shiftl_1_l. apply eq_bool_prop_intro. rewrite !Is_true_true, Z.eqb_eq. split.
  - intros E. apply (f_equal (fun x => Z.testbit x (flag_bit p))) in E.
    by rewrite Z.land_spec, Z.pow2_bits_true, andb_true_r in E.
  - intros E. apply Z.bits_inj'. intros i Hi. rewrite Z.land_spec, Z.pow2_bits_eqb by done.
    destruct (Z.eqb_spec (flag_bit p) i) as [<-|]; [by rewrite E|by rewrite andb_false_r].
Qed.

Lemma testbit_from_permissions ps i :
  0 <= i -> Z.testbit (from_permissions ps) i = bool_decide (Exists (fun p => flag_bit p = i) ps).
Proof.
  intros Hi. unfold from_permissions.
  assert (forall acc, Z.testbit (foldl (fun acc p => Z.lor acc (to_flag p)) acc ps) i =
                      Z.testbit acc i || bool_decide (Exists (fun p => flag_bit p = i) ps)) as H.
  - induction ps as [|p ps IH]; intros acc; cbn [foldl].
    + rewrite bool_decide_eq_false_2 by (intros H; inversion H). by rewrite orb_false_r.
    + rewrite IH, Z.lor_spec, testbit_to_flag by done.
      rewrite (bool_decide_ext (Exists _ (p :: ps)) (i = flag_bit p \/ Exists (fun p => flag_bit p = i) ps)).
      * by rewrite bool_decide_or, orb_assoc.
      * rewrite Exists_cons. naive_solver.
  - by rewrite H, Z.testbit_0_l.
Qed.

Lemma from_permissions_nonneg ps : 0 <= from_permissions ps.
Proof.
  unfold from_permissions. cut (forall acc, 0 <= acc -> 0 <= foldl (fun acc p => Z.lor acc (to_flag p)) acc ps).
  - intros H. by apply H.
  - induction ps as [|q ps IH]; intros acc Hacc; [done|]. cbn [foldl]. apply IH, Z.lor_nonneg.
    split; [done|]. unfold to_flag. apply Z.shiftl_nonneg. lia.
Qed.

(** A set of permission flags is a set of permissions.  The flags built from
    a list of permissions grant exactly the permissions of the list, the bit
    operations on flags are the set operations, the predefined constants
    grant what they name, and nothing beyond the 16 defined bits is ever
    set. *)
Theorem permission_flags_sets (ps qs : list Permission) (f g : PermissionFlags) (p : Permission) :
  has_permission (from_permissions ps) p = bool_decide (p ∈ ps) /\
  has_permission (Z.lor f g) p = has_permission f p || has_permission g p /\
  has_permission (Z.land f g) p = has_permission f p && has_permission g p /\
  from_permissions (ps ++ qs) = Z.lor (from_permissions ps) (from_permissions qs) /\
  has_permission READ_ONLY p = bool_decide (p ∈ [PViewMetadata; PViewAuditLogs]) /\
  has_permission CRYPTO_OPS p = bool_decide (p ∈ [PSign; PEncrypt; PDecrypt]) /\
  has_permission ADMIN p = bool_decide (p ∈ [PManageNamespaces; PManageAcls; PManageRoles]) /\
  has_permission ALL p = true /\ in_u 16 (from_permissions ps).
Proof.
  rewrite !has_permission_testbit, Z.lor_spec, Z.land_spec. split_and!; try done; try by destruct p.
  - rewrite testbit_from_permissions by apply flag_bit_nonneg. apply bool_decide_ext.
    rewrite Exists_exists. split; [intros (q & Hq & E%flag_bit_inj); by subst|by exists p].
  - apply Z.bits_inj'. intros i Hi. rewrite Z.lor_spec, !testbit_from_permissions by done.
    rewrite <- bool_decide_or. apply bool_decide_ext. apply Exists_app.
  - split; [apply from_permissions_nonneg|].
    destruct (Z.lt_ge_cases (from_permissions ps) (2 ^ 16)) as [|Hge]; [done|exfalso].
    pose proof (Z.log2_le_mono _ _ Hge) as Hl. rewrite Z.log2_pow2 in Hl by done.
    pose proof (Z.bit_log2 (from_permissions ps) ltac:(lia)) as Hb.
    rewrite testbit_from_permissions, bool_decide_eq_true, Exists_exists in Hb by lia.
    destruct Hb as (q & _ & Hq). destruct q; simpl in Hq; lia.
Qed.

(** ** What the layers decide *)

Lemma can_any_true policy rs p : can_any policy rs p = true <-> exists r, r ∈ rs /\ can policy r p = true.
Proof. unfold can_any. rewrite existsb_exists. by setoid_rewrite list_elem_of_In. Qed.

Lemma require_any_Ok policy rs p : require_any policy rs p = Ok tt <-> can_any policy rs p = true.
Proof. unfold require_any. by destruct (can_any policy rs p). Qed.

Lemma require_access_Ok m i ns : require_access m i ns = Ok tt <-> has_access m i ns = true.
Proof. unfold require_access. by destruct (has_access m i ns). Qed.

Lemma has_access_own m i ns : has_access m i ns = true -> namespace i = ns.
Proof. unfold has_access. by case_bool_decide. Qed.

Lemma require_key_access_Ok m k i : require_key_access m k i = Ok tt <-> can_access m k i = true.
Proof. unfold require_key_access. by destruct (can_access m k i). Qed.

Lemma require_access_with_permission_Ok m k i p :
  require_access_with_permission m k i p = Ok tt <-> can_access_with_permission m k i p = true.
Proof. unfold require_access_with_permission. by destruct (can_access_with_permission m k i p). Qed.

Lemma can_access_weaken m k i p : can_access_with_permission m k i p = true -> can_access m k i = true.
Proof.
  unfold can_access_with_permission, can_access, acl_can_access_with_permission.
  destruct (m !! k) as [acl|]; [|done]. by destruct (acl_can_access acl (common_name i)).
Qed.

(** The default policy keeps the privileged permissions to administrators,
    except that operators have [BackupKeys], although [is_privileged] is
    documented as requiring the administrator role. *)
Lemma default_privileged r p :
  is_privileged p = true ->
  can RbacPolicy_new r p = true <-> r = Admin \/ (r = Operator /\ p = PBackupKeys).
Proof.
  intros Hp. destruct r, p; try discriminate Hp;
    (split; [vm_compute; intros H; first [discriminate H | by left | by right]|
             intros [|[]]; first [discriminate | by vm_compute]]).
Qed.

(** ** Denials last *)

(** The operations of the list manager. *)
Inductive acl_op :=
| CreateAcl (key_id : string) (restricted : bool)
| UpdateAcl (a : KeyAcl)
| DeleteAcl (key_id : string)
| AllowClient (key_id cn : string)
| DenyClient (key_id cn : string).

Definition acl_step (m : AclManager) (op : acl_op) : AclManager :=
  match op with
  | CreateAcl k restricted => (create_acl k restricted m).2
  | UpdateAcl a => update_acl a m
  | DeleteAcl k => (delete_acl k m).2
  | AllowClient k cn => (allow_client k cn m).2
  | DenyClient k cn => (deny_client k cn m).2
  end.

(** The operations that replace the list of a key as a whole. *)
Definition replaces (k : string) (op : acl_op) : Prop :=
  match op with
  | CreateAcl k' _ | DeleteAcl k' => k' = k
  | UpdateAcl a => acl_key_id a = k
  | AllowClient _ _ | DenyClient _ _ => False
  end.

Definition denied_in (m : AclManager) (k cn : string) : Prop :=
  exists acl, m !! k = Some acl /\ cn ∈ acl_denied acl.

Lemma denied_no_access m k i p :
  denied_in m k (common_name i) -> can_access m k i = false /\ can_access_with_permission m k i p = false.
Proof.
  intros (acl & Hm & Hd). unfold can_access, can_access_with_permission, acl_can_access_with_permission,
    acl_can_access. rewrite Hm. by rewrite bool_decide_eq_true_2.
Qed.

Lemma on_acl_denied k' k cn (f : KeyAcl -> KeyAcl) m :
  (forall a, acl_denied a ⊆ acl_denied (f a)) -> denied_in m k cn -> denied_in (on_acl k' f m).2 k cn.
Proof.
  intros Hf (acl & Hm & Hd). unfold on_acl.
  destruct (m !! k') as [acl'|] eqn:E; simpl; [|by exists acl].
  destruct (decide (k' = k)) as [->|].
  - rewrite Hm in E. injection E as <-. exists (f acl). rewrite lookup_insert_eq. split; [done|].
    by apply Hf.
  - exists acl. by rewrite lookup_insert_ne.
Qed.

Lemma acl_step_denied m op k cn : ~ replaces k op -> denied_in m k cn -> denied_in (acl_step m op) k cn.
Proof.
  intros Hr Hd. pose proof Hd as (acl & Hm & Hc). destruct op; simpl in *.
  - unfold denied_in. rewrite lookup_insert_ne by done. by exists acl.
  - unfold denied_in, update_acl. rewrite lookup_insert_ne by done. by exists acl.
  - unfold denied_in. rewrite lookup_delete_ne by done. by exists acl.
  - apply on_acl_denied; [|done]. intros a. by simpl.
  - apply on_acl_denied; [|done]. intros a. simpl. set_solver.
Qed.

(** A denied client stays denied.  After [deny_client] on a key with a list,
    and after any further operations of the list manager that do not replace
    or drop the list of that key (allowing the client included), neither
    access check lets the client at the key, for any permission. *)
Theorem denial_lasts (m m' : AclManager) (k : string) (i : ClientIdentity) (ops : list acl_op)
    (p : Permission) :
  deny_client k (common_name i) m = (Ok tt, m') ->
  Forall (fun op => ~ replaces k op) ops ->
  require_key_access (foldl acl_step m' ops) k i <> Ok tt /\
  require_access_with_permission (foldl acl_step m' ops) k i p <> Ok tt.
Proof.
  intros Hdeny Hops. rewrite require_key_access_Ok, require_access_with_permission_Ok.
  assert (denied_in m' k (common_name i)) as Hd.
  { unfold deny_client, on_acl in Hdeny. destruct (m !! k) as [acl|]; [|done]. injection Hdeny as <-.
    eexists. rewrite lookup_insert_eq. split; [done|]. simpl. set_solver. }
  enough (denied_in (foldl acl_step m' ops) k (common_name i)) as H.
  { destruct (denied_no_access _ _ _ p H) as [-> ->]. done. }
  clear Hdeny. revert m' Hd. induction Hops as [|op ops Hop _ IH]; intros m' Hd; [done|].
  cbn [foldl]. by apply IH, acl_step_denied.
Qed.

(** ** A namespace created while access is granted *)

(** A grant that comes between the two steps of [create_namespace] is lost:
    the new unrestricted entry replaces the restricted one, and every client
    of the namespace has access. *)
Lemma create_overwrites_grant m m' ns cn now i :
  create_check ns m = Ok tt -> grant_access ns cn now m = (Ok tt, m') -> namespace i = ns ->
  common_name i <> cn ->
  has_access m' i ns = false /\ has_access (create_insert ns now m') i ns = true.
Proof.
  intros Hc Hg Hns Hcn. unfold create_check in Hc. case_bool_decide; [done|].
  case_bool_decide as Hm; [done|]. apply eq_None_not_Some in Hm. unfold grant_access in Hg.
  rewrite Hm in Hg. injection Hg as <-. unfold has_access, create_insert.
  rewrite bool_decide_eq_true_2 by done. rewrite !lookup_insert_eq. cbn. split; [|done].
  unfold acl_admits. cbn [is_restricted allowed_clients negb orb]. rewrite bool_decide_eq_false_2; [done|].
  set_solver.
Qed.
