(* ===== verification/Sessions.v ===== *)
(** * Client sessions

    [crates/auth/src/session]: tokens, scopes, sessions, the per-session rate
    limiter and the session manager.  Arguments that stand for effects:
    [now], the clock, read once per call; [id_random] and [token_random], the
    bytes drawn for a session id and for a token.  A computation of an
    instant outside the range of instants panics; the outcome [None] is that
    panic.  Metrics are left out.  Every method holds the entry it works on;
    [delegate_session] gives up the parent before it inserts the child, so
    its two halves are [delegate_prepare] and [delegate_insert]. *)

From Stdlib Require Import ZArith Lia Strings.Byte.
From stdpp Require Import base gmap strings list.
From S2P Require Import Prelude External Platform AccessControl.

Abbreviation SessionId := string.
Abbreviation TemplateId := string.

(** ** Tokens ([token.rs]) *)

Record SessionToken := MkToken { token_str : string }.
Record HashedToken := MkHashed { token_digest : bytes }.

Section tokens.
Context {SHA : Sha256} {HEX : Hex}.

Definition SessionToken_new (token_random : bytes) : SessionToken := MkToken (hex_encode token_random).
Definition HashedToken_from_token (token : SessionToken) : HashedToken :=
  MkHashed (sha256 (as_bytes (token_str token))).
Definition HashedToken_verify (h : HashedToken) (token : SessionToken) : bool :=
  bool_decide (token_digest h = token_digest (HashedToken_from_token token)).
End tokens.

(** ** Scopes and templates ([scope.rs]) *)

Record SessionScope := MkScope {
  allowed_operations : option (list Permission);
  allowed_keys : option (list string);
  max_operations : option Z;
  rate_limit : option Z;
  allowed_namespaces : option (list string)
}.
Definition SessionScope_new : SessionScope := MkScope None None None None None.

(** A restriction that is absent allows everything. *)
Definition admits `{EqDecision A} (restriction : option (list A)) (a : A) : bool :=
  match restriction with Some l => bool_decide (a ∈ l) | None => true end.
Definition scope_operation_allowed (s : SessionScope) (op : Permission) : bool :=
  admits (allowed_operations s) op.
Definition scope_key_allowed (s : SessionScope) (key_id : string) : bool := admits (allowed_keys s) key_id.
Definition scope_namespace_allowed (s : SessionScope) (ns : string) : bool :=
  admits (allowed_namespaces s) ns.

Definition within `{EqDecision A} (child parent : option (list A)) : bool :=
  match child, parent with
  | Some c, Some p => forallb (fun a => bool_decide (a ∈ p)) c
  | _, _ => true
  end.
Definition at_most (child parent : option Z) : bool :=
  match child, parent with Some c, Some p => negb (p <? c) | _, _ => true end.
Definition is_subset_of (child parent : SessionScope) : bool :=
  within (allowed_operations child) (allowed_operations parent) &&
  within (allowed_keys child) (allowed_keys parent) &&
  at_most (max_operations child) (max_operations parent) &&
  at_most (rate_limit child) (rate_limit parent).

Definition meet_list `{EqDecision A} (a b : option (list A)) : option (list A) :=
  match a, b with
  | Some a, Some b => Some (filter (fun x => x ∈ b) a)
  | Some a, None => Some a
  | None, b => b
  end.
Definition meet_min (a b : option Z) : option Z :=
  match a, b with
  | Some a, Some b => Some (Z.min a b)
  | Some a, None => Some a
  | None, b => b
  end.
Definition intersect (a b : SessionScope) : SessionScope :=
  MkScope (meet_list (allowed_operations a) (allowed_operations b))
    (meet_list (allowed_keys a) (allowed_keys b))
    (meet_min (max_operations a) (max_operations b))
    (meet_min (rate_limit a) (rate_limit b))
    (meet_list (allowed_namespaces a) (allowed_namespaces b)).

Record SessionTemplate := MkTemplate {
  t_id : TemplateId;
  t_name : string;
  t_description : option string;
  t_scope : SessionScope;
  default_ttl_seconds : Z;
  t_allow_delegation : bool;
  t_max_delegation_depth : Z;
  t_created_at : DateTime;
  t_updated_at : DateTime
}.
Definition SessionTemplate_new (id name : string) (now : DateTime) : SessionTemplate :=
  MkTemplate id name None SessionScope_new 3600 false 0 now now.
Definition with_scope (scope : SessionScope) (now : DateTime) (t : SessionTemplate) : SessionTemplate :=
  MkTemplate (t_id t) (t_name t) (t_description t) scope (default_ttl_seconds t) (t_allow_delegation t)
    (t_max_delegation_depth t) (t_created_at t) now.
Definition with_ttl (ttl : Z) (now : DateTime) (t : SessionTemplate) : SessionTemplate :=
  MkTemplate (t_id t) (t_name t) (t_description t) (t_scope t) ttl (t_allow_delegation t)
    (t_max_delegation_depth t) (t_created_at t) now.
Definition with_delegation (max_depth : Z) (now : DateTime) (t : SessionTemplate) : SessionTemplate :=
  MkTemplate (t_id t) (t_name t) (t_description t) (t_scope t) (default_ttl_seconds t) (0 <? max_depth)
    max_depth (t_created_at t) now.

(** ** The rate limiter of a session ([rate_limiter.rs]) *)

Record RateLimiterState := MkLimiter {
  operations : Z;
  window_start : DateTime;
  limit : Z
}.
Definition RateLimiterState_new (limit : Z) (now : DateTime) : RateLimiterState := MkLimiter 0 now limit.
(** [num_seconds] cuts off the fraction. *)
Definition num_seconds (d : Duration) : Z := Z.quot d 1000000000.
Definition check_and_increment (now : DateTime) : M RateLimiterState string unit := fun l =>
  if 1 <=? num_seconds (now - window_start l) then (Ok tt, MkLimiter 1 now (limit l))
  else
    if limit l <=? operations l then (Err "Rate limit exceeded", l)
    else (Ok tt, MkLimiter (wrap 64 (operations l + 1)) (window_start l) (limit l)).

(** ** Sessions ([session_data.rs]) *)

Record Session := MkSession {
  s_id : SessionId;
  identity : ClientIdentity;
  s_created_at : DateTime;
  last_accessed : DateTime;
  s_expires_at : DateTime;
  token_hash : HashedToken;
  operation_count : Z;
  tls_fingerprint : option string;
  client_ip : option string;
  user_agent : option string;
  scope : option SessionScope;
  parent_session_id : option SessionId;
  delegation_depth : Z;
  max_delegation_depth : Z;
  allow_delegation : bool;
  template_id : option TemplateId
}.
Record SessionCreationResult := MkCreation { session : Session; token : SessionToken }.

Definition session_operation_allowed (s : Session) (op : Permission) : bool :=
  match scope s with Some scope => scope_operation_allowed scope op | None => true end.
Definition session_key_allowed (s : Session) (key_id : string) : bool :=
  match scope s with Some scope => scope_key_allowed scope key_id | None => true end.
Definition session_namespace_allowed (s : Session) (ns : string) : bool :=
  match scope s with Some scope => scope_namespace_allowed scope ns | None => true end.
Definition can_delegate (s : Session) : bool :=
  allow_delegation s && (delegation_depth s <? max_delegation_depth s).
Definition remaining_delegation_depth (s : Session) : Z :=
  if negb (allow_delegation s) then 0 else Z.max 0 (max_delegation_depth s - delegation_depth s).
Definition is_operation_limit_reached (s : Session) : bool :=
  match scope s with
  | Some scope => match max_operations scope with Some m => m <=? operation_count s | None => false end
  | None => false
  end.
Definition session_is_expired (now : DateTime) (s : Session) : bool := s_expires_at s <? now.
Definition session_is_valid (now : DateTime) (s : Session) : bool := negb (session_is_expired now s).

(** Field updates. *)
Definition set_use (now : DateTime) (count : Z) (s : Session) : Session :=
  MkSession (s_id s) (identity s) (s_created_at s) now (s_expires_at s) (token_hash s) count
    (tls_fingerprint s) (client_ip s) (user_agent s) (scope s) (parent_session_id s)
    (delegation_depth s) (max_delegation_depth s) (allow_delegation s) (template_id s).
Definition touch (now : DateTime) (s : Session) : Session := set_use now (operation_count s) s.
(** [increment_operation] and [touch] together. *)
Definition count_use (now : DateTime) (s : Session) : Session :=
  set_use now (wrap 64 (operation_count s + 1)) s.
Definition set_expiry (t : DateTime) (s : Session) : Session :=
  MkSession (s_id s) (identity s) (s_created_at s) (last_accessed s) t (token_hash s) (operation_count s)
    (tls_fingerprint s) (client_ip s) (user_agent s) (scope s) (parent_session_id s)
    (delegation_depth s) (max_delegation_depth s) (allow_delegation s) (template_id s).

Section sessions.
Context {SHA : Sha256} {HEX : Hex} {CR : ChronoRange}.

Definition generate_session_id (id_random : bytes) : SessionId := hex_encode (sha256 id_random).
Definition verify_token (s : Session) (token : SessionToken) : bool := HashedToken_verify (token_hash s) token.

Definition session_create (i : ClientIdentity) (ttl : Z) (id_random token_random : bytes) (now : DateTime)
  : option SessionCreationResult :=
  d ← duration_seconds ttl;
  expires ← dt_add now d;
  let token := SessionToken_new token_random in
  Some (MkCreation
    (MkSession (generate_session_id id_random) i now now expires (HashedToken_from_token token) 0
       None None None None None 0 0 false None) token).

(** The session with the fields a constructor overrides. *)
Definition set_scope (sc : option SessionScope) (allow : bool) (depth : Z) (tid : option TemplateId)
    (s : Session) : Session :=
  MkSession (s_id s) (identity s) (s_created_at s) (last_accessed s) (s_expires_at s) (token_hash s)
    (operation_count s) (tls_fingerprint s) (client_ip s) (user_agent s) sc (parent_session_id s)
    (delegation_depth s) depth allow tid.
Definition set_metadata (ip ua fp : option string) (s : Session) : Session :=
  MkSession (s_id s) (identity s) (s_created_at s) (last_accessed s) (s_expires_at s) (token_hash s)
    (operation_count s) fp ip ua (scope s) (parent_session_id s) (delegation_depth s)
    (max_delegation_depth s) (allow_delegation s) (template_id s).
Definition on_session (f : Session -> Session) (r : SessionCreationResult) : SessionCreationResult :=
  MkCreation (f (session r)) (token r).

Definition create_with_scope (i : ClientIdentity) (ttl : Z) (sc : SessionScope)
    (id_random token_random : bytes) (now : DateTime) : option SessionCreationResult :=
  on_session (set_scope (Some sc) false 0 None) <$> session_create i ttl id_random token_random now.
Definition create_from_template (i : ClientIdentity) (t : SessionTemplate)
    (id_random token_random : bytes) (now : DateTime) : option SessionCreationResult :=
  on_session (set_scope (Some (t_scope t)) (t_allow_delegation t) (t_max_delegation_depth t) (Some (t_id t)))
    <$> session_create i (default_ttl_seconds t) id_random token_random now.
Definition new_with_metadata (i : ClientIdentity) (ttl : Z) (ip ua fp : option string)
    (id_random token_random : bytes) (now : DateTime) : option SessionCreationResult :=
  on_session (set_metadata ip ua fp) <$> session_create i ttl id_random token_random now.

Definition rotate_token (token_random : bytes) (s : Session) : SessionToken * Session :=
  let token := SessionToken_new token_random in
  (token,
   MkSession (s_id s) (identity s) (s_created_at s) (last_accessed s) (s_expires_at s)
     (HashedToken_from_token token) 0 (tls_fingerprint s) (client_ip s) (user_agent s) (scope s)
     (parent_session_id s) (delegation_depth s) (max_delegation_depth s) (allow_delegation s)
     (template_id s)).
Definition extend (additional : Z) (s : Session) : option Session :=
  d ← duration_seconds additional;
  t ← dt_add (s_expires_at s) d;
  Some (set_expiry t s).
End sessions.
