(* ===== verification/SessionManager.v ===== *)
(** * The session manager

    [SessionManager] of [crates/auth/src/session/manager.rs] over the sessions
    of [Sessions].  The worklist loop of [revoke_session_cascade] takes fuel;
    [None] is running out of it.  Iterations over the concurrent map are in
    the order of [map_to_list]. *)

From Stdlib Require Import ZArith Lia Strings.Byte.
From stdpp Require Import base gmap strings list.
From S2P Require Import Prelude External Platform AccessControl Sessions.

Record SessionManager := MkSessionManager {
  sessions : gmap SessionId Session;
  templates : gmap TemplateId SessionTemplate;
  rate_limiters : gmap SessionId RateLimiterState;
  default_ttl : Z
}.

Definition set_sessions (f : gmap SessionId Session -> gmap SessionId Session) (m : SessionManager) :=
  MkSessionManager (f (sessions m)) (templates m) (rate_limiters m) (default_ttl m).
Definition set_templates (f : gmap TemplateId SessionTemplate -> gmap TemplateId SessionTemplate)
    (m : SessionManager) :=
  MkSessionManager (sessions m) (f (templates m)) (rate_limiters m) (default_ttl m).
Definition set_limiters (f : gmap SessionId RateLimiterState -> gmap SessionId RateLimiterState)
    (m : SessionManager) :=
  MkSessionManager (sessions m) (templates m) (f (rate_limiters m)) (default_ttl m).

Definition SessionManager_new (ttl : Z) : SessionManager := MkSessionManager ∅ ∅ ∅ ttl.

Definition not_found : AuthError := InvalidSession "Session not found".

Section manager.
Context {SHA : Sha256} {HEX : Hex} {CR : ChronoRange}.

Definition add_session (s : Session) : SessionManager -> SessionManager :=
  set_sessions <[s_id s := s]>.
(** A limiter is set up when the scope has a rate limit. *)
Definition add_limiter (id : SessionId) (rate : option Z) (now : DateTime) (m : SessionManager)
  : SessionManager :=
  match rate with
  | Some rate => set_limiters <[id := RateLimiterState_new rate now]> m
  | None => m
  end.

Definition create_session (i : ClientIdentity) (id_random token_random : bytes) (now : DateTime)
    (m : SessionManager) : option (SessionCreationResult * SessionManager) :=
  r ← session_create i (default_ttl m) id_random token_random now;
  Some (r, add_session (session r) m).
Definition create_session_with_metadata (i : ClientIdentity) (ip ua fp : option string)
    (id_random token_random : bytes) (now : DateTime) (m : SessionManager)
  : option (SessionCreationResult * SessionManager) :=
  r ← new_with_metadata i (default_ttl m) ip ua fp id_random token_random now;
  Some (r, add_session (session r) m).
Definition create_scoped_session (i : ClientIdentity) (sc : SessionScope) (ttl : option Z)
    (id_random token_random : bytes) (now : DateTime) (m : SessionManager)
  : option (SessionCreationResult * SessionManager) :=
  r ← create_with_scope i (default (default_ttl m) ttl) sc id_random token_random now;
  Some (r, add_session (session r) (add_limiter (s_id (session r)) (rate_limit sc) now m)).
Definition create_session_from_template (i : ClientIdentity) (tid : TemplateId)
    (id_random token_random : bytes) (now : DateTime) (m : SessionManager)
  : option (result SessionCreationResult AuthError * SessionManager) :=
  match templates m !! tid with
  | None => Some (Err (InvalidSession ("Template not found: " +:+ tid)), m)
  | Some t =>
      r ← create_from_template i t id_random token_random now;
      Some (Ok r, add_session (session r)
                    (add_limiter (s_id (session r)) (rate_limit (t_scope t)) now m))
  end.

(** The child session, computed from the parent. *)
Definition delegate_prepare (parent_id : SessionId) (restricted : SessionScope) (ttl : Z)
    (id_random token_random : bytes) (now : DateTime) (m : SessionManager)
  : option (result SessionCreationResult AuthError) :=
  match sessions m !! parent_id with
  | None => Some (Err (InvalidSession "Parent session not found"))
  | Some parent =>
      if negb (can_delegate parent) then Some (Err (AuthUnauthorized "Session cannot delegate"))
      else if session_is_expired now parent then Some (Err SessionExpired)
      else
        let parent_remaining := Z.max (num_seconds (s_expires_at parent - now)) 0 in
        let effective_ttl := Z.min ttl parent_remaining in
        let effective_scope :=
          match scope parent with
          | Some parent_scope => intersect parent_scope restricted
          | None => restricted
          end in
        if match scope parent with
           | Some parent_scope => negb (is_subset_of restricted parent_scope)
           | None => false
           end
        then Some (Err (AuthUnauthorized "Delegated scope must be subset of parent scope"))
        else
          d ← duration_seconds effective_ttl;
          expires ← dt_add now d;
          let token := SessionToken_new token_random in
          Some (Ok (MkCreation
            (MkSession (generate_session_id id_random) (identity parent) now now expires
               (HashedToken_from_token token) 0 (tls_fingerprint parent) (client_ip parent)
               (user_agent parent) (Some effective_scope) (Some parent_id)
               (wrap 32 (delegation_depth parent + 1)) (max_delegation_depth parent)
               (1 <? remaining_delegation_depth parent) (template_id parent)) token))
  end.
Definition delegate_insert (child : Session) (now : DateTime) (m : SessionManager) : SessionManager :=
  add_session child (add_limiter (s_id child) (scope child ≫= rate_limit) now m).
Definition delegate_session (parent_id : SessionId) (restricted : SessionScope) (ttl : Z)
    (id_random token_random : bytes) (now : DateTime) (m : SessionManager)
  : option (result SessionCreationResult AuthError * SessionManager) :=
  r ← delegate_prepare parent_id restricted ttl id_random token_random now m;
  match r with
  | Ok r => Some (Ok r, delegate_insert (session r) now m)
  | Err e => Some (Err e, m)
  end.

(** The update of a session found by its id. *)
Definition with_session {A} (id : SessionId) (f : Session -> result (A * Session) AuthError)
  : M SessionManager AuthError A := fun m =>
  match sessions m !! id with
  | None => (Err not_found, m)
  | Some s =>
      match f s with
      | Ok (a, s') => (Ok a, set_sessions <[id := s']> m)
      | Err e => (Err e, m)
      end
  end.

Definition invalid_token : AuthError := InvalidSession "Invalid session token".

Definition rate_check (id : SessionId) (now : DateTime) : M SessionManager AuthError unit := fun m =>
  match rate_limiters m !! id with
  | None => (Ok tt, m)
  | Some l =>
      let '(r, l') := check_and_increment now l in
      (rmap_err (fun _ => RateLimited) r, set_limiters <[id := l']> m)
  end.
Definition validate_scoped_session (id : SessionId) (tok : SessionToken) (operation : option Permission)
    (key_id : option string) (now : DateTime) : M SessionManager AuthError Session := fun m =>
  match sessions m !! id with
  | None => (Err not_found, m)
  | Some s =>
      if session_is_expired now s then (Err SessionExpired, m)
      else if negb (verify_token s tok) then (Err invalid_token, m)
      else if is_operation_limit_reached s then (Err (InvalidSession "Operation limit reached"), m)
      else
        (rate_check id now ;!
         (match operation with
          | Some op =>
              if session_operation_allowed s op then ret tt
              else throw (PermissionDenied ("Operation " +:+ Permission_as_str op +:+
                                            " not allowed by session scope"))
          | None => ret tt
          end) ;!
         (match key_id with
          | Some key =>
              if session_key_allowed s key then ret tt
              else throw (PermissionDenied ("Key " +:+ key +:+ " not allowed by session scope"))
          | None => ret tt
          end) ;!
         let s' := count_use now s in
         modify (set_sessions <[id := s']>) ;! ret s')%hsm m
  end.

Definition register_template (t : SessionTemplate) : M SessionManager AuthError unit := fun m =>
  if bool_decide (is_Some (templates m !! t_id t)) then
    (Err (InvalidSession ("Template already exists: " +:+ t_id t)), m)
  else (Ok tt, set_templates <[t_id t := t]> m).
Definition update_template (t : SessionTemplate) : M SessionManager AuthError unit := fun m =>
  if bool_decide (is_Some (templates m !! t_id t)) then (Ok tt, set_templates <[t_id t := t]> m)
  else (Err (InvalidSession ("Template not found: " +:+ t_id t)), m).
Definition delete_template (tid : TemplateId) : M SessionManager AuthError unit := fun m =>
  match templates m !! tid with
  | Some _ => (Ok tt, set_templates (delete tid) m)
  | None => (Err (InvalidSession ("Template not found: " +:+ tid)), m)
  end.
Definition get_template (m : SessionManager) (tid : TemplateId) : option SessionTemplate := templates m !! tid.
Definition list_templates (m : SessionManager) : list SessionTemplate := (map_to_list (templates m)).*2.

(** The sessions of the map that satisfy a predicate. *)
Definition select (P : Session -> bool) (m : SessionManager) : list Session :=
  filter (fun s => P s) (map_to_list (sessions m)).*2.
Definition is_child_of (pid : SessionId) (s : Session) : bool :=
  bool_decide (parent_session_id s = Some pid).
Definition get_delegated_sessions (m : SessionManager) (pid : SessionId) (now : DateTime) : list Session :=
  select (fun s => is_child_of pid s && session_is_valid now s) m.

(** [to_revoke] is [seen ++ todo], the index [i] the length of [seen]. *)
Fixpoint descendants (fuel : nat) (m : SessionManager) (seen todo : list SessionId)
  : option (list SessionId) :=
  match todo with
  | [] => Some seen
  | current :: rest =>
      match fuel with
      | O => None
      | S fuel =>
          descendants fuel m (seen ++ [current]) (rest ++ (s_id <$> select (is_child_of current) m))
      end
  end.
Definition revoke_one (r : Z * SessionManager) (id : SessionId) : Z * SessionManager :=
  let '(count, m) := r in
  match sessions m !! id with
  | Some _ => (count + 1, set_limiters (delete id) (set_sessions (delete id) m))
  | None => (count, m)
  end.
Definition revoke_session_cascade (fuel : nat) (id : SessionId) (m : SessionManager)
  : option (Z * SessionManager) :=
  to_revoke ← descendants fuel m [] [id];
  Some (foldl revoke_one (0, m) to_revoke).

Definition get_session (id : SessionId) : M SessionManager AuthError Session := fun m =>
  (ok_or not_found (sessions m !! id), m).
Definition validate_session (id : SessionId) (now : DateTime) : M SessionManager AuthError Session :=
  with_session id (fun s =>
    if session_is_expired now s then Err SessionExpired else let s' := touch now s in Ok (s', s')).
Definition validate_session_with_token (id : SessionId) (tok : SessionToken) (now : DateTime)
  : M SessionManager AuthError Session :=
  with_session id (fun s =>
    if session_is_expired now s then Err SessionExpired
    else if negb (verify_token s tok) then Err invalid_token
    else let s' := count_use now s in Ok (s', s')).

(** Compared only when both sides are present. *)
Definition mismatch (stored current : option string) : bool :=
  match stored, current with Some a, Some b => negb (bool_decide (a = b)) | _, _ => false end.
Definition validate_session_with_metadata (id : SessionId) (tok : SessionToken)
    (ip ua fp : option string) (now : DateTime) : M SessionManager AuthError Session :=
  with_session id (fun s =>
    if session_is_expired now s then Err SessionExpired
    else if negb (verify_token s tok) then Err invalid_token
    else if mismatch (client_ip s) ip then Err (InvalidSession "Session validation failed")
    else if mismatch (user_agent s) ua then Err (InvalidSession "Session validation failed")
    else if mismatch (tls_fingerprint s) fp then Err (InvalidSession "Session validation failed")
    else let s' := count_use now s in Ok (s', s')).

Definition delete_session (id : SessionId) : M SessionManager AuthError unit := fun m =>
  match sessions m !! id with
  | Some _ => (Ok tt, set_limiters (delete id) (set_sessions (delete id) m))
  | None => (Err not_found, m)
  end.
Definition extend_session (id : SessionId) (additional : Z) (m : SessionManager)
  : option (result unit AuthError * SessionManager) :=
  match sessions m !! id with
  | None => Some (Err not_found, m)
  | Some s => s' ← extend additional s; Some (Ok tt, set_sessions <[id := s']> m)
  end.
Definition rotate_session_token (id : SessionId) (token_random : bytes)
  : M SessionManager AuthError SessionToken :=
  with_session id (fun s => Ok (rotate_token token_random s)).

(** [token_random] gives the bytes drawn for each session. *)
Definition rotate_client_tokens (cn : string) (token_random : SessionId -> bytes) (m : SessionManager)
  : list (SessionId * SessionToken) * SessionManager :=
  ((fun s => (s_id s, (rotate_token (token_random (s_id s)) s).1)) <$>
     select (fun s => bool_decide (common_name (identity s) = cn)) m,
   set_sessions (fmap (fun s =>
     if bool_decide (common_name (identity s) = cn) then (rotate_token (token_random (s_id s)) s).2 else s))
     m).

Definition cleanup_expired (now : DateTime) (m : SessionManager) : Z * SessionManager :=
  let expired_ids := s_id <$> select (fun s => negb (session_is_valid now s)) m in
  let kept := filter (fun '(_, s) => session_is_valid now s) (sessions m) in
  (Z.of_nat (size (sessions m)) - Z.of_nat (size kept),
   set_limiters (fun ls => foldr delete ls expired_ids) (set_sessions (fun _ => kept) m)).
Definition get_active_sessions (m : SessionManager) (now : DateTime) : list Session :=
  select (session_is_valid now) m.
Definition get_client_sessions (m : SessionManager) (cn : string) (now : DateTime) : list Session :=
  select (fun s => bool_decide (common_name (identity s) = cn) && session_is_valid now s) m.
Definition active_session_count (m : SessionManager) (now : DateTime) : nat :=
  length (select (session_is_valid now) m).
Definition delete_client_sessions (cn : string) (m : SessionManager) : Z * SessionManager :=
  let kept := filter (fun '(_, s) => common_name (identity s) <> cn) (sessions m) in
  (Z.of_nat (size (sessions m)) - Z.of_nat (size kept), set_sessions (fun _ => kept) m).
End manager.
