(* ===== verification/SessionSafety.v ===== *)
(** * Delegation, revocation and limits of sessions

    The session manager as a state machine: sessions are created, delegated,
    validated, extended, rotated and removed in any order.  Session ids are
    256-bit digests of fresh randomness, and a run never draws one twice.

    The theorems state that a delegated session never has more authority than
    the session it comes from, that revoking a session with its descendants
    terminates and removes exactly those, that the operation limit of a scope
    holds, and that the rate limiter bounds the operations of any second; the
    last ones show how the limits and lifetimes can be got around. *)

From Stdlib Require Import ZArith Lia Strings.Byte.
From stdpp Require Import base gmap strings list.
From S2P Require Import Prelude External Platform AccessControl Sessions SessionManager.

Section safety.
Context {SHA : Sha256} {HEX : Hex} {CR : ChronoRange}.

Inductive session_op :=
| OCreate (i : ClientIdentity) (idr tokr : bytes)
| OCreateWithMetadata (i : ClientIdentity) (ip ua fp : option string) (idr tokr : bytes)
| OCreateScoped (i : ClientIdentity) (sc : SessionScope) (ttl : option Z) (idr tokr : bytes)
| OCreateFromTemplate (i : ClientIdentity) (tid : TemplateId) (idr tokr : bytes)
| ODelegate (parent : SessionId) (sc : SessionScope) (ttl : Z) (idr tokr : bytes)
| OValidateScoped (id : SessionId) (tok : SessionToken) (op : option Permission) (key : option string)
| OValidate (id : SessionId)
| OValidateWithToken (id : SessionId) (tok : SessionToken)
| OValidateWithMetadata (id : SessionId) (tok : SessionToken) (ip ua fp : option string)
| ORegisterTemplate (t : SessionTemplate)
| OUpdateTemplate (t : SessionTemplate)
| ODeleteTemplate (tid : TemplateId)
| ODelete (id : SessionId)
| OExtend (id : SessionId) (additional : Z)
| ORotate (id : SessionId) (tokr : bytes)
| ORotateClient (cn : string) (tokr : SessionId -> bytes)
| OCleanup
| ODeleteClient (cn : string)
| ORevokeCascade (id : SessionId) (fuel : nat).

(** One call; [None] is a panic (or, for the cascade, lack of fuel). *)
Definition perform_session (now : DateTime) (op : session_op) (m : SessionManager) : option SessionManager :=
  match op with
  | OCreate i idr tokr => snd <$> create_session i idr tokr now m
  | OCreateWithMetadata i ip ua fp idr tokr =>
      snd <$> create_session_with_metadata i ip ua fp idr tokr now m
  | OCreateScoped i sc ttl idr tokr => snd <$> create_scoped_session i sc ttl idr tokr now m
  | OCreateFromTemplate i tid idr tokr => snd <$> create_session_from_template i tid idr tokr now m
  | ODelegate pid sc ttl idr tokr => snd <$> delegate_session pid sc ttl idr tokr now m
  | OValidateScoped id tok op key => Some (validate_scoped_session id tok op key now m).2
  | OValidate id => Some (validate_session id now m).2
  | OValidateWithToken id tok => Some (validate_session_with_token id tok now m).2
  | OValidateWithMetadata id tok ip ua fp =>
      Some (validate_session_with_metadata id tok ip ua fp now m).2
  | ORegisterTemplate t => Some (register_template t m).2
  | OUpdateTemplate t => Some (update_template t m).2
  | ODeleteTemplate tid => Some (delete_template tid m).2
  | ODelete id => Some (delete_session id m).2
  | OExtend id additional => snd <$> extend_session id additional m
  | ORotate id tokr => Some (rotate_session_token id tokr m).2
  | ORotateClient cn tokr => Some (rotate_client_tokens cn tokr m).2
  | OCleanup => Some (cleanup_expired now m).2
  | ODeleteClient cn => Some (delete_client_sessions cn m).2
  | ORevokeCascade id fuel => snd <$> revoke_session_cascade fuel id m
  end.

(** The id a call draws. *)
Definition drawn (op : session_op) : list SessionId :=
  match op with
  | OCreate _ idr _ | OCreateWithMetadata _ _ _ _ idr _ | OCreateScoped _ _ _ idr _
  | OCreateFromTemplate _ _ idr _ | ODelegate _ _ _ idr _ => [generate_session_id idr]
  | _ => []
  end.

(** The states of a manager, with all ids drawn so far in order. *)
Inductive reachable_sessions : list SessionId -> SessionManager -> Prop :=
| rs_new ttl : reachable_sessions [] (SessionManager_new ttl)
| rs_step issued m now op m' :
    reachable_sessions issued m ->
    perform_session now op m = Some m' ->
    (forall id, id ∈ drawn op -> id ∉ issued) ->
    reachable_sessions (issued ++ drawn op) m'.

(** ** What a call does to the sessions *)

(** A session with the same id, owner, scope and place in the hierarchy. *)
Definition same_authority (s s' : Session) : Prop :=
  s_id s' = s_id s /\ identity s' = identity s /\ scope s' = scope s /\
  parent_session_id s' = parent_session_id s /\ delegation_depth s' = delegation_depth s /\
  max_delegation_depth s' = max_delegation_depth s /\ allow_delegation s' = allow_delegation s.

#[export] Instance same_authority_refl : Reflexive same_authority.
Proof. by repeat split. Qed.

(** The child has at most the authority of the parent. *)
Definition attenuates (parent child : Session) : Prop :=
  identity child = identity parent /\
  (forall op, session_operation_allowed child op = true -> session_operation_allowed parent op = true) /\
  (forall k, session_key_allowed child k = true -> session_key_allowed parent k = true) /\
  (forall ns, session_namespace_allowed child ns = true -> session_namespace_allowed parent ns = true) /\
  (forall l, (scope parent ≫= max_operations) = Some l ->
     exists l', (scope child ≫= max_operations) = Some l' /\ l' <= l).

#[export] Instance attenuates_refl : Reflexive attenuates.
Proof. intros s. unfold attenuates. split_and!; try done. intros l Hl. by exists l. Qed.
#[export] Instance attenuates_trans : Transitive attenuates.
Proof.
  intros x y z (E1 & O1 & K1 & N1 & M1) (E2 & O2 & K2 & N2 & M2). unfold attenuates. split_and!.
  - by rewrite E2.
  - auto.
  - auto.
  - auto.
  - intros l Hl. destruct (M1 l Hl) as (l' & Hl' & Hle). destruct (M2 l' Hl') as (l'' & Hl'' & Hle').
    exists l''. split; [done|lia].
Qed.

(** A relation that using a session and moving its expiry stay in. *)
Class UseRelation (R : relation Session) : Prop := {
  use_refl s : R s s;
  use_touch now s : R s (touch now s);
  use_count now s : R s (count_use now s);
  use_expiry t s : R s (set_expiry t s)
}.

#[export] Instance same_authority_use : UseRelation same_authority.
Proof. by repeat split. Qed.

Lemma same_authority_rotate s tokr : same_authority s (rotate_token tokr s).2.
Proof. by repeat split. Qed.

(** What a step may do: keep sessions up to [R], drop some, add one. *)
Definition sessions_step (R : relation Session) (drawn : list SessionId) (m m' : SessionManager) : Prop :=
  forall id s', sessions m' !! id = Some s' ->
    (exists s, sessions m !! id = Some s /\ R s s') \/
    (drawn = [id] /\ s_id s' = id /\
     match parent_session_id s' with
     | None => True
     | Some p => exists ps, sessions m !! p = Some ps /\ attenuates ps s'
     end).

Section steps.
Context {R : relation Session} `{!UseRelation R}.

Lemma step_keeps d m m' : sessions m' = sessions m -> sessions_step R d m m'.
Proof. intros E id s'. rewrite E. left. exists s'. split; [done|apply use_refl]. Qed.

Lemma step_subset d m m' : sessions m' ⊆ sessions m -> sessions_step R d m m'.
Proof. intros E id s' Hs. left. exists s'. split; [by eapply lookup_weaken|apply use_refl]. Qed.

Lemma step_set d id s s' m m' :
  sessions m !! id = Some s -> R s s' -> sessions m' = <[id := s']> (sessions m) ->
  sessions_step R d m m'.
Proof.
  intros Hs Ha E id' s1. rewrite E. intros H. left. destruct (decide (id' = id)) as [->|].
  - rewrite lookup_insert_eq in H. injection H as <-. by exists s.
  - rewrite lookup_insert_ne in H by done. exists s1. split; [done|apply use_refl].
Qed.

Lemma step_with_session {A} d id (f : Session -> result (A * Session) AuthError) m :
  (forall s a s', f s = Ok (a, s') -> R s s') -> sessions_step R d m (with_session id f m).2.
Proof.
  intros Hf. unfold with_session. destruct (sessions m !! id) as [s|] eqn:Hs; [|by apply step_keeps].
  destruct (f s) as [[a s1]|e] eqn:E; [|by apply step_keeps].
  eapply step_set; [done|by eapply Hf|done].
Qed.

Lemma step_add m m' s :
  sessions m' = <[s_id s := s]> (sessions m) ->
  match parent_session_id s with
  | None => True
  | Some p => exists ps, sessions m !! p = Some ps /\ attenuates ps s
  end -> sessions_step R [s_id s] m m'.
Proof.
  intros E Hp id s'. rewrite E. destruct (decide (id = s_id s)) as [->|].
  - rewrite lookup_insert_eq. intros [= <-]. by right.
  - rewrite lookup_insert_ne by done. left. exists s'. split; [done|apply use_refl].
Qed.

End steps.

Lemma sessions_add_limiter id rate now m : sessions (add_limiter id rate now m) = sessions m.
Proof. by destruct rate. Qed.

(** ** The scope of a delegated session *)

Lemma admits_meet `{EqDecision A} (a b : option (list A)) x :
  admits (meet_list a b) x = admits a x && admits b x.
Proof.
  destruct a as [a|], b as [b|]; simpl; rewrite ?andb_true_r; try done.
  rewrite <- bool_decide_and. apply bool_decide_ext. rewrite list_elem_of_filter. naive_solver.
Qed.

Lemma meet_min_le a b l : a = Some l -> exists l', meet_min a b = Some l' /\ l' <= l.
Proof. intros ->. destruct b as [b|]; simpl; eexists; (split; [done|lia]). Qed.

Lemma intersect_attenuates parent sc child :
  identity child = identity parent ->
  scope child = Some (match scope parent with Some p => intersect p sc | None => sc end) ->
  attenuates parent child.
Proof.
  intros Hi Hs. unfold attenuates, session_operation_allowed, session_key_allowed,
    session_namespace_allowed, scope_operation_allowed, scope_key_allowed, scope_namespace_allowed.
  rewrite Hs. destruct (scope parent) as [p|]; simpl; [|done].
  setoid_rewrite admits_meet. setoid_rewrite andb_true_iff. split_and!; try naive_solver.
  intros l Hl. by apply meet_min_le.
Qed.

Lemma delegate_prepare_Ok pid sc ttl idr tokr now m r :
  delegate_prepare pid sc ttl idr tokr now m = Some (Ok r) ->
  s_id (session r) = generate_session_id idr /\ parent_session_id (session r) = Some pid /\
  exists parent, sessions m !! pid = Some parent /\ attenuates parent (session r) /\
    can_delegate parent = true /\ session_is_expired now parent = false /\
    s_expires_at (session r) <= Z.max (s_expires_at parent) now /\
    delegation_depth (session r) = wrap 32 (delegation_depth parent + 1) /\
    max_delegation_depth (session r) = max_delegation_depth parent.
Proof.
  unfold delegate_prepare. destruct (sessions m !! pid) as [parent|]; [|done].
  destruct (can_delegate parent) eqn:Hcan; [|done].
  destruct (session_is_expired now parent) eqn:Hexp; [done|]. cbn [negb].
  destruct (match scope parent with Some _ => _ | None => false end); [done|].
  destruct (duration_seconds _) as [d|] eqn:Hd; [|done]. cbn.
  destruct (dt_add now d) as [e|] eqn:He; [|done]. cbn. intros [= <-]. cbn.
  split; [done|]. split; [done|]. exists parent. split; [done|]. split; [by eapply intersect_attenuates|].
  apply duration_seconds_Some in Hd. apply dt_add_Some in He.
  split_and!; try done. unfold session_is_expired in Hexp. apply Z.ltb_ge in Hexp.
  rewrite Z.max_l by lia. subst. unfold num_seconds.
  assert (Z.quot (s_expires_at parent - now) 1000000000 * 1000000000 <= s_expires_at parent - now) as Hq.
  { rewrite Z.quot_div_nonneg by lia. pose proof (Z.mul_div_le (s_expires_at parent - now) 1000000000). lia. }
  assert (0 <= Z.quot (s_expires_at parent - now) 1000000000) by (apply Z.quot_pos; lia).
  nia.
Qed.

(** ** Every call is such a step *)

Lemma session_create_fields i ttl idr tokr now r :
  session_create i ttl idr tokr now = Some r ->
  s_id (session r) = generate_session_id idr /\ parent_session_id (session r) = None.
Proof.
  unfold session_create. destruct (duration_seconds ttl) as [d|]; [|done]. cbn.
  destruct (dt_add now d); [|done]. cbn. by intros [= <-].
Qed.

Section calls.
Context (R : relation Session) `{!UseRelation R}.

(** A root session made by one of the constructors. *)
Lemma step_root i ttl idr tokr now r (f : Session -> Session) m m' :
  session_create i ttl idr tokr now = Some r ->
  (forall s, s_id (f s) = s_id s /\ parent_session_id (f s) = parent_session_id s) ->
  sessions m' = <[s_id (f (session r)) := f (session r)]> (sessions m) ->
  sessions_step R [generate_session_id idr] m m'.
Proof.
  intros Hr Hf E. destruct (session_create_fields _ _ _ _ _ _ Hr) as [Hid Hp].
  destruct (Hf (session r)) as [Hid' Hp']. rewrite <- Hid, <- Hid'. apply (step_add m m' _ E).
  by rewrite Hp', Hp.
Qed.

Lemma step_drop d (k : SessionId) (m m' : SessionManager) :
  sessions m' = delete k (sessions m) -> sessions_step R d m m'.
Proof. intros E. apply step_subset. rewrite E. apply delete_subseteq. Qed.

Lemma step_validate_scoped d id tok op key now m :
  sessions_step R d m (validate_scoped_session id tok op key now m).2.
Proof.
  unfold validate_scoped_session. destruct (sessions m !! id) as [s|] eqn:Hs; [|by apply step_keeps].
  do 3 (case_match; [by apply step_keeps|]).
  assert (forall m1, sessions (rate_check id now m1).2 = sessions m1) as Hr.
  { intros m1. unfold rate_check. destruct (rate_limiters m1 !! id); [|done]. by case_match. }
  unfold bind at 1. specialize (Hr m). destruct (rate_check id now m) as [[[]|e] m1]; cbn in Hr;
    [|by apply step_keeps].
  unfold bind at 1. destruct op as [op|]; [destruct (session_operation_allowed s op)|];
    [|by apply step_keeps|]; unfold bind at 1;
    (destruct key as [key|]; [destruct (session_key_allowed s key)|]; [|by apply step_keeps|]);
    (eapply step_set; [exact Hs| |cbn; rewrite Hr; reflexivity]; apply use_count).
Qed.

Lemma step_fmap d (f : Session -> Session) m m' :
  (forall s, R s (f s)) -> sessions m' = f <$> sessions m -> sessions_step R d m m'.
Proof.
  intros Hf E id s'. rewrite E, lookup_fmap. destruct (sessions m !! id) as [s|]; [|done].
  intros [= <-]. left. by exists s.
Qed.

Lemma revoke_all_lookup ids c m id :
  sessions (foldl revoke_one (c, m) ids).2 !! id =
  if decide (id ∈ ids) then None else sessions m !! id.
Proof.
  revert c m. induction ids as [|k ids IH]; intros c m; cbn [foldl].
  { by rewrite decide_False by apply not_elem_of_nil. }
  unfold revoke_one at 2. destruct (sessions m !! k) as [s|] eqn:Hk; rewrite IH; cbn [sessions set_limiters set_sessions].
  - destruct (decide (id = k)) as [->|].
    + rewrite lookup_delete_eq, (decide_True (P := k ∈ k :: ids)) by apply elem_of_cons, or_introl, eq_refl.
      by destruct (decide _).
    + rewrite lookup_delete_ne by done. apply decide_ext. rewrite elem_of_cons. naive_solver.
  - destruct (decide (id ∈ ids)); [by rewrite decide_True by (by right)|].
    destruct (decide (id ∈ k :: ids)) as [Hin|]; [|done].
    apply elem_of_cons in Hin as [->|]; done.
Qed.

(** The calls that replace tokens. *)
Definition rotates (op : session_op) : bool :=
  match op with ORotate _ _ | ORotateClient _ _ => true | _ => false end.

Lemma perform_session_step now op m m' :
  (rotates op = true -> forall s tokr, R s (rotate_token tokr s).2) ->
  perform_session now op m = Some m' -> sessions_step R (drawn op) m m'.
Proof.
  intros Hrot. destruct op; cbn [perform_session drawn].
  - unfold create_session. destruct (session_create _ _ _ _ _) as [r|] eqn:E; [|done]. intros [= <-].
    by eapply (step_root _ _ _ _ _ _ id).
  - unfold create_session_with_metadata, new_with_metadata.
    destruct (session_create _ _ _ _ _) as [r|] eqn:E; [|done]. intros [= <-].
    by eapply (step_root _ _ _ _ _ _ (set_metadata _ _ _)).
  - unfold create_scoped_session, create_with_scope.
    destruct (session_create _ _ _ _ _) as [r|] eqn:E; [|done]. intros [= <-].
    eapply (step_root _ _ _ _ _ _ (set_scope (Some sc) false 0 None)); [done..|]. cbn.
    by rewrite sessions_add_limiter.
  - unfold create_session_from_template, create_from_template.
    destruct (templates m !! tid) as [t|]; [|intros [= <-]; by apply step_keeps].
    destruct (session_create _ _ _ _ _) as [r|] eqn:E; [|done]. intros [= <-].
    eapply (step_root _ _ _ _ _ _ (set_scope _ _ _ _)); [done..|]. cbn. by rewrite sessions_add_limiter.
  - unfold delegate_session. destruct (delegate_prepare _ _ _ _ _ _ _) as [[r|e]|] eqn:E; cbn;
      [|intros [= <-]; by apply step_keeps|done].
    intros [= <-]. destruct (delegate_prepare_Ok _ _ _ _ _ _ _ _ E) as (Hid & Hp & ps & Hps & Ha & _).
    rewrite <- Hid. apply step_add; [cbn; by rewrite sessions_add_limiter|]. rewrite Hp. by exists ps.
  - intros [= <-]. apply step_validate_scoped.
  - intros [= <-]. apply step_with_session. intros s a s'. case_match; [done|]. intros [= _ <-]. apply use_touch.
  - intros [= <-]. apply step_with_session. intros s a s'. do 2 (case_match; [done|]). intros [= _ <-]. apply use_count.
  - intros [= <-]. apply step_with_session. intros s a s'. do 5 (case_match; [done|]). intros [= _ <-]. apply use_count.
  - intros [= <-]. unfold register_template. by case_match; apply step_keeps.
  - intros [= <-]. unfold update_template. by case_match; apply step_keeps.
  - intros [= <-]. unfold delete_template. by case_match; apply step_keeps.
  - intros [= <-]. unfold delete_session. case_match; [by eapply step_drop|by apply step_keeps].
  - unfold extend_session. destruct (sessions m !! id) as [s|] eqn:Hs; [|intros [= <-]; by apply step_keeps].
    destruct (extend additional s) as [s1|] eqn:E; [|done]. intros [= <-].
    unfold extend in E. destruct (duration_seconds additional) as [d|]; [|done]. cbn in E.
    destruct (dt_add _ d) as [t|]; [|done]. injection E as <-.
    eapply step_set; [exact Hs| |reflexivity]; apply use_expiry.
  - intros [= <-]. apply step_with_session. intros s a s' [= _ <-]. by apply Hrot.
  - intros [= <-]. eapply step_fmap; [|done]. intros s. cbn beta. case_bool_decide; [by apply Hrot|apply use_refl].
  - intros [= <-]. apply step_subset. cbn. apply map_filter_subseteq.
  - intros [= <-]. apply step_subset. cbn. apply map_filter_subseteq.
  - unfold revoke_session_cascade. destruct (descendants _ _ _ _) as [ids|]; [|done]. intros [= <-].
    apply step_subset, map_subseteq_spec. intros k s. rewrite revoke_all_lookup. by case_decide.
Qed.
End calls.

(** ** The hierarchy *)

(** [x] was drawn before [y]. *)
Definition before (issued : list SessionId) (x y : SessionId) : Prop :=
  exists i j, issued !! i = Some x /\ issued !! j = Some y /\ (i < j)%nat.

Lemma before_trans issued x y z :
  NoDup issued -> before issued x y -> before issued y z -> before issued x z.
Proof.
  intros Hnd (i & j & Hi & Hj & ?) (j' & k & Hj' & Hk & ?).
  pose proof (NoDup_lookup _ _ _ _ Hnd Hj Hj'). exists i, k. split_and!; [done..|lia].
Qed.

Lemma before_irrefl issued x : NoDup issued -> ~ before issued x x.
Proof. intros Hnd (i & j & Hi & Hj & ?). pose proof (NoDup_lookup _ _ _ _ Hnd Hi Hj). lia. Qed.

Lemma before_app issued d x y : before issued x y -> before (issued ++ d) x y.
Proof. intros (i & j & Hi & Hj & ?). exists i, j. split_and!; [by apply lookup_app_l_Some..|done]. Qed.

Lemma before_last issued x y : x ∈ issued -> before (issued ++ [y]) x y.
Proof.
  intros [i Hi]%list_elem_of_lookup. exists i, (length issued). split_and!.
  - by apply lookup_app_l_Some.
  - by rewrite lookup_app_r, Nat.sub_diag.
  - by eapply lookup_lt_Some.
Qed.

Lemma last_not_before issued x y : NoDup (issued ++ [x]) -> ~ before (issued ++ [x]) x y.
Proof.
  intros Hnd (i & j & Hi & Hj & ?). pose proof (lookup_lt_Some _ _ _ Hj) as Hlt.
  rewrite length_app in Hlt. cbn in Hlt.
  assert ((issued ++ [x]) !! length issued = Some x) as Hl by (by rewrite lookup_app_r, Nat.sub_diag).
  pose proof (NoDup_lookup _ _ _ _ Hnd Hi Hl). lia.
Qed.

Definition hierarchy_inv (issued : list SessionId) (m : SessionManager) : Prop :=
  NoDup issued /\
  (forall id s, sessions m !! id = Some s -> s_id s = id /\ id ∈ issued) /\
  (forall id s p, sessions m !! id = Some s -> parent_session_id s = Some p ->
     before issued p id) /\
  (forall id s p ps, sessions m !! id = Some s -> parent_session_id s = Some p ->
     sessions m !! p = Some ps -> attenuates ps s).

Lemma attenuates_same ps ps' s s' :
  same_authority ps ps' -> same_authority s s' -> attenuates ps s -> attenuates ps' s'.
Proof.
  intros (_ & Ei & Es & _) (_ & Ei' & Es' & _). unfold attenuates, session_operation_allowed,
    session_key_allowed, session_namespace_allowed. by rewrite Ei, Es, Ei', Es'.
Qed.

Lemma hierarchy_step issued d m m' :
  hierarchy_inv issued m -> sessions_step same_authority d m m' -> NoDup d -> (forall id, id ∈ d -> id ∉ issued) ->
  hierarchy_inv (issued ++ d) m'.
Proof.
  intros (Hnd & Hid & Hpar & Hatt) Hstep Hd Hfresh.
  assert (forall id s', sessions m' !! id = Some s' -> forall p, parent_session_id s' = Some p ->
    before (issued ++ d) p id) as Hpar'.
  { intros id s' Hs p Hp. destruct (Hstep _ _ Hs) as [(s & Hs0 & Ha)|(-> & _ & Hm)].
    - destruct Ha as (_ & _ & _ & Ep & _). rewrite Hp in Ep. symmetry in Ep.
      by eapply before_app, Hpar.
    - rewrite Hp in Hm. destruct Hm as (ps & Hps & _). by apply before_last, (Hid _ _ Hps). }
  assert (NoDup (issued ++ d)) as Hnd'.
  { apply NoDup_app. split_and!; [done| |done]. intros x Hx Hxd. by apply (Hfresh x). }
  split_and!; [done|intros id s' Hs|intros; by eapply Hpar'|].
  - destruct (Hstep _ _ Hs) as [(s & Hs0 & Ha)|(-> & Hi & _)].
    + destruct (Hid _ _ Hs0) as [<- Hin]. split; [apply Ha|]. set_solver.
    + split; [done|]. set_solver.
  - intros id s' p ps' Hs Hp Hps'. pose proof (Hpar' _ _ Hs _ Hp) as Hb.
    assert (exists ps, sessions m !! p = Some ps /\ same_authority ps ps') as (ps & Hps & Hsame).
    { destruct (Hstep _ _ Hps') as [?|(-> & _)]; [done|]. exfalso.
      by apply (last_not_before _ _ _ Hnd' Hb). }
    destruct (Hstep _ _ Hs) as [(s & Hs0 & Ha)|(-> & _ & Hm)].
    + eapply attenuates_same; [done..|]. eapply Hatt; [done| |done]. destruct Ha as (_ & _ & _ & <- & _). done.
    + rewrite Hp in Hm. destruct Hm as (ps0 & Hps0 & Ha). simplify_eq.
      by eapply attenuates_same; [done|reflexivity|].
Qed.

Lemma reachable_hierarchy issued m : reachable_sessions issued m -> hierarchy_inv issued m.
Proof.
  induction 1 as [ttl|issued m now op m' _ IH Hop Hfresh].
  - split_and!; [constructor|..]; intros *; cbn; by rewrite lookup_empty.
  - apply (hierarchy_step _ _ _ _ IH); [|destruct op; cbn; repeat constructor; set_solver|done].
    eapply perform_session_step; [apply _| |done]. intros _. apply same_authority_rotate.
Qed.

(** The session [a], its children, their children, and so on. *)
Inductive descends (m : SessionManager) (a : SessionId) : SessionId -> Prop :=
| descends_self : descends m a a
| descends_child p id s :
    descends m a p -> sessions m !! id = Some s -> parent_session_id s = Some p -> descends m a id.

(** C28: delegation never adds authority.  In every reachable state of the session
    manager, however a session [d] descends from a session [a] through
    delegations, it belongs to the same client, every operation, key and
    namespace allowed to it is allowed to [a], and when [a] has an operation
    limit, [d] has one that is not larger. *)
Theorem delegation_attenuates (issued : list SessionId) (m : SessionManager) (a d : SessionId)
    (sa sd : Session) :
  reachable_sessions issued m -> sessions m !! a = Some sa -> sessions m !! d = Some sd ->
  descends m a d -> attenuates sa sd.
Proof.
  intros (_ & _ & _ & Hatt)%reachable_hierarchy Ha Hd Hdesc. revert sd Hd.
  induction Hdesc as [|p id s Hp IH Hs Hpar]; intros sd Hd; simplify_eq; [done|].
  assert (exists ps, sessions m !! p = Some ps) as [ps Hps] by (destruct Hp; by eexists).
  trans ps; [by apply IH|by eapply Hatt].
Qed.

(** ** Revocation with all descendants *)

Definition children (m : SessionManager) (p : SessionId) : list SessionId :=
  s_id <$> select (is_child_of p) m.

Lemma elem_of_select P m s :
  s ∈ select P m <-> P s = true /\ exists id, sessions m !! id = Some s.
Proof.
  unfold select. rewrite list_elem_of_filter, list_elem_of_fmap, Is_true_true. split.
  - intros [HP ([id s'] & -> & Hin%elem_of_map_to_list)]. split; [done|by exists id].
  - intros [HP [id Hid]]. split; [done|]. exists (id, s). split; [done|]. by apply elem_of_map_to_list.
Qed.

Section cascade.
Context (issued : list SessionId) (m : SessionManager) (root : SessionId).
Hypothesis Hinv : hierarchy_inv issued m.

Lemma elem_of_children p c :
  c ∈ children m p <-> exists s, sessions m !! c = Some s /\ parent_session_id s = Some p.
Proof.
  destruct Hinv as (_ & Hid & _). unfold children, is_child_of.
  rewrite list_elem_of_fmap. setoid_rewrite elem_of_select. setoid_rewrite bool_decide_eq_true. split.
  - intros (s & -> & Hp & id & Hs). destruct (Hid _ _ Hs) as [-> _]. by exists s.
  - intros (s & Hs & Hp). destruct (Hid _ _ Hs) as [<- _]. exists s. split; [done|]. split; [done|].
    by eexists.
Qed.

Lemma NoDup_children p : NoDup (children m p).
Proof.
  destruct Hinv as (_ & Hid & _). unfold children, select.
  eapply sublist_NoDup; [|apply fmap_sublist, sublist_filter].
  replace (s_id <$> (map_to_list (sessions m)).*2) with (map_to_list (sessions m)).*1;
    [apply NoDup_fst_map_to_list|].
  rewrite <- list_fmap_compose. apply list_fmap_ext. intros i [id s] Hi.
  apply list_elem_of_lookup_2, elem_of_map_to_list, Hid in Hi as [Hs _]. done.
Qed.

(** No session descends from one of its own children. *)
Lemma descends_before x y : descends m x y -> y = x \/ before issued x y.
Proof.
  destruct Hinv as (Hnd & _ & Hpar & _). induction 1 as [|p id s Hp IH Hs Hps]; [by left|right].
  pose proof (Hpar _ _ _ Hs Hps). destruct IH as [->|?]; [done|]. by eapply before_trans.
Qed.

Lemma not_own_ancestor p s :
  descends m root p -> sessions m !! root = Some s -> parent_session_id s <> Some p.
Proof.
  intros Hd Hs Hp. destruct Hinv as (Hnd & _ & Hpar & _). pose proof (Hpar _ _ _ Hs Hp) as Hb.
  apply (before_irrefl issued root Hnd).
  destruct (descends_before _ _ Hd) as [->|?]; [done|]. by eapply before_trans.
Qed.

Record worklist_inv (seen todo : list SessionId) : Prop := {
  wl_nodup : NoDup (seen ++ todo);
  wl_root : root ∈ seen ++ todo;
  wl_sound x : x ∈ seen ++ todo -> descends m root x;
  wl_from x : x ∈ seen ++ todo ->
    x = root \/ exists s p, sessions m !! x = Some s /\ parent_session_id s = Some p /\ p ∈ seen;
  wl_closed p c s :
    p ∈ seen -> sessions m !! c = Some s -> parent_session_id s = Some p -> c ∈ seen ++ todo
}.

Lemma worklist_start : worklist_inv [] [root].
Proof.
  split; cbn.
  - repeat constructor. set_solver.
  - set_solver.
  - intros x ->%list_elem_of_singleton. constructor.
  - intros x ->%list_elem_of_singleton. by left.
  - set_solver.
Qed.

(** A child of the current session is not on the list yet. *)
Lemma child_is_new seen cur rest c :
  worklist_inv seen (cur :: rest) -> c ∈ children m cur -> c ∉ seen ++ cur :: rest.
Proof.
  intros W (s & Hs & Hp)%elem_of_children Hc.
  destruct (wl_from _ _ W c Hc) as [->|(s' & p & Hs' & Hp' & Hin)].
  - eapply not_own_ancestor; [|done..]. apply (wl_sound _ _ W). set_solver.
  - rewrite Hs in Hs'. injection Hs' as <-. rewrite Hp in Hp'. injection Hp' as <-.
    pose proof (wl_nodup _ _ W) as (_ & Hd & _)%NoDup_app. apply (Hd cur Hin). set_solver.
Qed.

Lemma worklist_step seen cur rest :
  worklist_inv seen (cur :: rest) -> worklist_inv (seen ++ [cur]) (rest ++ children m cur).
Proof.
  intros W. assert ((seen ++ [cur]) ++ rest ++ children m cur = (seen ++ cur :: rest) ++ children m cur) as E.
  { by rewrite <- !app_assoc. }
  split; rewrite ?E.
  - apply NoDup_app. split_and!; [apply W| |apply NoDup_children]. intros x Hx Hc.
    by apply (child_is_new seen cur rest x).
  - apply elem_of_app. left. apply W.
  - intros x [Hx|Hx]%elem_of_app; [by apply (wl_sound _ _ W)|].
    apply elem_of_children in Hx as (s & Hs & Hp). eapply descends_child; [|done..].
    apply (wl_sound _ _ W). set_solver.
  - intros x [Hx|Hx]%elem_of_app.
    + destruct (wl_from _ _ W x Hx) as [?|(s & p & ? & ? & ?)]; [by left|right].
      exists s, p. split_and!; [done..|]. set_solver.
    + apply elem_of_children in Hx as (s & Hs & Hp). right. exists s, cur. set_solver.
  - intros p c s [Hp|Hp]%elem_of_app Hs Hps; apply elem_of_app.
    + left. by eapply (wl_closed _ _ W).
    + apply list_elem_of_singleton in Hp as ->. right. apply elem_of_children. by exists s.
Qed.

Lemma worklist_bound seen todo : worklist_inv seen todo -> (length (seen ++ todo) <= S (size (sessions m)))%nat.
Proof.
  intros W. rewrite <- (length_map_to_list (sessions m)), <- (length_fmap fst).
  apply (submseteq_length _ (root :: (map_to_list (sessions m)).*1)), NoDup_submseteq; [apply W|].
  intros x Hx. destruct (wl_from _ _ W x Hx) as [->|(s & p & Hs & _)]; [by left|right].
  apply list_elem_of_fmap. exists (x, s). split; [done|]. by apply elem_of_map_to_list.
Qed.

Lemma descendants_Some fuel seen todo :
  worklist_inv seen todo -> (S (size (sessions m)) <= fuel + length seen)%nat ->
  exists l, descendants fuel m seen todo = Some l /\ worklist_inv l [].
Proof.
  revert seen todo. induction fuel as [|fuel IH]; intros seen [|cur rest] W Hf; cbn [descendants].
  - by exists seen.
  - pose proof (worklist_bound _ _ W) as Hb. rewrite length_app in Hb. cbn in Hb. lia.
  - by exists seen.
  - apply IH; [by apply worklist_step|]. rewrite length_app. cbn. lia.
Qed.

Lemma worklist_done l x : worklist_inv l [] -> x ∈ l <-> descends m root x.
Proof.
  intros W. pose proof (app_nil_r l) as El. split.
  - intros Hx. apply (wl_sound _ _ W). by rewrite El.
  - induction 1 as [|p id s Hp IH Hs Hps].
    + rewrite <- El. apply W.
    + rewrite <- El. by eapply (wl_closed _ _ W).
Qed.
End cascade.

Lemma revoke_all_count ids c m :
  (foldl revoke_one (c, m) ids).1 + Z.of_nat (size (sessions (foldl revoke_one (c, m) ids).2)) =
  c + Z.of_nat (size (sessions m)).
Proof.
  revert c m. induction ids as [|k ids IH]; intros c m; cbn [foldl]; [done|].
  unfold revoke_one at 2 4. destruct (sessions m !! k) as [s|] eqn:Hk; rewrite IH; [|done].
  cbn. rewrite map_size_delete_Some by done. assert (size (sessions m) <> 0%nat) as Hne.
  { intros H0%map_size_empty_inv. by rewrite H0, lookup_empty in Hk. }
  lia.
Qed.

Lemma revoke_lookup issued m root fuel :
  reachable_sessions issued m -> (S (size (sessions m)) <= fuel)%nat ->
  exists count m', revoke_session_cascade fuel root m = Some (count, m') /\
    (forall id, descends m root id -> sessions m' !! id = None) /\
    (forall id, ~ descends m root id -> sessions m' !! id = sessions m !! id) /\
    count = Z.of_nat (size (sessions m)) - Z.of_nat (size (sessions m')).
Proof.
  intros Hinv%reachable_hierarchy Hf.
  destruct (descendants_Some issued m root Hinv fuel [] [root]) as (l & Hl & W);
    [by eapply worklist_start|cbn; lia|].
  unfold revoke_session_cascade. rewrite Hl. cbn.
  destruct (foldl revoke_one (0, m) l) as [count m'] eqn:E. exists count, m'. split; [done|].
  assert (forall id, sessions m' !! id = if decide (id ∈ l) then None else sessions m !! id) as Hlook.
  { intros id. by rewrite <- revoke_all_lookup with (c := 0), E. }
  pose proof (revoke_all_count l 0 m) as Hc. rewrite E in Hc. cbn in Hc. split_and!; [| |lia].
  - intros id Hd. rewrite Hlook, decide_True; [done|]. by apply (worklist_done m root).
  - intros id Hd. rewrite Hlook, decide_False; [done|]. by rewrite (worklist_done m root).
Qed.

(** C29: revoking a session with its descendants terminates, after at most one
    round for the session and one for each session of the manager, and removes
    exactly the session and what descends from it through delegations; every
    other session is untouched, and the number returned is the number of
    sessions removed. *)
Theorem revoke_cascade_exact (issued : list SessionId) (m : SessionManager) (root : SessionId) (fuel : nat) :
  reachable_sessions issued m -> (S (size (sessions m)) <= fuel)%nat ->
  exists count m', revoke_session_cascade fuel root m = Some (count, m') /\
    (forall id, descends m root id -> sessions m' !! id = None) /\
    (forall id, ~ descends m root id -> sessions m' !! id = sessions m !! id) /\
    count = Z.of_nat (size (sessions m)) - Z.of_nat (size (sessions m')).
Proof. apply revoke_lookup. Qed.
End safety.
