(* ===== verification/SessionLimits.v ===== *)
(** * Limits on the use of sessions

    How often a session can be used: the operation limit of its scope and the
    rate limiter ([crates/auth/src/session]).  The theorems at the end of the
    file show how a token rotation, an extension and a concurrent delegation
    get around limits and lifetimes. *)

From Stdlib Require Import ZArith Lia Sorted Strings.Byte.
From stdpp Require Import base gmap strings list sorting.
From S2P Require Import Prelude External Platform AccessControl Sessions SessionManager SessionSafety.

(** ** The rate limiter *)

Abbreviation SECOND := 1000000000 (only parsing).

(** The instants at which a sequence of calls is let through. *)
Fixpoint admitted (l : RateLimiterState) (times : list DateTime) : list DateTime :=
  match times with
  | [] => []
  | t :: rest =>
      let '(r, l') := check_and_increment t l in
      if is_ok r then t :: admitted l' rest else admitted l' rest
  end.

(** The calls let through within one second from [t]. *)
Definition burst (t : DateTime) (times : list DateTime) : nat :=
  length (filter (fun x => t <= x < t + SECOND) times).

Lemma burst_cons t x l :
  burst t (x :: l) = ((if decide (t <= x < t + SECOND)%Z then 1 else 0) + burst t l)%nat.
Proof. unfold burst. rewrite filter_cons. by destruct (decide _). Qed.

Lemma burst_late t l times : Forall (fun x => t + SECOND <= x) times -> burst t (admitted l times) = 0%nat.
Proof.
  revert l. induction times as [|x times IH]; intros l Hall; [done|]. inversion Hall as [|? ? Hx Hr]; subst.
  cbn [admitted]. destruct (check_and_increment x l) as [[[]|e] l']; cbn [is_ok].
  - rewrite burst_cons, decide_False by lia. by apply IH.
  - by apply IH.
Qed.

Lemma num_seconds_ge d : 0 <= d -> (1 <=? num_seconds d) = (SECOND <=? d).
Proof.
  intros Hd. unfold num_seconds. rewrite Z.quot_div_nonneg by lia. apply eq_bool_prop_intro.
  rewrite !Is_true_true, !Z.leb_le. split; intros H.
  - pose proof (Z.mul_div_le d SECOND ltac:(lia)). lia.
  - apply Z.div_le_lower_bound; lia.
Qed.

Lemma sorted_cons_cons w x times :
  Sorted Z.le (w :: x :: times) ->
  w <= x /\ Sorted Z.le (w :: times) /\ Sorted Z.le (x :: times) /\ Forall (Z.le x) times.
Proof.
  intros Hs%Sorted_StronglySorted; [|intros ???; lia].
  apply StronglySorted_inv in Hs as [Hs Hw]. inversion Hw as [|? ? Hwx Hw']; subst.
  apply StronglySorted_inv in Hs as Hs'. destruct Hs' as [Hs' Hx].
  split_and!; [done| |by apply StronglySorted_Sorted|done]. apply StronglySorted_Sorted. by constructor.
Qed.

Section limiter.
Context (lim : Z).
Hypothesis Hlim : u32 lim.

Definition slots (k : Z) : Z := Z.max 0 (lim - k).
Definition window : Z := Z.max 1 lim.

(** What one call does, for a call that is not before the window. *)
Lemma check_cases t k w :
  0 <= k -> w <= t ->
  (w + SECOND <= t /\ check_and_increment t (MkLimiter k w lim) = (Ok tt, MkLimiter 1 t lim)) \/
  (t < w + SECOND /\ k < lim /\
     check_and_increment t (MkLimiter k w lim) = (Ok tt, MkLimiter (k + 1) w lim)) \/
  (t < w + SECOND /\ exists e, check_and_increment t (MkLimiter k w lim) = (Err e, MkLimiter k w lim)).
Proof.
  intros Hk Hw. unfold check_and_increment. cbn [window_start operations limit].
  rewrite num_seconds_ge by lia. destruct (Z.leb_spec SECOND (t - w)); [left; split; [lia|done]|right].
  destruct (Z.leb_spec lim k); [right; split; [lia|by eexists]|left].
  split_and!; [lia|done|]. rewrite wrap_small; [done|]. unfold in_u in *. lia.
Qed.

(** The window began at [t] or later. *)
Lemma burst_current t k w times :
  0 <= k -> t <= w -> Sorted Z.le (w :: times) ->
  Z.of_nat (burst t (admitted (MkLimiter k w lim) times)) <= slots k.
Proof.
  revert k. induction times as [|x times IH]; intros k Hk Ht Hs; [unfold slots; cbn; lia|].
  destruct (sorted_cons_cons _ _ _ Hs) as (Hwx & Hs' & Hs'' & Hx). cbn [admitted].
  destruct (check_cases x k w Hk Hwx) as [(Hr & ->)|[(Hr & Hlt & ->)|(Hr & e & ->)]]; cbn [is_ok].
  - rewrite burst_cons, decide_False by lia. rewrite burst_late; [unfold slots; lia|].
    eapply Forall_impl; [exact Hx|]. cbn. lia.
  - rewrite burst_cons. specialize (IH (k + 1) ltac:(lia) Ht Hs'). unfold slots in *. case_decide; lia.
  - by apply IH.
Qed.

(** All calls are at [t] or later. *)
Lemma burst_next t k w times :
  0 <= k -> Forall (fun x => t <= x) times -> Sorted Z.le (w :: times) ->
  Z.of_nat (burst t (admitted (MkLimiter k w lim) times)) <= slots k + window.
Proof.
  revert k. induction times as [|x times IH]; intros k Hk Hall Hs; [unfold slots, window; cbn; lia|].
  inversion Hall as [|? ? Htx Hall']; subst.
  destruct (sorted_cons_cons _ _ _ Hs) as (Hwx & Hs' & Hs'' & Hx). cbn [admitted].
  destruct (check_cases x k w Hk Hwx) as [(Hr & ->)|[(Hr & Hlt & ->)|(Hr & e & ->)]]; cbn [is_ok].
  - rewrite burst_cons.
    pose proof (burst_current t 1 x times ltac:(lia) Htx Hs'') as H.
    unfold slots, window in *. case_decide; lia.
  - rewrite burst_cons. specialize (IH (k + 1) ltac:(lia) Hall' Hs'). unfold slots in *. case_decide; lia.
  - by apply IH.
Qed.

Lemma burst_any t k w times :
  0 <= k -> Sorted Z.le (w :: times) ->
  Z.of_nat (burst t (admitted (MkLimiter k w lim) times)) <= 2 * window.
Proof.
  revert k w. induction times as [|x times IH]; intros k w Hk Hs; [unfold window; cbn; lia|].
  destruct (sorted_cons_cons _ _ _ Hs) as (Hwx & Hs' & Hs'' & Hx).
  destruct (Z.le_gt_cases t x) as [Htx|Htx].
  - pose proof (burst_next t k w (x :: times) Hk) as H. unfold slots, window in *.
    assert (Forall (fun y => t <= y) (x :: times)) as Hall.
    { constructor; [done|]. eapply Forall_impl; [exact Hx|]. cbn. lia. }
    specialize (H Hall Hs). lia.
  - cbn [admitted].
    destruct (check_cases x k w Hk Hwx) as [(Hr & ->)|[(Hr & Hlt & ->)|(Hr & e & ->)]]; cbn [is_ok];
      rewrite ?burst_cons, ?(decide_False (P := t <= x < t + SECOND)) by lia; apply IH; by try lia.
Qed.
End limiter.

(** The rate limiter of a session bounds every second.  Whatever the calls
    are, as long as the clock does not go back, at most twice the limit of
    them are let through within any one second (a limit of zero counts as
    one): the window is not sliding, so the end of one window and the
    beginning of the next can fall together. *)
Theorem rate_limiter_bound (lim : Z) (now t : DateTime) (times : list DateTime) :
  u32 lim -> Sorted Z.le (now :: times) ->
  Z.of_nat (burst t (admitted (RateLimiterState_new lim now) times)) <= 2 * Z.max 1 lim.
Proof. intros Hlim Hs. by apply burst_any. Qed.

(** ** The operation limit of a scope *)

Section limits.
Context {SHA : Sha256} {HEX : Hex} {CR : ChronoRange}.

(** What a successful validation within the scope means. *)
Lemma validate_scoped_Ok id tok op key now m s' m' :
  validate_scoped_session id tok op key now m = (Ok s', m') ->
  exists s, sessions m !! id = Some s /\ session_is_expired now s = false /\ verify_token s tok = true /\
    is_operation_limit_reached s = false /\
    (forall p, op = Some p -> session_operation_allowed s p = true) /\
    (forall k, key = Some k -> session_key_allowed s k = true) /\
    s' = count_use now s /\ sessions m' !! id = Some s'.
Proof.
  unfold validate_scoped_session. destruct (sessions m !! id) as [s|]; [|done].
  destruct (session_is_expired now s) eqn:Ee; [done|]. destruct (verify_token s tok) eqn:Et; [|done].
  destruct (is_operation_limit_reached s) eqn:El; [done|]. cbn [negb].
  intros (u1 & m1 & _ & E)%bind_inv_Ok. apply bind_inv_Ok in E as (u2 & m2 & E2 & E).
  apply bind_inv_Ok in E as (u3 & m3 & E3 & E).
  apply bind_inv_Ok in E as (u4 & m4 & [= _ <-] & [= <- <-]).
  exists s. split_and!; try done.
  - intros p ->. by destruct (session_operation_allowed s p).
  - intros k ->. by destruct (session_key_allowed s k).
  - cbn. by rewrite lookup_insert_eq.
Qed.

(** A use counts once; the count is a [u64]. *)
Definition counted (s s' : Session) : Prop :=
  scope s' = scope s /\
  (0 <= operation_count s < 2 ^ 64 - 1 -> operation_count s <= operation_count s' <= operation_count s + 1).

#[export] Instance counted_use : UseRelation counted.
Proof.
  split; intros; (split; [done|]); cbn; intros; [lia..| |lia]. rewrite wrap_small; unfold in_u; lia.
Qed.

(** The number of successful scoped validations of a session in a run. *)
Definition used (id : SessionId) (now : DateTime) (op : session_op) (m : SessionManager) : bool :=
  match op with
  | OValidateScoped id' tok p k =>
      bool_decide (id' = id) && is_ok (validate_scoped_session id' tok p k now m).1
  | _ => false
  end.
Fixpoint scoped_uses (id : SessionId) (ops : list (DateTime * session_op)) (m : SessionManager)
  : option nat :=
  match ops with
  | [] => Some O
  | (now, op) :: rest =>
      m' ← perform_session now op m;
      n ← scoped_uses id rest m';
      Some ((if used id now op m then 1 else 0) + n)%nat
  end.

Lemma scoped_uses_absent id ops m n :
  sessions m !! id = None -> Forall (fun '(_, op) => id ∉ drawn op) ops ->
  scoped_uses id ops m = Some n -> n = O.
Proof.
  intros Hm Hops. revert m n Hm. induction Hops as [|[now op] ops Hd _ IH]; intros m n Hm; cbn [scoped_uses].
  { by intros [= <-]. }
  destruct (perform_session now op m) as [m1|] eqn:E; [|done]. cbn.
  destruct (scoped_uses id ops m1) as [n1|] eqn:En; [|done]. cbn. intros [= <-].
  assert (used id now op m = false) as ->.
  { destruct op; try done. cbn. case_bool_decide; [subst|done]. unfold validate_scoped_session.
    by rewrite Hm. }
  apply (IH m1); [|done].
  destruct (sessions m1 !! id) as [s'|] eqn:Hs'; [|done].
  destruct (perform_session_step same_authority now op m m1 (fun _ => same_authority_rotate) E id s' Hs')
    as [(s & Hs & _)|(Hdr & _)]; [by rewrite Hs in Hm|]. exfalso. apply Hd. rewrite Hdr. set_solver.
Qed.

(** The operation limit of a scope holds.  In any run in which no token is
    rotated (and the id is not drawn again), a session whose scope allows
    [lim] operations is validated for its scope at most as often as is left
    of that number, whatever else is done with it; the run has to be shorter
    than the range of the 64-bit counter. *)
Theorem scope_operation_limit (id : SessionId) (ops : list (DateTime * session_op)) (m : SessionManager)
    (n : nat) (s : Session) (sc : SessionScope) (lim : Z) :
  sessions m !! id = Some s -> scope s = Some sc -> max_operations sc = Some lim ->
  Forall (fun '(_, op) => rotates op = false /\ id ∉ drawn op) ops ->
  0 <= operation_count s -> operation_count s + Z.of_nat (length ops) < 2 ^ 64 ->
  scoped_uses id ops m = Some n ->
  Z.of_nat n <= Z.max 0 (lim - operation_count s).
Proof.
  intros Hs Hsc Hlim Hops. revert m n s Hs Hsc.
  induction Hops as [|[now op] ops [Hr Hd] Hops IH]; intros m n s Hs Hsc H0 Hlen; cbn [scoped_uses].
  { intros [= <-]. lia. }
  destruct (perform_session now op m) as [m1|] eqn:E; [|done]. cbn.
  destruct (scoped_uses id ops m1) as [n1|] eqn:En; [|done]. cbn. intros [= <-].
  cbn [length] in Hlen.
  assert (used id now op m = true -> operation_count s < lim /\
    exists s', sessions m1 !! id = Some s' /\ operation_count s' = operation_count s + 1) as Hused.
  { destruct op; try done. cbn. intros [->%bool_decide_eq_true Hok]%andb_true_iff.
    destruct (validate_scoped_session id tok op key now m) as [[s'|e] m'] eqn:Ev; [|done].
    cbn in E. rewrite Ev in E. injection E as <-.
    apply validate_scoped_Ok in Ev as (s0 & Hs0 & _ & _ & Hl & _ & _ & -> & Hm'). rewrite Hs in Hs0.
    injection Hs0 as <-. unfold is_operation_limit_reached in Hl. rewrite Hsc, Hlim in Hl.
    split; [by apply Z.leb_gt|]. eexists. split; [done|]. cbn. rewrite wrap_small; [done|]. unfold in_u. lia. }
  destruct (sessions m1 !! id) as [s'|] eqn:Hs'.
  - destruct (perform_session_step counted now op m m1 ltac:(by rewrite Hr) E id s' Hs')
      as [(s0 & Hs0 & Hsc' & Hc)|(Hdr & _)].
    + rewrite Hs in Hs0. injection Hs0 as <-. specialize (Hc ltac:(lia)).
      specialize (IH m1 n1 s' Hs' ltac:(by rewrite Hsc', Hsc) ltac:(lia) ltac:(lia) En).
      destruct (used id now op m); [|lia].
      destruct (Hused eq_refl) as (? & s2 & [= <-] & ?). lia.
    + exfalso. apply Hd. rewrite Hdr. set_solver.
  - assert (n1 = O) as -> by (eapply scoped_uses_absent; [exact Hs'| |exact En];
      eapply Forall_impl; [exact Hops|]; by intros [? ?] [? ?]).
    destruct (used id now op m); [|lia]. by destruct (Hused eq_refl) as (? & s2 & ? & ?).
Qed.

(** ** Ways around the limits *)

(** A rotation of the token resets the count that the operation limit is
    checked against.  A session that has used up its limit is refused with
    every token; after [rotate_session_token] the new token is accepted again
    for any operation and key of the scope, so a client that can have its
    token rotated has no limit at all. *)
Theorem rotation_resets_limit (id : SessionId) (m : SessionManager) (s : Session) (sc : SessionScope)
    (lim : Z) (tokr : bytes) (now : DateTime) :
  sessions m !! id = Some s -> scope s = Some sc -> max_operations sc = Some lim -> 0 < lim ->
  lim <= operation_count s -> rate_limiters m !! id = None -> session_is_expired now s = false ->
  (forall tok op key, is_ok (validate_scoped_session id tok op key now m).1 = false) /\
  exists tok m', rotate_session_token id tokr m = (Ok tok, m') /\
    forall op key, session_operation_allowed s op = true -> session_key_allowed s key = true ->
      is_ok (validate_scoped_session id tok (Some op) (Some key) now m').1 = true.
Proof.
  intros Hs Hsc Hlim Hpos Hused Hrl Hexp. split.
  - intros tok op key. destruct (validate_scoped_session id tok op key now m) as [[s'|e] m'] eqn:E; [|done].
    apply validate_scoped_Ok in E as (s0 & Hs0 & _ & _ & Hl & _). rewrite Hs in Hs0. injection Hs0 as <-.
    unfold is_operation_limit_reached in Hl. rewrite Hsc, Hlim in Hl. apply Z.leb_gt in Hl. lia.
  - unfold rotate_session_token, with_session. rewrite Hs. cbn [rotate_token].
    eexists _, _. split; [done|]. intros op key Hop Hkey. unfold validate_scoped_session.
    cbn [set_sessions sessions]. rewrite lookup_insert_eq.
    unfold session_is_expired in *. cbn [s_expires_at]. rewrite Hexp.
    unfold verify_token, HashedToken_verify. cbn [token_hash token_digest]. rewrite bool_decide_eq_true_2 by done.
    unfold is_operation_limit_reached. cbn [scope operation_count negb]. rewrite Hsc, Hlim.
    rewrite (proj2 (Z.leb_gt _ _)) by done.
    unfold session_operation_allowed, session_key_allowed in *. cbn [scope]. rewrite Hsc in *.
    unfold bind, rate_check. cbn [set_sessions rate_limiters]. rewrite Hrl, Hop. cbn. rewrite Hkey. done.
Qed.

(** An expired session can be extended, and is valid again; nothing compares
    the new expiry with that of the session it was delegated from. *)
Lemma extension_revives id m s additional now m' r tok :
  sessions m !! id = Some s -> session_is_expired now s = true ->
  now <= s_expires_at s + additional * SECOND -> verify_token s tok = true ->
  extend_session id additional m = Some (r, m') ->
  is_ok (validate_session_with_token id tok now m).1 = false /\
  is_ok (validate_session_with_token id tok now m').1 = true.
Proof.
  intros Hs Hexp Hnow Htok. unfold extend_session, extend. rewrite Hs. cbn.
  destruct (duration_seconds additional) as [d|] eqn:Hd; [|done]. cbn.
  destruct (dt_add (s_expires_at s) d) as [t|] eqn:Ht; [|done]. cbn. intros [= <- <-].
  apply duration_seconds_Some in Hd as ->. apply dt_add_Some in Ht as ->.
  unfold validate_session_with_token, with_session. rewrite Hs, Hexp. split; [done|].
  cbn [set_sessions sessions]. rewrite lookup_insert_eq. unfold session_is_expired. cbn [set_expiry s_expires_at].
  rewrite (proj2 (Z.ltb_ge _ _)) by done. unfold verify_token in *. cbn [set_expiry token_hash]. by rewrite Htok.
Qed.

(** A delegation that has read its parent inserts the child after the parent
    was revoked with all its descendants. *)
Lemma delegation_survives_revocation issued m pid sc ttl idr tokr now r fuel n m' :
  reachable_sessions issued m -> delegate_prepare pid sc ttl idr tokr now m = Some (Ok r) ->
  generate_session_id idr ∉ issued -> (S (size (sessions m)) <= fuel)%nat ->
  revoke_session_cascade fuel pid m = Some (n, m') ->
  sessions m' !! pid = None /\ parent_session_id (session r) = Some pid /\
  sessions (delegate_insert (session r) now m') !! s_id (session r) = Some (session r) /\
  sessions (delegate_insert (session r) now m') !! pid = None.
Proof.
  intros Hreach Hp Hfresh Hfuel Hr.
  destruct (revoke_lookup issued m pid fuel Hreach Hfuel) as (n' & m1 & E & Hgone & _).
  rewrite Hr in E. injection E as <- <-. specialize (Hgone pid (descends_self _ _)).
  destruct (delegate_prepare_Ok _ _ _ _ _ _ _ _ Hp) as (Hid & Hpar & ps & Hps & _).
  apply reachable_hierarchy in Hreach as (_ & Hissued & _). destruct (Hissued _ _ Hps) as [_ Hin].
  unfold delegate_insert, add_session. cbn [set_sessions sessions]. rewrite sessions_add_limiter, lookup_insert_eq.
  split_and!; [done..|]. rewrite lookup_insert_ne; [done|]. intros E. apply Hfresh. by rewrite <- Hid, E.
Qed.
End limits.
