(* ===== verification/SessionWitness.v ===== *)
(** * Concrete runs of the access control and of the session manager

    The theorems of [AccessControl], [SessionSafety] and [SessionLimits]
    applied to a client who opens a session from a template, delegates it
    twice and uses it up. *)

From Stdlib Require Import ZArith Lia Strings.Byte Sorted.
From stdpp Require Import base gmap strings list.
From S2P Require Import Prelude External Platform AccessControl Sessions SessionManager.
From S2P Require Import SessionSafety SessionLimits.
Import Concrete Concrete2.

Definition alice : ClientIdentity := MkIdentity "alice" None "prod" [User] "01".

(** ** A denied client *)

Definition guarded : AclManager := (create_acl "k1" true ∅).2.
Definition denied : AclManager := (deny_client "k1" "alice" guarded).2.

Lemma denial_lasts_witness :
  require_key_access (foldl acl_step denied [AllowClient "k1" "alice"]) "k1" alice <> Ok tt.
Proof.
  refine (proj1 (denial_lasts guarded denied "k1" alice [AllowClient "k1" "alice"] PSign _ _)).
  - vm_compute. reflexivity.
  - repeat constructor. intros H. exact H.
Defined.

(** ** Delegation *)

Definition limits : SessionScope := MkScope (Some [PSign; PViewMetadata]) None (Some 2) None None.
Definition template : SessionTemplate :=
  with_delegation 2 0 (with_scope limits 0 (SessionTemplate_new "t" "signing" 0)).
Definition root_id : SessionId := generate_session_id [Byte.x01].
Definition child_id : SessionId := generate_session_id [Byte.x02].
Definition grandchild_id : SessionId := generate_session_id [Byte.x03].
Definition sign_only : SessionScope := MkScope (Some [PSign]) None (Some 1) None None.

Definition steps : list (DateTime * session_op) :=
  [(0, ORegisterTemplate template);
   (nanos 1, OCreateFromTemplate alice "t" [Byte.x01] [Byte.x0a]);
   (nanos 2, ODelegate root_id limits 60 [Byte.x02] [Byte.x0b]);
   (nanos 3, ODelegate child_id sign_only 60 [Byte.x03] [Byte.x0c])].

(** A run, checked step by step. *)
Fixpoint run_sessions (ops : list (DateTime * session_op)) (issued : list SessionId) (m : SessionManager)
  : option (list SessionId * SessionManager) :=
  match ops with
  | [] => Some (issued, m)
  | (now, op) :: rest =>
      if bool_decide (Forall (fun id => id ∉ issued) (drawn op)) then
        m' ← perform_session now op m; run_sessions rest (issued ++ drawn op) m'
      else None
  end.

Lemma run_sessions_reachable ops issued m issued' m' :
  reachable_sessions issued m -> run_sessions ops issued m = Some (issued', m') ->
  reachable_sessions issued' m'.
Proof.
  revert issued m. induction ops as [|[now op] ops IH]; intros issued m Hr; cbn; [by intros [= <- <-]|].
  case_bool_decide as Hf; [|done]. destruct (perform_session now op m) as [m1|] eqn:E; [|done]. cbn.
  apply IH. eapply rs_step; [done..|]. intros id Hid. by eapply Forall_forall in Hf.
Qed.

Definition run1 := run_sessions steps [] (SessionManager_new 3600).
Definition delegated : SessionManager := from_option snd (SessionManager_new 0) run1.

Lemma delegated_reachable : reachable_sessions [root_id; child_id; grandchild_id] delegated.
Proof.
  apply (run_sessions_reachable steps [] (SessionManager_new 3600)); [constructor|].
  vm_compute. reflexivity.
Qed.

Definition no_session : Session :=
  MkSession EmptyString alice 0 0 0 (MkHashed []) 0 None None None None None 0 0 false None.
Definition session_of (m : SessionManager) (id : SessionId) : Session := default no_session (sessions m !! id).

Lemma grandchild_descends : descends delegated root_id grandchild_id.
Proof.
  apply (descends_child _ _ child_id _ (session_of delegated grandchild_id));
    [|vm_compute; reflexivity..].
  apply (descends_child _ _ root_id _ (session_of delegated child_id)); [|vm_compute; reflexivity..].
  apply descends_self.
Qed.

Lemma delegation_attenuates_witness :
  attenuates (session_of delegated root_id) (session_of delegated grandchild_id).
Proof.
  apply (delegation_attenuates _ delegated root_id grandchild_id _ _ delegated_reachable);
    [vm_compute; reflexivity..|apply grandchild_descends].
Defined.

Lemma revoke_cascade_exact_witness :
  exists count m', revoke_session_cascade 4 child_id delegated = Some (count, m') /\
    sessions m' !! child_id = None /\ count = 2.
Proof.
  destruct (revoke_cascade_exact _ delegated child_id 4 delegated_reachable) as (c & m' & H & H1 & _ & Hc).
  - vm_compute. lia.
  - exists c, m'. split; [exact H|]. split.
    + apply H1, descends_self.
    + assert (revoke_session_cascade 4 child_id delegated = Some (2, default delegated (snd <$> revoke_session_cascade 4 child_id delegated))) as E
        by (vm_compute; reflexivity).
      congruence.
Defined.

(** ** Limits *)

Lemma rate_limiter_bound_witness :
  Z.of_nat (burst 0 (admitted (RateLimiterState_new 2 0) [1; 2; 3; 4])) <= 4.
Proof.
  apply (rate_limiter_bound 2 0 0 [1; 2; 3; 4]); [unfold in_u; lia|].
  repeat constructor; lia.
Defined.

Definition root_token : SessionToken := SessionToken_new [Byte.x0a].
Definition uses : list (DateTime * session_op) :=
  [(nanos 4, OValidateScoped root_id root_token (Some PSign) None);
   (nanos 5, OValidateScoped root_id root_token (Some PSign) None);
   (nanos 6, OValidateScoped root_id root_token (Some PSign) None)].

Lemma scope_operation_limit_witness : scoped_uses root_id uses delegated = Some 2%nat /\ Z.of_nat 2 <= 2.
Proof.
  split; [vm_compute; reflexivity|].
  apply (scope_operation_limit root_id uses delegated 2 (session_of delegated root_id) limits 2);
    [vm_compute; reflexivity..| |vm_compute; discriminate|vm_compute; reflexivity|vm_compute; reflexivity].
  repeat constructor; intros H; inversion H.
Defined.

Definition used_up : SessionManager := from_option snd delegated (run_sessions uses [] delegated).

Lemma rotation_resets_limit_witness :
  is_ok (validate_scoped_session root_id root_token (Some PSign) None (nanos 7) used_up).1 = false /\
  exists tok m', rotate_session_token root_id [Byte.x0f] used_up = (Ok tok, m') /\
    is_ok (validate_scoped_session root_id tok (Some PSign) (Some "k1") (nanos 7) m').1 = true.
Proof.
  destruct (rotation_resets_limit root_id used_up (session_of used_up root_id) limits 2 [Byte.x0f] (nanos 7))
    as [H1 (tok & m' & H2 & H3)]; [vm_compute; first [reflexivity | discriminate]..|].
  split; [apply H1|]. exists tok, m'. split; [exact H2|]. apply H3; vm_compute; reflexivity.
Defined.
