(* ===== verification/PolicyTypes.v ===== *)
(** * Transaction policies and the spending tracker

    The data of [crates/auth/src/policy]: assets and windows of [types.rs],
    the limits of [spending.rs], the address lists of [address.rs], and the
    tracker of [tracker.rs]: the transactions of a key, a namespace, a user and
    of all, and their totals over a window.  Values are decimal strings and
    records are grouped by the text of the asset, as in the source.
    Lower-casing is that of ASCII letters, the only letters of addresses and
    asset names; [now] is the clock, in nanoseconds. *)

From Stdlib Require Import ZArith Lia Strings.Ascii.
From stdpp Require Import base gmap strings list.
From S2P Require Import Prelude External Platform.

(** ** Text *)

Definition lower_char (c : ascii) : ascii :=
  let n := nat_of_ascii c in
  if ((65 <=? n) && (n <=? 90))%nat then ascii_of_nat (n + 32) else c.
Fixpoint to_lowercase (s : string) : string :=
  match s with EmptyString => EmptyString | String c s' => String (lower_char c) (to_lowercase s') end.
Definition upper_char (c : ascii) : ascii :=
  let n := nat_of_ascii c in
  if ((97 <=? n) && (n <=? 122))%nat then ascii_of_nat (n - 32) else c.
Fixpoint to_uppercase (s : string) : string :=
  match s with EmptyString => EmptyString | String c s' => String (upper_char c) (to_uppercase s') end.
(** [&s[..8.min(s.len())]] *)
Definition first8 (s : string) : string := String.substring 0 8 s.

Definition starts_with (p s : string) : bool := match strip_prefix p s with Some _ => true | None => false end.
Definition ends_with (p s : string) : bool := match strip_suffix p s with Some _ => true | None => false end.

(** ** Assets and windows *)

Inductive AssetType :=
| Native (symbol : string)
| Erc20 (chain_id : Z) (contract : string)
| Erc721 (chain_id : Z) (contract : string)
| AnyAsset.
#[export] Instance AssetType_eq_dec : EqDecision AssetType.
Proof. solve_decision. Defined.

Definition native (symbol : string) : AssetType := Native (to_uppercase symbol).
Definition erc20 (chain_id : Z) (contract : string) : AssetType := Erc20 chain_id (to_lowercase contract).
Definition asset_matches (a b : AssetType) : bool :=
  match a, b with
  | AnyAsset, _ | _, AnyAsset => true
  | Native x, Native y => bool_decide (x = y)
  | Erc20 c1 a1, Erc20 c2 a2 => (c1 =? c2) && bool_decide (a1 = a2)
  | Erc721 c1 a1, Erc721 c2 a2 => (c1 =? c2) && bool_decide (a1 = a2)
  | _, _ => false
  end.
(** [Display] *)
Definition asset_to_string (a : AssetType) : string :=
  match a with
  | Native symbol => symbol
  | Erc20 chain_id contract => "ERC20:" +:+ to_decimal chain_id +:+ ":" +:+ first8 contract
  | Erc721 chain_id contract => "ERC721:" +:+ to_decimal chain_id +:+ ":" +:+ first8 contract
  | AnyAsset => "*"
  end.

Inductive TimeWindow := PerTransaction | Hour | Day | Week | Month.
#[export] Instance TimeWindow_eq_dec : EqDecision TimeWindow.
Proof. solve_decision. Defined.
Definition window_duration (w : TimeWindow) : option Duration :=
  match w with
  | PerTransaction => None
  | Hour => Some (nanos 3600)
  | Day => Some (nanos 86400)
  | Week => Some (nanos 604800)
  | Month => Some (nanos 2592000)
  end.
Definition window_start (now : DateTime) (w : TimeWindow) : DateTime :=
  match window_duration w with None => now | Some d => now - d end.
Definition window_to_string (w : TimeWindow) : string :=
  match w with
  | PerTransaction => "per-tx" | Hour => "hourly" | Day => "daily" | Week => "weekly" | Month => "monthly"
  end.

(** ** Limits *)

Definition u128 (s : string) : option Z := parse_uint 128 s.
Definition saturating_add128 (a b : Z) : Z := Z.min (a + b) (2 ^ 128 - 1).

Record SpendingLimit := MkSpendingLimit {
  sl_asset_type : AssetType;
  sl_window : TimeWindow;
  sl_max_value : string;
  sl_max_transactions : option Z;
  hard_limit : bool
}.
Definition SpendingLimit_new (a : AssetType) (w : TimeWindow) (max_value : string) : SpendingLimit :=
  MkSpendingLimit a w max_value None true.
Definition limit_exceeds (l : SpendingLimit) (value : string) : bool :=
  match u128 (sl_max_value l), u128 value with
  | Some max, Some val => max <? val
  | _, _ => false
  end.

Record VelocityLimit := MkVelocityLimit {
  vl_window : TimeWindow;
  max_count : Z;
  max_total_value : option string;
  vl_asset_type : option AssetType;
  cooldown_seconds : option Z
}.
Definition exceeds_count (l : VelocityLimit) (count : Z) : bool := max_count l <=? count.
Definition exceeds_value (l : VelocityLimit) (total : string) : bool :=
  match max_total_value l with
  | Some max =>
      match u128 max, u128 total with
      | Some max_val, Some total_val => max_val <? total_val
      | _, _ => false
      end
  | None => false
  end.

Record SpendingPolicy := MkSpendingPolicy {
  limits : list SpendingLimit;
  velocity_limits : list VelocityLimit;
  bypass_addresses : list string
}.
Definition add_limit (l : SpendingLimit) (p : SpendingPolicy) : SpendingPolicy :=
  MkSpendingPolicy (limits p ++ [l]) (velocity_limits p) (bypass_addresses p).
Definition add_velocity_limit (l : VelocityLimit) (p : SpendingPolicy) : SpendingPolicy :=
  MkSpendingPolicy (limits p) (velocity_limits p ++ [l]) (bypass_addresses p).
Definition add_bypass (address : string) (p : SpendingPolicy) : SpendingPolicy :=
  MkSpendingPolicy (limits p) (velocity_limits p) (bypass_addresses p ++ [to_lowercase address]).
Definition is_bypass_address (p : SpendingPolicy) (address : string) : bool :=
  bool_decide (to_lowercase address ∈ bypass_addresses p).
Definition limits_for_asset (p : SpendingPolicy) (asset : AssetType) : list SpendingLimit :=
  filter (fun l => asset_matches (sl_asset_type l) asset) (limits p).

(** ** Addresses *)

Inductive AddressRestrictionMode := Allowlist | Blocklist.
Record AddressEntry := MkAddressEntry {
  ae_address : string;
  ae_label : option string;
  ae_enabled : bool;
  ae_expires_at : option DateTime
}.
Definition AddressEntry_new (address : string) : AddressEntry :=
  MkAddressEntry (to_lowercase address) None true None.
Definition entry_is_valid (now : DateTime) (e : AddressEntry) : bool :=
  ae_enabled e && negb match ae_expires_at e with Some expires => expires <? now | None => false end.

Record AddressPolicy := MkAddressPolicy {
  mode : AddressRestrictionMode;
  addresses : list AddressEntry;
  patterns : list string;
  ap_chain_id : option Z;
  check_contracts : bool
}.
Definition add_address (e : AddressEntry) (p : AddressPolicy) : AddressPolicy :=
  MkAddressPolicy (mode p) (addresses p ++ [e]) (patterns p) (ap_chain_id p) (check_contracts p).
Definition add_pattern (pattern : string) (p : AddressPolicy) : AddressPolicy :=
  MkAddressPolicy (mode p) (addresses p) (patterns p ++ [to_lowercase pattern]) (ap_chain_id p) (check_contracts p).
Definition matches_pattern (address pattern : string) : bool :=
  match strip_suffix "*" pattern with
  | Some prefix => starts_with prefix address
  | None =>
      match strip_prefix "*" pattern with
      | Some suffix => ends_with suffix address
      | None => bool_decide (address = pattern)
      end
  end.
Definition contains_address (now : DateTime) (p : AddressPolicy) (address : string) : bool :=
  let normalized := to_lowercase address in
  existsb (fun e => entry_is_valid now e && bool_decide (ae_address e = normalized)) (addresses p) ||
  existsb (matches_pattern normalized) (patterns p).
Definition address_allowed (now : DateTime) (p : AddressPolicy) (address : string) : bool :=
  match mode p with
  | Allowlist => contains_address now p address
  | Blocklist => negb (contains_address now p address)
  end.
Definition allowlist : AddressPolicy := MkAddressPolicy Allowlist [] [] None true.
Definition blocklist : AddressPolicy := MkAddressPolicy Blocklist [] [] None true.
Definition add_addresses (new : list string) (p : AddressPolicy) : AddressPolicy :=
  foldl (fun p addr => add_address (AddressEntry_new addr) p) p new.
Definition rejection_reason (now : DateTime) (p : AddressPolicy) (address : string) : option string :=
  if address_allowed now p address then None
  else Some match mode p with
            | Allowlist => "Address " +:+ address +:+ " not in allowlist"
            | Blocklist => "Address " +:+ address +:+ " is blocklisted"
            end.
(** Only the first entry with the address is changed. *)
Fixpoint set_enabled_first (normalized : string) (enabled : bool) (es : list AddressEntry) : list AddressEntry :=
  match es with
  | [] => []
  | e :: rest =>
      if decide (ae_address e = normalized)
      then MkAddressEntry (ae_address e) (ae_label e) enabled (ae_expires_at e) :: rest
      else e :: set_enabled_first normalized enabled rest
  end.
Definition set_address_enabled (address : string) (enabled : bool) (p : AddressPolicy) : AddressPolicy :=
  MkAddressPolicy (mode p) (set_enabled_first (to_lowercase address) enabled (addresses p)) (patterns p)
    (ap_chain_id p) (check_contracts p).
Definition remove_address (address : string) (p : AddressPolicy) : AddressPolicy :=
  MkAddressPolicy (mode p) (filter (fun e => ae_address e <> to_lowercase address) (addresses p)) (patterns p)
    (ap_chain_id p) (check_contracts p).

(** A removed address is in the list only through a pattern. *)
Lemma remove_address_contains now p address :
  contains_address now (remove_address address p) address = existsb (matches_pattern (to_lowercase address)) (patterns p).
Proof.
  unfold contains_address, remove_address. cbn. destruct (existsb _ (filter _ _)) eqn:E; [|done]. exfalso.
  apply existsb_exists in E as (e & He & Hb). apply list_elem_of_In, list_elem_of_filter in He as [Hne _].
  apply andb_true_iff in Hb as [_ Hb%bool_decide_eq_true]. done.
Qed.

(** Adding one address twice and disabling it once leaves it in the list. *)
Lemma set_address_enabled_once now p address :
  contains_address now
    (set_address_enabled address false
       (add_addresses [address; address] (MkAddressPolicy (mode p) [] (patterns p) (ap_chain_id p) (check_contracts p)))) address = true.
Proof.
  unfold contains_address, set_address_enabled. cbn. rewrite decide_True by done. cbn.
  by rewrite bool_decide_eq_true_2.
Qed.

(** ** The spending tracker *)

Record TransactionRecord := MkRecord {
  tx_id : string;
  tr_timestamp : DateTime;
  tr_asset_type : AssetType;
  tr_value : string;
  tr_recipient : string;
  tr_key_id : string;
  tr_namespace : string;
  tr_user : string
}.
Definition value_u128 (r : TransactionRecord) : option Z := u128 (tr_value r).

(** Asset and scope. *)
Abbreviation TrackerKey := (string * string)%type.
Definition for_key (asset : AssetType) (key_id : string) : TrackerKey := (asset_to_string asset, "key:" +:+ key_id).
Definition for_namespace (asset : AssetType) (ns : string) : TrackerKey := (asset_to_string asset, "ns:" +:+ ns).
Definition for_user (asset : AssetType) (user : string) : TrackerKey := (asset_to_string asset, "user:" +:+ user).
Definition global_key (asset : AssetType) : TrackerKey := (asset_to_string asset, "global").

Record SpendingAggregate := MkAggregate {
  total_value : Z;
  tx_count : Z;
  last_tx : option DateTime
}.
Definition aggregate_add (value : Z) (timestamp : DateTime) (a : SpendingAggregate) : SpendingAggregate :=
  MkAggregate (saturating_add128 (total_value a) value) (wrap 32 (tx_count a + 1)) (Some timestamp).

Record SpendingTracker := MkTracker {
  transactions : gmap TrackerKey (list TransactionRecord);
  max_history : Z
}.
Definition tracker_new : SpendingTracker := MkTracker ∅ 10000.
Definition with_max_history (max : Z) : SpendingTracker := MkTracker ∅ max.

(** [v.drain(0..v.len() - max)] when the list is too long. *)
Definition trim_history (max : Z) (v : list TransactionRecord) : list TransactionRecord :=
  if max <? Z.of_nat (length v) then drop (length v - Z.to_nat max) v else v.
Definition record_for_key (key : TrackerKey) (r : TransactionRecord) (t : SpendingTracker) : SpendingTracker :=
  let pushed := <[key := default [] (transactions t !! key) ++ [r]]> (transactions t) in
  MkTracker (trim_history (max_history t) <$> pushed) (max_history t).
Definition record (r : TransactionRecord) (t : SpendingTracker) : SpendingTracker :=
  let t := record_for_key (for_key (tr_asset_type r) (tr_key_id r)) r t in
  let t := record_for_key (for_namespace (tr_asset_type r) (tr_namespace r)) r t in
  let t := record_for_key (for_user (tr_asset_type r) (tr_user r)) r t in
  record_for_key (global_key (tr_asset_type r)) r t.

Fixpoint aggregate_from (start : DateTime) (rs : list TransactionRecord) (a : SpendingAggregate) : SpendingAggregate :=
  match rs with
  | [] => a
  | r :: rest =>
      aggregate_from start rest
        (if start <=? tr_timestamp r then
           match value_u128 r with Some value => aggregate_add value (tr_timestamp r) a | None => a end
         else a)
  end.
Definition get_aggregate (now : DateTime) (t : SpendingTracker) (key : TrackerKey) (w : TimeWindow) : SpendingAggregate :=
  aggregate_from (window_start now w) (default [] (transactions t !! key)) (MkAggregate 0 0 None).

Definition would_exceed_limit (now : DateTime) (t : SpendingTracker) (key : TrackerKey) (w : TimeWindow)
    (new_value max_value : Z) : bool :=
  max_value <? saturating_add128 (total_value (get_aggregate now t key w)) new_value.
Definition would_exceed_count (now : DateTime) (t : SpendingTracker) (key : TrackerKey) (w : TimeWindow) (max_count : Z)
    : bool := max_count <=? tx_count (get_aggregate now t key w).
Definition get_recent (t : SpendingTracker) (key : TrackerKey) (limit : nat) : list TransactionRecord :=
  take limit (reverse (default [] (transactions t !! key))).

Definition time_since_last_tx (now : DateTime) (t : SpendingTracker) (key : TrackerKey) (w : TimeWindow) : option Duration :=
  (fun last => now - last) <$> last_tx (get_aggregate now t key w).
Definition cleanup (now : DateTime) (retention : Duration) (t : SpendingTracker) : SpendingTracker :=
  MkTracker (filter (fun r => now - retention < tr_timestamp r) <$> transactions t) (max_history t).

(** ** Totals *)

Definition counted (start : DateTime) (r : TransactionRecord) : Z :=
  if start <=? tr_timestamp r then default 0 (value_u128 r) else 0.
Fixpoint sum_counted (start : DateTime) (rs : list TransactionRecord) : Z :=
  match rs with [] => 0 | r :: rest => counted start r + sum_counted start rest end.

Lemma value_u128_range r v : value_u128 r = Some v -> 0 <= v < 2 ^ 128.
Proof. apply parse_uint_range. Qed.

Lemma counted_nonneg start r : 0 <= counted start r.
Proof.
  unfold counted. case_match; [|done]. destruct (value_u128 r) as [v|] eqn:Hv; [|done].
  apply value_u128_range in Hv. simpl. lia.
Qed.

Lemma sum_counted_nonneg start rs : 0 <= sum_counted start rs.
Proof. induction rs as [|r rs IH]; simpl; [done|]. pose proof (counted_nonneg start r). lia. Qed.

(** The running total is the sum, cut off at the largest [u128]. *)
Lemma aggregate_total start rs a :
  0 <= total_value a < 2 ^ 128 ->
  total_value (aggregate_from start rs a) = Z.min (total_value a + sum_counted start rs) (2 ^ 128 - 1).
Proof.
  revert a. induction rs as [|r rs IH]; intros a Ha; simpl; [lia|].
  pose proof (sum_counted_nonneg start rs) as Hs. unfold counted.
  destruct (start <=? tr_timestamp r); [|by rewrite IH].
  destruct (value_u128 r) as [v|] eqn:Hv; simpl; [|by rewrite IH].
  apply value_u128_range in Hv. rewrite IH; simpl; unfold saturating_add128; lia.
Qed.

Lemma get_aggregate_total now t key w :
  total_value (get_aggregate now t key w) =
  Z.min (sum_counted (window_start now w) (default [] (transactions t !! key))) (2 ^ 128 - 1).
Proof. unfold get_aggregate. rewrite aggregate_total; simpl; [f_equal; lia|lia]. Qed.

(** ** Recording *)

Lemma trim_history_short max v : Z.of_nat (length v) <= max -> trim_history max v = v.
Proof. intros Hl. unfold trim_history. by rewrite (proj2 (Z.ltb_ge _ _)). Qed.

Definition records (t : SpendingTracker) (key : TrackerKey) : list TransactionRecord :=
  default [] (transactions t !! key).
(** No list is longer than the history that is kept. *)
Definition untrimmed (t : SpendingTracker) : Prop := forall key, Z.of_nat (length (records t key)) <= max_history t.

Lemma record_for_key_appends key r t :
  untrimmed t -> Z.of_nat (length (records t key)) < max_history t ->
  untrimmed (record_for_key key r t) /\ max_history (record_for_key key r t) = max_history t /\
  forall key', records (record_for_key key r t) key' =
               records t key' ++ (if decide (key' = key) then [r] else []).
Proof.
  intros Hs Hn.
  assert (H : forall key', records (record_for_key key r t) key' =
                           records t key' ++ (if decide (key' = key) then [r] else [])).
  { intros key'. unfold records at 1, record_for_key. cbn. rewrite lookup_fmap. destruct (decide (key' = key)) as [->|Hne].
    - rewrite lookup_insert_eq. cbn. apply trim_history_short. rewrite length_app. cbn. fold (records t key). lia.
    - rewrite lookup_insert_ne, app_nil_r by done. specialize (Hs key'). unfold records in *.
      destruct (transactions t !! key'); [|done]. cbn in *. by apply trim_history_short. }
  split; [|done]. intros key'. rewrite H, length_app. cbn [record_for_key max_history].
  specialize (Hs key'). case_decide as Hd; [subst; cbn; lia|cbn; lia].
Qed.

Definition keys_of (r : TransactionRecord) : list TrackerKey :=
  [for_key (tr_asset_type r) (tr_key_id r); for_namespace (tr_asset_type r) (tr_namespace r);
   for_user (tr_asset_type r) (tr_user r); global_key (tr_asset_type r)].

Lemma record_appends r t :
  untrimmed t -> (forall key, key ∈ keys_of r -> Z.of_nat (length (records t key)) < max_history t) ->
  untrimmed (record r t) /\ max_history (record r t) = max_history t /\
  forall key, records (record r t) key = records t key ++ (if decide (key ∈ keys_of r) then [r] else []).
Proof.
  intros Hs Hn.
  set (k1 := for_key (tr_asset_type r) (tr_key_id r)). set (k2 := for_namespace (tr_asset_type r) (tr_namespace r)).
  set (k3 := for_user (tr_asset_type r) (tr_user r)). set (k4 := global_key (tr_asset_type r)).
  assert (k1 <> k2 /\ k1 <> k3 /\ k1 <> k4 /\ k2 <> k3 /\ k2 <> k4 /\ k3 <> k4) as (N1 & N2 & N3 & N4 & N5 & N6)
    by (split_and!; intros [=]).
  destruct (record_for_key_appends k1 r t Hs) as (S1 & M1 & R1); [apply Hn; set_solver|].
  set (t1 := record_for_key k1 r t) in *.
  destruct (record_for_key_appends k2 r t1 S1) as (S2 & M2 & R2).
  { rewrite M1, R1, decide_False, app_nil_r by done. apply Hn. set_solver. }
  set (t2 := record_for_key k2 r t1) in *.
  destruct (record_for_key_appends k3 r t2 S2) as (S3 & M3 & R3).
  { rewrite M2, M1, R2, R1, !decide_False, !app_nil_r by done. apply Hn. set_solver. }
  set (t3 := record_for_key k3 r t2) in *.
  destruct (record_for_key_appends k4 r t3 S3) as (S4 & M4 & R4).
  { rewrite M3, M2, M1, R3, R2, R1, !decide_False, !app_nil_r by done. apply Hn. set_solver. }
  split; [done|]. split; [done|]. intros key.
  change (record r t) with (record_for_key k4 r t3). rewrite R4, R3, R2, R1, <- !app_assoc. f_equal.
  change (keys_of r) with [k1; k2; k3; k4].
  destruct (decide (key = k1)) as [->|]; [rewrite !decide_False by done; rewrite decide_True by set_solver; done|].
  destruct (decide (key = k2)) as [->|]; [rewrite !decide_False by done; rewrite decide_True by set_solver; done|].
  destruct (decide (key = k3)) as [->|]; [rewrite !decide_False by done; rewrite decide_True by set_solver; done|].
  destruct (decide (key = k4)) as [->|]; [rewrite decide_True by set_solver; done|].
  rewrite decide_False by set_solver. done.
Qed.

(** Only the records of its own asset and key are listed under a key. *)
Lemma keys_of_for_key r a k : for_key a k ∈ keys_of r -> asset_to_string (tr_asset_type r) = asset_to_string a /\ tr_key_id r = k.
Proof.
  unfold keys_of. rewrite !elem_of_cons, elem_of_nil. intros [E|[E|[E|[E|[]]]]]; try discriminate E.
  injection E as E1 E2. done.
Qed.

Lemma for_key_keys_of r : for_key (tr_asset_type r) (tr_key_id r) ∈ keys_of r.
Proof. by left. Qed.
