(* ===== verification/PolicyEvaluator.v ===== *)
(** * The policy evaluator

    [PolicyEvaluator] of [crates/auth/src/policy/evaluation.rs]: a transaction
    is checked against the address list, the spending limits and the velocity
    limits, with the totals of the tracker.  [now] stands for all readings of
    the clock during one evaluation.

    The theorems are about a caller that evaluates, and records what was
    allowed: sliding windows are respected, and values beyond [u128] are
    treated as zero. *)

From Stdlib Require Import ZArith Lia Ascii DecimalString.
From stdpp Require Import base gmap strings list.
From S2P Require Import Prelude External Platform PolicyTypes.

Inductive PolicyDecision := Allow | RequireApproval | Deny.
Inductive ViolationType :=
| SpendingLimitExceeded | VelocityLimitExceeded | AddressNotAllowed | AddressBlocklisted | CooldownActive
| TransactionCountExceeded.
Record PolicyViolation := MkViolation {
  violation_type : ViolationType;
  violation_message : string;
  policy_name : option string;
  current_value : option string;
  limit_value : option string
}.
Definition spending_violation (current limit : string) (w : TimeWindow) : PolicyViolation :=
  MkViolation SpendingLimitExceeded
    (window_to_string w +:+ " spending limit exceeded: " +:+ current +:+ " / " +:+ limit +:+ " max")
    None (Some current) (Some limit).
Definition velocity_violation (count max : Z) (w : TimeWindow) : PolicyViolation :=
  MkViolation VelocityLimitExceeded
    (window_to_string w +:+ " transaction limit exceeded: " +:+ to_decimal count +:+ " / " +:+ to_decimal max +:+ " max")
    None (Some (to_decimal count)) (Some (to_decimal max)).
Definition address_not_allowed (address : string) : PolicyViolation :=
  MkViolation AddressNotAllowed ("Address " +:+ address +:+ " not in allowlist") None (Some address) None.
Definition address_blocklisted (address : string) : PolicyViolation :=
  MkViolation AddressBlocklisted ("Address " +:+ address +:+ " is blocklisted") None (Some address) None.
Definition cooldown_active (remaining_seconds : Z) : PolicyViolation :=
  MkViolation CooldownActive ("Cooldown active: " +:+ to_decimal remaining_seconds +:+ " seconds remaining")
    None (Some (to_decimal remaining_seconds)) None.

Record TransactionContext := MkContext {
  tc_asset_type : AssetType;
  tc_value : string;
  tc_recipient : string;
  tc_key_id : string;
  tc_namespace : string;
  tc_user : string
}.
Record EvaluationResult := MkEvaluation {
  decision : PolicyDecision;
  violations : list PolicyViolation;
  required_approvals : option Z
}.
Definition result_allow : EvaluationResult := MkEvaluation Allow [] None.
Definition result_deny (vs : list PolicyViolation) : EvaluationResult := MkEvaluation Deny vs None.
Definition result_require_approval (vs : list PolicyViolation) (required : Z) : EvaluationResult :=
  MkEvaluation RequireApproval vs (Some required).

Record PolicyEvaluator := MkEvaluator {
  spending_policy : option SpendingPolicy;
  address_policy : option AddressPolicy;
  tracker : SpendingTracker
}.

Section evaluate.
Context (now : DateTime) (ev : PolicyEvaluator).

(** [ctx.value.parse::<u128>().unwrap_or(0)] added to the total so far. *)
Definition new_total (ctx : TransactionContext) (a : SpendingAggregate) : Z :=
  saturating_add128 (total_value a) (default 0 (u128 (tc_value ctx))).

Definition check_spending_limit (ctx : TransactionContext) (limit : SpendingLimit) : option PolicyViolation :=
  if decide (sl_window limit = PerTransaction) then
    if limit_exceeds limit (tc_value ctx)
    then Some (spending_violation (tc_value ctx) (sl_max_value limit) PerTransaction) else None
  else
    let aggregate := get_aggregate now (tracker ev) (for_key (tc_asset_type ctx) (tc_key_id ctx)) (sl_window limit) in
    let total := new_total ctx aggregate in
    if match u128 (sl_max_value limit) with Some max => max <? total | None => false end
    then Some (spending_violation (to_decimal total) (sl_max_value limit) (sl_window limit))
    else
      match sl_max_transactions limit with
      | Some max_tx =>
          if max_tx <=? tx_count aggregate
          then Some (velocity_violation (tx_count aggregate) max_tx (sl_window limit)) else None
      | None => None
      end.

Definition check_cooldown (ctx : TransactionContext) (limit : VelocityLimit) : option PolicyViolation :=
  match cooldown_seconds limit with
  | Some cooldown =>
      match time_since_last_tx now (tracker ev) (for_key (tc_asset_type ctx) (tc_key_id ctx)) (vl_window limit) with
      | Some since_last =>
          if since_last <? nanos cooldown
          then Some (cooldown_active (wrap 64 (Z.quot (nanos cooldown - since_last) 1000000000))) else None
      | None => None
      end
  | None => None
  end.
Definition check_velocity_limit (ctx : TransactionContext) (limit : VelocityLimit) : option PolicyViolation :=
  let aggregate := get_aggregate now (tracker ev) (for_key (tc_asset_type ctx) (tc_key_id ctx)) (vl_window limit) in
  if exceeds_count limit (tx_count aggregate)
  then Some (velocity_violation (tx_count aggregate) (max_count limit) (vl_window limit))
  else
    match check_cooldown ctx limit with
    | Some violation => Some violation
    | None =>
        match max_total_value limit with
        | Some max_total =>
            let total := new_total ctx aggregate in
            if exceeds_value limit (to_decimal total)
            then Some (spending_violation (to_decimal total) max_total (vl_window limit)) else None
        | None => None
        end
    end.

Definition check_limits (hard : bool) (ctx : TransactionContext) (p : SpendingPolicy) : list PolicyViolation :=
  omap (fun limit => if Bool.eqb (hard_limit limit) hard then check_spending_limit ctx limit else None)
    (limits_for_asset p (tc_asset_type ctx)).
Definition check_velocities (ctx : TransactionContext) (p : SpendingPolicy) : list PolicyViolation :=
  omap (fun velocity =>
          if match vl_asset_type velocity with
             | Some asset => asset_matches asset (tc_asset_type ctx)
             | None => true
             end
          then check_velocity_limit ctx velocity else None) (velocity_limits p).

Definition check_address (ctx : TransactionContext) : option EvaluationResult :=
  match address_policy ev with
  | Some ap =>
      if negb (address_allowed now ap (tc_recipient ctx)) then
        Some (result_deny [match mode ap with
                           | Allowlist => address_not_allowed (tc_recipient ctx)
                           | Blocklist => address_blocklisted (tc_recipient ctx)
                           end])
      else None
  | None => None
  end.
(** The hard and the soft violations. *)
Definition check_spending (ctx : TransactionContext) : list PolicyViolation * list PolicyViolation :=
  match spending_policy ev with
  | Some p =>
      if negb (is_bypass_address p (tc_recipient ctx))
      then (check_limits true ctx p ++ check_velocities ctx p, check_limits false ctx p)
      else ([], [])
  | None => ([], [])
  end.
Definition evaluate (ctx : TransactionContext) : EvaluationResult :=
  match check_address ctx with
  | Some denied => denied
  | None =>
      let '(hard, soft) := check_spending ctx in
      match hard, soft with
      | _ :: _, _ => result_deny hard
      | [], _ :: _ => result_require_approval soft 1
      | [], [] => result_allow
      end
  end.
End evaluate.

(** ** A caller that records what is allowed *)

Definition with_tracker (t : SpendingTracker) (ev : PolicyEvaluator) : PolicyEvaluator :=
  MkEvaluator (spending_policy ev) (address_policy ev) t.
Definition record_of_tx (now : DateTime) (id : string) (ctx : TransactionContext) : TransactionRecord :=
  MkRecord id now (tc_asset_type ctx) (tc_value ctx) (tc_recipient ctx) (tc_key_id ctx) (tc_namespace ctx) (tc_user ctx).
Definition is_allowed (r : EvaluationResult) : bool := match decision r with Allow => true | _ => false end.

Record submission := MkSubmission { at_time : DateTime; with_id : string; of_tx : TransactionContext }.
Definition submit (ev : PolicyEvaluator) (x : submission) (t : SpendingTracker) : option TransactionRecord * SpendingTracker :=
  if is_allowed (evaluate (at_time x) (with_tracker t ev) (of_tx x)) then
    let r := record_of_tx (at_time x) (with_id x) (of_tx x) in (Some r, record r t)
  else (None, t).
(** The transactions that were executed, in order. *)
Fixpoint submits (ev : PolicyEvaluator) (xs : list submission) (t : SpendingTracker) : list TransactionRecord :=
  match xs with
  | [] => []
  | x :: rest =>
      let '(r, t) := submit ev x t in
      option_list r ++ submits ev rest t
  end.

(** The number a decimal value stands for, of any size. *)
Definition amount (value : string) : Z :=
  let digits := match value with String "+" rest => rest | _ => value end in
  match NilZero.uint_of_string digits with Some d => Z.of_N (N.of_uint d) | None => 0 end.

Lemma amount_u128 value v : u128 value = Some v -> amount value = v.
Proof.
  unfold u128, parse_uint, amount. destruct (NilZero.uint_of_string _) as [d|]; [|done]. cbv zeta.
  case_match; [|done]. by intros [= <-].
Qed.

(** The value of an asset a key has sent to addresses under the limits between
    two instants: in full ([sent]), and counting what does not fit 128 bits
    as nothing ([spent]). *)
Section spent.
Context (p : SpendingPolicy) (a : AssetType) (k : string) (lo hi : DateTime).

Definition is_spent (r : TransactionRecord) : bool :=
  bool_decide (tr_asset_type r = a) && bool_decide (tr_key_id r = k) && negb (is_bypass_address p (tr_recipient r)) &&
  (lo <=? tr_timestamp r) && (tr_timestamp r <=? hi).
Fixpoint spent (rs : list TransactionRecord) : Z :=
  match rs with
  | [] => 0
  | r :: rest => (if is_spent r then default 0 (value_u128 r) else 0) + spent rest
  end.

Fixpoint sent (rs : list TransactionRecord) : Z :=
  match rs with
  | [] => 0
  | r :: rest => (if is_spent r then amount (tr_value r) else 0) + sent rest
  end.

Lemma sent_spent rs : Forall (fun r => is_Some (value_u128 r)) rs -> sent rs = spent rs.
Proof.
  induction 1 as [|r rs [v Hv] _ IH]; [done|]. cbn [sent spent]. rewrite IH, Hv.
  by rewrite (amount_u128 _ _ Hv).
Qed.

Lemma is_spent_true r :
  is_spent r = true <->
  tr_asset_type r = a /\ tr_key_id r = k /\ is_bypass_address p (tr_recipient r) = false /\ lo <= tr_timestamp r <= hi.
Proof. unfold is_spent. rewrite !andb_true_iff, !bool_decide_eq_true, negb_true_iff, !Z.leb_le. tauto. Qed.

Lemma spent_app rs rs' : spent (rs ++ rs') = spent rs + spent rs'.
Proof. induction rs as [|r rs IH]; simpl; [done|]. rewrite IH. lia. Qed.

(** What the tracker counts is at least what was spent. *)
Lemma spent_counted start rs :
  start <= lo -> spent rs <= sum_counted start (filter (fun r => for_key a k ∈ keys_of r) rs).
Proof.
  intros Hlo. induction rs as [|r rs IH]; [done|]. cbn [spent]. rewrite filter_cons.
  destruct (is_spent r) eqn:Hs.
  - apply is_spent_true in Hs as (<- & <- & _ & Ht). rewrite decide_True by apply for_key_keys_of.
    cbn [sum_counted]. unfold counted at 1. rewrite (proj2 (Z.leb_le start (tr_timestamp r))) by lia. lia.
  - case_decide; cbn [sum_counted]; [|lia]. pose proof (counted_nonneg start r). lia.
Qed.
End spent.

(** An allowed transaction passed every hard limit of its asset. *)
Lemma allowed_passes now ev ctx p l :
  is_allowed (evaluate now ev ctx) = true -> spending_policy ev = Some p ->
  is_bypass_address p (tc_recipient ctx) = false -> l ∈ limits p -> hard_limit l = true ->
  asset_matches (sl_asset_type l) (tc_asset_type ctx) = true -> check_spending_limit now ev ctx l = None.
Proof.
  unfold evaluate. intros H Hp Hb Hl Hh Hm. destruct (check_address now ev ctx) as [r|] eqn:Ha.
  { unfold check_address in Ha. destruct (address_policy ev) as [ap|]; [|done].
    destruct (negb _); [|done]. injection Ha as <-. done. }
  unfold check_spending in H. rewrite Hp, Hb in H. cbn [negb] in H.
  destruct (check_spending_limit now ev ctx l) as [v|] eqn:Hv; [|done]. exfalso.
  assert (Hin : v ∈ check_limits now ev true ctx p ++ check_velocities now ev ctx p).
  { apply elem_of_app. left. unfold check_limits. apply list_elem_of_omap. exists l. split.
    - unfold limits_for_asset. by apply list_elem_of_filter; rewrite Hm.
    - by rewrite Hh, Hv. }
  destruct (check_limits now ev true ctx p ++ check_velocities now ev ctx p) as [|v0 vs]; [by apply not_elem_of_nil in Hin|].
  done.
Qed.

(** ** Sliding windows *)

(** The tracker lists, under each key, what was executed for it. *)
Definition tracks (t : SpendingTracker) (done : list TransactionRecord) : Prop :=
  forall key, records t key = filter (fun r => key ∈ keys_of r) done.

Lemma tracks_short t done key : tracks t done -> (length (records t key) <= length done)%nat.
Proof. intros H. rewrite H. apply length_filter. Qed.

Lemma record_tracks r t done :
  untrimmed t -> tracks t done -> Z.of_nat (length done) < max_history t ->
  untrimmed (record r t) /\ max_history (record r t) = max_history t /\ tracks (record r t) (done ++ [r]).
Proof.
  intros Hu Ht Hl. destruct (record_appends r t Hu) as (Hu' & Hm & Hr).
  { intros key _. pose proof (tracks_short t done key Ht). lia. }
  split; [done|]. split; [done|]. intros key. rewrite Hr, Ht, filter_app, filter_cons. case_decide; done.
Qed.

Section window.
Context (ev : PolicyEvaluator) (p : SpendingPolicy) (l : SpendingLimit) (d : Duration) (max : Z).
Context (Hp : spending_policy ev = Some p) (Hl : l ∈ limits p) (Hhard : hard_limit l = true).
Context (Hd : window_duration (sl_window l) = Some d).
Context (Hmax : u128 (sl_max_value l) = Some max) (Hfits : max < 2 ^ 128 - 1).

(** The windowed total, the transaction included, is within the limit. *)
Lemma window_checked now t done ctx :
  tracks t done -> check_spending_limit now (with_tracker t ev) ctx l = None ->
  sum_counted (now - d) (filter (fun r => for_key (tc_asset_type ctx) (tc_key_id ctx) ∈ keys_of r) done) +
  default 0 (u128 (tc_value ctx)) <= max.
Proof using Hd Hmax Hfits.
  intros Ht. unfold check_spending_limit. rewrite decide_False by (intros E; by rewrite E in Hd).
  rewrite Hmax. unfold new_total, saturating_add128. rewrite get_aggregate_total. unfold window_start. rewrite Hd.
  fold (records (tracker (with_tracker t ev)) (for_key (tc_asset_type ctx) (tc_key_id ctx))). cbn [with_tracker tracker].
  rewrite Ht. destruct (_ <? _) eqn:E; [done|]. intros _. apply Z.ltb_ge in E.
  set (v := default 0 (u128 (tc_value ctx))) in *.
  assert (0 <= v).
  { clear E. subst v. destruct (u128 (tc_value ctx)) as [v|] eqn:Ev; [|done]. by apply parse_uint_range in Ev as [? _]. }
  lia.
Qed.

Lemma submits_bounded a k xs t done :
  asset_matches (sl_asset_type l) a = true ->
  untrimmed t -> tracks t done -> Z.of_nat (length done + length xs) <= max_history t ->
  (forall hi, spent p a k (hi - d) hi done <= max) ->
  forall hi, spent p a k (hi - d) hi (done ++ submits ev xs t) <= max.
Proof using All.
  intros Hm. revert t done. induction xs as [|x xs IH]; intros t done Hu Ht Hlen Hb; [by setoid_rewrite app_nil_r|].
  cbn [submits length] in *. unfold submit.
  destruct (is_allowed _) eqn:Ha; cbn [option_list app]; [|apply IH; [done..|lia|done]].
  set (r := record_of_tx (at_time x) (with_id x) (of_tx x)).
  destruct (record_tracks r t done Hu Ht) as (Hu' & Hmh & Ht'); [lia|].
  change (r :: submits ev xs (record r t)) with ([r] ++ submits ev xs (record r t)). setoid_rewrite app_assoc.
  apply IH; [done..|rewrite Hmh, length_app; cbn; lia|].
  intros hi. change (option_list (Some r)) with [r]. rewrite spent_app. cbn [spent]. destruct (is_spent p a k (hi - d) hi r) eqn:Hs; [|specialize (Hb hi); lia].
  apply is_spent_true in Hs as (Hs1 & Hs2 & Hs3 & Hs4). cbn in Hs1, Hs2, Hs3, Hs4.
  assert (Hc : check_spending_limit (at_time x) (with_tracker t ev) (of_tx x) l = None).
  { eapply allowed_passes; [exact Ha|exact Hp|done..|by rewrite Hs1]. }
  apply (window_checked _ _ _ _ Ht) in Hc. rewrite Hs1, Hs2 in Hc.
  pose proof (spent_counted p a k (hi - d) hi (at_time x - d) done) as Hsc. change (value_u128 r) with (u128 (tc_value (of_tx x))). lia.
Qed.
End window.

Lemma submits_values ev xs t :
  Forall (fun x => is_Some (u128 (tc_value (of_tx x)))) xs ->
  Forall (fun r => is_Some (value_u128 r)) (submits ev xs t).
Proof.
  intros H. revert t. induction H as [|x xs Hx _ IH]; intros t; [done|]. cbn [submits].
  destruct (submit ev x t) as [r t'] eqn:E. apply Forall_app. split; [|apply IH].
  unfold submit in E. case_match; injection E as <- _; [|done]. by repeat constructor.
Qed.

(** C30: a spending limit is a sliding-window bound.  A caller evaluates
    transactions one after the other and records those that are allowed.
    Then for every hard limit of the policy with a window (hour, day, week or
    month), every asset it applies to, every key and every instant, what the
    key has sent in the window that ends there, to addresses that do not bypass
    the limits, is at most the limit.  The clock may go backwards.  Conditions:
    the values of the transactions are decimal numbers below 2^128 (others
    count as nothing, [oversized_value_is_zero]), the limit is less than the
    largest [u128], and the tracker's history holds as many records as there
    are transactions (a shorter one forgets, [short_history_forgets]). *)
Theorem window_respected ev p l d max a k xs history hi :
  spending_policy ev = Some p -> l ∈ limits p -> hard_limit l = true ->
  window_duration (sl_window l) = Some d -> u128 (sl_max_value l) = Some max -> max < 2 ^ 128 - 1 ->
  asset_matches (sl_asset_type l) a = true -> Z.of_nat (length xs) <= history ->
  Forall (fun x => is_Some (u128 (tc_value (of_tx x)))) xs ->
  sent p a k (hi - d) hi (submits ev xs (with_max_history history)) <= max.
Proof.
  intros Hp Hl Hh Hd Hmax Hfits Hm Hlen Hvals. rewrite sent_spent by (by apply submits_values).
  apply (submits_bounded ev p l d max Hp Hl Hh Hd Hmax Hfits a k xs (with_max_history history) []); try done.
  intros key. change (Z.of_nat 0 <= history). lia.
  intros hi'. by apply parse_uint_range in Hmax as [? _].
Qed.

(** ** Values beyond 128 bits *)

Definition with_value (v : string) (ctx : TransactionContext) : TransactionContext :=
  MkContext (tc_asset_type ctx) v (tc_recipient ctx) (tc_key_id ctx) (tc_namespace ctx) (tc_user ctx).

Lemma limit_zero now ev ctx l :
  u128 (tc_value ctx) = None -> check_spending_limit now ev ctx l = check_spending_limit now ev (with_value "0" ctx) l.
Proof.
  intros H. unfold check_spending_limit, limit_exceeds, new_total. cbn [with_value tc_value tc_asset_type tc_key_id].
  rewrite H. change (u128 "0") with (Some 0). destruct (u128 (sl_max_value l)) as [max|] eqn:Hm; [|done].
  apply parse_uint_range in Hm as [Hm _]. rewrite (proj2 (Z.ltb_ge max 0)) by done. done.
Qed.

Lemma velocity_zero now ev ctx l :
  u128 (tc_value ctx) = None -> check_velocity_limit now ev ctx l = check_velocity_limit now ev (with_value "0" ctx) l.
Proof. intros H. unfold check_velocity_limit, new_total. cbn [with_value tc_value]. by rewrite H. Qed.

(** A value that is not a decimal number below 2^128 is treated as zero.
    The evaluation of such a transaction, under any policy and any history, is
    that of the transaction with the value 0: no limit on values, hard or
    soft, applies to it.  (Token amounts have 256 bits.) *)
Theorem oversized_value_is_zero now ev ctx :
  u128 (tc_value ctx) = None -> evaluate now ev ctx = evaluate now ev (with_value "0" ctx).
Proof.
  intros H.
  assert (Hs : check_spending now ev ctx = check_spending now ev (with_value "0" ctx)).
  { unfold check_spending, check_limits, check_velocities. destruct (spending_policy ev) as [p|]; [|done].
    cbn [with_value tc_recipient tc_asset_type]. destruct (negb _); [|done].
    f_equal; [f_equal|]; apply list_omap_ext; apply Forall2_same_length_lookup_2; [done| |done| |done|];
      intros i x y Hx Hy; rewrite Hx in Hy; injection Hy as <-;
      rewrite ?(limit_zero _ _ ctx) by done; rewrite ?(velocity_zero _ _ ctx) by done; done. }
  unfold evaluate. by rewrite Hs.
Qed.
