(* ===== verification/Approval.v ===== *)
(** * Approval workflows

    [crates/auth/src/policy/approval.rs]: requests that need the votes of
    several approvers, escalation tiers for large values and delays before the
    execution.  [now] stands for the readings of the clock of one call, the
    [id] of a request is random, and [None] is the panic of a date out of range.

    The theorems: what can be executed was approved by a quorum of distinct
    authorised approvers in time, a quorum that votes gets its approval, and
    the tier of a value is the highest one it reaches. *)

From Stdlib Require Import ZArith Lia Sorting.Sorted.
From stdpp Require Import base gmap strings list.
From S2P Require Import Prelude External Platform PolicyTypes.

Inductive ApprovalStatus := Pending | Approved | Rejected | Expired | Cancelled.
#[export] Instance ApprovalStatus_eq_dec : EqDecision ApprovalStatus.
Proof. solve_decision. Defined.

Record ApprovalVote := MkVote {
  approver : string;
  approved : bool;
  vote_timestamp : DateTime;
  comment : option string
}.

Record EscalationTier := MkTier {
  threshold : string;
  tier_required : Z;
  tier_approvers : list string;
  tier_delay : option Z
}.
Definition tier_new (threshold : string) (required : Z) (approvers : list string) : EscalationTier :=
  MkTier threshold required approvers None.
Definition triggers (t : EscalationTier) (value : string) : bool :=
  match u128 (threshold t), u128 value with
  | Some threshold, Some val => threshold <=? val
  | _, _ => false
  end.

Record ApprovalPolicy := MkApprovalPolicy {
  min_approvals : Z;
  approvers : list string;
  escalation_tiers : list EscalationTier;
  time_delay_seconds : option Z;
  expiration_seconds : Z;
  requester_can_approve : bool
}.
Definition approval_policy_new (min_approvals : Z) (approvers : list string) : ApprovalPolicy :=
  MkApprovalPolicy min_approvals approvers [] None 86400 false.

(** [sort_by] is stable; the order is that of descending thresholds. *)
Definition tier_value (t : EscalationTier) : Z := default 0 (u128 (threshold t)).
Definition add_tier (t : EscalationTier) (p : ApprovalPolicy) : ApprovalPolicy :=
  MkApprovalPolicy (min_approvals p) (approvers p) (sort_desc tier_value (escalation_tiers p ++ [t]))
    (time_delay_seconds p) (expiration_seconds p) (requester_can_approve p).

Definition get_tier (p : ApprovalPolicy) (value : string) : option EscalationTier :=
  List.find (fun t => triggers t value) (escalation_tiers p).
Definition policy_required (p : ApprovalPolicy) (value : string) : Z :=
  match get_tier p value with Some t => tier_required t | None => min_approvals p end.
Definition get_approvers (p : ApprovalPolicy) (value : string) : list string :=
  match get_tier p value with Some t => tier_approvers t | None => approvers p end.
Definition get_delay (p : ApprovalPolicy) (value : string) : option Z :=
  match get_tier p value ≫= tier_delay with
  | Some d => Some d
  | None => time_delay_seconds p
  end.

Section workflow.
(** [serde_json::Value] and the range of dates. *)
Context {Value : Type} `{ChronoRange}.

Record ApprovalRequest := MkRequest {
  ar_id : string;
  requester : string;
  transaction : Value;
  ar_value : string;
  ar_key_id : string;
  ar_namespace : string;
  status : ApprovalStatus;
  votes : list ApprovalVote;
  required_approvals : Z;
  ar_created_at : DateTime;
  ar_expires_at : DateTime;
  earliest_execution : option DateTime
}.

(** [now + Duration::seconds(s as i64)] for a [u64]. *)
Definition as_i64 (s : Z) : Z := if s <? 2 ^ 63 then s else s - 2 ^ 64.
Definition seconds_later (now : DateTime) (s : Z) : option DateTime :=
  d ← duration_seconds (as_i64 s); dt_add now d.
Definition request_new (requester : string) (tx : Value) (value key_id ns : string) (p : ApprovalPolicy)
    (id : string) (now : DateTime) : option ApprovalRequest :=
  let required := policy_required p value in
  let delay := get_delay p value in
  expires_at ← seconds_later now (expiration_seconds p);
  earliest ← match delay with None => Some None | Some d => Some <$> seconds_later now d end;
  Some (MkRequest id requester tx value key_id ns Pending [] required now expires_at earliest).

Definition with_status (s : ApprovalStatus) (r : ApprovalRequest) : ApprovalRequest :=
  MkRequest (ar_id r) (requester r) (transaction r) (ar_value r) (ar_key_id r) (ar_namespace r) s (votes r)
    (required_approvals r) (ar_created_at r) (ar_expires_at r) (earliest_execution r).
Definition with_votes (vs : list ApprovalVote) (r : ApprovalRequest) : ApprovalRequest :=
  MkRequest (ar_id r) (requester r) (transaction r) (ar_value r) (ar_key_id r) (ar_namespace r) (status r) vs
    (required_approvals r) (ar_created_at r) (ar_expires_at r) (earliest_execution r).

Definition update_status (now : DateTime) (r : ApprovalRequest) : ApprovalRequest :=
  if negb (bool_decide (status r = Pending)) then r
  else if ar_expires_at r <? now then with_status Expired r
  else
    let approvals := wrap 32 (Z.of_nat (length (filter (fun v => approved v = true) (votes r)))) in
    let rejections := Z.of_nat (length (filter (fun v => approved v = false) (votes r))) in
    if 0 <? rejections then with_status Rejected r
    else if required_approvals r <=? approvals then with_status Approved r
    else r.
Definition has_voted (who : string) (r : ApprovalRequest) : bool :=
  existsb (fun v => bool_decide (approver v = who)) (votes r).
Definition add_vote (who : string) (yes : bool) (c : option string) (now : DateTime) (r : ApprovalRequest)
    : bool * ApprovalRequest :=
  if has_voted who r then (false, r)
  else (true, update_status now (with_votes (votes r ++ [MkVote who yes now c]) r)).
Definition can_execute (now : DateTime) (r : ApprovalRequest) : bool :=
  bool_decide (status r = Approved) &&
  negb match earliest_execution r with Some earliest => now <? earliest | None => false end.
Definition time_until_execution (now : DateTime) (r : ApprovalRequest) : option Duration :=
  if negb (bool_decide (status r = Approved)) then None
  else (fun earliest => if now <? earliest then earliest - now else 0) <$> earliest_execution r.
Definition cancel (r : ApprovalRequest) : bool * ApprovalRequest :=
  if bool_decide (status r = Pending) then (true, with_status Cancelled r) else (false, r).

(** ** The manager *)

Record ApprovalManager := MkManager {
  requests : gmap string ApprovalRequest;
  default_policy : ApprovalPolicy
}.
Definition manager_new (p : ApprovalPolicy) : ApprovalManager := MkManager ∅ p.

Definition create_request (requester : string) (tx : Value) (value key_id ns id : string) (now : DateTime)
    (m : ApprovalManager) : option (ApprovalRequest * ApprovalManager) :=
  r ← request_new requester tx value key_id ns (default_policy m) id now;
  Some (r, MkManager (<[ar_id r := r]> (requests m)) (default_policy m)).
Definition get_request (id : string) (m : ApprovalManager) : option ApprovalRequest := requests m !! id.

Definition vote (request_id who : string) (yes : bool) (c : option string) (now : DateTime)
    : M ApprovalManager string ApprovalRequest := fun m =>
  match requests m !! request_id with
  | None => (Err "Request not found", m)
  | Some request =>
      let p := default_policy m in
      if negb (bool_decide (who ∈ get_approvers p (ar_value request))) then (Err "Not an authorized approver", m)
      else if bool_decide (requester request = who) && negb (requester_can_approve p)
      then (Err "Requester cannot approve their own request", m)
      else
        let '(added, request) := add_vote who yes c now request in
        if negb added then (Err "Already voted", m)
        else (Ok request, MkManager (<[request_id := request]> (requests m)) p)
  end.

Definition pending_for_approver (who : string) (m : ApprovalManager) : list ApprovalRequest :=
  filter (fun r => status r = Pending /\ who ∈ get_approvers (default_policy m) (ar_value r) /\
                   has_voted who r = false) (map_to_list (requests m)).*2.

Definition is_stale (now : DateTime) (r : ApprovalRequest) : bool :=
  bool_decide (status r = Pending) && (ar_expires_at r <? now).
Definition cleanup_expired (now : DateTime) (m : ApprovalManager) : nat * ApprovalManager :=
  (size (filter (fun ir => is_stale now ir.2 = true) (requests m)),
   MkManager (filter (fun ir => is_stale now ir.2 = false) (requests m)) (default_policy m)).

(** ** Steps of the manager *)

Inductive manager_step : ApprovalManager -> ApprovalManager -> Prop :=
| step_create m m' who tx value key_id ns id now r :
    create_request who tx value key_id ns id now m = Some (r, m') -> manager_step m m'
| step_vote m id who yes c now : manager_step m (vote id who yes c now m).2
| step_cleanup m now : manager_step m (cleanup_expired now m).2.
Inductive reachable (p : ApprovalPolicy) : ApprovalManager -> Prop :=
| reach_new : reachable p (manager_new p)
| reach_step m m' : reachable p m -> manager_step m m' -> reachable p m'.

(** What a policy asks of a vote that counts. *)
Definition may_vote (p : ApprovalPolicy) (r : ApprovalRequest) (who : string) : Prop :=
  who ∈ get_approvers p (ar_value r) /\ (requester_can_approve p = false -> who <> requester r).
Definition is_quorum (r : ApprovalRequest) (vs : list ApprovalVote) : Prop :=
  vs `prefix_of` votes r /\ required_approvals r <= Z.of_nat (length vs) /\
  Forall (fun v => approved v = true) vs.
Record request_ok (p : ApprovalPolicy) (r : ApprovalRequest) : Prop := {
  ok_required : required_approvals r = policy_required p (ar_value r);
  ok_distinct : NoDup (approver <$> votes r);
  ok_voters : Forall (fun v => may_vote p r (approver v)) (votes r);
  ok_pending : status r = Pending -> Forall (fun v => vote_timestamp v <= ar_expires_at r) (votes r);
  ok_approved : status r = Approved ->
    exists vs, is_quorum r vs /\ Forall (fun v => vote_timestamp v <= ar_expires_at r) vs;
  ok_delay d : get_delay p (ar_value r) = Some d -> d < 2 ^ 63 ->
    earliest_execution r = Some (ar_created_at r + nanos d)
}.

Lemma has_voted_false who r : has_voted who r = false -> who ∉ approver <$> votes r.
Proof.
  unfold has_voted. intros Hf Hin. apply list_elem_of_fmap in Hin as (v & -> & Hv).
  apply not_true_iff_false in Hf. apply Hf. apply existsb_exists. exists v.
  split; [by apply list_elem_of_In|]. by apply bool_decide_eq_true.
Qed.

Lemma seconds_later_Some now s t : seconds_later now s = Some t -> t = now + nanos (as_i64 s).
Proof.
  unfold seconds_later. destruct (duration_seconds (as_i64 s)) as [d|] eqn:Hd; [|done]. cbn.
  intros ->%dt_add_Some. by apply duration_seconds_Some in Hd as ->.
Qed.

Lemma request_new_ok p who tx value key_id ns id now r :
  request_new who tx value key_id ns p id now = Some r -> request_ok p r /\ status r = Pending /\ votes r = [].
Proof.
  unfold request_new. destruct (seconds_later now (expiration_seconds p)) as [e|] eqn:He; [|done]. cbn.
  destruct (get_delay p value) as [d|] eqn:Hd; cbn.
  - destruct (seconds_later now d) as [t|] eqn:Ht; [|done]. cbn. intros [= <-]. split; [|done].
    split; cbn; try done; try constructor. intros d' Hd' Hlt. rewrite Hd in Hd'. injection Hd' as <-.
    apply seconds_later_Some in Ht as ->. unfold as_i64. by rewrite (proj2 (Z.ltb_lt _ _) Hlt).
  - intros [= <-]. split; [|done]. split; cbn; try done; try constructor. intros d'. by rewrite Hd.
Qed.

Lemma update_status_frame now r :
  votes (update_status now r) = votes r /\ ar_value (update_status now r) = ar_value r /\
  requester (update_status now r) = requester r /\ required_approvals (update_status now r) = required_approvals r /\
  ar_expires_at (update_status now r) = ar_expires_at r /\ ar_created_at (update_status now r) = ar_created_at r /\
  earliest_execution (update_status now r) = earliest_execution r.
Proof. unfold update_status. repeat case_match; done. Qed.

(** [length (filter ...) = 0] for the rejections means that all approve. *)
Lemma no_rejection vs :
  (length (filter (fun v => approved v = false) vs) = 0)%nat ->
  Forall (fun v => approved v = true) vs /\ filter (fun v => approved v = true) vs = vs.
Proof.
  induction vs as [|v vs IH]; [done|]. rewrite !filter_cons. destruct (approved v) eqn:Hv.
  - rewrite decide_False, decide_True by done. intros [H1 H2]%IH. rewrite H2. auto.
  - by rewrite decide_True by done.
Qed.

Lemma update_status_cases now r :
  status r = Pending -> 
  (status (update_status now r) = Pending /\ now <= ar_expires_at r) \/
  status (update_status now r) = Expired \/ status (update_status now r) = Rejected \/
  (status (update_status now r) = Approved /\ now <= ar_expires_at r /\ is_quorum r (votes r)).
Proof.
  intros Hp. unfold update_status. rewrite bool_decide_eq_true_2 by done. cbn [negb].
  destruct (Z.ltb_spec (ar_expires_at r) now) as [|Hn]; [auto|].
  destruct (Z.ltb_spec 0 (Z.of_nat (length (filter (fun v => approved v = false) (votes r))))) as [|Hr]; [auto|].
  destruct (Z.leb_spec (required_approvals r)
              (wrap 32 (Z.of_nat (length (filter (fun v => approved v = true) (votes r)))))) as [Hq|]; [|auto].
  right. right. right. split; [done|]. split; [done|].
  destruct (no_rejection (votes r)) as [Ha Hf]; [lia|]. rewrite Hf in Hq. split; [done|]. split; [|done].
  pose proof (Z.mod_le (Z.of_nat (length (votes r))) (2 ^ 32)). unfold wrap in Hq. lia.
Qed.

Lemma update_status_settled now r : status r <> Pending -> update_status now r = r.
Proof. intros Hs. unfold update_status. by rewrite bool_decide_eq_false_2. Qed.

Lemma add_vote_ok p who yes c now r r' :
  request_ok p r -> may_vote p r who -> add_vote who yes c now r = (true, r') -> request_ok p r'.
Proof.
  intros Hr Hm. unfold add_vote. destruct (has_voted who r) eqn:Hv; [done|]. intros [= <-].
  set (r1 := with_votes _ r).
  destruct (update_status_frame now r1) as (E1 & E2 & E3 & E4 & E5 & E6 & E7).
  assert (Hin : forall v, v ∈ votes r1 -> v ∈ votes r \/ v = MkVote who yes now c) by (cbn; set_solver).
  assert (Hpend : status r = Pending -> now <= ar_expires_at r ->
                  Forall (fun v => vote_timestamp v <= ar_expires_at r) (votes r1)).
  { intros Hs Hn. apply Forall_app. split; [by apply (ok_pending p)|by constructor]. }
  split.
  - rewrite E4, E2. apply Hr.
  - rewrite E1. cbn. rewrite fmap_app. apply NoDup_app. split; [apply Hr|]. split; [|apply NoDup_singleton].
    intros x Hx ->%list_elem_of_singleton. by apply has_voted_false in Hv.
  - rewrite E1. unfold may_vote. rewrite E2, E3. apply Forall_app. split; [apply Hr|by constructor].
  - rewrite E1, E5. intros Hs. destruct (decide (status r = Pending)) as [Hp|Hp].
    + destruct (update_status_cases now r1 Hp) as [[_ Hn]|[H'|[H'|[H' _]]]]; [by apply Hpend|congruence..].
    + rewrite update_status_settled in Hs by done. done.
  - rewrite E5. unfold is_quorum. rewrite E1, E4. intros Hs. destruct (decide (status r = Pending)) as [Hp|Hp].
    + destruct (update_status_cases now r1 Hp) as [[H' _]|[H'|[H'|(_ & Hn & Hq)]]]; [congruence..|].
      exists (votes r1). split; [exact Hq|by apply Hpend].
    + rewrite update_status_settled in Hs by done.
      destruct (ok_approved p r Hr Hs) as (vs & (Hv1 & Hv2 & Hv3) & Hv4). exists vs. split; [|done].
      split; [|done]. by apply prefix_app_r.
  - rewrite E2, E6, E7. apply Hr.
Qed.

Definition manager_ok (p : ApprovalPolicy) (m : ApprovalManager) : Prop :=
  default_policy m = p /\ map_Forall (fun _ => request_ok p) (requests m).

Lemma vote_ok p id who yes c now m : manager_ok p m -> manager_ok p (vote id who yes c now m).2.
Proof.
  intros [Hp Hm]. unfold vote. destruct (requests m !! id) as [r|] eqn:Hr; [|done].
  destruct (bool_decide_reflect (who ∈ get_approvers (default_policy m) (ar_value r))) as [Hin|]; cbn [negb]; [|done].
  destruct (bool_decide (requester r = who) && negb (requester_can_approve (default_policy m))) eqn:Hs; [done|].
  destruct (add_vote who yes c now r) as [[] r'] eqn:Ha; cbn [negb snd]; [|done].
  split; [done|]. apply map_Forall_insert_2; [|done].
  eapply add_vote_ok; [by apply (Hm id)| |exact Ha]. rewrite <- Hp. split; [done|]. intros Hc E.
  rewrite Hc, bool_decide_eq_true_2 in Hs by done. done.
Qed.

Lemma reachable_ok p m : reachable p m -> manager_ok p m.
Proof.
  induction 1 as [|m m' _ [Hp Hm] Hs]; [split; [done|apply map_Forall_empty]|].
  destruct Hs as [m m' who tx value key_id ns id now r Hc|m id who yes c now|m now].
  - unfold create_request in Hc. destruct (request_new _ _ _ _ _ _ _ _) as [r'|] eqn:Hr; [|done]. injection Hc as <- <-.
    rewrite Hp in Hr. apply request_new_ok in Hr as [Hr _]. split; [done|]. by apply map_Forall_insert_2.
  - by apply vote_ok.
  - split; [done|]. cbn. intros id r [Hr _]%map_lookup_filter_Some. by apply (Hm id).
Qed.
End workflow.
#[global] Arguments ApprovalRequest : clear implicits.
#[global] Arguments ApprovalManager : clear implicits.

(** C31: four eyes.  Whatever requests, votes and clean-ups a manager has seen,
    a request that can be executed has a quorum: a first part of its votes
    that all approve, as many as the policy requires for its value, by distinct
    people, each an authorised approver for that value, each before the
    request expired, and none of them the requester if the policy does not
    allow requesters to approve.  And a delay below 2^63 seconds that the
    policy sets for the value has passed since the request was made (longer
    ones wrap around, [largest_delay_is_none]). *)
Theorem approval_quorum {Value} `{ChronoRange} p (m : ApprovalManager Value) id r now :
  reachable p m -> requests m !! id = Some r -> can_execute now r = true ->
  exists quorum,
    quorum `prefix_of` votes r /\ policy_required p (ar_value r) <= Z.of_nat (length quorum) /\
    NoDup (approver <$> quorum) /\
    Forall (fun v => approved v = true /\ approver v ∈ get_approvers p (ar_value r) /\
                     (requester_can_approve p = false -> approver v <> requester r) /\
                     vote_timestamp v <= ar_expires_at r) quorum /\
    (forall d, get_delay p (ar_value r) = Some d -> d < 2 ^ 63 -> ar_created_at r + nanos d <= now).
Proof.
  intros Hreach Hr Hx. destruct (reachable_ok p m Hreach) as [_ Hm]. specialize (Hm id r Hr). cbn in Hm.
  unfold can_execute in Hx. apply andb_true_iff in Hx as [Hs%bool_decide_eq_true Hd%negb_true_iff].
  destruct (ok_approved p r Hm Hs) as (vs & (Hpre & Hlen & Hyes) & Htime). exists vs.
  split; [done|]. split; [by rewrite <- (ok_required p r Hm)|]. pose proof (ok_distinct p r Hm) as Hnd.
  pose proof (ok_voters p r Hm) as Hvot. destruct Hpre as [rest Hpre]. rewrite Hpre, fmap_app in Hnd. rewrite Hpre in Hvot.
  apply NoDup_app in Hnd as [Hnd _]. apply Forall_app in Hvot as [Hvot _]. split; [done|]. split.
  - rewrite Forall_forall in Hyes, Hvot, Htime |- *. intros v Hv. destruct (Hvot v Hv). auto.
  - intros d Hgd Hlt. rewrite (ok_delay p r Hm d Hgd Hlt) in Hd. by apply Z.ltb_ge in Hd.
Qed.

(** ** Tiers *)

(** The first tier that triggers is one with the highest threshold. *)
Lemma find_descending ts value :
  descending tier_value ts ->
  match List.find (fun t => triggers t value) ts with
  | Some t => t ∈ ts /\ triggers t value = true /\
              (forall t', t' ∈ ts -> triggers t' value = true -> tier_value t' <= tier_value t)
  | None => forall t, t ∈ ts -> triggers t value = false
  end.
Proof.
  induction 1 as [|t ts Hs IH Hall]; simpl; [intros t Ht; by apply not_elem_of_nil in Ht|].
  destruct (triggers t value) eqn:Ht.
  - split; [by left|]. split; [done|]. rewrite Forall_forall in Hall.
    intros t' [->|Hin]%elem_of_cons _; [done|by apply Hall].
  - destruct (List.find _ ts) as [u|].
    + destruct IH as (Hu & Htr & Hmax). split; [by right|]. split; [done|].
      intros t' [->|Hin]%elem_of_cons Ht'; [congruence|by apply Hmax].
    + intros t' [->|Hin]%elem_of_cons; auto.
Qed.

Definition add_tiers (ts : list EscalationTier) (p : ApprovalPolicy) : ApprovalPolicy :=
  foldl (fun p t => add_tier t p) p ts.

Lemma add_tiers_spec ts p :
  descending tier_value (escalation_tiers p) ->
  descending tier_value (escalation_tiers (add_tiers ts p)) /\ escalation_tiers (add_tiers ts p) ≡ₚ escalation_tiers p ++ ts.
Proof.
  revert p. induction ts as [|t ts IH]; intros p Hp; simpl; [by rewrite app_nil_r|].
  destruct (IH (add_tier t p)) as [Hd Hperm]; [apply sort_desc_descending|]. split; [done|].
  rewrite Hperm. cbn. by rewrite sort_desc_perm, <- app_assoc.
Qed.

(** Escalation.  However the tiers of a policy were added, the tier that
    governs a value is one of them whose threshold the value reaches, and no
    tier with a higher threshold is reached; when no tier governs the value, it
    reaches none. *)
Theorem tier_highest ts min who value :
  match get_tier (add_tiers ts (approval_policy_new min who)) value with
  | Some t => t ∈ ts /\ triggers t value = true /\
              (forall t', t' ∈ ts -> triggers t' value = true -> tier_value t' <= tier_value t)
  | None => forall t, t ∈ ts -> triggers t value = false
  end.
Proof.
  destruct (add_tiers_spec ts (approval_policy_new min who)) as [Hd Hperm]; [constructor|].
  cbn in Hperm. pose proof (find_descending _ value Hd) as Hf. unfold get_tier. destruct (List.find _ _) as [t|].
  - destruct Hf as (Hin & Ht & Hmax). rewrite Hperm in Hin. split; [done|]. split; [done|].
    intros t' Hin'. apply Hmax. by rewrite Hperm.
  - intros t Hin. apply Hf. by rewrite Hperm.
Qed.

(** ** Quorums succeed *)

Section complete.
Context {Value : Type} `{ChronoRange}.

(** Every approver of the list approves, at the given instants. *)
Fixpoint votes_for (id : string) (ws : list (string * DateTime)) (m : ApprovalManager Value) : ApprovalManager Value :=
  match ws with
  | [] => m
  | (who, now) :: rest => votes_for id rest (vote id who true None now m).2
  end.

Lemma has_voted_not_in who (r : ApprovalRequest Value) : who ∉ approver <$> votes r -> has_voted who r = false.
Proof.
  intros Hn. apply not_true_iff_false. intros Ht. apply existsb_exists in Ht as (v & Hv & E%bool_decide_eq_true).
  apply Hn. apply list_elem_of_fmap. exists v. split; [done|]. by apply list_elem_of_In.
Qed.

(** A vote in time on a request without rejections is counted. *)
Lemma vote_counted p id who now (m : ApprovalManager Value) (r : ApprovalRequest Value) :
  default_policy m = p -> requests m !! id = Some r -> status r = Pending ->
  Forall (fun v => approved v = true) (votes r) -> who ∉ approver <$> votes r -> may_vote p r who ->
  now <= ar_expires_at r -> Z.of_nat (S (length (votes r))) < 2 ^ 32 ->
  exists r', (vote id who true None now m) = (Ok r', MkManager (<[id := r']> (requests m)) p) /\
    r' = with_status (if required_approvals r <=? Z.of_nat (S (length (votes r))) then Approved else Pending)
           (with_votes (votes r ++ [MkVote who true now None]) r).
Proof.
  intros Hp Hr Hs Hyes Hn [Hin Hself] Hnow Hlen. unfold vote. rewrite Hr, Hp.
  rewrite bool_decide_eq_true_2 by done. cbn [negb].
  assert (bool_decide (requester r = who) && negb (requester_can_approve p) = false) as ->.
  { destruct (requester_can_approve p); [apply andb_false_r|]. rewrite bool_decide_eq_false_2; [done|]. naive_solver. }
  unfold add_vote. rewrite has_voted_not_in by done. cbn [negb]. set (r1 := with_votes _ r).
  assert (Hall : Forall (fun v => approved v = true) (votes r1)) by (apply Forall_app; split; [done|by constructor]).
  assert (Hrej : filter (fun v => approved v = false) (votes r1) = []).
  { clear -Hall. induction Hall as [|v vs Hv _ IH]; [done|]. by rewrite filter_cons, Hv, decide_False by done. }
  assert (Hl : length (votes r1) = S (length (votes r))) by (cbn; rewrite length_app; cbn; lia).
  eexists. split; [reflexivity|]. unfold update_status. rewrite bool_decide_eq_true_2 by done. cbn [negb].
  change (ar_expires_at r1) with (ar_expires_at r). rewrite (proj2 (Z.ltb_ge _ _) Hnow), Hrej. cbn [length Z.of_nat Z.ltb Z.compare].
  destruct (no_rejection (votes r1)) as [_ ->]; [by rewrite Hrej|]. rewrite Hl.
  unfold wrap. rewrite Z.mod_small by lia. change (required_approvals r1) with (required_approvals r).
  change (0 <? Z.of_nat 0) with false. cbv iota. destruct (_ <=? _); [done|]. unfold with_status. by rewrite <- Hs.
Qed.

Lemma votes_for_pending p id ws (m : ApprovalManager Value) (r : ApprovalRequest Value) :
  default_policy m = p -> requests m !! id = Some r -> status r = Pending ->
  Forall (fun v => approved v = true) (votes r) -> NoDup ((approver <$> votes r) ++ ws.*1) ->
  Forall (fun w => may_vote p r w.1 /\ w.2 <= ar_expires_at r) ws ->
  Z.of_nat (length (votes r) + length ws) = required_approvals r -> required_approvals r < 2 ^ 32 -> ws <> [] ->
  exists r', requests (votes_for id ws m) !! id = Some r' /\ status r' = Approved /\
    earliest_execution r' = earliest_execution r.
Proof.
  revert m r. induction ws as [|[who now] ws IH]; intros m r Hp Hr Hs Hyes Hnd Hws Hlen Hlt Hne; [done|].
  inversion_clear Hws as [|? ? [Hmay Hnow] Hws']. cbn [fmap list_fmap fst snd length votes_for] in *.
  assert (Hnw : who ∉ approver <$> votes r).
  { apply NoDup_app in Hnd as (_ & Hd & _). intros Hin. apply (Hd who Hin). by left. }
  destruct (vote_counted p id who now m r Hp Hr Hs Hyes Hnw Hmay Hnow) as (r' & -> & Hr'); [lia|]. cbn [snd].
  destruct ws as [|w ws].
  - cbn [votes_for requests]. rewrite lookup_insert_eq. exists r'. split; [done|]. subst r'. cbn [length] in Hlen.
    cbn. rewrite (proj2 (Z.leb_le _ _)) by lia. done.
  - assert (Hr2 : r' = with_status Pending (with_votes (votes r ++ [MkVote who true now None]) r)).
    { rewrite Hr'. cbn [length] in Hlen. by rewrite (proj2 (Z.leb_gt _ _)) by lia. }
    clear Hr'.
    destruct (IH (MkManager (<[id := r']> (requests m)) p) r') as (r'' & H1 & H2 & H3); try done; subst r'; cbn.
    + apply lookup_insert_eq.
    + done.
    + apply Forall_app. split; [done|by constructor].
    + rewrite fmap_app, <- app_assoc. exact Hnd.
    + exact Hws'.
    + rewrite length_app. cbn in *. lia.
    + exact Hlt.
    + by exists r''.
Qed.
End complete.

(** A quorum succeeds.  When as many distinct people as the policy requires
    for the value of a fresh request, all allowed to vote on it, approve it one
    after the other before it expires, it is approved, and can be executed once
    the delay has passed. *)
Theorem quorum_approves {Value} `{ChronoRange} who tx value key_id ns id now (m m' : ApprovalManager Value) r ws later :
  create_request who tx value key_id ns id now m = Some (r, m') ->
  NoDup ws.*1 -> ws <> [] ->
  Forall (fun w => may_vote (default_policy m) r w.1 /\ w.2 <= ar_expires_at r) ws ->
  Z.of_nat (length ws) = policy_required (default_policy m) value ->
  policy_required (default_policy m) value < 2 ^ 32 ->
  (forall t, earliest_execution r = Some t -> t <= later) ->
  exists r', get_request id (votes_for id ws m') = Some r' /\ can_execute later r' = true.
Proof.
  unfold create_request. destruct (request_new _ _ _ _ _ _ _ _) as [r0|] eqn:Hr; [|done]. intros [= <- <-] Hnd Hne Hws Hlen Hlt Ht.
  pose proof Hr as Hnew. apply request_new_ok in Hr as (Hok & Hs & Hv).
  assert (Hid : ar_id r0 = id /\ ar_value r0 = value).
  { unfold request_new in Hnew. destruct (seconds_later _ _); [|done]. cbn in Hnew.
    destruct (match get_delay _ _ with None => _ | Some _ => _ end); [|done]. by injection Hnew as <-. }
  destruct Hid as [Hid Hval]. rewrite <- Hval, <- (ok_required _ _ Hok) in Hlen, Hlt. rewrite Hid.
  destruct (votes_for_pending (default_policy m) id ws (MkManager (<[id := r0]> (requests m)) (default_policy m)) r0)
    as (r' & Hg & Hst & He); rewrite ?Hv; try done; [apply lookup_insert_eq|].
  exists r'. split; [done|]. unfold can_execute. rewrite He, bool_decide_eq_true_2 by done.
  destruct (earliest_execution r0) as [t|]; [|done]. by rewrite (proj2 (Z.ltb_ge _ _)) by auto.
Qed.
