(* ===== verification/PolicyStore.v ===== *)
(** * The policy store

    [crates/auth/src/policy/storage.rs] and the [Policy] of [types.rs]: policies
    by id, with an index by the text of their scope.  [Value] is
    [serde_json::Value]; the order in which [DashMap] lists its entries is that
    of [map_to_list], and no theorem depends on it. *)

From Stdlib Require Import ZArith Lia.
From stdpp Require Import base gmap strings list sorting.
From S2P Require Import Prelude External Platform PolicyTypes.

Abbreviation PolicyId := string.
Inductive PolicyScope :=
| Global | NamespaceScope (ns : string) | KeyScope (key : string) | UserScope (user : string)
| AssetScope (asset : AssetType).
#[export] Instance PolicyScope_eq_dec : EqDecision PolicyScope.
Proof. solve_decision. Defined.

(** The key of a scope in the index. *)
Definition scope_key (s : PolicyScope) : string :=
  match s with
  | Global => "global"
  | NamespaceScope ns => "ns:" +:+ ns
  | KeyScope key => "key:" +:+ key
  | UserScope user => "user:" +:+ user
  | AssetScope asset => "asset:" +:+ asset_to_string asset
  end.

Section store.
Context {Value : Type}.

Record Policy := MkPolicy {
  p_id : PolicyId;
  p_name : string;
  p_description : option string;
  p_scope : PolicyScope;
  p_enabled : bool;
  p_priority : Z;
  p_created_at : DateTime;
  p_updated_at : DateTime;
  p_version : Z;
  p_rules : Value
}.
Definition policy_new (name : string) (scope : PolicyScope) (rules : Value) (id : PolicyId) (now : DateTime) : Policy :=
  MkPolicy id name None scope true 0 now now 1 rules.
Definition set_enabled_field (enabled : bool) (p : Policy) : Policy :=
  MkPolicy (p_id p) (p_name p) (p_description p) (p_scope p) enabled (p_priority p) (p_created_at p)
    (p_updated_at p) (p_version p) (p_rules p).
Definition touch_policy (now : DateTime) (p : Policy) : Policy :=
  MkPolicy (p_id p) (p_name p) (p_description p) (p_scope p) (p_enabled p) (p_priority p) (p_created_at p)
    now (wrap 32 (p_version p + 1)) (p_rules p).
(** [Policy::set_enabled] *)
Definition set_enabled (enabled : bool) (now : DateTime) (p : Policy) : Policy :=
  touch_policy now (set_enabled_field enabled p).

Record PolicyStore := MkPolicyStore {
  policies : gmap PolicyId Policy;
  scope_index : gmap string (list PolicyId)
}.
Definition policy_store_new : PolicyStore := MkPolicyStore ∅ ∅.

Definition add (p : Policy) (s : PolicyStore) : PolicyId * PolicyStore :=
  let id := p_id p in
  let key := scope_key (p_scope p) in
  (id, MkPolicyStore (<[id := p]> (policies s))
         (<[key := default [] (scope_index s !! key) ++ [id]]> (scope_index s))).
Definition get (id : PolicyId) (s : PolicyStore) : option Policy := policies s !! id.
Definition update (id : PolicyId) (updater : Policy -> Policy) (now : DateTime) (s : PolicyStore)
    : option Policy * PolicyStore :=
  match policies s !! id with
  | None => (None, s)
  | Some p =>
      let p := touch_policy now (updater p) in
      (Some p, MkPolicyStore (<[id := p]> (policies s)) (scope_index s))
  end.
Definition delete_policy (id : PolicyId) (s : PolicyStore) : option Policy * PolicyStore :=
  match policies s !! id with
  | None => (None, s)
  | Some p =>
      (Some p, MkPolicyStore (delete id (policies s))
                 (alter (filter (fun pid => pid <> id)) (scope_key (p_scope p)) (scope_index s)))
  end.
Definition get_for_scope (scope : PolicyScope) (s : PolicyStore) : list Policy :=
  match scope_index s !! scope_key scope with
  | Some ids => omap (fun id => policies s !! id) ids
  | None => []
  end.
Definition get_enabled_for_scope (scope : PolicyScope) (s : PolicyStore) : list Policy :=
  sort_desc p_priority (filter (fun p => p_enabled p = true) (get_for_scope scope s)).
Definition get_for_key (key_id ns : string) (s : PolicyStore) : list Policy :=
  sort_desc p_priority
    (get_enabled_for_scope Global s ++ get_enabled_for_scope (NamespaceScope ns) s ++
     get_enabled_for_scope (KeyScope key_id) s).
Definition list_policies (s : PolicyStore) : list Policy := (map_to_list (policies s)).*2.
Definition count (s : PolicyStore) : nat := size (policies s).
Definition enable (id : PolicyId) (now : DateTime) (s : PolicyStore) : bool * PolicyStore :=
  let '(r, s) := update id (set_enabled_field true) now s in (bool_decide (is_Some r), s).
Definition disable (id : PolicyId) (now : DateTime) (s : PolicyStore) : bool * PolicyStore :=
  let '(r, s) := update id (set_enabled_field false) now s in (bool_decide (is_Some r), s).

Record PolicySnapshot := MkSnapshot {
  snapshot_policies : list Policy;
  snapshot_timestamp : DateTime;
  snapshot_version : Z
}.
Definition snapshot (now : DateTime) (s : PolicyStore) : PolicySnapshot := MkSnapshot (list_policies s) now 1.
Fixpoint restore_from (ps : list Policy) (count : nat) (s : PolicyStore) : nat * PolicyStore :=
  match ps with
  | [] => (count, s)
  | p :: rest => restore_from rest (S count) (add p s).2
  end.
Definition restore (snap : PolicySnapshot) (s : PolicyStore) : nat * PolicyStore :=
  restore_from (snapshot_policies snap) 0 s.

(** [serde_json] on snapshots. *)
Section json.
Context (to_string_pretty : PolicySnapshot -> result string string) (from_str : string -> result PolicySnapshot string).
Definition export_json (now : DateTime) (s : PolicyStore) : string :=
  match to_string_pretty (snapshot now s) with Ok json => json | Err _ => EmptyString end.
Definition import_json (json : string) : M PolicyStore string nat := fun s =>
  match from_str json with
  | Err e => (Err e, s)
  | Ok snap => let '(n, s) := restore snap s in (Ok n, s)
  end.
End json.

(** ** The index *)

Definition indexed (s : PolicyStore) (key : string) : list PolicyId := default [] (scope_index s !! key).
(** Every policy is listed once, under its scope. *)
Record store_ok (s : PolicyStore) : Prop := {
  so_id id p : policies s !! id = Some p -> p_id p = id;
  so_nodup key : NoDup (indexed s key);
  so_listed key id : id ∈ indexed s key <-> exists p, policies s !! id = Some p /\ scope_key (p_scope p) = key
}.

Inductive store_op :=
| OpAdd (p : Policy) | OpUpdate (id : PolicyId) (f : Policy -> Policy) (now : DateTime) | OpDelete (id : PolicyId).
Definition run_op (o : store_op) (s : PolicyStore) : PolicyStore :=
  match o with
  | OpAdd p => (add p s).2
  | OpUpdate id f now => (update id f now s).2
  | OpDelete id => (delete_policy id s).2
  end.
(** Ids are fresh, and updates leave the id and the scope of a policy alone. *)
Definition op_ok (s : PolicyStore) (o : store_op) : Prop :=
  match o with
  | OpAdd p => policies s !! p_id p = None
  | OpUpdate id f now => forall p, p_id (f p) = p_id p /\ p_scope (f p) = p_scope p
  | OpDelete id => True
  end.
Inductive store_reachable : PolicyStore -> Prop :=
| store_reach_new : store_reachable policy_store_new
| store_reach_op s o : store_reachable s -> op_ok s o -> store_reachable (run_op o s).

Lemma indexed_add p s key :
  indexed (add p s).2 key = indexed s key ++ (if decide (key = scope_key (p_scope p)) then [p_id p] else []).
Proof.
  unfold indexed, add. cbn. destruct (decide (key = _)) as [->|Hne].
  - by rewrite lookup_insert_eq.
  - by rewrite lookup_insert_ne, app_nil_r.
Qed.

Lemma add_store_ok p s : store_ok s -> policies s !! p_id p = None -> store_ok (add p s).2.
Proof.
  intros Hs Hf. assert (Hnew : forall key, p_id p ∉ indexed s key).
  { intros key (q & Hq & _)%(so_listed s Hs). congruence. }
  split.
  - cbn. intros id q [[<- <-]|[_ Hq]]%lookup_insert_Some; [done|by apply (so_id s Hs)].
  - intros key. rewrite indexed_add. apply NoDup_app. split; [apply Hs|]. case_decide; [|split; [set_solver|constructor]].
    split; [|apply NoDup_singleton]. intros id Hid ->%list_elem_of_singleton. by apply (Hnew key).
  - intros key id. rewrite indexed_add, elem_of_app, (so_listed s Hs). cbn. split.
    + intros [(q & Hq & Hk)|Hid].
      * exists q. split; [|done]. rewrite lookup_insert_ne; [done|]. congruence.
      * case_decide as Hk; [|by apply not_elem_of_nil in Hid]. apply list_elem_of_singleton in Hid as ->.
        exists p. by rewrite lookup_insert_eq.
    + intros (q & [[<- <-]|[_ Hq]]%lookup_insert_Some & Hk); [right|left; by exists q].
      rewrite decide_True by done. by left.
Qed.

Lemma update_store_ok id f now s :
  store_ok s -> (forall p, p_id (f p) = p_id p /\ p_scope (f p) = p_scope p) -> store_ok (update id f now s).2.
Proof.
  intros Hs Hf. unfold update. destruct (policies s !! id) as [p|] eqn:Hp; [|done]. destruct (Hf p) as [Hi Hsc]. split; cbn.
  - intros id' q [[<- <-]|[_ Hq]]%lookup_insert_Some; [cbn; rewrite Hi|]; by apply (so_id s Hs).
  - apply Hs.
  - intros key id'. change (indexed (MkPolicyStore _ (scope_index s)) key) with (indexed s key). rewrite (so_listed s Hs).
    destruct (decide (id' = id)) as [->|Hne]; [|by rewrite lookup_insert_ne].
    rewrite lookup_insert_eq, Hp. split; intros (q & [= <-] & Hk); eexists; (split; [done|]); cbn in *; congruence.
Qed.

Lemma indexed_delete id p s key :
  policies s !! id = Some p ->
  indexed (delete_policy id s).2 key =
  if decide (key = scope_key (p_scope p)) then filter (fun pid => pid <> id) (indexed s key) else indexed s key.
Proof.
  intros Hp. unfold indexed, delete_policy. rewrite Hp. cbn. destruct (decide (key = _)) as [->|Hne].
  - rewrite lookup_alter_eq. by destruct (scope_index s !! _).
  - by rewrite lookup_alter_ne.
Qed.

Lemma delete_store_ok id s : store_ok s -> store_ok (delete_policy id s).2.
Proof.
  intros Hs. destruct (policies s !! id) as [p|] eqn:Hp; [|by unfold delete_policy; rewrite Hp].
  assert (Hd : policies (delete_policy id s).2 = delete id (policies s)) by (unfold delete_policy; by rewrite Hp).
  split.
  - rewrite Hd. intros id' q [_ Hq]%lookup_delete_Some. by apply (so_id s Hs).
  - intros key. rewrite (indexed_delete id p s key Hp). case_decide; [apply NoDup_filter|]; apply Hs.
  - intros key id'. rewrite (indexed_delete id p s key Hp), Hd. setoid_rewrite lookup_delete_Some.
    pose proof (so_listed s Hs key id') as Hl. destruct (decide (key = scope_key (p_scope p))) as [Hk|Hk].
    + rewrite list_elem_of_filter, Hl. naive_solver.
    + rewrite Hl. split; [|naive_solver]. intros (q & Hq & Hkq). exists q. split; [|done]. split; [|done].
      intros <-. congruence.
Qed.

Lemma reachable_store_ok s : store_reachable s -> store_ok s.
Proof.
  induction 1 as [|s [p|id f now|id] _ IH Ho]; cbn in *; [|by apply add_store_ok|by apply update_store_ok|by apply delete_store_ok].
  split; cbn; [done| |].
  - intros key. constructor.
  - intros key id. change (indexed policy_store_new key) with (@nil PolicyId). split; [by intros ?%not_elem_of_nil|].
    by intros (p & Hp & _).
Qed.

(** ** Lookups *)

Lemma elem_of_list_policies s p : p ∈ list_policies s <-> exists id, policies s !! id = Some p.
Proof.
  unfold list_policies. rewrite list_elem_of_fmap. split.
  - intros ([id q] & -> & Hq%elem_of_map_to_list). by exists id.
  - intros [id Hp]. exists (id, p). split; [done|]. by apply elem_of_map_to_list.
Qed.

Lemma list_policies_ids s : store_ok s -> p_id <$> list_policies s = (map_to_list (policies s)).*1.
Proof.
  intros Hs. unfold list_policies. rewrite <- list_fmap_compose. apply list_fmap_ext. intros i [id p] Hi. cbn.
  apply (so_id s Hs). apply elem_of_map_to_list. by apply list_elem_of_lookup_2 in Hi.
Qed.

Lemma list_policies_NoDup s : store_ok s -> NoDup (p_id <$> list_policies s).
Proof. intros Hs. rewrite list_policies_ids by done. apply NoDup_fst_map_to_list. Qed.

Lemma get_for_scope_perm scope s :
  store_ok s ->
  get_for_scope scope s ≡ₚ filter (fun p => scope_key (p_scope p) = scope_key scope) (list_policies s).
Proof.
  intros Hs. assert (E : get_for_scope scope s = omap (fun id => policies s !! id) (indexed s (scope_key scope))).
  { unfold get_for_scope, indexed. by destruct (scope_index s !! _). }
  rewrite E. apply NoDup_Permutation.
  - apply NoDup_omap; [|apply Hs]. intros id id' p _ _ H1 H2. apply (so_id s Hs) in H1, H2. congruence.
  - apply NoDup_filter. eapply NoDup_fmap_1. by apply list_policies_NoDup.
  - intros p. rewrite list_elem_of_omap, list_elem_of_filter, elem_of_list_policies. split.
    + intros (id & (q & Hq & Hk)%(so_listed s Hs) & Hp). naive_solver.
    + intros [Hk [id Hp]]. exists id. split; [|done]. apply (so_listed s Hs). by exists p.
Qed.

Lemma restore_from_spec ps n s :
  store_ok s -> NoDup (p_id <$> ps) -> (forall p, p ∈ ps -> policies s !! p_id p = None) ->
  let '(n', s') := restore_from ps n s in
  n' = (n + length ps)%nat /\ store_ok s' /\
  forall id p, policies s' !! id = Some p <-> policies s !! id = Some p \/ (p ∈ ps /\ p_id p = id).
Proof.
  revert n s. induction ps as [|q ps IH]; intros n s Hs Hnd Hf; cbn [restore_from length].
  { split; [lia|]. split; [done|]. intros id p. split; [auto|]. intros [?|[[]%not_elem_of_nil _]]; done. }
  apply NoDup_cons in Hnd as [Hq Hnd].
  specialize (IH (S n) (add q s).2 (add_store_ok q s Hs (Hf q ltac:(by left))) Hnd).
  destruct (restore_from ps (S n) (add q s).2) as [n' s']. destruct IH as (-> & Hs' & Hp).
  { intros p Hp. cbn. rewrite lookup_insert_ne; [apply Hf; by right|]. intros E. apply Hq. rewrite E. by apply list_elem_of_fmap_2. }
  split; [lia|]. split; [done|]. intros id p. rewrite Hp. cbn. rewrite lookup_insert_Some, elem_of_cons.
  split; [naive_solver|]. intros [Hi|[[->|Hi] <-]]; [|by auto|by auto].
  destruct (decide (p_id q = id)) as [<-|]; [|auto]. rewrite Hf in Hi by (by left). done.
Qed.
End store.
#[global] Arguments Policy : clear implicits.
#[global] Arguments PolicyStore : clear implicits.
#[global] Arguments PolicySnapshot : clear implicits.

(** The text of a scope tells a key and a namespace from every other scope. *)
Lemma scope_key_inj scope scope' :
  (scope = Global \/ (exists ns, scope = NamespaceScope ns) \/ exists key, scope = KeyScope key) ->
  scope_key scope' = scope_key scope -> scope' = scope.
Proof. intros [->|[[? ->]|[? ->]]]; destruct scope'; intros E; simpl in E; try discriminate E; by simplify_eq. Qed.

Definition applies_to (key_id ns : string) {Value} (p : Policy Value) : Prop :=
  p_scope p = Global \/ p_scope p = NamespaceScope ns \/ p_scope p = KeyScope key_id.
#[export] Instance applies_to_dec key_id ns {Value} (p : Policy Value) : Decision (applies_to key_id ns p).
Proof. unfold applies_to. apply _. Defined.

(** The enabled policies of a scope the index tells apart. *)
Lemma get_enabled_perm {Value} scope (s : PolicyStore Value) :
  store_ok s -> (scope = Global \/ (exists ns, scope = NamespaceScope ns) \/ exists key, scope = KeyScope key) ->
  get_enabled_for_scope scope s ≡ₚ filter (fun p => p_scope p = scope /\ p_enabled p = true) (list_policies s).
Proof.
  intros Hs Hsc. unfold get_enabled_for_scope. rewrite sort_desc_perm, get_for_scope_perm, list_filter_filter by done.
  erewrite list_filter_iff; [done|]. intros p. cbn. split; [|naive_solver]. intros [He Hk]. split; [|done]. by apply scope_key_inj.
Qed.

Lemma filter_or_perm {A} (P Q : A -> Prop) `{forall x, Decision (P x), forall x, Decision (Q x)} (l : list A) :
  (forall x, P x -> Q x -> False) -> filter P l ++ filter Q l ≡ₚ filter (fun x => P x \/ Q x) l.
Proof.
  intros Hd. induction l as [|x l IH]; [done|]. rewrite !filter_cons.
  destruct (decide (P x)) as [HP|HP], (decide (Q x)) as [HQ|HQ].
  - by destruct (Hd x).
  - rewrite decide_True by auto. cbn. by rewrite IH.
  - rewrite decide_True by auto. by rewrite <- Permutation_middle, IH.
  - rewrite decide_False by tauto. done.
Qed.

(** The policies of a key.  In a store that was filled by additions under
    fresh ids, updates that keep the id and the scope, and deletions, the
    policies found for a key are exactly the enabled ones whose scope is global,
    the namespace or the key, each once, and they are sorted by descending
    priority. *)
Theorem policies_for_key {Value} (s : PolicyStore Value) key_id ns :
  store_reachable s ->
  get_for_key key_id ns s ≡ₚ filter (fun p => applies_to key_id ns p /\ p_enabled p = true) (list_policies s) /\
  descending p_priority (get_for_key key_id ns s).
Proof.
  intros Hs%reachable_store_ok. split; [|apply sort_desc_descending]. unfold get_for_key.
  rewrite sort_desc_perm, !get_enabled_perm by (naive_solver || done).
  rewrite !filter_or_perm; [|naive_solver congruence..]. erewrite list_filter_iff; [done|]. unfold applies_to. intros p. tauto.
Qed.

(** An export restores the store.  When the JSON codec reads back what it
    writes, importing the export of a store into an empty one gives the same
    policies, counts them, and finds the same policies for every scope. *)
Theorem export_import {Value} (to_string_pretty : PolicySnapshot Value -> result string string) from_str s now json :
  (forall snap j, to_string_pretty snap = Ok j -> from_str j = Ok snap) ->
  store_reachable s -> to_string_pretty (snapshot now s) = Ok json ->
  exists s', import_json from_str (export_json to_string_pretty now s) policy_store_new = (Ok (count s), s') /\
    policies s' = policies s /\ forall scope, get_for_scope scope s' ≡ₚ get_for_scope scope s.
Proof.
  intros Hcodec Hs%reachable_store_ok Hj. unfold import_json, export_json. rewrite Hj, (Hcodec _ _ Hj). unfold restore. cbn [snapshot snapshot_policies].
  pose proof (restore_from_spec (list_policies s) 0 policy_store_new) as Hr.
  destruct (restore_from (list_policies s) 0 policy_store_new) as [n s'].
  destruct Hr as (-> & Hs' & Hp); [apply reachable_store_ok; constructor|by apply list_policies_NoDup|done|].
  assert (E : policies s' = policies s).
  { apply map_eq. intros id. apply option_eq. intros p. rewrite Hp. cbn. rewrite elem_of_list_policies. split.
    - intros [?|[[id' Hi] <-]]; [done|]. by rewrite (so_id s Hs id' p Hi).
    - intros Hi. right. split; [by exists id|]. by apply (so_id s Hs). }
  exists s'. split; [|split; [done|]].
  - f_equal. unfold count, list_policies. rewrite length_fmap, length_map_to_list. reflexivity.
  - intros scope. rewrite !get_for_scope_perm by done. unfold list_policies. by rewrite E.
Qed.
