(* ===== verification/PolicyWitness.v ===== *)
(** * The policy engine on examples

    Concrete policies, transactions and votes to which the theorems apply, and
    the behaviours they leave room for: a history that is too short, evaluations
    that overlap, policies that are moved, restored twice or share the text of
    their scope, and approvals that outlive their request. *)

From Stdlib Require Import ZArith Lia.
From stdpp Require Import base gmap strings list.
From S2P Require Import Prelude External Platform PolicyTypes PolicyEvaluator Approval PolicyStore.
Import Concrete2.

(** ** Spending *)

Definition eth : AssetType := native "eth".
Definition daily_limit : SpendingLimit := SpendingLimit_new eth Day "100".
Definition daily_policy : SpendingPolicy := add_limit daily_limit (MkSpendingPolicy [] [] []).
Definition daily_evaluator : PolicyEvaluator := MkEvaluator (Some daily_policy) None tracker_new.
Definition payment (value : string) : TransactionContext := MkContext eth value "0xAA" "key-1" "default" "alice".
(** Four payments within a day and one after it; the third is refused. *)
Definition payments : list submission :=
  [MkSubmission (nanos 100000) "1" (payment "40"); MkSubmission (nanos 100600) "2" (payment "60");
   MkSubmission (nanos 101000) "3" (payment "1"); MkSubmission (nanos 200000) "4" (payment "90")].

Lemma window_respected_witness :
  tx_id <$> submits daily_evaluator payments (with_max_history 10000) = ["1"; "2"; "4"] /\
  sent daily_policy eth "key-1" (nanos 101000 - nanos 86400) (nanos 101000)
    (submits daily_evaluator payments (with_max_history 10000)) <= 100.
Proof.
  split; [by vm_compute|].
  apply (window_respected daily_evaluator daily_policy daily_limit (nanos 86400) 100 eth "key-1" payments 10000 (nanos 101000));
    [reflexivity|by left|reflexivity|reflexivity|by vm_compute|lia|by vm_compute|cbn; lia|].
  repeat (apply Forall_cons_2; [vm_compute; by eexists|]). apply Forall_nil_2.
Defined.

Lemma oversized_value_witness :
  let big := payment "340282366920938463463374607431768211456" in
  u128 (tc_value big) = None /\
  evaluate 0 daily_evaluator big = evaluate 0 daily_evaluator (with_value "0" big) /\
  is_allowed (evaluate 0 daily_evaluator big) = true.
Proof.
  cbv zeta. split; [by vm_compute|].
  rewrite (oversized_value_is_zero 0 daily_evaluator (payment "340282366920938463463374607431768211456")) by (by vm_compute).
  split; [reflexivity|by vm_compute].
Defined.

(** With more transactions than the history holds, older ones are forgotten and
    the limit is exceeded within a day. *)
Example short_history_forgets :
  sent daily_policy eth "key-1" 0 (nanos 86400)
    (submits daily_evaluator
       [MkSubmission 10 "1" (payment "90"); MkSubmission 20 "2" (payment "1"); MkSubmission 30 "3" (payment "90")]
       (with_max_history 1)) = 181.
Proof. by vm_compute. Qed.

(** Two evaluations before the first is recorded both pass. *)
Example overlapping_evaluations :
  is_allowed (evaluate 10 daily_evaluator (payment "70")) = true /\
  is_allowed (evaluate 11 daily_evaluator (payment "70")) = true /\
  sent daily_policy eth "key-1" 0 (nanos 86400)
    [record_of_tx 10 "1" (payment "70"); record_of_tx 11 "2" (payment "70")] = 140.
Proof. by vm_compute. Qed.

(** ** Approvals *)

Definition two_of_three : ApprovalPolicy :=
  add_tier (MkTier "1000" 2 ["ann"; "bob"; "carol"; "dave"] (Some 3600)) (approval_policy_new 1 ["ann"]).
Definition opened : ApprovalManager unit :=
  match create_request "ann" tt "5000" "key-1" "default" "r1" 0 (manager_new two_of_three) with
  | Some (_, m) => m
  | None => manager_new two_of_three
  end.
Definition voted : ApprovalManager unit :=
  (vote "r1" "carol" true None (nanos 20) (vote "r1" "bob" true None (nanos 10) opened).2).2.
Definition voted_request : ApprovalRequest unit :=
  MkRequest "r1" "ann" tt "5000" "key-1" "default" Approved
    [MkVote "bob" true (nanos 10) None; MkVote "carol" true (nanos 20) None] 2 0 (nanos 86400) (Some (nanos 3600)).

Lemma reachable_voted : reachable two_of_three voted.
Proof.
  eapply reach_step; [|apply step_vote]. eapply reach_step; [|apply step_vote].
  eapply reach_step; [apply reach_new|]. apply (step_create _ _ "ann" tt "5000" "key-1" "default" "r1" 0
    (MkRequest "r1" "ann" tt "5000" "key-1" "default" Pending [] 2 0 (nanos 86400) (Some (nanos 3600)))).
  by vm_compute.
Qed.

Lemma approval_quorum_witness :
  requests voted !! "r1" = Some voted_request /\ can_execute (nanos 4000) voted_request = true /\
  exists quorum,
    quorum `prefix_of` votes voted_request /\ policy_required two_of_three "5000" <= Z.of_nat (length quorum) /\
    NoDup (approver <$> quorum) /\
    Forall (fun v => approved v = true /\ approver v ∈ get_approvers two_of_three "5000" /\
                     (requester_can_approve two_of_three = false -> approver v <> requester voted_request) /\
                     vote_timestamp v <= ar_expires_at voted_request) quorum /\
    (forall d, get_delay two_of_three "5000" = Some d -> d < 2 ^ 63 -> ar_created_at voted_request + nanos d <= nanos 4000).
Proof.
  split; [by vm_compute|]. split; [by vm_compute|].
  apply (approval_quorum two_of_three voted "r1" voted_request (nanos 4000)); [apply reachable_voted|by vm_compute|by vm_compute].
Defined.

Lemma quorum_approves_witness :
  exists r', get_request "r1" (votes_for "r1" [("bob", nanos 10); ("carol", nanos 20)] opened) = Some r' /\
    can_execute (nanos 3600) r' = true.
Proof.
  refine (quorum_approves "ann" tt "5000" "key-1" "default" "r1" 0 (manager_new two_of_three) opened
    (MkRequest "r1" "ann" tt "5000" "key-1" "default" Pending [] 2 0 (nanos 86400) (Some (nanos 3600)))
    [("bob", nanos 10); ("carol", nanos 20)] (nanos 3600) _ _ _ _ _ _ _).
  - by vm_compute.
  - apply (bool_decide_unpack _). by vm_compute.
  - done.
  - repeat constructor; cbn; try lia; try done; apply (bool_decide_unpack _); by vm_compute.
  - by vm_compute.
  - by vm_compute.
  - intros t [= <-]. done.
Defined.

(** An approved request can be executed after it expired, and although an
    approver rejected it later. *)
Example expired_approval_executes :
  let r := default voted_request (get_request "r1" (vote "r1" "dave" false None (nanos 30) voted).2) in
  (approved <$> votes r) = [true; true; false] /\ ar_expires_at r = nanos 86400 /\ can_execute (nanos 999999) r = true.
Proof. by vm_compute. Qed.

(** A delay of [u64::MAX] seconds is one that ends before the request. *)
Example largest_delay_is_none :
  match create_request "ann" tt "1" "key-1" "default" "r1" (nanos 10)
          (manager_new (MkApprovalPolicy 1 ["bob"] [] (Some (2 ^ 64 - 1)) 86400 false)) with
  | Some (r, _) => earliest_execution r = Some (nanos 9)
  | None => False
  end.
Proof. by vm_compute. Qed.

(** ** The store *)

Definition token_policy (id contract : string) : Policy unit :=
  policy_new "limit" (AssetScope (erc20 1 contract)) tt id 0.
Definition key_policy (id : PolicyId) (priority : Z) : Policy unit :=
  MkPolicy id "limit" None (KeyScope "key-1") true priority 0 0 1 tt.
Definition some_store : PolicyStore unit :=
  run_op (OpAdd (key_policy "b" 7)) (run_op (OpAdd (policy_new "all" Global tt "g" 0)) (run_op (OpAdd (key_policy "a" 3))
    policy_store_new)).

Lemma some_store_reachable : store_reachable some_store.
Proof. repeat (apply store_reach_op; [|by vm_compute]). apply store_reach_new. Qed.

Lemma policies_for_key_witness :
  p_id <$> get_for_key "key-1" "default" some_store = ["b"; "a"; "g"] /\
  get_for_key "key-1" "default" some_store
    ≡ₚ filter (fun p => applies_to "key-1" "default" p /\ p_enabled p = true) (list_policies some_store) /\
  descending p_priority (get_for_key "key-1" "default" some_store).
Proof. split; [by vm_compute|]. apply policies_for_key. apply some_store_reachable. Defined.

(** A codec that writes the snapshots of this store. *)
#[local] Instance unit_policy_eq_dec : EqDecision (Policy unit).
Proof. solve_decision. Defined.
#[local] Instance unit_snapshot_eq_dec : EqDecision (PolicySnapshot unit).
Proof. solve_decision. Defined.
Definition some_json (snap : PolicySnapshot unit) : result string string :=
  if decide (snap = snapshot 0 some_store) then Ok "store" else Err "unsupported".
Definition some_parse (j : string) : result (PolicySnapshot unit) string :=
  if decide (j = "store") then Ok (snapshot 0 some_store) else Err "syntax".

Lemma export_import_witness :
  exists s', import_json some_parse (export_json some_json 0 some_store) policy_store_new = (Ok (count some_store), s') /\
    policies s' = policies some_store /\ forall scope, get_for_scope scope s' ≡ₚ get_for_scope scope some_store.
Proof.
  apply (export_import some_json some_parse some_store 0 "store").
  - intros snap j. unfold some_json. destruct (decide (snap = _)) as [->|]; [|done]. intros [= <-]. done.
  - apply some_store_reachable.
  - unfold some_json. by rewrite decide_True.
Defined.

(** Restoring a snapshot over the store it was taken from lists every policy
    twice. *)
Example restored_twice :
  p_id <$> get_for_scope (KeyScope "key-1") (restore (snapshot 0 some_store) some_store).2 = ["a"; "b"; "a"; "b"].
Proof. by vm_compute. Qed.

(** A policy whose scope is changed by an update stays under the old scope. *)
Example moved_policy_not_found :
  let moved p := MkPolicy (p_id p) (p_name p) (p_description p) (KeyScope "key-2") (p_enabled p) (p_priority p)
                   (p_created_at p) (p_updated_at p) (p_version p) (p_rules p) in
  let s := (update "b" moved 5 some_store).2 in
  get_for_scope (KeyScope "key-2") s = [] /\ p_id <$> get_for_scope (KeyScope "key-1") s = ["a"; "b"].
Proof. by vm_compute. Qed.

(** The scopes of two tokens of one chain share the first eight characters of
    their contracts. *)
Example token_scopes_collide :
  p_id <$> get_for_scope (AssetScope (erc20 1 "0xdac17f2222")) (run_op (OpAdd (token_policy "t" "0xdac17f1111")) policy_store_new) = ["t"].
Proof. by vm_compute. Qed.
