(* ===== verification/Recovery.v ===== *)
(** * Account recovery

    [crates/auth/src/recovery/mod.rs]: recovery requests by email, SMS, time
    lock and guardians, and backup codes.  Arguments that stand for effects:
    [t], the wall clock and the monotonic clock; [random], the bytes of codes
    and ids.  The product of the number of guardians with the ratio of the
    configuration, a floating-point number, is the field [guardian_threshold].
    The wall clock is past 1970 and texts are ASCII.  The status
    [RecoveryStatus::TimeLocked] is [InTimeLock]. *)

From Stdlib Require Import ZArith Lia Strings.Ascii.
From stdpp Require Import base gmap strings list.
From S2P Require Import Prelude External Platform PolicyTypes AccessControl.

Definition unix_secs (t : Clock) : Z := wall t / 1000000000.

Inductive RecoveryMethod :=
| Email (email : string)
| Sms (phone phone_hint : string)
| BackupCodes (remaining_count : nat)
| SocialRecovery (threshold total_guardians : nat)
| TimeLocked (delay_hours : Z).
Inductive RecoveryStatus := Pending | Verifying | InTimeLock | AwaitingGuardians | Approved | Completed | Expired | Denied.
#[export] Instance RecoveryStatus_eq_dec : EqDecision RecoveryStatus.
Proof. solve_decision. Defined.

Record GuardianApproval := MkGuardianApproval {
  guardian_id : string;
  guardian_name : string;
  ga_approved : bool;
  approved_at : option Z;
  approved_from_ip : option string
}.
Record RecoveryRequest := MkRecoveryRequest {
  rr_id : string;
  rr_user_id : string;
  rr_method : RecoveryMethod;
  rr_status : RecoveryStatus;
  rr_created_at : DateTime;
  created_timestamp : Z;
  expires_in : Duration;
  verification_hash : option string;
  guardian_approvals : list GuardianApproval;
  time_lock_ends_at : option Z;
  request_ip : option string;
  rr_user_agent : option string;
  attempts : Z;
  rr_max_attempts : Z
}.
Definition set_rr_status (s : RecoveryStatus) (r : RecoveryRequest) : RecoveryRequest :=
  MkRecoveryRequest (rr_id r) (rr_user_id r) (rr_method r) s (rr_created_at r) (created_timestamp r) (expires_in r)
    (verification_hash r) (guardian_approvals r) (time_lock_ends_at r) (request_ip r) (rr_user_agent r) (attempts r)
    (rr_max_attempts r).
Definition set_attempts (n : Z) (r : RecoveryRequest) : RecoveryRequest :=
  MkRecoveryRequest (rr_id r) (rr_user_id r) (rr_method r) (rr_status r) (rr_created_at r) (created_timestamp r) (expires_in r)
    (verification_hash r) (guardian_approvals r) (time_lock_ends_at r) (request_ip r) (rr_user_agent r) n
    (rr_max_attempts r).
Definition set_approvals (gs : list GuardianApproval) (r : RecoveryRequest) : RecoveryRequest :=
  MkRecoveryRequest (rr_id r) (rr_user_id r) (rr_method r) (rr_status r) (rr_created_at r) (created_timestamp r) (expires_in r)
    (verification_hash r) gs (time_lock_ends_at r) (request_ip r) (rr_user_agent r) (attempts r) (rr_max_attempts r).

Definition rr_is_expired (t : Clock) (r : RecoveryRequest) : bool :=
  expires_in r <? Z.max 0 (instant t - rr_created_at r).
Definition time_lock_passed (t : Clock) (r : RecoveryRequest) : bool :=
  match time_lock_ends_at r with Some ends_at => ends_at <=? unix_secs t | None => true end.
Definition approvals (r : RecoveryRequest) : nat :=
  length (filter (fun g => ga_approved g = true) (guardian_approvals r)).
Definition has_guardian_quorum (r : RecoveryRequest) (threshold : nat) : bool := (threshold <=? approvals r)%nat.

Record RecoveryConfig := MkRecoveryConfig {
  request_ttl : Duration;
  code_ttl : Duration;
  max_attempts : Z;
  time_lock_hours : Z;
  code_length : nat;
  min_guardians : nat;
  (** [((n as f32) * guardian_threshold_ratio).ceil() as usize] *)
  guardian_threshold : nat -> nat
}.
(** The ratio 0.5: half, rounded up. *)
Definition recovery_config_default : RecoveryConfig :=
  MkRecoveryConfig (nanos 86400) (nanos 600) 5 24 6 3 (fun n => (n + 1) / 2)%nat.

Record Guardian := MkGuardian { g_id : string; g_name : string; g_email : string; added_at : Z }.
Record UserRecoveryConfig := MkUserConfig {
  uc_user_id : string;
  uc_email : option string;
  uc_phone : option string;
  backup_code_hashes : list string;
  guardians : list Guardian;
  time_locked_enabled : bool;
  uc_time_lock_hours : Z;
  uc_updated_at : Z
}.
Definition set_backup_hashes (hs : list string) (c : UserRecoveryConfig) : UserRecoveryConfig :=
  MkUserConfig (uc_user_id c) (uc_email c) (uc_phone c) hs (guardians c) (time_locked_enabled c) (uc_time_lock_hours c)
    (uc_updated_at c).

Record RecoveryManager := MkRecoveryManager {
  config : RecoveryConfig;
  requests : gmap string RecoveryRequest;
  user_configs : gmap string UserRecoveryConfig;
  last_request : gmap string DateTime;
  rate_limit_interval : Duration
}.
Definition recovery_new (c : RecoveryConfig) : RecoveryManager := MkRecoveryManager c ∅ ∅ ∅ (nanos 60).
Definition set_requests (rs : gmap string RecoveryRequest) (m : RecoveryManager) : RecoveryManager :=
  MkRecoveryManager (config m) rs (user_configs m) (last_request m) (rate_limit_interval m).
Definition set_user_configs (cs : gmap string UserRecoveryConfig) (m : RecoveryManager) : RecoveryManager :=
  MkRecoveryManager (config m) (requests m) cs (last_request m) (rate_limit_interval m).

(** ** Texts *)

(** [s.replace(c, "")] *)
Fixpoint remove_char (c : ascii) (s : string) : string :=
  match s with
  | EmptyString => EmptyString
  | String a s' => if decide (a = c) then remove_char c s' else String a (remove_char c s')
  end.
(** The last [n] characters. *)
Definition last_chars (n : nat) (s : string) : string := String.substring (String.length s - n) n s.
Fixpoint split_once (c : ascii) (s : string) : option (string * string) :=
  match s with
  | EmptyString => None
  | String a s' =>
      if decide (a = c) then Some (EmptyString, s')
      else (fun p => (String a p.1, p.2)) <$> split_once c s'
  end.
(** [None]: the slice [local[..1]] of an empty local part panics. *)
Definition mask_email (email : string) : option string :=
  match split_once "@" email with
  | Some (local, domain) =>
      if (String.length local =? 0)%nat then None
      else if (String.length local <=? 2)%nat then Some (String.substring 0 1 local +:+ "***@" +:+ domain)
      else Some (String.substring 0 1 local +:+ "***" +:+ last_chars 1 local +:+ "@" +:+ domain)
  | None => Some "***"
  end.
Definition mask_phone (phone : string) : string :=
  if (String.length phone <=? 4)%nat then "***" else "***" +:+ last_chars 4 phone.

Section manager.
Context {SHA : Sha256} {HEX : Hex}.

(** ** Codes *)

Definition recovery_code (length : nat) (random : bytes) : string :=
  to_uppercase (String.substring 0 length (hex_encode random)).
Definition recovery_hash (code : string) : string := hex_encode (sha256 (as_bytes (to_uppercase code))).
(** Groups of four characters between dashes; [fuel] bounds the groups. *)
Fixpoint formatted (fuel : nat) (code : string) : string :=
  match fuel with
  | O => code
  | S fuel =>
      if (String.length code <=? 4)%nat then code
      else String.substring 0 4 code +:+ "-" +:+ formatted fuel (String.substring 4 (String.length code - 4) code)
  end.
Fixpoint pad_zeros (n : nat) (s : string) : string :=
  match n with O => s | S n' => if (String.length s <=? n')%nat then String "0" (pad_zeros n' s) else s end.
(** From eight random bytes; the length is below 20. *)
Definition verification_code (length : nat) (num : Z) : string :=
  pad_zeros length (to_decimal (num mod (10 ^ Z.of_nat length))).
Definition verification_code_hash (code : string) : string := hex_encode (sha256 (as_bytes code)).
Definition ct_eq_hex_hash (a_hex b_hex : string) : bool :=
  match hex_decode a_hex, hex_decode b_hex with
  | Ok a, Ok b => bool_decide (a = b)
  | _, _ => false
  end.
Definition request_id_of (random : bytes) : string := "rec_" +:+ hex_encode random.

(** ** Configuration *)

(** [random]: the bytes of the ten codes, six for each. *)
Definition configure_user (user_id : string) (email phone : option string) (gs : list Guardian) (time_locked : bool)
    (random : list bytes) (t : Clock) (m : RecoveryManager) : list string * RecoveryManager :=
  let backup_codes := recovery_code 12 <$> random in
  let c := MkUserConfig user_id (to_lowercase <$> email) phone (recovery_hash <$> backup_codes) gs time_locked
             (time_lock_hours (config m)) (unix_secs t) in
  (backup_codes, set_user_configs (<[user_id := c]> (user_configs m)) m).

(** [None] is the panic of [mask_email]. *)
Definition available_methods (user_id : string) (m : RecoveryManager) : option (list RecoveryMethod) :=
  match user_configs m !! user_id with
  | None => Some []
  | Some c =>
      by_email ← match uc_email c with
                 | Some email => (fun e => [Email e]) <$> mask_email email
                 | None => Some []
                 end;
      Some (by_email ++
            match uc_phone c with Some phone => [Sms (mask_phone phone) (last_chars 4 phone)] | None => [] end ++
            (if bool_decide (backup_code_hashes c = []) then [] else [BackupCodes (length (backup_code_hashes c))]) ++
            (if (min_guardians (config m) <=? length (guardians c))%nat
             then [SocialRecovery (guardian_threshold (config m) (length (guardians c))) (length (guardians c))] else []) ++
            (if time_locked_enabled c then [TimeLocked (uc_time_lock_hours c)] else []))
  end.

(** ** Requests *)

Definition check_rate_limit (user_id : string) (t : Clock) (m : RecoveryManager) : result unit AuthError :=
  match last_request m !! user_id with
  | Some last =>
      let elapsed := Z.max 0 (instant t - last) in
      if elapsed <? rate_limit_interval m then
        Err (RateLimitExceeded ("Please wait " +:+ to_decimal ((rate_limit_interval m - elapsed) / 1000000000) +:+
                                " seconds before requesting recovery again"))
      else Ok tt
  | None => Ok tt
  end.
Definition user_config (user_id : string) (m : RecoveryManager) : result UserRecoveryConfig AuthError :=
  ok_or (InvalidSession "User not configured for recovery") (user_configs m !! user_id).
Definition insert_request (r : RecoveryRequest) (t : Clock) (m : RecoveryManager) : RecoveryManager :=
  MkRecoveryManager (config m) (<[rr_id r := r]> (requests m)) (user_configs m)
    (<[rr_user_id r := instant t]> (last_request m)) (rate_limit_interval m).

(** The checks and the method of a request by code; the rest is common. *)
Definition code_request (user_id : string) (method : RecoveryMethod) (ip ua : option string) (num : Z) (random : bytes)
    (t : Clock) (m : RecoveryManager) : RecoveryRequest :=
  MkRecoveryRequest (request_id_of random) user_id method Pending (instant t) (unix_secs t) (code_ttl (config m))
    (Some (verification_code_hash (verification_code (code_length (config m)) num))) [] None ip ua 0
    (max_attempts (config m)).
Definition initiate_code (method : UserRecoveryConfig -> result RecoveryMethod AuthError) (user_id : string)
    (ip ua : option string) (num : Z) (random : bytes) (t : Clock) : M RecoveryManager AuthError (string * string) := fun m =>
  match (let? _ := check_rate_limit user_id t m in let? c := user_config user_id m in method c) with
  | Err e => (Err e, m)
  | Ok method =>
      let r := code_request user_id method ip ua num random t m in
      (Ok (rr_id r, verification_code (code_length (config m)) num), insert_request r t m)
  end.
Definition initiate_email_recovery : string -> option string -> option string -> Z -> bytes -> Clock ->
    M RecoveryManager AuthError (string * string) :=
  initiate_code (fun c => let? email := ok_or (InvalidSession "Email recovery not configured") (uc_email c) in Ok (Email email)).
Definition initiate_sms_recovery : string -> option string -> option string -> Z -> bytes -> Clock ->
    M RecoveryManager AuthError (string * string) :=
  initiate_code (fun c =>
    let? phone := ok_or (InvalidSession "SMS recovery not configured") (uc_phone c) in Ok (Sms phone (last_chars 4 phone))).

Definition initiate_time_locked_recovery (user_id : string) (ip ua : option string) (random : bytes) (t : Clock)
    : M RecoveryManager AuthError string := fun m =>
  match (let? _ := check_rate_limit user_id t m in user_config user_id m) with
  | Err e => (Err e, m)
  | Ok c =>
      if negb (time_locked_enabled c) then (Err (InvalidSession "Time-locked recovery not enabled"), m)
      else
        let delay_seconds := uc_time_lock_hours c * 3600 in
        let r := MkRecoveryRequest (request_id_of random) user_id (TimeLocked (uc_time_lock_hours c)) InTimeLock (instant t)
                   (unix_secs t) (nanos (delay_seconds + 3600)) None [] (Some (unix_secs t + delay_seconds)) ip ua 0
                   (max_attempts (config m)) in
        (Ok (rr_id r), insert_request r t m)
  end.

Definition pending_approval (g : Guardian) : GuardianApproval := MkGuardianApproval (g_id g) (g_name g) false None None.
Definition initiate_social_recovery (user_id : string) (ip ua : option string) (random : bytes) (t : Clock)
    : M RecoveryManager AuthError (string * list GuardianApproval) := fun m =>
  match (let? _ := check_rate_limit user_id t m in user_config user_id m) with
  | Err e => (Err e, m)
  | Ok c =>
      let n := length (guardians c) in
      if (n <? min_guardians (config m))%nat then (Err (InvalidSession "Not enough guardians configured"), m)
      else
        let gs := pending_approval <$> guardians c in
        let r := MkRecoveryRequest (request_id_of random) user_id (SocialRecovery (guardian_threshold (config m) n) n)
                   AwaitingGuardians (instant t) (unix_secs t) (request_ttl (config m)) None gs None ip ua 0
                   (max_attempts (config m)) in
        (Ok (rr_id r, gs), insert_request r t m)
  end.

(** An update of a request in place; changes made before an error stay. *)
Definition with_request {A} (request_id : string) (f : RecoveryRequest -> result A AuthError * RecoveryRequest)
    : M RecoveryManager AuthError A := fun m =>
  match requests m !! request_id with
  | None => (Err (InvalidSession "Recovery request not found"), m)
  | Some r => let '(res, r') := f r in (res, set_requests (<[request_id := r']> (requests m)) m)
  end.

Definition try_code (code : string) (t : Clock) (r : RecoveryRequest) : result unit AuthError * RecoveryRequest :=
  if rr_is_expired t r then (Err SessionExpired, set_rr_status Expired r)
  else if rr_max_attempts r <=? attempts r then (Err (RateLimitExceeded "Too many attempts"), set_rr_status Denied r)
  else
    let r := set_attempts (wrap 32 (attempts r + 1)) r in
    match verification_hash r with
    | None => (Err (AuthInternal "No verification hash"), r)
    | Some expected_hash =>
        if negb (ct_eq_hex_hash (verification_code_hash code) expected_hash)
        then (Err (AuthUnauthorized "Invalid verification code"), r)
        else (Ok tt, set_rr_status Approved r)
    end.
Definition verify_code (request_id code : string) (t : Clock) : M RecoveryManager AuthError unit :=
  with_request request_id (try_code code t).

(** The position of the last match. *)
Fixpoint last_match (hash : string) (pos : nat) (hs : list string) (found : option nat) : option nat :=
  match hs with
  | [] => found
  | stored :: rest => last_match hash (S pos) rest (if ct_eq_hex_hash stored hash then Some pos else found)
  end.
Definition verify_backup_code (user_id code : string) : M RecoveryManager AuthError unit := fun m =>
  match user_configs m !! user_id with
  | None => (Err (InvalidSession "User not configured"), m)
  | Some c =>
      let code_hash := hex_encode (sha256 (as_bytes (remove_char "-" (to_uppercase code)))) in
      match last_match code_hash 0 (backup_code_hashes c) None with
      | Some pos =>
          (Ok tt, set_user_configs (<[user_id := set_backup_hashes (delete pos (backup_code_hashes c)) c]> (user_configs m)) m)
      | None => (Err (AuthUnauthorized "Invalid backup code"), m)
      end
  end.

(** The first entry of the guardian. *)
Fixpoint approve (gid : string) (now : Z) (ip : option string) (gs : list GuardianApproval)
    : result (list GuardianApproval) AuthError :=
  match gs with
  | [] => Err (InvalidSession "Guardian not found")
  | g :: rest =>
      if decide (guardian_id g = gid) then
        if ga_approved g then Err (InvalidSession "Guardian already approved")
        else Ok (MkGuardianApproval (guardian_id g) (guardian_name g) true (Some now) ip :: rest)
      else let? rest := approve gid now ip rest in Ok (g :: rest)
  end.
Definition try_guardian (gid : string) (ip : option string) (t : Clock) (r : RecoveryRequest)
    : result bool AuthError * RecoveryRequest :=
  if rr_is_expired t r then (Err SessionExpired, set_rr_status Expired r)
  else
    match approve gid (unix_secs t) ip (guardian_approvals r) with
    | Err e => (Err e, r)
    | Ok gs =>
        let r := set_approvals gs r in
        match rr_method r with
        | SocialRecovery threshold _ =>
            if has_guardian_quorum r threshold then (Ok true, set_rr_status Approved r) else (Ok false, r)
        | _ => (Ok false, r)
        end
    end.
Definition record_guardian_approval (request_id gid : string) (ip : option string) (t : Clock)
    : M RecoveryManager AuthError bool := with_request request_id (try_guardian gid ip t).

Definition try_time_lock (t : Clock) (r : RecoveryRequest) : result bool AuthError * RecoveryRequest :=
  if rr_is_expired t r then (Err SessionExpired, set_rr_status Expired r)
  else if time_lock_passed t r then (Ok true, set_rr_status Approved r)
  else (Ok false, r).
Definition check_time_lock (request_id : string) (t : Clock) : M RecoveryManager AuthError bool :=
  with_request request_id (try_time_lock t).
Definition get_recovery_request (request_id : string) (m : RecoveryManager) : option RecoveryRequest := requests m !! request_id.

Definition complete_recovery (request_id : string) : M RecoveryManager AuthError unit :=
  with_request request_id (fun r =>
    if negb (bool_decide (rr_status r = Approved)) then (Err (InvalidSession "Recovery not approved"), r)
    else (Ok tt, set_rr_status Completed r)).
Definition cancel_request (request_id : string) : M RecoveryManager AuthError unit :=
  with_request request_id (fun r => (Ok tt, set_rr_status Denied r)).

Definition is_removable (t : Clock) (r : RecoveryRequest) : bool :=
  rr_is_expired t r || bool_decide (rr_status r = Completed).
Definition cleanup_expired_requests (t : Clock) (m : RecoveryManager) : nat * RecoveryManager :=
  (size (filter (fun ir => is_removable t ir.2 = true) (requests m)),
   set_requests (filter (fun ir => is_removable t ir.2 = false) (requests m)) m).
Definition regenerate_backup_codes (user_id : string) (random : list bytes) (t : Clock)
    : M RecoveryManager AuthError (list string) := fun m =>
  match user_configs m !! user_id with
  | None => (Err (InvalidSession "User not configured"), m)
  | Some c =>
      let new_codes := recovery_code 12 <$> random in
      let c := MkUserConfig (uc_user_id c) (uc_email c) (uc_phone c) (recovery_hash <$> new_codes) (guardians c)
                 (time_locked_enabled c) (uc_time_lock_hours c) (unix_secs t) in
      (Ok new_codes, set_user_configs (<[user_id := c]> (user_configs m)) m)
  end.
Definition backup_codes_remaining (user_id : string) (m : RecoveryManager) : option nat :=
  (fun c => length (backup_code_hashes c)) <$> user_configs m !! user_id.
End manager.
