(* ===== verification/RecoveryCorrect.v ===== *)
(** * Account recovery: what approves a request

    Sequences of calls of the recovery manager, with the evidence they were
    given: an approved request is justified by a matching code, a quorum of
    guardians or an elapsed time lock as long as [check_time_lock] is called
    for time-locked requests only; what happens when it is not; the limit on
    codes; backup codes work once. *)

From Stdlib Require Import ZArith Lia.
From stdpp Require Import base gmap strings list.
From S2P Require Import Prelude External Platform PolicyTypes AccessControl Recovery.

Section correct.
Context {SHA : Sha256} {HEX : Hex}.

(** ** Runs *)

Inductive recovery_op :=
| OConfigure (user : string) (email phone : option string) (gs : list Guardian) (locked : bool) (random : list bytes)
| OEmail (user : string) (ip ua : option string) (num : Z) (random : bytes)
| OSms (user : string) (ip ua : option string) (num : Z) (random : bytes)
| OTimeLocked (user : string) (ip ua : option string) (random : bytes)
| OSocial (user : string) (ip ua : option string) (random : bytes)
| OCode (id code : string)
| OBackup (user code : string)
| OGuardian (id gid : string) (ip : option string)
| OCheckTimeLock (id : string)
| OComplete (id : string)
| OCancel (id : string)
| OCleanup
| ORegenerate (user : string) (random : list bytes).

Definition run_op (op : recovery_op) (t : Clock) (m : RecoveryManager) : RecoveryManager :=
  match op with
  | OConfigure user email phone gs locked random => (configure_user user email phone gs locked random t m).2
  | OEmail user ip ua num random => (initiate_email_recovery user ip ua num random t m).2
  | OSms user ip ua num random => (initiate_sms_recovery user ip ua num random t m).2
  | OTimeLocked user ip ua random => (initiate_time_locked_recovery user ip ua random t m).2
  | OSocial user ip ua random => (initiate_social_recovery user ip ua random t m).2
  | OCode id code => (verify_code id code t m).2
  | OBackup user code => (verify_backup_code user code m).2
  | OGuardian id gid ip => (record_guardian_approval id gid ip t m).2
  | OCheckTimeLock id => (check_time_lock id t m).2
  | OComplete id => (complete_recovery id m).2
  | OCancel id => (cancel_request id m).2
  | OCleanup => (cleanup_expired_requests t m).2
  | ORegenerate user random => (regenerate_backup_codes user random t m).2
  end.

(** What callers have shown for a request. *)
Inductive evidence := CodeShown (id code : string) | GuardianShown (id gid : string).
Definition shown (op : recovery_op) : list evidence :=
  match op with
  | OCode id code => [CodeShown id code]
  | OGuardian id gid _ => [GuardianShown id gid]
  | _ => []
  end.

(** [check_time_lock] is called for time-locked requests. *)
Definition proper_op (op : recovery_op) (m : RecoveryManager) : Prop :=
  match op with
  | OCheckTimeLock id => forall r, requests m !! id = Some r -> exists h, rr_method r = TimeLocked h
  | _ => True
  end.

(** Runs under a wall clock that does not go back; [last] is its last reading. *)
Inductive recovery_run : list evidence -> Z -> RecoveryManager -> Prop :=
| run_start c : recovery_run [] 0 (recovery_new c)
| run_step ev last m op t :
    recovery_run ev last m -> last <= unix_secs t -> proper_op op m ->
    recovery_run (shown op ++ ev) (unix_secs t) (run_op op t m).

(** ** The invariant *)

Definition matches (code : string) (r : RecoveryRequest) : Prop :=
  exists h, verification_hash r = Some h /\ ct_eq_hex_hash (verification_code_hash code) h = true.
Definition justified (id : string) (ev : list evidence) (last : Z) (r : RecoveryRequest) : Prop :=
  match rr_method r with
  | Email _ | Sms _ _ => exists code, CodeShown id code ∈ ev /\ matches code r
  | SocialRecovery threshold _ => (threshold <= approvals r)%nat
  | TimeLocked hours => created_timestamp r + hours * 3600 <= last
  | BackupCodes _ => False
  end.
Definition granted (r : RecoveryRequest) : Prop := rr_status r = Approved \/ rr_status r = Completed.
Definition approvals_shown (id : string) (ev : list evidence) (r : RecoveryRequest) : Prop :=
  Forall (fun g => ga_approved g = true -> GuardianShown id (guardian_id g) ∈ ev) (guardian_approvals r).

(** The fields that the method of a request determines. *)
Definition shaped (r : RecoveryRequest) : Prop :=
  match rr_method r with
  | Email _ | Sms _ _ => True
  | SocialRecovery _ _ => verification_hash r = None
  | TimeLocked hours => verification_hash r = None /\ time_lock_ends_at r = Some (created_timestamp r + hours * 3600)
  | BackupCodes _ => False
  end.
Definition request_ok (ev : list evidence) (last : Z) (id : string) (r : RecoveryRequest) : Prop :=
  shaped r /\ approvals_shown id ev r /\ (granted r -> justified id ev last r).
Definition all_ok (ev : list evidence) (last : Z) (m : RecoveryManager) : Prop :=
  map_Forall (request_ok ev last) (requests m).

Lemma request_ok_mono ev ev' last last' id r :
  ev ⊆ ev' -> last <= last' -> request_ok ev last id r -> request_ok ev' last' id r.
Proof.
  intros Hev Hlast (Hs & Ha & Hj). split_and!; [done|eapply Forall_impl; [exact Ha|naive_solver]|].
  intros Hg. specialize (Hj Hg). unfold justified in *.
  destruct (rr_method r); [naive_solver..|done|done|lia].
Qed.
Lemma all_ok_mono ev ev' last last' m : ev ⊆ ev' -> last <= last' -> all_ok ev last m -> all_ok ev' last' m.
Proof. intros ?? H. eapply map_Forall_impl; [exact H|]. eauto using request_ok_mono. Qed.

(** A status other than granted keeps the invariant. *)
Lemma request_ok_status ev last id s r :
  s <> Approved -> s <> Completed -> request_ok ev last id r -> request_ok ev last id (set_rr_status s r).
Proof. intros ?? (Hs & Ha & _). split_and!; [done|done|]. by intros [?|?]. Qed.
Lemma request_ok_grant ev last id s r :
  justified id ev last r -> request_ok ev last id r -> request_ok ev last id (set_rr_status s r).
Proof. by intros ? (Hs & Ha & _). Qed.
Lemma request_ok_attempts ev last id n r : request_ok ev last id r -> request_ok ev last id (set_attempts n r).
Proof. done. Qed.

Lemma with_request_ok {A} ev last id (f : _ -> result A AuthError * _) m :
  (forall r, requests m !! id = Some r -> request_ok ev last id r -> request_ok ev last id (f r).2) ->
  all_ok ev last m -> all_ok ev last (with_request id f m).2.
Proof.
  intros Hf Hok. unfold with_request. destruct (requests m !! id) as [r|] eqn:Hr; [|done].
  specialize (Hf r eq_refl (Hok _ _ Hr)). destruct (f r) as [res r']. by apply map_Forall_insert_2.
Qed.
Lemma insert_request_ok ev last r t m :
  request_ok ev last (rr_id r) r -> all_ok ev last m -> all_ok ev last (insert_request r t m).
Proof. intros. by apply map_Forall_insert_2. Qed.

(** ** The operations keep it *)

Lemma try_code_ok ev last id code t r :
  CodeShown id code ∈ ev -> request_ok ev last id r -> request_ok ev last id (try_code code t r).2.
Proof.
  intros Hin Hr. unfold try_code. case_match; [by apply request_ok_status|]. case_match; [by apply request_ok_status|].
  simpl. destruct (verification_hash r) as [h|] eqn:Hh; [|by apply request_ok_attempts].
  destruct (ct_eq_hex_hash _ _) eqn:Hm; [|by apply request_ok_attempts]. simpl.
  apply request_ok_grant; [|by apply request_ok_attempts].
  destruct Hr as (Hs & _). unfold shaped in Hs. unfold justified. simpl.
  destruct (rr_method r); [exists code; unfold matches; naive_solver..|done|congruence|].
  destruct Hs. congruence.
Qed.
Lemma approve_shown gid now ip gs gs' (P : string -> Prop) :
  P gid -> approve gid now ip gs = Ok gs' ->
  Forall (fun g => ga_approved g = true -> P (guardian_id g)) gs ->
  Forall (fun g => ga_approved g = true -> P (guardian_id g)) gs'.
Proof.
  intros HP. revert gs'. induction gs as [|g gs IH]; intros gs' Ha Hall; [done|]. inversion Hall; subst. simpl in Ha.
  case_decide as Hd.
  - destruct (ga_approved g); [done|]. injection Ha as <-. constructor; [|done]. simpl. by rewrite Hd.
  - apply rbind_Ok in Ha as (rest & ? & Ha). injection Ha as <-. constructor; eauto.
Qed.
Lemma approve_count gid now ip gs gs' :
  approve gid now ip gs = Ok gs' ->
  length (filter (fun g => ga_approved g = true) gs') = S (length (filter (fun g => ga_approved g = true) gs)).
Proof.
  revert gs'. induction gs as [|g gs IH]; intros gs' Ha; [done|]. simpl in Ha. case_decide as Hd.
  - destruct (ga_approved g) eqn:Hg; [done|]. injection Ha as <-.
    rewrite filter_cons_True by done. rewrite filter_cons_False by congruence. done.
  - apply rbind_Ok in Ha as (rest & Hrest & Ha). injection Ha as <-. specialize (IH _ Hrest).
    rewrite !filter_cons. case_decide; simpl; lia.
Qed.
Lemma try_guardian_ok ev last id gid ip t r :
  GuardianShown id gid ∈ ev -> request_ok ev last id r -> request_ok ev last id (try_guardian gid ip t r).2.
Proof.
  intros Hin Hr. unfold try_guardian. case_match; [by apply request_ok_status|].
  destruct (approve _ _ _ _) as [gs|e] eqn:Hap; [|done].
  assert (request_ok ev last id (set_approvals gs r)) as Hok.
  { destruct Hr as (Hs & Ha & Hj). split_and!; [done| |].
    - by apply (approve_shown _ _ _ _ _ (fun g => GuardianShown id g ∈ ev) Hin Hap).
    - intros Hg. specialize (Hj Hg). unfold justified, approvals in *. simpl.
      rewrite (approve_count _ _ _ _ _ Hap). destruct (rr_method r); try done. lia. }
  destruct (rr_method (set_approvals gs r)) as [| | |threshold n|] eqn:Hm; try done.
  destruct (has_guardian_quorum _ _) eqn:Hq; [|done]. apply request_ok_grant; [|done].
  unfold justified. rewrite Hm. by apply Nat.leb_le.
Qed.
Lemma try_time_lock_ok ev id t r :
  (exists h, rr_method r = TimeLocked h) -> request_ok ev (unix_secs t) id r ->
  request_ok ev (unix_secs t) id (try_time_lock t r).2.
Proof.
  intros [h Hm] Hr. unfold try_time_lock. case_match; [by apply request_ok_status|].
  destruct (time_lock_passed t r) eqn:Hp; [|done]. apply request_ok_grant; [|done].
  destruct Hr as (Hs & _). unfold shaped in Hs. unfold time_lock_passed in Hp. unfold justified. rewrite Hm in Hs |- *.
  destruct Hs as [_ Hends]. rewrite Hends in Hp. by apply Z.leb_le.
Qed.

(** A new request is not granted. *)
Lemma initiate_code_ok ev last method user ip ua num random t m :
  (forall c md, method c = Ok md -> match md with Email _ | Sms _ _ => True | _ => False end) ->
  all_ok ev last m -> all_ok ev last (initiate_code method user ip ua num random t m).2.
Proof.
  intros Hmd Hok. unfold initiate_code. destruct (rbind _ _) as [md|e] eqn:Hb; [|done].
  apply rbind_Ok in Hb as (? & _ & Hb). apply rbind_Ok in Hb as (c & _ & Hb). apply Hmd in Hb.
  apply insert_request_ok; [|done]. split_and!; [by destruct md|by constructor|by intros [?|?]].
Qed.
Lemma initiate_time_locked_ok ev last user ip ua random t m :
  all_ok ev last m -> all_ok ev last (initiate_time_locked_recovery user ip ua random t m).2.
Proof.
  intros Hok. unfold initiate_time_locked_recovery. case_match; [|done]. case_match; [done|].
  apply insert_request_ok; [|done]. split_and!; [done|by constructor|by intros [?|?]].
Qed.
Lemma initiate_social_ok ev last user ip ua random t m :
  all_ok ev last m -> all_ok ev last (initiate_social_recovery user ip ua random t m).2.
Proof.
  intros Hok. unfold initiate_social_recovery. case_match; [|done]. case_match; [done|].
  apply insert_request_ok; [|done]. split_and!; [done| |by intros [?|?]].
  apply Forall_fmap, Forall_true. by intros g.
Qed.
Lemma run_op_ok ev op t m :
  proper_op op m -> all_ok ev (unix_secs t) m -> all_ok (shown op ++ ev) (unix_secs t) (run_op op t m).
Proof.
  intros Hp Hok. apply (all_ok_mono _ (shown op ++ ev) _ (unix_secs t)) in Hok; [|set_solver|done].
  destruct op; cbn [run_op]; auto using initiate_time_locked_ok, initiate_social_ok.
  - apply initiate_code_ok; [|done]. intros c md Hmd. apply rbind_Ok in Hmd as (? & _ & Hmd). by injection Hmd as <-.
  - apply initiate_code_ok; [|done]. intros c md Hmd. apply rbind_Ok in Hmd as (? & _ & Hmd). by injection Hmd as <-.
  - apply with_request_ok; [|done]. intros. apply try_code_ok; [set_solver|done].
  - unfold verify_backup_code. by repeat case_match.
  - apply with_request_ok; [|done]. intros. apply try_guardian_ok; [set_solver|done].
  - apply with_request_ok; [|done]. intros. apply try_time_lock_ok; [by apply Hp|done].
  - apply with_request_ok; [|done]. intros r _ Hr. case_bool_decide as Ha; [|done].
    apply request_ok_grant; [|done]. apply Hr. by left.
  - apply with_request_ok; [|done]. intros r _ Hr. by apply request_ok_status.
  - intros id r Hr. apply map_lookup_filter_Some in Hr as [Hr _]. by apply Hok.
  - unfold regenerate_backup_codes. by case_match.
Qed.
Lemma run_ok ev last m : recovery_run ev last m -> all_ok ev last m.
Proof.
  induction 1 as [c|ev last m op t _ IH Hle Hp]; [apply map_Forall_empty|].
  apply run_op_ok; [done|]. by apply (all_ok_mono ev _ last).
Qed.

(** C32: In every sequence of calls in which [check_time_lock] is only asked
    about time-locked requests, an approved or completed recovery is
    justified: a code that was submitted for this request matches the one sent
    by email or SMS; or as many guardians as the threshold approved it, each
    by a call with their id; or the delay has passed on the wall clock. *)
Theorem recovery_justified ev last m id r :
  recovery_run ev last m -> requests m !! id = Some r -> granted r ->
  justified id ev last r /\ approvals_shown id ev r.
Proof. intros Hrun Hr Hg. destruct (run_ok _ _ _ Hrun _ _ Hr) as (_ & Ha & Hj). by split; [apply Hj|]. Qed.

(** ** Without the restriction *)

Lemma with_request_lookup {A} id (f : _ -> result A AuthError * _) m r :
  requests m !! id = Some r ->
  (with_request id f m).1 = (f r).1 /\ requests (with_request id f m).2 !! id = Some (f r).2.
Proof.
  intros Hr. unfold with_request. rewrite Hr. destruct (f r) as [res r']. simpl. by rewrite lookup_insert_eq.
Qed.
(** A request whose time lock has passed, or that has none, completes whatever
    its status is. *)
Lemma check_then_complete id t m r :
  requests m !! id = Some r -> rr_is_expired t r = false -> time_lock_passed t r = true ->
  let m1 := (check_time_lock id t m).2 in
  (check_time_lock id t m).1 = Ok true /\ (complete_recovery id m1).1 = Ok tt /\
  requests (complete_recovery id m1).2 !! id = Some (set_rr_status Completed r).
Proof.
  intros Hr He Hp. destruct (with_request_lookup id (try_time_lock t) m r Hr) as [H1 H2].
  assert (try_time_lock t r = (Ok true, set_rr_status Approved r)) as Ht
    by (unfold try_time_lock; by rewrite He, Hp).
  rewrite Ht in H1, H2. split; [exact H1|].
  by destruct (with_request_lookup id (fun r =>
    if negb (bool_decide (rr_status r = Approved)) then (Err (InvalidSession "Recovery not approved"), r)
    else (Ok tt, set_rr_status Completed r)) _ _ H2).
Qed.

(** C40: The restriction is needed: a recovery by email that was just started
    completes within the life of its code through [check_time_lock] and
    [complete_recovery], without any code. *)
Theorem email_recovery_without_code user ip ua num random t m id code m0 t' :
  initiate_email_recovery user ip ua num random t m = (Ok (id, code), m0) ->
  0 <= code_ttl (config m) -> instant t' <= instant t + code_ttl (config m) ->
  let m1 := (check_time_lock id t' m0).2 in
  (check_time_lock id t' m0).1 = Ok true /\ (complete_recovery id m1).1 = Ok tt /\
  rr_status <$> requests (complete_recovery id m1).2 !! id = Some Completed.
Proof.
  intros Hi H0 Ht. unfold initiate_email_recovery, initiate_code in Hi.
  destruct (rbind _ _) as [md|e]; [|done]. injection Hi as <- <- <-.
  pose (r := code_request user md ip ua num random t m).
  destruct (check_then_complete (rr_id r) t' (insert_request r t m) r) as (H1 & H2 & H3).
  - apply lookup_insert_eq.
  - apply Z.ltb_ge. simpl. lia.
  - done.
  - split_and!; [exact H1|exact H2|]. exact (f_equal (fmap rr_status) H3).
Qed.

(** Cancelling a time-locked recovery does not stop it: after the delay, the
    cancelled request is approved and completes. *)
Theorem cancelled_recovery_completes id m r t :
  requests m !! id = Some r -> rr_is_expired t r = false -> time_lock_passed t r = true ->
  let m1 := (cancel_request id m).2 in
  let m2 := (check_time_lock id t m1).2 in
  rr_status <$> requests m1 !! id = Some Denied /\
  (check_time_lock id t m1).1 = Ok true /\ (complete_recovery id m2).1 = Ok tt.
Proof.
  intros Hr He Hp. destruct (with_request_lookup (A := unit) id (fun r => (Ok tt, set_rr_status Denied r)) m r Hr) as [_ Hm].
  destruct (check_then_complete id t _ _ Hm He Hp) as (H1 & H2 & _).
  split_and!; [exact (f_equal (fmap rr_status) Hm)|exact H1|exact H2].
Qed.

(** ** The limit on codes *)

Definition submit_codes (id : string) (cs : list (string * Clock)) (m : RecoveryManager) : RecoveryManager :=
  foldl (fun m ct => (verify_code id ct.1 ct.2 m).2) m cs.
Definition wrong (r : RecoveryRequest) (ct : string * Clock) : Prop :=
  rr_is_expired ct.2 r = false /\ ~ matches ct.1 r.

Lemma try_code_wrong r h code t :
  verification_hash r = Some h -> wrong r (code, t) -> 0 <= attempts r < rr_max_attempts r -> in_u 32 (rr_max_attempts r) ->
  (try_code code t r).2 = set_attempts (attempts r + 1) r.
Proof.
  intros Hh [He Hw] Ha Hm. unfold try_code. simpl in He. rewrite He.
  destruct (Z.leb_spec (rr_max_attempts r) (attempts r)); [lia|]. simpl. rewrite Hh.
  rewrite wrap_small; [|destruct Hm; split; lia].
  destruct (ct_eq_hex_hash _ _) eqn:Hc; [|done]. destruct Hw. by exists h.
Qed.
Lemma submit_wrong_codes id cs m r h :
  requests m !! id = Some r -> verification_hash r = Some h -> in_u 32 (rr_max_attempts r) ->
  0 <= attempts r -> attempts r + Z.of_nat (length cs) <= rr_max_attempts r -> Forall (wrong r) cs ->
  requests (submit_codes id cs m) !! id = Some (set_attempts (attempts r + Z.of_nat (length cs)) r).
Proof.
  intros Hr Hh Hu. revert m r Hr Hh Hu. induction cs as [|[code t] cs IH]; intros m r Hr Hh Hu H0 Hle Hw.
  - simpl. rewrite Z.add_0_r, Hr. by destruct r.
  - inversion Hw as [|?? Hw1 Hws]; subst. simpl length in *.
    destruct (with_request_lookup id (try_code code t) m r Hr) as [_ Hm].
    rewrite (try_code_wrong r h) in Hm; [|done..|lia|done].
    change (submit_codes id ((code, t) :: cs) m) with (submit_codes id cs (with_request id (try_code code t) m).2).
    rewrite (IH _ _ Hm); [|done|done|simpl; lia|simpl; lia|done]. unfold set_attempts. simpl. do 2 f_equal. lia.
Qed.

(** After as many wrong codes as the request allows, every further code
    is refused, the right one included, and the request does not become
    approved by it. *)
Theorem codes_exhausted id cs m r h code t :
  requests m !! id = Some r -> verification_hash r = Some h -> in_u 32 (rr_max_attempts r) -> attempts r = 0 ->
  rr_status r = Pending -> Z.of_nat (length cs) = rr_max_attempts r -> Forall (wrong r) cs ->
  let m' := submit_codes id cs m in
  (exists e, (verify_code id code t m').1 = Err e) /\
  rr_status <$> requests (verify_code id code t m').2 !! id <> Some Approved.
Proof.
  intros Hr Hh Hu H0 Hs Hl Hw m'.
  pose proof (submit_wrong_codes id cs m r h Hr Hh Hu ltac:(lia) ltac:(lia) Hw) as Hm. fold m' in Hm.
  destruct (with_request_lookup id (try_code code t) m' _ Hm) as [H1 H2].
  unfold verify_code. rewrite H1, H2. unfold try_code. case_match; [by eauto|]. simpl.
  destruct (Z.leb_spec (rr_max_attempts r) (attempts r + Z.of_nat (length cs))); [by eauto|lia].
Qed.

(** ** Backup codes *)

Lemma ct_eq_encoded a b : ct_eq_hex_hash (hex_encode a) (hex_encode b) = bool_decide (a = b).
Proof. unfold ct_eq_hex_hash. by rewrite !hex_decode_encode. Qed.
(** Over encodings, [last_match] finds the last occurrence. *)
Lemma last_match_spec b bs pos found :
  match last_match (hex_encode b) pos (hex_encode <$> bs) found with
  | Some p => found = Some p \/ exists i, p = (pos + i)%nat /\ bs !! i = Some b
  | None => found = None /\ b ∉ bs
  end.
Proof.
  revert pos found. induction bs as [|x bs IH]; intros pos found; simpl.
  - destruct found; [by left|]. split; [done|set_solver].
  - specialize (IH (S pos) (if ct_eq_hex_hash (hex_encode x) (hex_encode b) then Some pos else found)).
    destruct (last_match _ _ _ _) as [p|]; rewrite ct_eq_encoded in IH.
    + destruct IH as [IH|(i & -> & Hi)]; [|right; exists (S i); split; [lia|done]].
      case_bool_decide; [|by left]. injection IH as <-. subst. right. exists O. split; [lia|done].
    + case_bool_decide; [by destruct IH|]. set_solver.
Qed.
Lemma last_match_Some b bs p :
  last_match (hex_encode b) 0 (hex_encode <$> bs) None = Some p -> bs !! p = Some b.
Proof. intros H. pose proof (last_match_spec b bs 0 None) as Hs. rewrite H in Hs. destruct Hs as [?|(i & -> & ?)]; done. Qed.
Lemma last_match_None b bs : b ∉ bs -> last_match (hex_encode b) 0 (hex_encode <$> bs) None = None.
Proof.
  intros H. pose proof (last_match_spec b bs 0 None) as Hs. destruct (last_match _ _ _ _) as [p|]; [|done].
  destruct Hs as [?|(i & _ & Hi)]; [done|]. by apply list_elem_of_lookup_2 in Hi.
Qed.
Lemma NoDup_delete_not_elem {A} (l : list A) i x : NoDup l -> l !! i = Some x -> x ∉ delete i l.
Proof.
  intros Hnd Hi Hin. rewrite <- (take_drop_middle l i x Hi) in Hnd. rewrite delete_take_drop in Hin.
  apply NoDup_app in Hnd as (_ & Hd & Hnd). apply NoDup_cons in Hnd as [? _]. set_solver.
Qed.

Definition backup_digest (code : string) : bytes := sha256 (as_bytes (to_uppercase code)).

(** A backup code works once: of the codes a user was given, with
    different digests, an accepted one is used up, the number of remaining
    codes goes down by one, and the same text is refused afterwards. *)
Theorem backup_code_once user email phone gs locked random t m codes m0 code m1 :
  configure_user user email phone gs locked random t m = (codes, m0) ->
  NoDup (backup_digest <$> codes) ->
  verify_backup_code user code m0 = (Ok tt, m1) ->
  backup_codes_remaining user m1 = Some (pred (length codes)) /\
  verify_backup_code user code m1 = (Err (AuthUnauthorized "Invalid backup code"), m1).
Proof.
  intros Hc Hnd Hv. unfold configure_user in Hc. injection Hc as <- <-.
  set (codes := recovery_code 12 <$> random) in *.
  assert (recovery_hash <$> codes = hex_encode <$> (backup_digest <$> codes)) as Hh by (by rewrite <- list_fmap_compose).
  unfold verify_backup_code, backup_codes_remaining in *. simpl in Hv. rewrite lookup_insert_eq in Hv. cbn [backup_code_hashes] in Hv.
  rewrite Hh in Hv. destruct (last_match _ _ _ _) as [p|] eqn:Hm; [|done]. injection Hv as <-.
  apply last_match_Some in Hm. simpl. rewrite !lookup_insert_eq. cbn.
  rewrite <- list_fmap_delete. split.
  - f_equal. rewrite length_fmap, length_delete; [by rewrite length_fmap, Nat.sub_1_r|by eexists].
  - rewrite last_match_None; [done|]. by apply NoDup_delete_not_elem.
Qed.
End correct.
