(* ===== verification/Otp.v ===== *)
(** * One-time passwords

    [crates/auth/src/passwordless/otp.rs].  First base32: a 64-bit buffer from
    which groups of five, respectively eight, bits are taken; whatever is
    shifted out of the buffer has been used before, and decoding inverts
    encoding at every length.  Then HOTP (RFC 4226) and TOTP (RFC 6238) codes
    and the registrations of users.  HMAC with the three hash functions is a
    parameter.  [now] is the time in seconds; random bytes are arguments; texts
    are ASCII.  [None] as an outcome is a panic: a division by a zero period,
    or by the power of ten of 32 digits and more, which is zero in 32 bits.

    Theorems: codes exist and have the configured number of digits; which codes
    a TOTP check accepts; the counters of accepted HOTP codes increase; recovery
    codes work once; a TOTP code is accepted again in its window. *)

From Stdlib Require Import ZArith Lia Strings.Byte Strings.Ascii Sorted.
From stdpp Require Import base strings list gmap.
From S2P Require Import Prelude PolicyTypes External Platform AccessControl Recovery RecoveryCorrect.

Definition BASE32_ALPHABET : string := "ABCDEFGHIJKLMNOPQRSTUVWXYZ234567".
Definition base32_char (index : Z) : ascii := default "A"%char (String.get (Z.to_nat index) BASE32_ALPHABET).

(** The inner loop, which runs at most twice. *)
Fixpoint take_groups (fuel : nat) (buffer bits_in_buffer : Z) : list Z * Z :=
  match fuel with
  | S fuel' =>
      if 5 <=? bits_in_buffer then
        let bits_in_buffer := bits_in_buffer - 5 in
        let index := Z.land (Z.shiftr buffer bits_in_buffer) 0x1f in
        let '(rest, bits_in_buffer) := take_groups fuel' buffer bits_in_buffer in
        (index :: rest, bits_in_buffer)
      else ([], bits_in_buffer)
  | O => ([], bits_in_buffer)
  end.
(** The positions in the alphabet. *)
Fixpoint base32_indices (data : bytes) (buffer bits_in_buffer : Z) : list Z :=
  match data with
  | [] =>
      if 0 <? bits_in_buffer then [Z.land (wrap 64 (Z.shiftl buffer (5 - bits_in_buffer))) 0x1f] else []
  | byte :: data' =>
      let buffer := Z.lor (wrap 64 (Z.shiftl buffer 8)) (byte_to_Z byte) in
      let '(indices, bits_in_buffer) := take_groups 3 buffer (bits_in_buffer + 8) in
      indices ++ base32_indices data' buffer bits_in_buffer
  end.
Definition base32_encode (data : bytes) : string :=
  String.string_of_list_ascii (base32_char <$> base32_indices data 0 0).

Definition base32_value (c : ascii) : option Z :=
  let n := Z.of_N (N_of_ascii c) in
  if (65 <=? n) && (n <=? 90) then Some (n - 65)
  else if (50 <=? n) && (n <=? 55) then Some (n - 50 + 26)
  else None.
Fixpoint decode_chars (cs : list ascii) (buffer bits_in_buffer : Z) : option bytes :=
  match cs with
  | [] => Some []
  | c :: cs' =>
      if decide (c = "="%char) then decode_chars cs' buffer bits_in_buffer
      else
        value ← base32_value c;
        let buffer := Z.lor (wrap 64 (Z.shiftl buffer 5)) value in
        let bits_in_buffer := bits_in_buffer + 5 in
        if 8 <=? bits_in_buffer then
          cons (byte_of_Z (Z.shiftr buffer (bits_in_buffer - 8))) <$> decode_chars cs' buffer (bits_in_buffer - 8)
        else decode_chars cs' buffer bits_in_buffer
  end.
Definition base32_decode (encoded : string) : option bytes :=
  decode_chars (String.list_ascii_of_string (to_uppercase encoded)) 0 0.

(** ** Digits as numbers *)

(** The number that [acc] followed by digits of a base denotes. *)
Definition digits_from (base acc : Z) (ds : list Z) : Z := foldl (fun a d => a * base + d) acc ds.

Lemma digits_from_app base acc ds es : digits_from base acc (ds ++ es) = digits_from base (digits_from base acc ds) es.
Proof. apply foldl_app. Qed.
Lemma digits_from_bytes bs : digits_from 256 0 (byte_to_Z <$> bs) = from_be_bytes bs.
Proof.
  induction bs as [|b bs IH] using rev_ind; [done|]. rewrite fmap_app, digits_from_app, IH.
  unfold from_be_bytes. rewrite reverse_snoc. simpl. lia.
Qed.

(** The low [m] bits, split below the top [n] of them. *)
Lemma mod_split b m n : 0 <= n <= m -> b mod 2 ^ m = (b / 2 ^ (m - n)) mod 2 ^ n * 2 ^ (m - n) + b mod 2 ^ (m - n).
Proof.
  intros H. replace (2 ^ m) with (2 ^ (m - n) * 2 ^ n) by (rewrite <- Z.pow_add_r by lia; f_equal; lia).
  rewrite Z.rem_mul_r by (try apply Z.pow_nonzero; lia). lia.
Qed.
(** Shifting a digit of [n] bits into the 64-bit buffer. *)
Lemma shift_in buffer bits n d :
  0 <= bits -> 0 <= n -> bits + n <= 64 -> 0 <= d < 2 ^ n ->
  Z.lor (wrap 64 (Z.shiftl buffer n)) d mod 2 ^ (bits + n) = buffer mod 2 ^ bits * 2 ^ n + d.
Proof.
  intros Hb Hn Hs Hd. unfold wrap. rewrite Z.shiftl_mul_pow2 by done.
  replace (2 ^ 64) with (2 ^ (64 - n) * 2 ^ n) by (rewrite <- Z.pow_add_r by lia; f_equal; lia).
  rewrite Z.mul_mod_distr_r by (apply Z.pow_nonzero; lia). rewrite <- Z.shiftl_mul_pow2 by done.
  rewrite lor_shiftl_add by done. set (high := buffer mod 2 ^ (64 - n)).
  assert (buffer mod 2 ^ bits = high mod 2 ^ bits) as ->.
  { unfold high. rewrite Z.mod_mod_divide; [done|].
    exists (2 ^ (64 - n - bits)). rewrite <- Z.pow_add_r by lia. f_equal. lia. }
  assert (0 < 2 ^ bits) as Hp by (apply Z.pow_pos_nonneg; lia).
  pose proof (Z.mod_pos_bound high (2 ^ bits) Hp) as Hm. pose proof (Z.div_mod high (2 ^ bits) ltac:(lia)) as Hdm.
  symmetry. apply (Z.mod_unique_pos _ _ (high / 2 ^ bits)); rewrite Z.pow_add_r by done; nia.
Qed.

(** ** Encoding *)

Definition is_digit (d : Z) : Prop := 0 <= d < 32.
Lemma land_digit x : is_digit (Z.land x 0x1f).
Proof. change 0x1f with (Z.ones 5). rewrite Z.land_ones by lia. apply Z.mod_pos_bound. lia. Qed.

Lemma take_groups_spec fuel buffer bits ds bits' acc :
  0 <= bits < 5 * Z.of_nat fuel -> take_groups fuel buffer bits = (ds, bits') ->
  0 <= bits' < 5 /\ 5 * Z.of_nat (length ds) + bits' = bits /\ Forall is_digit ds /\
  digits_from 32 acc ds * 2 ^ bits' + buffer mod 2 ^ bits' = acc * 2 ^ bits + buffer mod 2 ^ bits.
Proof.
  revert bits ds acc. induction fuel as [|fuel IH]; intros bits ds acc Hb Ht; [lia|]. simpl in Ht.
  destruct (Z.leb_spec 5 bits).
  - destruct (take_groups fuel buffer (bits - 5)) as [rest b'] eqn:Hr. injection Ht as <- ->.
    edestruct (IH (bits - 5)) as (Hb' & Hl & Hf & Hv); [|exact Hr|]; [lia|].
    split_and!; [lia|lia|simpl; lia|constructor; [apply land_digit|done]|].
    simpl. rewrite Hv. rewrite (mod_split buffer bits 5) by lia. change 0x1f with (Z.ones 5).
    rewrite Z.land_ones, Z.shiftr_div_pow2 by lia.
    replace (2 ^ bits) with (32 * 2 ^ (bits - 5)) by (change 32 with (2 ^ 5); rewrite <- Z.pow_add_r by lia; f_equal; lia).
    lia.
  - injection Ht as <- <-. simpl. split_and!; [lia|lia|lia|constructor|done].
Qed.

Lemma base32_indices_spec data buffer bits acc :
  0 <= bits < 5 ->
  let ds := base32_indices data buffer bits in
  exists pad, 0 <= pad < 5 /\ 5 * Z.of_nat (length ds) = bits + 8 * Z.of_nat (length data) + pad /\ Forall is_digit ds /\
    digits_from 32 acc ds = digits_from 256 (acc * 2 ^ bits + buffer mod 2 ^ bits) (byte_to_Z <$> data) * 2 ^ pad.
Proof.
  revert buffer bits acc. induction data as [|b data IH]; intros buffer bits acc Hb; cbn [base32_indices length fmap list_fmap].
  - destruct (Z.ltb_spec 0 bits).
    + exists (5 - bits). split_and!; [lia|lia|simpl; lia|repeat constructor; apply land_digit|]. simpl.
      pose proof (shift_in buffer bits (5 - bits) 0 ltac:(lia) ltac:(lia) ltac:(lia)) as Hs.
      replace (bits + (5 - bits)) with 5 in Hs by lia. rewrite Z.lor_0_r in Hs.
      change 0x1f with (Z.ones 5). rewrite Z.land_ones by lia. rewrite Hs by (split; [lia|apply Z.pow_pos_nonneg; lia]).
      replace 32 with (2 ^ bits * 2 ^ (5 - bits)) by (rewrite <- Z.pow_add_r by lia; by replace (bits + (5 - bits)) with 5 by lia).
      lia.
    + assert (bits = 0) as -> by lia. exists 0. simpl. rewrite Z.mod_1_r. split_and!; [lia|lia|lia|constructor|lia].
  - set (buffer' := Z.lor _ _). destruct (take_groups 3 buffer' (bits + 8)) as [ds bits'] eqn:Ht.
    eapply (take_groups_spec _ _ _ _ _ acc) in Ht as (Hb' & Hl & Hf & Hv); [|simpl; lia].
    destruct (IH buffer' bits' (digits_from 32 acc ds) Hb') as (pad & Hpad & Hlen & Hfs & Hvs).
    exists pad. split_and!; [lia|lia|rewrite length_app; lia|by apply Forall_app|].
    rewrite digits_from_app, Hvs, Hv. f_equal. simpl. f_equal. unfold buffer'.
    rewrite shift_in by (pose proof (byte_to_Z_range b); lia). rewrite Z.pow_add_r by lia. lia.
Qed.

(** ** Decoding *)

Lemma base32_char_value d :
  is_digit d -> base32_char d <> "="%char /\ base32_value (base32_char d) = Some d /\ upper_char (base32_char d) = base32_char d.
Proof.
  intros Hd. assert (exists n, d = Z.of_nat n /\ (n < 32)%nat) as (n & -> & Hn)
    by (exists (Z.to_nat d); destruct Hd; lia).
  do 32 (destruct n as [|n]; [by vm_compute|]). lia.
Qed.
Lemma uppercase_digits ds :
  Forall is_digit ds ->
  String.list_ascii_of_string (to_uppercase (String.string_of_list_ascii (base32_char <$> ds))) = base32_char <$> ds.
Proof.
  induction 1 as [|d ds Hd _ IH]; [done|].
  rewrite fmap_cons. cbn [String.string_of_list_ascii to_uppercase String.list_ascii_of_string].
  rewrite IH. by destruct (base32_char_value d Hd) as (_ & _ & ->).
Qed.

Lemma decode_chars_spec ds buffer bits acc :
  Forall is_digit ds -> 0 <= bits < 8 ->
  exists bs low r, decode_chars (base32_char <$> ds) buffer bits = Some bs /\
    0 <= r < 8 /\ 8 * Z.of_nat (length bs) + r = bits + 5 * Z.of_nat (length ds) /\ 0 <= low < 2 ^ r /\
    digits_from 256 acc (byte_to_Z <$> bs) * 2 ^ r + low = digits_from 32 (acc * 2 ^ bits + buffer mod 2 ^ bits) ds.
Proof.
  intros Hds. revert buffer bits acc. induction Hds as [|d ds Hd _ IH]; intros buffer bits acc Hb.
  - exists [], (buffer mod 2 ^ bits), bits. simpl. split_and!; try done; try lia; apply Z.mod_pos_bound, Z.pow_pos_nonneg; lia.
  - cbn [fmap list_fmap decode_chars]. destruct (base32_char_value d Hd) as (Hne & Hv & _).
    rewrite decide_False by done. rewrite Hv. cbn [mbind option_bind].
    set (buffer' := Z.lor _ _).
    assert (buffer' mod 2 ^ (bits + 5) = buffer mod 2 ^ bits * 32 + d) as Hbuf by (apply shift_in; unfold is_digit in Hd; lia).
    assert (acc * 2 ^ (bits + 5) + buffer' mod 2 ^ (bits + 5) = (acc * 2 ^ bits + buffer mod 2 ^ bits) * 32 + d) as Hacc
      by (rewrite Hbuf, Z.pow_add_r by lia; lia).
    destruct (Z.leb_spec 8 (bits + 5)).
    + destruct (IH buffer' (bits + 5 - 8) (acc * 256 + byte_to_Z (byte_of_Z (Z.shiftr buffer' (bits + 5 - 8)))))
        as (bs & low & r & -> & Hr & Hl & Hlow & Hval); [lia|].
      eexists _, low, r. split_and!; [done|lia|lia|simpl; lia|lia|lia|]. cbn [fmap list_fmap digits_from foldl] in *.
      fold (digits_from 256) in *. unfold digits_from in *. rewrite Hval. f_equal. rewrite <- Hacc, byte_to_of.
      rewrite (mod_split buffer' (bits + 5) 8) by lia. rewrite Z.shiftr_div_pow2 by lia.
      replace (2 ^ (bits + 5)) with (256 * 2 ^ (bits + 5 - 8))
        by (change 256 with (2 ^ 8); rewrite <- Z.pow_add_r by lia; f_equal; lia).
      change (2 ^ 8) with 256. lia.
    + destruct (IH buffer' (bits + 5) acc) as (bs & low & r & -> & Hr & Hl & Hlow & Hval); [lia|].
      exists bs, low, r. split_and!; [done|lia|lia|simpl; lia|lia|lia|]. rewrite Hval. simpl. by rewrite Hacc.
Qed.

(** Decoding the base32 text of a secret gives the secret back, at every
    length. *)
Theorem base32_roundtrip data : base32_decode (base32_encode data) = Some data.
Proof.
  unfold base32_decode, base32_encode.
  destruct (base32_indices_spec data 0 0 0 ltac:(lia)) as (pad & Hpad & Hl & Hds & Hv). cbn zeta in Hl, Hds, Hv.
  set (ds := base32_indices data 0 0) in *. rewrite uppercase_digits by done.
  destruct (decode_chars_spec ds 0 0 0 Hds ltac:(lia)) as (bs & low & r & -> & Hr & Hlb & Hlow & Hvb).
  change (0 * 2 ^ 0 + 0 mod 2 ^ 0) with 0 in Hv, Hvb. rewrite Hv in Hvb. rewrite !digits_from_bytes in Hvb. f_equal.
  assert (r = pad) as -> by lia. assert (length bs = length data) as Hlen by lia.
  assert (from_be_bytes bs = from_be_bytes data) as Heq by nia.
  by rewrite <- (be_bytes_from_be bs), <- (be_bytes_from_be data), Heq, Hlen.
Qed.

(** ** Algorithms and configuration *)

Inductive OtpAlgorithm := AlgSha1 | AlgSha256 | AlgSha512.
Definition algorithm_name (a : OtpAlgorithm) : string :=
  match a with AlgSha1 => "SHA1" | AlgSha256 => "SHA256" | AlgSha512 => "SHA512" end.
Inductive OtpType := Totp | Hotp.
#[export] Instance OtpType_eq_dec : EqDecision OtpType.
Proof. solve_decision. Defined.

Definition mac_length (a : OtpAlgorithm) : nat := match a with AlgSha1 => 20 | AlgSha256 => 32 | AlgSha512 => 64 end.
(** The crate [hmac] with [sha1] and [sha2]: keys of all sizes. *)
Class OtpHmac := {
  otp_hmac : OtpAlgorithm -> bytes -> bytes -> bytes;
  length_otp_hmac a key msg : length (otp_hmac a key msg) = mac_length a
}.

Record OtpConfig := MkOtpConfig {
  otp_type : OtpType;
  otp_algorithm : OtpAlgorithm;
  digits : Z;
  period : Z;
  otp_counter : Z;
  issuer : string;
  account_name : string
}.
Definition otp_config_default : OtpConfig := MkOtpConfig Totp AlgSha1 6 30 0 "HSM" EmptyString.
Definition totp_config (iss account : string) : OtpConfig :=
  MkOtpConfig Totp AlgSha1 6 30 0 iss account.
Definition hotp_config (iss account : string) (counter : Z) : OtpConfig :=
  MkOtpConfig Hotp AlgSha1 6 30 counter iss account.

Definition hex_digit (n : Z) : ascii := ascii_of_N (Z.to_N (if n <? 10 then 48 + n else 55 + n)).
Definition unreserved (c : ascii) : bool :=
  let n := Z.of_N (N_of_ascii c) in
  ((65 <=? n) && (n <=? 90)) || ((97 <=? n) && (n <=? 122)) || ((48 <=? n) && (n <=? 57)) ||
  bool_decide (c ∈ ["-"; "_"; "."; "~"]%char).
Fixpoint url_encode (s : string) : string :=
  match s with
  | EmptyString => EmptyString
  | String c s' =>
      if unreserved c then String c (url_encode s')
      else
        let n := Z.of_N (N_of_ascii c) in
        String "%" (String (hex_digit (n / 16)) (String (hex_digit (n mod 16)) (url_encode s')))
  end.
Definition to_uri (secret : bytes) (c : OtpConfig) : string :=
  let ty := match otp_type c with Totp => "totp" | Hotp => "hotp" end in
  let label :=
    if bool_decide (issuer c = EmptyString) then url_encode (account_name c)
    else url_encode (issuer c) +:+ ":" +:+ url_encode (account_name c) in
  "otpauth://" +:+ ty +:+ "/" +:+ label +:+ "?secret=" +:+ base32_encode secret +:+ "&digits=" +:+ to_decimal (digits c) +:+
  "&algorithm=" +:+ algorithm_name (otp_algorithm c) +:+
  (if bool_decide (issuer c = EmptyString) then EmptyString else "&issuer=" +:+ url_encode (issuer c)) +:+
  (if decide (otp_type c = Totp) then "&period=" +:+ to_decimal (period c) else "&counter=" +:+ to_decimal (otp_counter c)).

Section otp.
Context {SHA : Sha256} {HEX : Hex} {HMAC : OtpHmac}.

(** ** Codes *)

(** [slice[i]]; [None] is the panic. *)
Definition index_byte (bs : bytes) (i : Z) : option Z := byte_to_Z <$> bs !! Z.to_nat i.
Definition dynamic_truncation (mac : bytes) : option Z :=
  last_byte ← index_byte mac (Z.of_nat (length mac) - 1);
  let offset := Z.land last_byte 0x0f in
  b0 ← index_byte mac offset; b1 ← index_byte mac (offset + 1);
  b2 ← index_byte mac (offset + 2); b3 ← index_byte mac (offset + 3);
  Some (Z.lor (Z.lor (Z.lor (Z.shiftl (Z.land b0 0x7f) 24) (Z.shiftl b1 16)) (Z.shiftl b2 8)) b3).
(** [TotpValidator::generate_otp] and [HotpValidator::generate_at]. *)
Definition generate_otp (secret : bytes) (c : OtpConfig) (counter : Z) : option string :=
  binary ← dynamic_truncation (otp_hmac (otp_algorithm c) secret (be_bytes 8 counter));
  let modulus := wrap 32 (10 ^ digits c) in
  if modulus =? 0 then None else Some (pad_zeros (Z.to_nat (digits c)) (to_decimal (binary mod modulus))).

(** ** TOTP *)

Definition time_step (c : OtpConfig) (timestamp : Z) : option Z :=
  if period c =? 0 then None else Some (timestamp / period c).
Definition totp_generate_at (secret : bytes) (c : OtpConfig) (timestamp : Z) : option string :=
  counter ← time_step c timestamp; generate_otp secret c counter.
(** The candidates of the round [i] of the loop. *)
Definition step_matches (secret : bytes) (c : OtpConfig) (code : string) (current i : Z) : option bool :=
  before ← generate_otp secret c (Z.max 0 (current - i));
  if 0 <? i then
    after ← generate_otp secret c (wrap 64 (current + i));
    Some (bool_decide (before = code) || bool_decide (after = code))
  else Some (bool_decide (before = code)).
Fixpoint window_matches (secret : bytes) (c : OtpConfig) (code : string) (current : Z) (rounds : list Z) (matched : bool)
    : option bool :=
  match rounds with
  | [] => Some matched
  | i :: rounds' =>
      m ← step_matches secret c code current i;
      window_matches secret c code current rounds' (matched || m)
  end.
Definition up_to (n : Z) : list Z := Z.of_nat <$> seq 0 (Z.to_nat (n + 1)).
Definition totp_verify_at (secret : bytes) (c : OtpConfig) (code : string) (timestamp tolerance : Z) : option bool :=
  current ← time_step c timestamp;
  window_matches secret c code current (up_to tolerance) false.

(** ** HOTP *)

Record HotpValidator := MkHotp { hotp_secret : bytes; hotp_cfg : OtpConfig; counter : Z }.
Definition hotp_new (secret : bytes) (c : OtpConfig) : HotpValidator := MkHotp secret c (otp_counter c).
Definition hotp_generate (v : HotpValidator) : option (string * HotpValidator) :=
  code ← generate_otp (hotp_secret v) (hotp_cfg v) (counter v);
  Some (code, MkHotp (hotp_secret v) (hotp_cfg v) (wrap 64 (counter v + 1))).
Fixpoint look_ahead_match (v : HotpValidator) (code : string) (rounds : list Z) (matched : option Z) : option (option Z) :=
  match rounds with
  | [] => Some matched
  | i :: rounds' =>
      candidate ← generate_otp (hotp_secret v) (hotp_cfg v) (wrap 64 (counter v + i));
      look_ahead_match v code rounds' (if bool_decide (candidate = code) then Some i else matched)
  end.
Definition hotp_verify (code : string) (look_ahead : Z) (v : HotpValidator) : option (bool * HotpValidator) :=
  matched ← look_ahead_match v code (up_to look_ahead) None;
  Some (match matched with
        | Some i => (true, MkHotp (hotp_secret v) (hotp_cfg v) (wrap 64 (counter v + i + 1)))
        | None => (false, v)
        end).

(** ** Registrations *)

Record OtpRegistration := MkOtpRegistration {
  or_user_id : string;
  encrypted_secret : bytes;
  or_config : OtpConfig;
  registered_at : Z;
  or_last_used_at : option Z;
  verified : bool;
  recovery_code_hashes : list string
}.
Record OtpManager := MkOtpManager {
  registrations : gmap string OtpRegistration;
  default_config : OtpConfig;
  recovery_code_count : nat
}.
Definition otp_manager_new (iss : string) : OtpManager := MkOtpManager ∅ (totp_config iss EmptyString) 10.
Definition set_registrations (rs : gmap string OtpRegistration) (m : OtpManager) : OtpManager :=
  MkOtpManager rs (default_config m) (recovery_code_count m).
Definition used_at (now : Z) (hashes : list string) (r : OtpRegistration) : OtpRegistration :=
  MkOtpRegistration (or_user_id r) (encrypted_secret r) (or_config r) (registered_at r) (Some now) (verified r) hashes.

(** Six of ten random bytes are used. *)
Definition generate_recovery_code (random : bytes) : string :=
  let hex := hex_encode (take 6 random) in
  String.substring 0 4 hex +:+ "-" +:+ String.substring 4 4 hex +:+ "-" +:+ String.substring 8 4 hex.
Definition hash_recovery_code (code : string) : string :=
  hex_encode (sha256 (as_bytes (remove_char "-" (to_uppercase code)))).

(** [random] holds the bytes of each recovery code. *)
Definition start_registration (account : string) (secret : bytes) (random : list bytes) (m : OtpManager)
    : bytes * string * list string :=
  let c := default_config m in
  let c := MkOtpConfig (otp_type c) (otp_algorithm c) (digits c) (period c) (otp_counter c) (issuer c) account in
  (secret, to_uri secret c, generate_recovery_code <$> random).

Definition complete_registration (user_id : string) (secret : bytes) (c : OtpConfig) (code : string) (recovery_codes : list string)
    (now : Z) (m : OtpManager) : option (result unit AuthError * OtpManager) :=
  ok ← totp_verify_at secret c code now 1;
  Some (if negb ok then (Err (AuthUnauthorized "Invalid OTP code"), m)
        else
          let r := MkOtpRegistration user_id secret c now None true (hash_recovery_code <$> recovery_codes) in
          (Ok tt, set_registrations (<[user_id := r]> (registrations m)) m)).

Definition otp_verify (user_id code : string) (now : Z) (m : OtpManager) : option (result bool AuthError * OtpManager) :=
  match registrations m !! user_id with
  | None => Some (Err (InvalidSession "OTP not registered"), m)
  | Some r =>
      if negb (verified r) then Some (Err (InvalidSession "OTP not verified"), m)
      else
        valid ← totp_verify_at (encrypted_secret r) (or_config r) code now 1;
        Some (Ok valid,
              if (valid : bool)
              then set_registrations (<[user_id := used_at now (recovery_code_hashes r) r]> (registrations m)) m
              else m)
  end.

(** The scan over the hashes is the one of [Recovery]. *)
Definition verify_recovery_code (user_id code : string) (now : Z) : M OtpManager AuthError bool := fun m =>
  match registrations m !! user_id with
  | None => (Err (InvalidSession "OTP not registered"), m)
  | Some r =>
      match last_match (hash_recovery_code code) 0 (recovery_code_hashes r) None with
      | Some pos =>
          (Ok true,
           set_registrations (<[user_id := used_at now (delete pos (recovery_code_hashes r)) r]> (registrations m)) m)
      | None => (Ok false, m)
      end
  end.
Definition otp_registered (user_id : string) (m : OtpManager) : bool := bool_decide (is_Some (registrations m !! user_id)).
Definition remove_registration (user_id : string) (m : OtpManager) : bool * OtpManager :=
  (otp_registered user_id m, set_registrations (delete user_id (registrations m)) m).
Definition recovery_codes_remaining (user_id : string) (m : OtpManager) : option nat :=
  (fun r => length (recovery_code_hashes r)) <$> registrations m !! user_id.
End otp.

(** ** Codes and their use *)

Section correct.
Context {SHA : Sha256} {HEX : Hex} {HMAC : OtpHmac}.

(** ** Codes exist *)

Lemma index_byte_Some bs i : 0 <= i < Z.of_nat (length bs) -> exists b, index_byte bs i = Some b /\ 0 <= b < 256.
Proof.
  intros Hi. unfold index_byte. destruct (lookup_lt_is_Some_2 bs (Z.to_nat i)) as [b Hb]; [lia|].
  rewrite Hb. exists (byte_to_Z b). split; [done|apply byte_to_Z_range].
Qed.
Lemma land_bound a n : 0 <= n -> 0 <= Z.land a (Z.ones n) < 2 ^ n.
Proof. intros. rewrite Z.land_ones by done. apply Z.mod_pos_bound. apply Z.pow_pos_nonneg; lia. Qed.

Lemma dynamic_truncation_total mac :
  (20 <= length mac)%nat -> exists n, dynamic_truncation mac = Some n /\ in_u 31 n.
Proof.
  intros Hl. unfold dynamic_truncation.
  destruct (index_byte_Some mac (Z.of_nat (length mac) - 1)) as (l & -> & _); [lia|]. cbn [mbind option_bind].
  pose proof (land_bound l 4 ltac:(lia)) as Ho. change (Z.ones 4) with 0x0f in Ho. set (o := Z.land l 0x0f) in *.
  change (2 ^ 4) with 16 in Ho.
  destruct (index_byte_Some mac o) as (b0 & -> & H0); [lia|]. destruct (index_byte_Some mac (o + 1)) as (b1 & -> & H1); [lia|].
  destruct (index_byte_Some mac (o + 2)) as (b2 & -> & H2); [lia|].
  destruct (index_byte_Some mac (o + 3)) as (b3 & -> & H3); [lia|]. cbn [mbind option_bind].
  eexists. split; [done|]. pose proof (land_bound b0 7 ltac:(lia)) as Hb. change (Z.ones 7) with 0x7f in Hb.
  set (x := Z.land b0 0x7f) in *.
  replace (Z.shiftl x 24) with (Z.shiftl (Z.shiftl x 8) 16) by (by rewrite Z.shiftl_shiftl).
  rewrite <- Z.shiftl_lor. replace (Z.shiftl (Z.lor (Z.shiftl x 8) b1) 16) with (Z.shiftl (Z.shiftl (Z.lor (Z.shiftl x 8) b1) 8) 8)
    by (by rewrite Z.shiftl_shiftl).
  rewrite <- Z.shiftl_lor, !lor_shiftl_add by lia. unfold in_u. lia.
Qed.
Lemma generate_otp_total secret c n :
  0 <= digits c <= 9 ->
  exists v, 0 <= v < 10 ^ digits c /\ generate_otp secret c n = Some (pad_zeros (Z.to_nat (digits c)) (to_decimal v)).
Proof.
  intros Hd. unfold generate_otp.
  destruct (dynamic_truncation_total (otp_hmac (otp_algorithm c) secret (be_bytes 8 n))) as (b & -> & Hb).
  { rewrite length_otp_hmac. destruct (otp_algorithm c); simpl; lia. }
  cbn [mbind option_bind].
  assert (0 < 10 ^ digits c) as Hp by (apply Z.pow_pos_nonneg; lia).
  assert (10 ^ digits c <= 10 ^ 9) as Hle by (apply Z.pow_le_mono_r; lia).
  rewrite wrap_small by (unfold in_u; lia). destruct (Z.eqb_spec (10 ^ digits c) 0); [lia|].
  eexists. split; [by apply Z.mod_pos_bound|done].
Qed.

(** ** TOTP *)

Lemma elem_of_up_to n i : i ∈ up_to n <-> 0 <= i <= n.
Proof.
  unfold up_to. rewrite list_elem_of_fmap. split.
  - intros (k & -> & Hk). apply elem_of_seq in Hk. lia.
  - intros. exists (Z.to_nat i). split; [lia|]. apply elem_of_seq. lia.
Qed.
Lemma window_matches_spec secret c code current rounds matched :
  (forall i, i ∈ rounds -> is_Some (step_matches secret c code current i)) ->
  exists b, window_matches secret c code current rounds matched = Some b /\
    (b = true <-> matched = true \/ exists i, i ∈ rounds /\ step_matches secret c code current i = Some true).
Proof.
  revert matched. induction rounds as [|i rounds IH]; intros matched Hs; cbn [window_matches].
  - exists matched. split; [done|]. set_solver.
  - destruct (Hs i) as [m Hm]; [left|]. rewrite Hm. cbn [mbind option_bind].
    destruct (IH (matched || m)) as (b & -> & Hb); [set_solver|]. exists b. split; [done|]. rewrite Hb, orb_true_iff.
    setoid_rewrite elem_of_cons. split.
    + intros [[?|?]|(j & ? & ?)]; [by left|right; exists i; subst; by split; [left|]|right; eauto].
    + intros [?|(j & [->|?] & Hj)]; [tauto| |right; eauto]. left. right. congruence.
Qed.
Lemma step_matches_spec secret c code current i :
  0 <= digits c <= 9 -> 0 <= i -> 0 <= current -> in_u 64 (current + i) ->
  exists b, step_matches secret c code current i = Some b /\
    (b = true <-> generate_otp secret c (Z.max 0 (current - i)) = Some code \/ generate_otp secret c (current + i) = Some code).
Proof.
  intros Hd Hi Hc Hu. unfold step_matches. rewrite wrap_small by done.
  destruct (generate_otp_total secret c (Z.max 0 (current - i)) Hd) as (v & _ & Hv). rewrite Hv. cbn [mbind option_bind].
  destruct (Z.ltb_spec 0 i).
  - destruct (generate_otp_total secret c (current + i) Hd) as (w & _ & Hw). rewrite Hw. cbn [mbind option_bind].
    eexists. split; [done|]. rewrite orb_true_iff, !bool_decide_eq_true. naive_solver.
  - assert (i = 0) as -> by lia. rewrite Z.sub_0_r, Z.add_0_r, Z.max_r in * by lia.
    eexists. split; [done|]. rewrite bool_decide_eq_true, Hv. naive_solver.
Qed.

(** A TOTP check answers, and accepts a code exactly when it is the code
    of a time step at most the tolerance away from the current one. *)
Theorem totp_verify_iff secret c code now tolerance :
  0 <= digits c <= 9 -> 0 < period c -> 0 <= now -> 0 <= tolerance -> in_u 64 (now / period c + tolerance) ->
  exists b, totp_verify_at secret c code now tolerance = Some b /\
    (b = true <-> exists step, 0 <= step /\ Z.abs (step - now / period c) <= tolerance /\
                               generate_otp secret c step = Some code).
Proof.
  intros Hd Hp Hn Ht Hu. unfold totp_verify_at, time_step. destruct (Z.eqb_spec (period c) 0); [lia|].
  cbn [mbind option_bind]. assert (0 <= now / period c) as Hc by (apply Z.div_pos; lia).
  set (cur := now / period c) in *.
  assert (forall i, 0 <= i <= tolerance -> in_u 64 (cur + i)) as Hui by (unfold in_u in *; lia).
  destruct (window_matches_spec secret c code cur (up_to tolerance) false) as (b & -> & Hb).
  { intros i Hi%elem_of_up_to. destruct (step_matches_spec secret c code cur i) as (? & -> & _); auto with lia. }
  exists b. split; [done|]. rewrite Hb. split.
  - intros [?|(i & Hi & Hm)]; [done|]. apply elem_of_up_to in Hi.
    destruct (step_matches_spec secret c code cur i) as (x & Hx & Hxt); auto with lia. rewrite Hm in Hx. injection Hx as <-.
    destruct Hxt as [[Ho|Ho] _]; [done| |]; eexists; (split_and!; [| |exact Ho]); lia.
  - intros (step & Hs & Ha & Ho). right. exists (Z.abs (step - cur)). split; [apply elem_of_up_to; lia|].
    destruct (step_matches_spec secret c code cur (Z.abs (step - cur))) as (x & -> & Hxt); auto with lia.
    f_equal. apply Hxt. destruct (decide (step <= cur)).
    + left. by replace (Z.max 0 (cur - Z.abs (step - cur))) with step by lia.
    + right. by replace (cur + Z.abs (step - cur)) with step by lia.
Qed.

(** ** HOTP *)

Lemma look_ahead_spec v code rounds matched :
  0 <= digits (hotp_cfg v) <= 9 -> (forall i, i ∈ rounds -> in_u 64 (counter v + i)) ->
  exists r, look_ahead_match v code rounds matched = Some r /\
    match r with
    | Some i => matched = Some i \/ (i ∈ rounds /\ generate_otp (hotp_secret v) (hotp_cfg v) (counter v + i) = Some code)
    | None => matched = None /\ forall i, i ∈ rounds -> generate_otp (hotp_secret v) (hotp_cfg v) (counter v + i) <> Some code
    end.
Proof.
  intros Hd. revert matched. induction rounds as [|i rounds IH]; intros matched Hu; cbn [look_ahead_match].
  - exists matched. split; [done|]. destruct matched; [by left|]. split; [done|]. intros i Hi. by apply not_elem_of_nil in Hi.
  - rewrite wrap_small by (apply Hu; left).
    destruct (generate_otp_total (hotp_secret v) (hotp_cfg v) (counter v + i) Hd) as (w & _ & Hw). rewrite Hw. cbn [mbind option_bind].
    edestruct IH as (r & -> & Hr); [intros j Hj; apply Hu; by right|]. exists r. split; [done|].
    destruct r as [j|].
    + destruct Hr as [Hr|[Hj Hr]]; [|right; split; [by right|done]]. case_bool_decide; [|by left].
      injection Hr as <-. right. split; [left|congruence].
    + destruct Hr as [Hr Hall]. case_bool_decide; [done|]. split; [done|].
      intros j [->|Hj]%elem_of_cons; [congruence|by apply Hall].
Qed.
Lemma hotp_verify_spec code la v :
  0 <= digits (hotp_cfg v) <= 9 -> 0 <= la -> 0 <= counter v -> in_u 64 (counter v + la + 1) ->
  exists b v', hotp_verify code la v = Some (b, v') /\ hotp_secret v' = hotp_secret v /\ hotp_cfg v' = hotp_cfg v /\
    if (b : bool)
    then counter v < counter v' <= counter v + la + 1 /\
         generate_otp (hotp_secret v) (hotp_cfg v) (counter v' - 1) = Some code
    else v' = v /\ forall n, counter v <= n <= counter v + la -> generate_otp (hotp_secret v) (hotp_cfg v) n <> Some code.
Proof.
  intros Hd Hla Hc Hu. unfold hotp_verify.
  destruct (look_ahead_spec v code (up_to la) None Hd) as (r & -> & Hr).
  { intros i Hi%elem_of_up_to. unfold in_u in *. lia. }
  cbn [mbind option_bind]. destruct r as [i|].
  - destruct Hr as [|[Hi%elem_of_up_to Hg]]; [done|]. do 2 eexists. split; [done|]. simpl.
    rewrite wrap_small by (unfold in_u in *; lia). split_and!; [done|done|lia|lia|].
    by replace (counter v + i + 1 - 1) with (counter v + i) by lia.
  - do 2 eexists. split; [done|]. simpl. split_and!; [done..|]. intros n Hn.
    replace n with (counter v + (n - counter v)) by lia. apply Hr, elem_of_up_to. lia.
Qed.

(** A sequence of checks, with the codes that were accepted and the counters
    they were accepted for. *)
Fixpoint hotp_accepted (tries : list (string * Z)) (v : HotpValidator) : option (list (string * Z)) :=
  match tries with
  | [] => Some []
  | (code, la) :: tries' =>
      '(b, v') ← hotp_verify code la v;
      rest ← hotp_accepted tries' v';
      Some (if (b : bool) then (code, counter v' - 1) :: rest else rest)
  end.
Definition reach (tries : list (string * Z)) : Z := foldr (fun t n => t.2 + 1 + n) 0 tries.

(** C33: over any sequence of HOTP checks, every accepted code is the code of
    its counter, and the counters of the accepted codes strictly increase: no
    counter is used twice.  (Codes have at most 9 digits, and the counter does
    not reach 2^64 in the run.) *)
Theorem hotp_no_replay tries v :
  0 <= digits (hotp_cfg v) <= 9 -> Forall (fun t => 0 <= t.2) tries -> 0 <= counter v -> in_u 64 (counter v + reach tries) ->
  exists acc, hotp_accepted tries v = Some acc /\ StronglySorted Z.lt acc.*2 /\
    Forall (fun cn => counter v <= cn.2 /\ generate_otp (hotp_secret v) (hotp_cfg v) cn.2 = Some cn.1) acc.
Proof.
  intros Hd Hla. revert v Hd. induction Hla as [|[code la] tries Hla Hlas IH]; intros v Hd Hc Hu; cbn [hotp_accepted].
  - exists []. by repeat constructor.
  - simpl in Hla, Hu. assert (0 <= reach tries) as Hr by (clear -Hlas; induction Hlas; simpl; lia).
    destruct (hotp_verify_spec code la v) as (b & v' & -> & Hs & Hcf & Hb); [done|done|done|unfold in_u in *; lia|].
    cbn [mbind option_bind].
    assert (counter v <= counter v' <= counter v + la + 1) as Hv' by (destruct b; [lia|destruct Hb as [-> _]; lia]).
    destruct (IH v') as (acc & -> & Hsorted & Hall); [by rewrite Hcf|lia|unfold in_u in *; lia|].
    rewrite Hs, Hcf in Hall. cbn [mbind option_bind]. eexists. split; [done|].
    assert (Forall (fun cn => counter v <= cn.2 /\ generate_otp (hotp_secret v) (hotp_cfg v) cn.2 = Some cn.1) acc) as Hall'
      by (eapply Forall_impl; [exact Hall|]; simpl; intros ? []; split; [lia|done]).
    destruct b; [|done]. destruct Hb as [Hlt Hg]. split.
    + rewrite fmap_cons. constructor; [done|]. apply Forall_fmap. eapply Forall_impl; [exact Hall|]. simpl. intros ? []. lia.
    + constructor; [|done]. simpl. split; [lia|done].
Qed.

(** ** Registrations *)

(** A TOTP code that was accepted is accepted again in the same time step:
    the step is not recorded. *)
Theorem totp_replayed user code now now' m m' r :
  registrations m !! user = Some r -> now' / period (or_config r) = now / period (or_config r) ->
  otp_verify user code now m = Some (Ok true, m') ->
  exists m'', otp_verify user code now' m' = Some (Ok true, m'').
Proof.
  intros Hr Hn Hv. unfold otp_verify in *. rewrite Hr in Hv. destruct (verified r) eqn:Hver; [|done]. cbn [negb] in Hv.
  destruct (totp_verify_at _ _ _ _ _) as [valid|] eqn:Ht; [|done]. cbn [mbind option_bind] in Hv.
  injection Hv as -> <-. cbn [registrations set_registrations]. rewrite lookup_insert_eq. cbn [verified used_at]. rewrite Hver.
  unfold totp_verify_at, time_step in *. cbn [or_config encrypted_secret used_at]. rewrite Hn, Ht. cbn. by eexists.
Qed.

(** Every recovery code given out at the registration is accepted, once. *)
Theorem recovery_code_once user secret c code codes now m m0 rc now' :
  complete_registration user secret c code codes now m = Some (Ok tt, m0) -> rc ∈ codes ->
  NoDup (hash_recovery_code <$> codes) ->
  exists m1, verify_recovery_code user rc now' m0 = (Ok true, m1) /\
    recovery_codes_remaining user m1 = Some (pred (length codes)) /\
    verify_recovery_code user rc now' m1 = (Ok false, m1).
Proof.
  intros Hc Hrc Hnd. unfold complete_registration in Hc. destruct (totp_verify_at _ _ _ _ _) as [[]|]; [|done..].
  injection Hc as <-. unfold verify_recovery_code, recovery_codes_remaining. simpl. rewrite lookup_insert_eq. simpl.
  set (dig := fun x => sha256 (as_bytes (remove_char "-"%char (to_uppercase x)))).
  change (hash_recovery_code rc) with (hex_encode (dig rc)).
  assert (hash_recovery_code <$> codes = hex_encode <$> (dig <$> codes)) as Hh by (by rewrite <- list_fmap_compose).
  change (list_fmap string string hash_recovery_code codes) with (hash_recovery_code <$> codes).
  rewrite Hh in Hnd |- *. destruct (last_match _ _ _ _) as [p|] eqn:Hm.
  - apply last_match_Some in Hm. eexists. split; [done|]. simpl. rewrite !lookup_insert_eq. simpl.
    rewrite <- list_fmap_delete. split.
    + f_equal. rewrite length_fmap, length_delete; [by rewrite length_fmap, Nat.sub_1_r|by eexists].
    + rewrite last_match_None; [done|]. apply NoDup_delete_not_elem; [|done]. by eapply NoDup_fmap_1.
  - pose proof (last_match_spec (dig rc) (dig <$> codes) 0 None) as Hs. rewrite Hm in Hs. destruct Hs as [_ []].
    by apply list_elem_of_fmap_2.
Qed.
End correct.
