(* ===== verification/AccountWitness.v ===== *)
(** * Account recovery and one-time passwords on examples

    A user with all recovery methods: the theorems of [RecoveryCorrect] at
    concrete requests, and two behaviours of [Recovery]: a time-locked recovery
    that survives its cancellation and an email address whose display panics.
    The theorems of [Otp] at concrete secrets, with a checksum in the
    place of HMAC. *)

From Stdlib Require Import ZArith Lia Strings.Byte Sorted.
From stdpp Require Import base gmap strings list.
From S2P Require Import Prelude External Platform PolicyTypes AccessControl Recovery RecoveryCorrect Otp.
Import Concrete.

Definition at_second (s : Z) : Clock := MkClock (nanos (1000000 + s)) (nanos s).
Definition manager0 : RecoveryManager := recovery_new recovery_config_default.
Definition two_codes : list bytes := [[x01; x02; x03; x04; x05; x06]; [x11; x12; x13; x14; x15; x16]].
Definition setup : recovery_op := OConfigure "alice" (Some "Alice@x.org") (Some "+15551234567") [] true two_codes.
Definition configured : RecoveryManager := run_op setup (at_second 0) manager0.
Definition by_email : recovery_op := OEmail "alice" None None 1234567 [x2a].
Definition emailed : RecoveryManager := run_op by_email (at_second 1) configured.

Lemma recovery_justified_witness :
  let m := run_op (OCode "rec_2a" "234567") (at_second 9) emailed in
  exists code r, requests m !! "rec_2a" = Some r /\ rr_status r = Approved /\
                 code ∈ ["234567"] /\ matches code r.
Proof.
  set (m := run_op (OCode "rec_2a" "234567") (at_second 9) emailed).
  assert (exists r, requests m !! "rec_2a" = Some r /\ rr_status r = Approved /\ rr_method r = Email "alice@x.org") as
    (r & Hr & Hs & Hm) by (eexists; split; [vm_compute; reflexivity|split; reflexivity]).
  destruct (recovery_justified [CodeShown "rec_2a" "234567"] (unix_secs (at_second 9)) m "rec_2a" r) as [Hj _].
  - apply (run_step [] (unix_secs (at_second 1)) emailed (OCode "rec_2a" "234567")); [|by vm_compute|done].
    apply (run_step [] (unix_secs (at_second 0)) configured by_email); [|by vm_compute|done].
    apply (run_step [] 0 manager0 setup); [apply run_start|by vm_compute|done].
  - exact Hr.
  - by left.
  - unfold justified in Hj. rewrite Hm in Hj. destruct Hj as (code & Hin & Hc).
    apply list_elem_of_singleton in Hin. injection Hin as ->.
    exists "234567", r. split_and!; [exact Hr|exact Hs|by apply list_elem_of_singleton|exact Hc].
Defined.

Lemma email_recovery_without_code_witness :
  (check_time_lock "rec_2a" (at_second 9) emailed).1 = Ok true.
Proof.
  apply (email_recovery_without_code "alice" None None 1234567 [x2a] (at_second 1) configured "rec_2a" "234567" emailed
           (at_second 9)); [by vm_compute|by vm_compute|by vm_compute].
Defined.

Definition guesses : list (string * Clock) :=
  (fun i => ("00000" +:+ to_decimal (Z.of_nat i), at_second (2 + Z.of_nat i))) <$> seq 0 5.
Lemma codes_exhausted_witness :
  exists e, (verify_code "rec_2a" "234567" (at_second 20) (submit_codes "rec_2a" guesses emailed)).1 = Err e.
Proof.
  assert (exists r, requests emailed !! "rec_2a" = Some r) as [r Hr] by (vm_compute; by eexists).
  pose proof Hr as Hv. vm_compute in Hv. injection Hv as <-.
  refine (proj1 (codes_exhausted "rec_2a" guesses emailed _ _ "234567" (at_second 20) Hr eq_refl _ eq_refl eq_refl eq_refl _)).
  - unfold in_u. cbn [rr_max_attempts]. lia.
  - repeat constructor; try (intros (h & Hh & Hc); cbn in Hh; injection Hh as <-; by vm_compute in Hc).
Defined.

Lemma backup_code_once_witness :
  let m1 := run_op (OBackup "alice" "0102-0304-0506") (at_second 1) configured in
  backup_codes_remaining "alice" m1 = Some 1%nat /\
  verify_backup_code "alice" "0102-0304-0506" m1 = (Err (AuthUnauthorized "Invalid backup code"), m1).
Proof.
  intros m1. change 1%nat with (pred (length (recovery_code 12 <$> two_codes))).
  apply (backup_code_once "alice" (Some "Alice@x.org") (Some "+15551234567") [] true two_codes (at_second 0) manager0
           (recovery_code 12 <$> two_codes) configured "0102-0304-0506" m1); [reflexivity| |by vm_compute].
  apply (bool_decide_unpack _). by vm_compute.
Defined.

(** The user cancels a time-locked recovery; a day later it completes. *)
Definition locked_then_cancelled : RecoveryManager :=
  run_op (OCancel "rec_2b") (at_second 60) (run_op (OTimeLocked "alice" None None [x2b]) (at_second 1) configured).
Example cancelled_recovery_completes_example :
  rr_status <$> requests locked_then_cancelled !! "rec_2b" = Some Denied /\
  (complete_recovery "rec_2b" (run_op (OCheckTimeLock "rec_2b") (at_second 86401) locked_then_cancelled)).1 = Ok tt.
Proof. split; by vm_compute. Qed.

(** An address without a local part makes the list of methods panic. *)
Example empty_local_part_panics :
  available_methods "bob" (run_op (OConfigure "bob" (Some "@x.org") None [] false []) (at_second 0) manager0) = None.
Proof. by vm_compute. Qed.

Definition toy_mac (a : OtpAlgorithm) (key msg : bytes) : bytes :=
  take (mac_length a) (checksum (key ++ msg) ++ checksum (msg ++ key)).
#[export] Program Instance toy_otp_hmac : OtpHmac := {| otp_hmac := toy_mac |}.
Next Obligation. by intros []. Qed.

Definition seed : bytes := [x10; x20; x30; x40; x50].
Definition cfg : OtpConfig := totp_config "HSM" "alice".
(** The code of the step 33, which covers the seconds 990 to 1019. *)
Definition code33 : string := default EmptyString (generate_otp seed cfg 33).

Lemma totp_verify_iff_witness :
  exists b, totp_verify_at seed cfg code33 1030 1 = Some b /\
    (b = true <-> exists step, 0 <= step /\ Z.abs (step - 34) <= 1 /\ generate_otp seed cfg step = Some code33).
Proof. apply (totp_verify_iff seed cfg code33 1030 1); [split; by vm_compute|reflexivity|by vm_compute..|]. split; by vm_compute. Defined.

Definition validator : HotpValidator := hotp_new seed (hotp_config "HSM" "alice" 33).
(** The code of the counter 33, again, and the one of 35. *)
Definition hotp_tries : list (string * Z) := [(code33, 3); (code33, 3); (default EmptyString (generate_otp seed cfg 35), 3)].

Lemma hotp_no_replay_witness :
  ((fun acc => acc.*2) <$> hotp_accepted hotp_tries validator) = Some [33; 35] /\
  exists acc, hotp_accepted hotp_tries validator = Some acc /\ StronglySorted Z.lt acc.*2.
Proof.
  split; [by vm_compute|].
  destruct (hotp_no_replay hotp_tries validator) as (acc & Ha & Hs & _); [split; by vm_compute| |by vm_compute|split; by vm_compute|].
  - repeat constructor; by vm_compute.
  - exists acc. split; [exact Ha|exact Hs].
Defined.

Definition registered : OtpManager :=
  match complete_registration "alice" seed cfg code33 ["0a0b-0c0d-0e0f"; "1a1b-1c1d-1e1f"] 1000 (otp_manager_new "HSM") with
  | Some (_, m) => m
  | None => otp_manager_new "HSM"
  end.
(** The code of the registration is accepted at two logins of the same
    step. *)
Example login_twice :
  match otp_verify "alice" code33 1001 registered with
  | Some (Ok true, m1) => fst <$> otp_verify "alice" code33 1015 m1
  | _ => None
  end = Some (Ok true).
Proof. by vm_compute. Qed.

Example recovery_code_example :
  match verify_recovery_code "alice" "0a0b-0c0d-0e0f" 2000 registered with
  | (Ok true, m1) => (verify_recovery_code "alice" "0A0B0C0D0E0F" 2000 m1).1
  | (r, _) => r
  end = Ok false.
Proof. by vm_compute. Qed.
