(* ===== verification/AsyncAudit.v ===== *)
(** * The asynchronous audit logger

    [crates/audit/src/async_logger.rs]: clients send their events to one
    writer task, which processes them in batches and answers each of them.
    [core] holds the hash chain, the Merkle tree and the storage, which have
    the types of the synchronous logger, and the part of the configuration
    the two have in common.  The queue is first-in first-out and only the
    writer touches [core], so the events of concurrent calls are processed
    one after the other, in the order in which they were sent; a call of
    [log] is the processing of its event followed by that of nothing else.
    [sender_open] is whether [shutdown] has not been called.

    The theorem states that a batch has the effect and the answers of calls
    of the synchronous logger in the same order, followed by a flush. *)

From Stdlib Require Import ZArith Lia Strings.Byte.
From stdpp Require Import base gmap strings list.
From S2P Require Import Prelude External AuditEvent HashChain MerkleTree.
From S2P Require Import AuditStorage AuditLogger.

Inductive AsyncAuditError :=
| AsyncStorage (e : StorageError)
| AsyncEventBuild (reason : string)
| AsyncDisabled
| QueueFull
| Shutdown
| ChannelSend
| AsyncCheckpoint (e : CheckpointError).

Record AsyncAuditConfig := MkAsyncConfig {
  base_config : AuditConfig;
  channel_capacity : Z;
  batch_size : Z;
  batch_timeout_ms : Z
}.
Definition AsyncAuditConfig_default : AsyncAuditConfig := MkAsyncConfig AuditConfig_default 10000 100 100.

Record AsyncAuditLogger (Value : Type) := MkAsync {
  async_config : AsyncAuditConfig;
  sender_open : bool;
  core : AuditLogger Value
}.
Arguments MkAsync {Value}.
Arguments async_config {Value}.
Arguments sender_open {Value}.
Arguments core {Value}.

Section async.
Context {Value : Type} {HEX : Hex} {SHA : Sha256} {CHRONO : Chrono} {HMAC : Hmac}.
Context {ST : Serde EventType} {SR : Serde OperationResult} {SVal : SerdeCodec Value}.
Context {SEv : SerdeCodec (AuditEvent Value)} {SCp : Serde Checkpoint}.
Abbreviation AuditLogger := (AuditLogger Value).
Abbreviation AsyncAuditLogger := (AsyncAuditLogger Value).

(** Operations of the parts with the errors of the asynchronous logger. *)
Definition async_storage {A} (c : M AuditStorage StorageError A) : M AuditLogger AsyncAuditError A := fun l =>
  let '(r, s) := c (storage l) in
  (rmap_err AsyncStorage r, MkAuditLogger (config l) (hash_chain l) (merkle_tree l) s).
Definition async_append (event : AuditEvent Value) : M AuditLogger AsyncAuditError string := fun l =>
  let '(r, c) := append event (hash_chain l) in
  (rmap_err (fun _ => AsyncEventBuild "Hash chain append failed") r,
   MkAuditLogger (config l) c (merkle_tree l) (storage l)).
Definition async_tree_update (hash : string) : M AuditLogger AsyncAuditError unit :=
  modify (fun l =>
    MkAuditLogger (config l) (hash_chain l) (MerkleTree.update hash (merkle_tree l)) (storage l)).
Definition async_get {A} (f : AuditLogger -> A) : M AuditLogger AsyncAuditError A := fun l => (Ok (f l), l).

Definition process_single_event (now : Z) (b : AuditEventBuilder Value) : M AuditLogger AsyncAuditError Z :=
  let! sequence := async_get (fun l => wrap 64 (current_sequence (hash_chain l) + 1)) in
  let! prev := async_get (fun l => last_hash (hash_chain l)) in
  let! event :=
    lift (rmap_err AsyncEventBuild
      (build now (b_set_timestamp now (b_set_prev_hash prev (b_set_sequence sequence b))))) in
  async_storage (write_event event) ;!
  let! hash := async_append event in
  async_tree_update hash ;!
  let! merkle_root := async_get (fun l => root_opt (merkle_tree l)) in
  let! key := async_get (fun l => checkpoint_key (config l)) in
  match merkle_root with
  | Some root => async_storage (write_checkpoint (Checkpoint_new sequence root key))
  | None => ret tt
  end ;!
  ret sequence.

(** The answers to the requests of a batch, and the state after it.  [now]
    comes with each request; the result of the final flush is dropped. *)
Fixpoint process_requests (batch : list (Z * AuditEventBuilder Value)) (l : AuditLogger)
  : list (result Z AsyncAuditError) * AuditLogger :=
  match batch with
  | [] => ([], l)
  | (now, b) :: rest =>
      let '(r, l1) := process_single_event now b l in
      let '(rs, l2) := process_requests rest l1 in
      (r :: rs, l2)
  end.
Definition process_batch (batch : list (Z * AuditEventBuilder Value)) (l : AuditLogger)
  : list (result Z AsyncAuditError) * AuditLogger :=
  let '(rs, l1) := process_requests batch l in
  (rs, (async_storage flush l1).2).

Definition async_log (now : Z) (b : AuditEventBuilder Value) : M AsyncAuditLogger AsyncAuditError Z := fun a =>
  if negb (enabled (base_config (async_config a))) then (Err AsyncDisabled, a)
  else if negb (sender_open a) then (Err Shutdown, a)
  else
    let '(rs, l) := process_batch [(now, b)] (core a) in
    (default (Err Shutdown) (head rs), MkAsync (async_config a) (sender_open a) l).

Definition async_log_success (now : Z) (event_type : EventType) (operation namespace client_id : string)
    (key_id : option string) : M AsyncAuditLogger AsyncAuditError Z :=
  async_log now (with_key_id key_id (b_success (b_set_client_id client_id
    (b_set_namespace namespace (b_set_operation operation (b_set_event_type event_type builder)))))).
Definition async_log_failure (now : Z) (event_type : EventType) (operation namespace client_id : string)
    (key_id : option string) (reason : string) : M AsyncAuditLogger AsyncAuditError Z :=
  async_log now (with_key_id key_id (b_failure reason (b_set_client_id client_id
    (b_set_namespace namespace (b_set_operation operation (b_set_event_type event_type builder)))))).

Definition async_verify_integrity (a : AsyncAuditLogger) : result unit AsyncAuditError :=
  rmap_err (fun _ => AsyncEventBuild "Verification failed") (verify_all (hash_chain (core a))).
Definition async_get_merkle_root (a : AsyncAuditLogger) : result string AsyncAuditError :=
  rmap_err (fun _ => AsyncEventBuild "Merkle tree is empty") (get_root (merkle_tree (core a))).
Definition async_get_event (sequence : Z) (a : AsyncAuditLogger) : result (AuditEvent Value) AsyncAuditError :=
  rmap_err (fun _ => AsyncEventBuild "Event not found") (HashChain.get_event sequence (hash_chain (core a))).
Definition async_get_events_range (from to : Z) (a : AsyncAuditLogger)
  : result (list (AuditEvent Value)) AsyncAuditError :=
  rmap_err (fun _ => AsyncEventBuild "Invalid range") (get_events_range from to (hash_chain (core a))).
Definition async_current_sequence (a : AsyncAuditLogger) : Z := current_sequence (hash_chain (core a)).
Definition async_shutdown (a : AsyncAuditLogger) : AsyncAuditLogger :=
  MkAsync (async_config a) false (async_storage flush (core a)).2.

(** ** Batches and the synchronous logger *)

(** The error a client of the asynchronous logger sees. *)
Definition async_error (e : AuditError) : AsyncAuditError :=
  match e with
  | AHashChain _ => AsyncEventBuild "Hash chain append failed"
  | AStorage e => AsyncStorage e
  | AEventBuild reason => AsyncEventBuild reason
  | ADisabled => AsyncDisabled
  | ACheckpoint e => AsyncCheckpoint e
  end.

(** The same computation up to the names of its errors. *)
Definition agree {A} (c : M AuditLogger AuditError A) (c' : M AuditLogger AsyncAuditError A) : Prop :=
  forall l, c' l = (rmap_err async_error (c l).1, (c l).2).

Lemma agree_bind {A B} (c : M AuditLogger AuditError A) c' (k : A -> M AuditLogger AuditError B) k' :
  agree c c' -> (forall a, agree (k a) (k' a)) -> agree (bind c k) (bind c' k').
Proof.
  intros Hc Hk l. unfold bind. rewrite Hc. destruct (c l) as [[a|e] l1]; cbn; [apply Hk|done].
Qed.

Lemma agree_storage {A} (c : M AuditStorage StorageError A) : agree (on_storage c) (async_storage c).
Proof. intros l. unfold on_storage, async_storage. by destruct (c (storage l)) as [[a|e] s]. Qed.

Lemma agree_append e : agree (on_chain (append e)) (async_append e).
Proof. intros l. unfold on_chain, async_append. by destruct (append e (hash_chain l)) as [[a|err] c]. Qed.

Lemma agree_get {A} (f : AuditLogger -> A) : agree (AuditLogger.get f) (async_get f).
Proof. done. Qed.

Lemma agree_ret {A} (a : A) : agree (ret a) (ret a).
Proof. done. Qed.

Lemma agree_build {A} (r : result A string) : agree (lift (rmap_err AEventBuild r)) (lift (rmap_err AsyncEventBuild r)).
Proof. by destruct r. Qed.

Lemma process_single_log now b l :
  enabled (config l) = true ->
  process_single_event now b l = (rmap_err async_error (log now b l).1, (log now b l).2).
Proof.
  intros He.
  assert (agree (log now b) (let! e := async_get (fun l => enabled (config l)) in
    if negb e then throw AsyncDisabled else process_single_event now b)) as H.
  - unfold log, process_single_event. apply agree_bind; [apply agree_get|intros e].
    destruct (negb e); [done|].
    repeat (apply agree_bind; [first [apply agree_get | apply agree_storage | apply agree_append
      | apply agree_build | done | case_match; [apply agree_storage|apply agree_ret]]|intros ?]).
    apply agree_ret.
  - specialize (H l). unfold async_get, bind at 1 in H. by rewrite He in H.
Qed.

Lemma log_config now b l : config (log now b l).2 = config l.
Proof.
  assert (forall A (c : M AuditStorage StorageError A) (l : AuditLogger),
    config (on_storage c l).2 = config l) as Hst.
  { intros A c l0. unfold on_storage. by destruct (c (storage l0)). }
  unfold log, bind. cbn. destruct (negb _); [done|]. unfold lift. destruct (rmap_err _ _) as [e|]; [|done].
  pose proof (Hst _ (write_event e) l) as H1. destruct (on_storage (write_event e) l) as [[[]|] l1]; [|done].
  unfold on_chain. destruct (append e (hash_chain l1)) as [[h|] c]; [|done]. cbn.
  destruct (root_opt _) as [root|]; cbn in *; [|done]. 
  match goal with |- context [on_storage ?c ?l2] => pose proof (Hst _ c l2) as H2;
    destruct (on_storage c l2) as [[[]|] l3] end; cbn in *; by rewrite H2, H1.
Qed.

(** The answers and the state of calls of the synchronous logger, one after
    the other. *)
Fixpoint log_all (batch : list (Z * AuditEventBuilder Value)) (l : AuditLogger)
  : list (result Z AuditError) * AuditLogger :=
  match batch with
  | [] => ([], l)
  | (now, b) :: rest =>
      let '(r, l1) := log now b l in
      let '(rs, l2) := log_all rest l1 in
      (r :: rs, l2)
  end.

(** The asynchronous logger is the synchronous one.  Processing a batch gives
    every client the answer, up to the name of the error type, that calls of
    the synchronous [log] in the order of the batch give, and leaves the state
    of those calls followed by a flush whose result is dropped; in particular
    the answers are given before the flush. *)
Theorem batch_is_sequential (batch : list (Z * AuditEventBuilder Value)) (l : AuditLogger) :
  enabled (config l) = true ->
  process_batch batch l =
    (rmap_err async_error <$> (log_all batch l).1, (logger_flush (log_all batch l).2).2).
Proof.
  intros He. unfold process_batch.
  enough (process_requests batch l = (rmap_err async_error <$> (log_all batch l).1, (log_all batch l).2)) as ->.
  { unfold logger_flush. by rewrite (agree_storage flush). }
  revert l He. induction batch as [|[now b] batch IH]; intros l He; [done|]. cbn [process_requests log_all].
  rewrite process_single_log by done. pose proof (log_config now b l) as Hc.
  destruct (log now b l) as [r l1]. cbn in *. rewrite IH by (by rewrite Hc).
  by destruct (log_all batch l1).
Qed.
End async.
