(* ===== verification/Signing.v ===== *)
(** * Signature engines and the use of keys

    [crates/crypto-engine/src/asymmetric]: Ed25519, ECDSA over P-256 and
    P-384, and RSA with PKCS#1 v1.5 padding.  The arithmetic is that of the
    packages [ed25519_dalek], [p256], [p384] and [rsa], the parameter
    [SignatureSchemes], whose laws state that a signature verifies under the
    public key that [PublicKeys] derives; modelled is what the engines build
    around them.  The blinding of RSA does not show in the signature.

    The second half holds what the interfaces need of the key manager: looking
    up a key for an operation, counting the operation, and the relation of the
    two halves of a key pair. *)

From Stdlib Require Import ZArith Lia Strings.Byte.
From stdpp Require Import base gmap strings list.
From S2P Require Import Prelude External Platform AesGcm KeyTypes KeyManager.

Inductive curve := P256 | P384.
Definition scalar_size (c : curve) : nat := match c with P256 => 32 | P384 => 48 end.
Definition ec_public `{PublicKeys} (c : curve) : bytes -> result bytes string :=
  match c with P256 => p256_public | P384 => p384_public end.

Class SignatureSchemes `{PublicKeys} := {
  EdVk : Type;
  ed_sign : bytes -> bytes -> bytes;
  ed_from_bytes : bytes -> result EdVk string;
  ed_verify : EdVk -> bytes -> bytes -> bool;
  EcSk : curve -> Type;
  EcVk : curve -> Type;
  EcSig : curve -> Type;
  ec_from_bytes c : bytes -> result (EcSk c) string;
  ec_sign c : EcSk c -> bytes -> bytes;
  ec_from_sec1_bytes c : bytes -> result (EcVk c) string;
  ec_from_slice c : bytes -> result (EcSig c) string;
  ec_verify c : EcVk c -> bytes -> EcSig c -> bool;
  RsaSk : Type;
  RsaVk : Type;
  RsaSig : Type;
  rsa_from_pkcs8_der : bytes -> result RsaSk string;
  rsa_sign : RsaSk -> bytes -> bytes;
  rsa_from_pkcs1_der : bytes -> result RsaVk string;
  rsa_try_from : bytes -> result RsaSig string;
  rsa_verify : RsaVk -> bytes -> RsaSig -> bool;
  ed_correct sk m : length sk = 32%nat ->
    length (ed_sign sk m) = 64%nat /\ length (ed25519_public sk) = 32%nat /\
    exists vk, ed_from_bytes (ed25519_public sk) = Ok vk /\ ed_verify vk m (ed_sign sk m) = true;
  ec_correct c b pk sk m : length b = scalar_size c ->
    ec_public c b = Ok pk -> ec_from_bytes c b = Ok sk ->
    length (ec_sign c sk m) = (2 * scalar_size c)%nat /\
    exists vk s, ec_from_sec1_bytes c pk = Ok vk /\ ec_from_slice c (ec_sign c sk m) = Ok s /\
      ec_verify c vk m s = true;
  rsa_correct b n pk sk m : rsa_parse b = Ok (n, Ok pk) -> rsa_from_pkcs8_der b = Ok sk ->
    exists vk s, rsa_from_pkcs1_der pk = Ok vk /\ rsa_try_from (rsa_sign sk m) = Ok s /\
      rsa_verify vk m s = true
}.

Section engines.
Context `{PK : PublicKeys} {SCH : SignatureSchemes}.

(** A fixed-size array from a slice. *)
Definition sized (n : nat) (err : nat -> nat -> CryptoError) (b : bytes) : result bytes CryptoError :=
  if (length b =? n)%nat then Ok b else Err (err n (length b)).
(** [verify(..).map(|_| true).map_err(..)] *)
Definition verified (ok : bool) : result bool CryptoError :=
  if ok then Ok true else Err SignatureVerificationFailed.

Definition ed25519_sign (key : KeyMaterial) (message : bytes) : result bytes CryptoError :=
  let? sk := sized 32 InvalidKeySize (key_bytes key) in
  Ok (ed_sign sk message).
Definition ed25519_verify (public_key message signature : bytes) : result bool CryptoError :=
  let? pk := sized 32 InvalidKeySize public_key in
  let? sig := sized 64 InvalidSignatureSize signature in
  let? vk := rmap_err InvalidKey (ed_from_bytes pk) in
  verified (ed_verify vk message sig).

Definition ecdsa_sign (c : curve) (key : KeyMaterial) (message : bytes) : result bytes CryptoError :=
  let? b := sized (scalar_size c) InvalidKeySize (key_bytes key) in
  let? sk := rmap_err InvalidKey (ec_from_bytes c b) in
  Ok (ec_sign c sk message).
Definition ecdsa_verify (c : curve) (public_key message signature : bytes) : result bool CryptoError :=
  let? sig := sized (2 * scalar_size c) InvalidSignatureSize signature in
  let? vk := rmap_err InvalidKey (ec_from_sec1_bytes c public_key) in
  let? s := rmap_err InvalidKey (ec_from_slice c sig) in
  verified (ec_verify c vk message s).
Definition sign_p256 : KeyMaterial -> bytes -> result bytes CryptoError := ecdsa_sign P256.
Definition verify_p256 : bytes -> bytes -> bytes -> result bool CryptoError := ecdsa_verify P256.
Definition sign_p384 : KeyMaterial -> bytes -> result bytes CryptoError := ecdsa_sign P384.
Definition verify_p384 : bytes -> bytes -> bytes -> result bool CryptoError := ecdsa_verify P384.

Definition sign_pkcs1v15_sha256 (key : KeyMaterial) (message : bytes) : result bytes CryptoError :=
  let? sk := rmap_err InvalidKey (rsa_from_pkcs8_der (key_bytes key)) in
  Ok (rsa_sign sk message).
Definition verify_pkcs1v15_sha256 (public_key message signature : bytes) : result bool CryptoError :=
  let? vk := rmap_err InvalidKey (rsa_from_pkcs1_der public_key) in
  let? s := rmap_err InvalidKey (rsa_try_from signature) in
  verified (rsa_verify vk message s).

(** Batches, a thread for each message. *)
Definition ed25519_batch_sign (key : KeyMaterial) (messages : list bytes) : result (list bytes) CryptoError :=
  let? sk := sized 32 InvalidKeySize (key_bytes key) in
  Ok (ed_sign sk <$> messages).
Definition ed25519_batch_verify (public_keys messages signatures : list bytes) : result (list bool) CryptoError :=
  if negb (length public_keys =? length messages)%nat || negb (length messages =? length signatures)%nat
  then Err (Internal "Batch verify requires equal length arrays")
  else Ok (zip_with (fun '(pk, msg) sig => match ed25519_verify pk msg sig with Ok b => b | Err _ => false end)
             (zip public_keys messages) signatures).

Lemma sized_Ok n err b b' : sized n err b = Ok b' <-> b' = b /\ length b = n.
Proof.
  unfold sized. destruct (Nat.eqb_spec (length b) n); split; [by intros [= <-]|by intros [-> _]|done|].
  by intros [_ ?].
Qed.

Lemma ed25519_sign_verify sk pk m sig :
  import_public Ed25519 (key_bytes sk) = Ok pk -> ed25519_sign sk m = Ok sig -> ed25519_verify pk m sig = Ok true.
Proof.
  cbn. intros (u & Hlen & [= <-])%rbind_Ok. unfold check_length in Hlen.
  destruct (Z.eqb_spec (Z.of_nat (length (key_bytes sk))) 32) as [Hl|]; [|done].
  intros (b & [-> _]%sized_Ok & [= <-])%rbind_Ok.
  destruct (ed_correct (key_bytes sk) m ltac:(lia)) as (H1 & H2 & vk & H3 & H4).
  unfold ed25519_verify, sized. rewrite H1, H2. cbn. rewrite H3. cbn. by rewrite H4.
Qed.

Lemma ecdsa_sign_verify c sk pk m sig :
  ec_public c (key_bytes sk) = Ok pk -> ecdsa_sign c sk m = Ok sig -> ecdsa_verify c pk m sig = Ok true.
Proof.
  intros Hpk (b & [-> Hl]%sized_Ok & (k & Hk%rmap_err_Ok & [= <-])%rbind_Ok)%rbind_Ok.
  destruct (ec_correct c _ _ _ m Hl Hpk Hk) as (H1 & vk & s & H2 & H3 & H4).
  unfold ecdsa_verify, sized. rewrite H1, Nat.eqb_refl. cbn [rbind]. rewrite H2, H3. cbn. by rewrite H4.
Qed.

Lemma rsa_sign_verify sk n pk m sig :
  rsa_parse (key_bytes sk) = Ok (n, Ok pk) -> sign_pkcs1v15_sha256 sk m = Ok sig ->
  verify_pkcs1v15_sha256 pk m sig = Ok true.
Proof.
  intros Hpk (k & Hk%rmap_err_Ok & [= <-])%rbind_Ok.
  destruct (rsa_correct _ _ _ _ m Hpk Hk) as (vk & s & H2 & H3 & H4).
  unfold verify_pkcs1v15_sha256. rewrite H2. cbn. rewrite H3. cbn. by rewrite H4.
Qed.

End engines.

(** ** Using keys of the key manager *)

From S2P Require Import KeyStore.

Section use.
Context {Cache : Type} {LRU : Lru CompositeKey Key Cache}.
Context {S : Type} {SB : StorageBackend S} {PC : Postcard Key}.
Context {SHA : Sha256} {HEX : Hex} {PK : PublicKeys}.
Abbreviation manager := (@DefaultKeyManager Cache S).
Implicit Types m : manager.

(** ** Looking up and counting *)

Definition usable (now : DateTime) (key : Key) : bool :=
  can_use now key && negb (has_reached_max_operations key).

Lemma get_key_usable ns k now m key :
  coherent (store m) -> keys (store m) !! (ns, k) = Some key -> usable now key = true ->
  exists m', get_key k ns now m = (Ok key, m') /\ coherent (store m') /\ keys (store m') = keys (store m).
Proof.
  intros Hco Hk [Hu Hm%negb_true_iff]%andb_true_iff. unfold get_key, bind, on_store.
  destruct (get_spec ns k (store m) Hco) as (Hr & Hks & Hco'). rewrite Hk in Hr. cbn in Hr.
  destruct (get ns k (store m)) as [res st]. cbn in *. subst res. rewrite Hu, Hm. by eexists.
Qed.

Lemma get_key_Ok ns k now m key m' :
  coherent (store m) -> get_key k ns now m = (Ok key, m') ->
  keys (store m) !! (ns, k) = Some key /\ usable now key = true /\ coherent (store m') /\
  keys (store m') = keys (store m).
Proof.
  intros Hco (key' & m1 & H1 & H2)%bind_inv_Ok. unfold on_store in H1.
  destruct (get_spec ns k (store m) Hco) as (Hr & Hks & Hco').
  destruct (get ns k (store m)) as [res st]. cbn in *. injection H1 as -> <-.
  destruct (can_use now key') eqn:Hu; [|done]. destruct (has_reached_max_operations key') eqn:Hm; [done|].
  injection H2 as <- <-. cbn. destruct (keys (store m) !! (ns, k)); [|done]. cbn in Hr. injection Hr as ->.
  unfold usable. by rewrite Hu, Hm.
Qed.

Lemma increment_store ns k m key :
  coherent (store m) -> keys (store m) !! (ns, k) = Some key ->
  let m' := (manager_increment_operations k ns m).2 in
  coherent (store m') /\ keys (store m') !! (ns, k) = Some (increment_operations key).
Proof.
  intros Hco Hk. unfold manager_increment_operations, on_store.
  destruct (exec_spec (OpUpdate ns k increment_operations) (store m) Hco) as (_ & H2 & H3); [by intros k0|].
  cbn in H2, H3. destruct (update ns k increment_operations (store m)) as [res st]. cbn in *.
  rewrite Hk in H2. cbn in *. by rewrite H2, lookup_insert_eq.
Qed.

(** The public part of the key is derived from the private part, as
    [import_key] does it and as generation does it. *)
Definition paired (key : Key) : Prop :=
  exists sk pk, private_material key = Some sk /\ public_material key = Some pk /\
    import_public (key_type key) (key_bytes sk) = Ok pk.
End use.
