(* ===== verification/RestApi.v ===== *)
(** * The REST interface

    [crates/rest-api/src/handlers.rs], [middleware.rs], [types.rs] and
    [error.rs]: authentication of a request and the handlers for keys,
    cryptographic operations, the audit log and namespaces, over the session
    manager, the three layers of [AccessControl], the key manager and the
    asynchronous audit logger.  A handler is one computation of the model; the
    calls it makes are in the order of the source.

    Arguments that stand for effects: [now], the clock; [i] and [generated],
    the id and the outcome of key pair generation; [fill_key] and [fill], the
    random bytes of the encryption.  Parameters: [Base64], [Uuid] (the parser
    of key ids), [Rfc3339] (the parser of instants) and [Display], the texts
    of errors, which only end up in messages.  The routes for webhooks are in
    [Webhooks]; rate limiting, the health checks and the development login,
    which release builds do not contain, are left out. *)

From Stdlib Require Import ZArith Lia Strings.Byte.
From stdpp Require Import base gmap strings list.
From S2P Require Import Prelude External Platform AesGcm KeyTypes KeyStore KeyManager Signing.
From S2P Require Import AuditEvent HashChain AuditLogger AsyncAudit AccessControl.
From S2P Require Import Sessions SessionManager.

#[local] Abbreviation list := Datatypes.list.

Class Base64 := {
  b64_encode : bytes -> string;
  b64_decode : string -> result bytes string;
  b64_decode_encode b : b64_decode (b64_encode b) = Ok b
}.
Class Rfc3339 := { parse_from_rfc3339 : string -> option DateTime }.

(** ** Errors ([error.rs]) *)

Inductive ApiError :=
| Unauthorized (msg : string) | Forbidden (msg : string) | NotFound (msg : string)
| BadRequest (msg : string) | Conflict (msg : string) | ApiRateLimitExceeded
| ApiInternal (msg : string) | ServiceUnavailable | ApiCryptoError (msg : string)
| ApiNotImplemented (msg : string).
Definition ApiError_to_string (e : ApiError) : string :=
  match e with
  | Unauthorized msg => "authentication failed: " +:+ msg
  | Forbidden msg => "permission denied: " +:+ msg
  | NotFound msg => "not found: " +:+ msg
  | BadRequest msg => "bad request: " +:+ msg
  | Conflict msg => "conflict: " +:+ msg
  | ApiRateLimitExceeded => "rate limit exceeded"
  | ApiInternal _ => "internal error"
  | ServiceUnavailable => "service unavailable"
  | ApiCryptoError _ => "cryptographic operation failed"
  | ApiNotImplemented msg => "not implemented: " +:+ msg
  end.

(** ** Requests and responses ([types.rs]) *)

Inductive KeyAlgorithm :=
| AEd25519 | AEcdsaP256 | AEcdsaP384 | ARsa2048 | ARsa3072 | ARsa4096 | AAes128 | AAes256.
Inductive KeyPurpose := PurposeSign | PurposeEncrypt | PurposeGeneral.
Record GenerateKeyRequest := MkGenerateKeyRequest {
  rq_key_id : option string;
  rq_algorithm : KeyAlgorithm;
  rq_purpose : KeyPurpose;
  rq_namespace : string;
  rq_labels : gmap string string
}.
Record GenerateKeyResponse := MkGenerateKeyResponse {
  rs_key_id : string;
  rs_algorithm : KeyAlgorithm;
  rs_purpose : KeyPurpose;
  rs_public_key : option string;
  rs_created_at : string
}.
Record KeyMetadataResponse := MkKeyMetadataResponse {
  md_key_id : string;
  md_algorithm : KeyAlgorithm;
  md_purpose : KeyPurpose;
  md_namespace : string;
  md_public_key : option string;
  md_created_at : string;
  md_last_used : option string;
  md_labels : gmap string string;
  md_active : bool
}.
Record ListKeysResponse := MkListKeysResponse {
  lk_keys : list KeyMetadataResponse;
  lk_total : Z;
  lk_next_cursor : option string
}.
Record ListKeysQuery := MkListKeysQuery {
  q_namespace : option string;
  q_limit : option Z;
  q_cursor : option string
}.
Record SignRequest := MkSignRequest { sg_data : string; sg_hash_algorithm : option string }.
Record SignResponse := MkSignResponse { sg_signature : string; sg_algorithm : string }.
Record VerifyRequest := MkVerifyRequest { vf_data : string; vf_signature : string }.
Record VerifyResponse := MkVerifyResponse { vf_valid : bool }.
Record EncryptRequest := MkEncryptRequest { en_plaintext : string; en_aad : option string }.
Record EncryptResponse := MkEncryptResponse { en_ciphertext : string; en_nonce : string; en_tag : option string }.
Record DecryptRequest := MkDecryptRequest {
  de_ciphertext : string;
  de_nonce : string;
  de_tag : option string;
  de_aad : option string
}.
Record AuditLogQuery := MkAuditLogQuery {
  al_start : option string;
  al_end : option string;
  al_event_type : option string;
  al_actor : option string;
  al_limit : option Z;
  al_cursor : option string
}.
Record AuditEntry := MkAuditEntry {
  ae_id : string;
  ae_timestamp : string;
  ae_event_type : string;
  ae_actor : string;
  ae_resource : option string;
  ae_action : string;
  ae_result : string;
  ae_details : option string
}.
Record AuditLogResponse := MkAuditLogResponse {
  al_entries : list AuditEntry;
  al_total : Z;
  al_next_cursor : option string
}.
Record NamespaceResponse := MkNamespaceResponse {
  nr_name : string;
  nr_created_at : string;
  nr_key_count : nat;
  nr_policies : list string
}.
Record UserInfo := MkUserInfo { ui_username : string; ui_roles : list string; ui_namespace : string }.
Record MeResponse := MkMeResponse { me_user : UserInfo; me_session_id : string; me_created_at : string }.

(** ** Conversions *)

Definition to_key_type (a : KeyAlgorithm) : result KeyType ApiError :=
  match a with
  | AEd25519 => Ok Ed25519
  | AEcdsaP256 => Ok EcdsaP256
  | AEcdsaP384 => Ok EcdsaP384
  | ARsa2048 => Ok Rsa2048
  | ARsa3072 => Ok Rsa3072
  | ARsa4096 => Ok Rsa4096
  | AAes128 | AAes256 => Err (BadRequest
      "Symmetric key generation is not supported via REST API. Use the gRPC API instead.")
  end.
Definition to_key_algorithm (t : KeyType) : KeyAlgorithm :=
  match t with
  | Ed25519 => AEd25519
  | EcdsaP256 => AEcdsaP256
  | EcdsaP384 => AEcdsaP384
  | Rsa2048 => ARsa2048
  | Rsa3072 => ARsa3072
  | Rsa4096 => ARsa4096
  | _ => AEd25519
  end.
Definition to_usage_policy (p : KeyPurpose) : KeyUsagePolicy :=
  match p with
  | PurposeSign => MkKeyUsagePolicy true false false false None None
  | PurposeEncrypt => MkKeyUsagePolicy false true false false None None
  | PurposeGeneral => MkKeyUsagePolicy true true false false None None
  end.
(** The [match] on the key type in [get_key], [rotate_key] and [list_keys]. *)
Definition purpose_of (t : KeyType) : KeyPurpose :=
  match t with
  | Ed25519 | EcdsaP256 | EcdsaP384 => PurposeSign
  | Rsa2048 | Rsa3072 | Rsa4096 => PurposeGeneral
  | _ => PurposeEncrypt
  end.
(** [rename_all = "snake_case"] *)
Definition event_type_str (t : EventType) : string :=
  match t with
  | KeyGeneration => "key_generation" | KeyImport => "key_import" | KeyExport => "key_export"
  | KeyDeletion => "key_deletion" | KeyRotation => "key_rotation" | Sign => "sign"
  | Verify => "verify" | Encrypt => "encrypt" | Decrypt => "decrypt"
  | Authentication => "authentication" | Authorization => "authorization"
  | AccessDenied => "access_denied" | SystemStartup => "system_startup"
  | SystemShutdown => "system_shutdown" | ConfigChange => "config_change"
  | AuditLogRotation => "audit_log_rotation" | AuditVerification => "audit_verification"
  end.

(** [str::trim]: no suffix of a character's bytes is white space by itself. *)
Fixpoint trim_start (bs : bytes) : bytes :=
  match bs with
  | b0 :: (b1 :: (b2 :: rest3) as rest2) as rest1 =>
      if is_ascii_space b0 then trim_start rest1
      else if is_space2 b0 b1 then trim_start rest2
      else if is_space3 b0 b1 b2 then trim_start rest3
      else bs
  | [b0; b1] =>
      if is_ascii_space b0 then (if is_ascii_space b1 then [] else [b1])
      else if is_space2 b0 b1 then [] else bs
  | [b0] => if is_ascii_space b0 then [] else bs
  | [] => []
  end.
Fixpoint trim_end (bs : bytes) : bytes :=
  match bs with
  | [] => []
  | b :: rest => if is_blank bs then [] else b :: trim_end rest
  end.
Definition trim (s : string) : string := of_bytes (trim_end (trim_start (as_bytes s))).

(** ["[a, b]"], the debug format of a list. *)
Definition debug_list (l : list string) : string := "[" +:+ String.concat ", " l +:+ "]".

Definition KeyFilter_default : KeyFilter := MkKeyFilter None None ∅.

(** ** Application state ([middleware.rs]) *)

Section api.
Context {Cache : Type} {LRU : Lru CompositeKey Key Cache}.
Context {S : Type} {SB : StorageBackend S} {PC : Postcard Key}.
Context {SHA : Sha256} {HEX : Hex} {PK : PublicKeys} {SCH : SignatureSchemes} {AEAD : Aead}.
Context {Value : Type} {CHRONO : Chrono} {HMAC : Hmac}.
Context {ST : Serde EventType} {SR : Serde OperationResult} {SVal : SerdeCodec Value}.
Context {SEv : SerdeCodec (AuditEvent Value)} {SCp : Serde Checkpoint}.
Context {B64 : Base64} {UUID : Uuid} {RFC : Rfc3339}.
Context {DK : Display Error} {DA : Display AsyncAuditError} {DC : Display CryptoError}.

Record AppState := MkAppState {
  app_sessions : SessionManager;
  key_manager : @DefaultKeyManager Cache S;
  rbac : RbacPolicy;
  namespaces : gmap string NamespaceMetadata;
  acls : gmap string KeyAcl;
  audit : option (AsyncAuditLogger Value)
}.
Definition set_app_sessions (m : SessionManager) (s : AppState) : AppState :=
  MkAppState m (key_manager s) (rbac s) (namespaces s) (acls s) (audit s).
Definition set_key_manager (m : DefaultKeyManager) (s : AppState) : AppState :=
  MkAppState (app_sessions s) m (rbac s) (namespaces s) (acls s) (audit s).
Definition set_namespaces (m : gmap string NamespaceMetadata) (s : AppState) : AppState :=
  MkAppState (app_sessions s) (key_manager s) (rbac s) m (acls s) (audit s).
Definition set_acls (m : gmap string KeyAcl) (s : AppState) : AppState :=
  MkAppState (app_sessions s) (key_manager s) (rbac s) (namespaces s) m (audit s).
Definition set_audit (a : option (AsyncAuditLogger Value)) (s : AppState) : AppState :=
  MkAppState (app_sessions s) (key_manager s) (rbac s) (namespaces s) (acls s) a.

Definition AppState_new (m : SessionManager) : AppState :=
  MkAppState m manager_new RbacPolicy_new ∅ ∅ None.
Definition with_key_manager (m : SessionManager) (km : DefaultKeyManager) : AppState :=
  MkAppState m km RbacPolicy_new ∅ ∅ None.
Definition with_audit_logger (a : AsyncAuditLogger Value) (s : AppState) : AppState := set_audit (Some a) s.

Abbreviation handler := (M AppState ApiError).

(** A computation on one part of the state; its result is a value. *)
Definition read {A} (f : AppState -> result A ApiError) : handler A := fun s => (f s, s).
Definition km {A} (c : M (@DefaultKeyManager Cache S) Error A) : handler (result A Error) := fun s =>
  let '(r, m) := c (key_manager s) in (Ok r, set_key_manager m s).
Definition or_else {A E} (f : E -> ApiError) (c : handler (result A E)) : handler A :=
  let! r := c in lift (rmap_err f r).

(** ** Authentication *)

Definition extract_bearer_token (auth_header : string) : option string :=
  match strip_prefix "Bearer " auth_header with
  | Some t => Some t
  | None => strip_prefix "bearer " auth_header
  end.
(** [splitn(2, ':')]: the text before and after the first colon. *)
Fixpoint split_colon (s : string) : option (string * string) :=
  match s with
  | EmptyString => None
  | String c rest =>
      if Ascii.ascii_dec c (Ascii.ascii_of_nat 58) then Some (EmptyString, rest)
      else '(a, b) ← split_colon rest; Some (String c a, b)
  end.

(** The identity the request is served for; [header] is the authorization
    header when it is present and visible ASCII. *)
Definition auth_middleware (header : option string) (now : DateTime) : handler ClientIdentity := fun s =>
  match header with
  | None => (Err (Unauthorized "Missing Authorization header"), s)
  | Some h =>
      match extract_bearer_token h with
      | None => (Err (Unauthorized "Invalid Authorization header format"), s)
      | Some t =>
          match split_colon t with
          | None => (Err (Unauthorized "Invalid token format"), s)
          | Some (session_id, token) =>
              let '(r, m) := validate_session_with_token session_id (MkToken token) now (app_sessions s) in
              (match r with
               | Ok session => Ok (identity session)
               | Err _ => Err (Unauthorized "Session validation failed")
               end, set_app_sessions m s)
          end
      end
  end.

(** ** The layers of authorization *)

Definition require_rbac (i : ClientIdentity) (p : Permission) : handler unit :=
  read (fun s => rmap_err
    (fun _ => Forbidden ("role(s) " +:+ debug_list (Role_debug <$> roles i) +:+ " lack permission " +:+
                         Permission_as_str p))
    (require_any (rbac s) (roles i) p)).
Definition resolve_namespace (i : ClientIdentity) (requested : option string) : handler string :=
  let ns := default (AccessControl.namespace i) requested in
  read (fun s => rmap_err (fun _ => Forbidden ("no access to namespace " +:+ ns))
                   (require_access (namespaces s) i ns)) ;!
  ret ns.
Definition require_acl (i : ClientIdentity) (key_id : string) (p : Permission) : handler unit :=
  read (fun s => rmap_err (fun _ => Forbidden ("ACL denies access to key " +:+ key_id))
                   (require_access_with_permission (acls s) key_id i p)).
Definition parse_key_id (key_id : string) : handler KeyId :=
  lift (match uuid_parse key_id with Some k => Ok k | None => Err (BadRequest "Invalid key ID format") end).

(** ** Audit records *)

(** A call of the logger, when there is one. *)
Definition on_audit (c : M (AsyncAuditLogger Value) AsyncAuditError Z)
  : handler (result unit AsyncAuditError) := fun s =>
  match audit s with
  | None => (Ok (Ok tt), s)
  | Some a =>
      let '(r, a') := c a in
      (Ok (match r with Ok _ => Ok tt | Err e => Err e end), set_audit (Some a') s)
  end.
Definition audit_success (now : DateTime) (t : EventType) (operation ns client_id : string)
    (key_id : option string) : handler unit :=
  or_else (fun e => ApiInternal ("audit write failed: " +:+ display e))
    (on_audit (async_log_success now t operation ns client_id key_id)).
Definition audit_failure (now : DateTime) (t : EventType) (operation ns client_id : string)
    (key_id : option string) (reason : string) : handler unit :=
  on_audit (async_log_failure now t operation ns client_id key_id reason) ;! ret tt.
Definition audit_failure_ignore_ok (now : DateTime) (t : EventType) (operation ns client_id : string)
    (key_id : option string) (valid : bool) : handler unit :=
  if valid then attempt (audit_success now t operation ns client_id key_id) ;! ret tt
  else audit_failure now t operation ns client_id key_id "signature did not verify".

(** ** Keys *)

Definition rest_generate_key (i : ClientIdentity) (rq : GenerateKeyRequest)
    (generated : result (KeyMaterial * bytes) string) (k : KeyId) (now : DateTime)
  : handler GenerateKeyResponse :=
  require_rbac i PGenerateKey ;!
  let! ns := resolve_namespace i (Some (rq_namespace rq)) in
  let! t := lift (to_key_type (rq_algorithm rq)) in
  let spec := MkKeySpec t ns (to_usage_policy (rq_purpose rq)) (rq_labels rq) in
  let! gen_result := km (generate_key spec generated k now) in
  match gen_result with
  | Err e =>
      audit_failure now KeyGeneration "generate_key" ns (common_name i) None (display e) ;!
      throw (ApiInternal ("Key generation failed: " +:+ display e))
  | Ok key_id =>
      let! key := or_else (fun e => ApiInternal ("Failed to retrieve key: " +:+ display e))
                    (km (get_key key_id ns now)) in
      modify (fun s => set_acls (create_acl key_id false (acls s)).2 s) ;!
      audit_success now KeyGeneration "generate_key" ns (common_name i) (Some key_id) ;!
      ret (MkGenerateKeyResponse key_id (rq_algorithm rq) (rq_purpose rq)
             (b64_encode <$> public_material key) (to_rfc3339 now))
  end.

Definition metadata_response (m : KeyMetadata) : KeyMetadataResponse :=
  MkKeyMetadataResponse (m_id m) (to_key_algorithm (m_key_type m)) (purpose_of (m_key_type m))
    (m_namespace m) (Some (m_fingerprint m)) (to_rfc3339 (m_created_at m)) None (m_labels m)
    (bool_decide (m_state m = Active)).

Definition rest_get_key (i : ClientIdentity) (key_id : string) (now : DateTime)
  : handler KeyMetadataResponse :=
  require_rbac i PViewMetadata ;!
  let! ns := resolve_namespace i None in
  let! key_id := parse_key_id key_id in
  require_acl i key_id PViewMetadata ;!
  let! metadata := or_else (fun e => NotFound ("Key not found: " +:+ display e))
                     (km (get_metadata key_id ns now)) in
  ret (metadata_response metadata).

Definition rest_delete_key (i : ClientIdentity) (key_id : string) (now : DateTime) : handler unit :=
  require_rbac i PDeleteKey ;!
  let! ns := resolve_namespace i None in
  let! key_id := parse_key_id key_id in
  require_acl i key_id PDeleteKey ;!
  let! delete_result := km (delete_key key_id ns) in
  match delete_result with
  | Err e =>
      audit_failure now KeyDeletion "delete_key" ns (common_name i) (Some key_id) (display e) ;!
      throw (NotFound ("Key not found: " +:+ display e))
  | Ok _ =>
      modify (fun s => set_acls (delete_acl key_id (acls s)).2 s) ;!
      audit_success now KeyDeletion "delete_key" ns (common_name i) (Some key_id)
  end.

Definition rest_rotate_key (i : ClientIdentity) (key_id : string)
    (generated : result (KeyMaterial * bytes) string) (k : KeyId) (now : DateTime)
  : handler GenerateKeyResponse :=
  require_rbac i PRotateKey ;!
  let! ns := resolve_namespace i None in
  let! key_id := parse_key_id key_id in
  require_acl i key_id PRotateKey ;!
  or_else (fun e => NotFound ("Key not found: " +:+ display e)) (km (get_metadata key_id ns now)) ;!
  let! rotate_result := km (rotate_key key_id ns generated k now) in
  match rotate_result with
  | Err e =>
      audit_failure now KeyRotation "rotate_key" ns (common_name i) (Some key_id) (display e) ;!
      throw (ApiInternal ("Key rotation failed: " +:+ display e))
  | Ok new_key_id =>
      let! new_key := or_else (fun e => ApiInternal ("Failed to retrieve rotated key: " +:+ display e))
                        (km (get_key new_key_id ns now)) in
      modify (fun s => set_acls (create_acl new_key_id false (acls s)).2 s) ;!
      audit_success now KeyRotation "rotate_key" ns (common_name i) (Some new_key_id) ;!
      ret (MkGenerateKeyResponse new_key_id (to_key_algorithm (key_type new_key))
             (purpose_of (key_type new_key)) (b64_encode <$> public_material new_key) (to_rfc3339 now))
  end.

Definition rest_list_keys (i : ClientIdentity) (q : ListKeysQuery) (now : DateTime)
  : handler ListKeysResponse :=
  require_rbac i PViewMetadata ;!
  let! ns := resolve_namespace i (q_namespace q) in
  let! metadata_list := or_else (fun e => ApiInternal ("Failed to list keys: " +:+ display e))
                          (km (list_keys ns KeyFilter_default now)) in
  let keys := metadata_response <$> take (Z.to_nat (default 100 (q_limit q))) metadata_list in
  ret (MkListKeysResponse keys (Z.of_nat (length keys)) None).

(** ** Cryptographic operations *)

Definition sign_with (key : Key) (private_key : KeyMaterial) (data : bytes)
  : result (bytes * string) ApiError :=
  let answer (alg : string) (r : result bytes CryptoError) :=
    match r with
    | Ok sig => Ok (sig, alg)
    | Err e => Err (ApiInternal ("Signing failed: " +:+ display e))
    end in
  match key_type key with
  | Ed25519 => answer "ED25519" (ed25519_sign private_key data)
  | EcdsaP256 => answer "ECDSA_P256" (sign_p256 private_key data)
  | EcdsaP384 => answer "ECDSA_P384" (sign_p384 private_key data)
  | Rsa2048 | Rsa3072 | Rsa4096 => answer "RSA_PKCS1_V15" (sign_pkcs1v15_sha256 private_key data)
  | _ => Err (BadRequest "Key type does not support signing")
  end.

Definition decode_field (what : string) (text : string) : result bytes ApiError :=
  rmap_err (fun e => BadRequest ("Invalid base64 " +:+ what +:+ ": " +:+ e)) (b64_decode text).

Definition sign_data (i : ClientIdentity) (key_id : string) (rq : SignRequest) (now : DateTime)
  : handler SignResponse :=
  require_rbac i PSign ;!
  let! ns := resolve_namespace i None in
  let! data := lift (decode_field "data" (sg_data rq)) in
  let! key_id := parse_key_id key_id in
  require_acl i key_id PSign ;!
  let! key := or_else (fun e => NotFound ("Key not found: " +:+ display e)) (km (get_key key_id ns now)) in
  let! private_key := lift (match private_material key with
                            | Some k => Ok k
                            | None => Err (BadRequest "Key has no private material")
                            end) in
  match sign_with key private_key data with
  | Err e =>
      audit_failure now Sign "sign" ns (common_name i) (Some key_id) (ApiError_to_string e) ;!
      throw e
  | Ok (signature, algorithm) =>
      km (manager_increment_operations key_id ns) ;!
      audit_success now Sign "sign" ns (common_name i) (Some key_id) ;!
      ret (MkSignResponse (b64_encode signature) algorithm)
  end.

(** [unwrap_or(false)] *)
Definition accepts (r : result bool CryptoError) : bool := match r with Ok b => b | Err _ => false end.
Definition verify_with (key : Key) (public_key data signature : bytes) : result bool ApiError :=
  match key_type key with
  | Ed25519 => Ok (accepts (ed25519_verify public_key data signature))
  | EcdsaP256 => Ok (accepts (verify_p256 public_key data signature))
  | EcdsaP384 => Ok (accepts (verify_p384 public_key data signature))
  | Rsa2048 | Rsa3072 | Rsa4096 => Ok (accepts (verify_pkcs1v15_sha256 public_key data signature))
  | _ => Err (BadRequest "Key type does not support verification")
  end.

Definition verify_signature (i : ClientIdentity) (key_id : string) (rq : VerifyRequest) (now : DateTime)
  : handler VerifyResponse :=
  require_rbac i PViewMetadata ;!
  let! ns := resolve_namespace i None in
  let! data := lift (decode_field "data" (vf_data rq)) in
  let! signature := lift (decode_field "signature" (vf_signature rq)) in
  let! key_id := parse_key_id key_id in
  require_acl i key_id PViewMetadata ;!
  let! key := or_else (fun e => NotFound ("Key not found: " +:+ display e)) (km (get_key key_id ns now)) in
  let! public_key := lift (match public_material key with
                           | Some k => Ok k
                           | None => Err (BadRequest "Key has no public material")
                           end) in
  let! valid := lift (verify_with key public_key data signature) in
  audit_failure_ignore_ok now Verify "verify" ns (common_name i) (Some key_id) valid ;!
  ret (MkVerifyResponse valid).

(** The key of the encryption is drawn for the call; [key_id] only names the
    entry whose access rules are checked. *)
Definition encrypt_data (i : ClientIdentity) (key_id : string) (rq : EncryptRequest)
    (fill_key : result bytes string) (fill : fill_result) (now : DateTime) : handler EncryptResponse :=
  require_rbac i PEncrypt ;!
  let! ns := resolve_namespace i None in
  let! key_id := parse_key_id key_id in
  require_acl i key_id PEncrypt ;!
  let! plaintext := lift (decode_field "plaintext" (en_plaintext rq)) in
  let! key_bytes := lift (rmap_err (fun e => ApiInternal ("Key generation failed: " +:+ e)) fill_key) in
  let! aad := lift (match en_aad rq with
                    | Some a => let? b := decode_field "AAD" a in Ok (Some b)
                    | None => Ok None
                    end) in
  match encrypt_aes256 (KeyMaterial_from_bytes key_bytes) plaintext aad fill with
  | Err e =>
      audit_failure now Encrypt "encrypt" ns (common_name i) (Some key_id) (display e) ;!
      throw (ApiInternal ("Encryption failed: " +:+ display e))
  | Ok ciphertext_with_nonce =>
      audit_success now Encrypt "encrypt" ns (common_name i) (Some key_id) ;!
      ret (MkEncryptResponse (b64_encode (drop 12 ciphertext_with_nonce))
             (b64_encode (take 12 ciphertext_with_nonce)) None)
  end.

Definition decrypt_data (i : ClientIdentity) (key_id : string) (rq : DecryptRequest) : handler bytes :=
  require_rbac i PDecrypt ;!
  resolve_namespace i None ;!
  let! key_id := parse_key_id key_id in
  require_acl i key_id PDecrypt ;!
  throw (ApiNotImplemented
    "Decryption is not yet available via REST API. Use the gRPC API for decryption operations.").

(** ** The audit log *)

Definition audit_event_to_entry (e : AuditEvent Value) : AuditEntry :=
  let '(r, details) := match result_of e with
                       | Success => ("success", None)
                       | Failure reason => ("failure", Some reason)
                       end in
  MkAuditEntry (to_decimal (sequence e)) (to_rfc3339 (timestamp e)) (event_type_str (event_type e))
    (client_id e) (AuditEvent.key_id e) (operation e) r details.

(** A filter that is absent, or an instant that does not parse, keeps
    everything. *)
Definition audit_matches (q : AuditLogQuery) (e : AuditEvent Value) : bool :=
  match al_event_type q with Some t => bool_decide (event_type_str (event_type e) = t) | None => true end &&
  match al_actor q with Some a => bool_decide (client_id e = a) | None => true end &&
  match al_start q ≫= parse_from_rfc3339 with Some t => t <=? timestamp e | None => true end &&
  match al_end q ≫= parse_from_rfc3339 with Some t => timestamp e <=? t | None => true end.

Definition get_audit_log (i : ClientIdentity) (q : AuditLogQuery) : handler AuditLogResponse :=
  require_rbac i PViewAuditLogs ;!
  read (fun s =>
    match audit s with
    | None => Ok (MkAuditLogResponse [] 0 None)
    | Some a =>
        let last := async_current_sequence a in
        let? events :=
          if last =? 0 then Ok []
          else rmap_err (fun e => ApiInternal ("audit read failed: " +:+ display e))
                 (async_get_events_range 1 last a) in
        let events := filter (fun e => audit_matches q e = true) events in
        Ok (MkAuditLogResponse (audit_event_to_entry <$> take (Z.to_nat (default 100 (al_limit q))) events)
              (Z.of_nat (length events)) None)
    end).

(** ** Namespaces *)

Definition namespace_response (name : string) (now : DateTime) : handler NamespaceResponse :=
  let! keys := km (list_keys name KeyFilter_default now) in
  read (fun s => Ok (MkNamespaceResponse name
    (match created_at name (namespaces s) with Some t => to_rfc3339 t | None => EmptyString end)
    (match keys with Ok l => length l | Err _ => 0%nat end) [])).
Fixpoint namespace_responses (names : list string) (now : DateTime) : handler (list NamespaceResponse) :=
  match names with
  | [] => ret []
  | name :: rest =>
      let! r := namespace_response name now in
      let! rs := namespace_responses rest now in
      ret (r :: rs)
  end.
Definition on_namespaces {A} (c : M (gmap string NamespaceMetadata) AuthError A)
  : handler (result A AuthError) := fun s =>
  let '(r, m) := c (namespaces s) in (Ok r, set_namespaces m s).

Definition rest_list_namespaces (i : ClientIdentity) (now : DateTime) : handler (list NamespaceResponse) :=
  require_rbac i PManageNamespaces ;!
  let! names := read (fun s => Ok (list_namespaces (namespaces s))) in
  namespace_responses names now.
Definition rest_create_namespace (i : ClientIdentity) (requested : string) (now : DateTime)
  : handler NamespaceResponse :=
  require_rbac i PManageNamespaces ;!
  let name := trim requested in
  if bool_decide (name = EmptyString) then throw (BadRequest "namespace name cannot be empty")
  else
    or_else (fun e => Conflict (AuthError_to_string e)) (on_namespaces (create_namespace name now)) ;!
    audit_success now ConfigChange "create_namespace" name (common_name i) None ;!
    namespace_response name now.
Definition rest_get_namespace (i : ClientIdentity) (name : string) (now : DateTime)
  : handler NamespaceResponse :=
  require_rbac i PManageNamespaces ;!
  read (fun s => if bool_decide (is_Some (created_at name (namespaces s))) then Ok tt
                 else Err (NotFound ("namespace " +:+ name +:+ " not found"))) ;!
  namespace_response name now.
Definition rest_delete_namespace (i : ClientIdentity) (name : string) (now : DateTime) : handler unit :=
  require_rbac i PManageNamespaces ;!
  or_else (fun _ => NotFound ("namespace " +:+ name +:+ " not found"))
    (on_namespaces (delete_namespace name)) ;!
  audit_success now ConfigChange "delete_namespace" name (common_name i) None.

(** ** The current user *)

Definition me (i : ClientIdentity) (now : DateTime) : handler MeResponse :=
  ret (MkMeResponse (MkUserInfo (common_name i) (Role_debug <$> roles i) (AccessControl.namespace i))
         (serial_number i) (to_rfc3339 now)).
Definition logout (i : ClientIdentity) : handler unit :=
  modify (fun s => set_app_sessions (delete_session (serial_number i) (app_sessions s)).2 s).

(** ** Routes ([routes.rs])

    An authenticated request with the values drawn while it is served, and
    its answer. *)
Inductive request :=
| ReqGenerateKey (rq : GenerateKeyRequest) (generated : result (KeyMaterial * bytes) string) (k : KeyId)
| ReqListKeys (q : ListKeysQuery)
| ReqGetKey (key_id : string)
| ReqDeleteKey (key_id : string)
| ReqRotateKey (key_id : string) (generated : result (KeyMaterial * bytes) string) (k : KeyId)
| ReqSign (key_id : string) (rq : SignRequest)
| ReqVerify (key_id : string) (rq : VerifyRequest)
| ReqEncrypt (key_id : string) (rq : EncryptRequest) (fill_key : result bytes string) (fill : fill_result)
| ReqDecrypt (key_id : string) (rq : DecryptRequest)
| ReqAuditLog (q : AuditLogQuery)
| ReqMe
| ReqLogout
| ReqListNamespaces
| ReqCreateNamespace (name : string)
| ReqGetNamespace (name : string)
| ReqDeleteNamespace (name : string).

Inductive response :=
| ResKey (r : GenerateKeyResponse)
| ResKeys (r : ListKeysResponse)
| ResMetadata (r : KeyMetadataResponse)
| ResSigned (r : SignResponse)
| ResVerified (r : VerifyResponse)
| ResEncrypted (r : EncryptResponse)
| ResDecrypted (plaintext : bytes)
| ResAuditLog (r : AuditLogResponse)
| ResMe (r : MeResponse)
| ResNamespaces (r : list NamespaceResponse)
| ResNamespace (r : NamespaceResponse)
| ResNoContent.

Definition answer_with {A} (f : A -> response) (c : handler A) : handler response :=
  let! a := c in ret (f a).

Definition route (r : request) (i : ClientIdentity) (now : DateTime) : handler response :=
  match r with
  | ReqGenerateKey rq generated k => answer_with ResKey (rest_generate_key i rq generated k now)
  | ReqListKeys q => answer_with ResKeys (rest_list_keys i q now)
  | ReqGetKey key_id => answer_with ResMetadata (rest_get_key i key_id now)
  | ReqDeleteKey key_id => answer_with (fun _ => ResNoContent) (rest_delete_key i key_id now)
  | ReqRotateKey key_id generated k => answer_with ResKey (rest_rotate_key i key_id generated k now)
  | ReqSign key_id rq => answer_with ResSigned (sign_data i key_id rq now)
  | ReqVerify key_id rq => answer_with ResVerified (verify_signature i key_id rq now)
  | ReqEncrypt key_id rq fill_key fill =>
      answer_with ResEncrypted (encrypt_data i key_id rq fill_key fill now)
  | ReqDecrypt key_id rq => answer_with ResDecrypted (decrypt_data i key_id rq)
  | ReqAuditLog q => answer_with ResAuditLog (get_audit_log i q)
  | ReqMe => answer_with ResMe (me i now)
  | ReqLogout => answer_with (fun _ => ResNoContent) (logout i)
  | ReqListNamespaces => answer_with ResNamespaces (rest_list_namespaces i now)
  | ReqCreateNamespace name => answer_with ResNamespace (rest_create_namespace i name now)
  | ReqGetNamespace name => answer_with ResNamespace (rest_get_namespace i name now)
  | ReqDeleteNamespace name => answer_with (fun _ => ResNoContent) (rest_delete_namespace i name now)
  end.

(** Authentication is the outer layer. *)
Definition serve (header : option string) (r : request) (now : DateTime) : handler response :=
  let! i := auth_middleware header now in route r i now.
End api.
