(* ===== verification/RestSafety.v ===== *)
(** * Safety of the REST interface

    - mediation: a request has an effect beyond its own session only when it
      is authenticated and passes the three layers of authorization;
    - tenants: no request changes a key of a namespace other than that of the
      client;
    - audit: a successful operation on a key has appended its record, and no
      request removes one;
    - a signature the service returns is accepted by the service.

    Three theorems describe gaps: an operation is not undone when its record
    cannot be written, rotation drops the access rules of the key, and the
    encryption does not use the key it names. *)

From Stdlib Require Import ZArith Lia Strings.Byte.
From stdpp Require Import base gmap strings list.
From S2P Require Import Prelude External Platform AesGcm Signing AuditEvent HashChain.
From S2P Require Import HashChain AuditStorage AuditLogger AsyncAudit AccessControl Sessions.
From S2P Require Import SessionManager RestApi.
From S2P Require Import KeyTypes KeyStore KeyManager.

#[local] Abbreviation list := Datatypes.list.

Section safety.
Context {Cache : Type} {LRU : Lru CompositeKey Key Cache}.
Context {S : Type} {SB : StorageBackend S} {PC : Postcard Key}.
Context {SHA : Sha256} {HEX : Hex} {PK : PublicKeys} {SCH : SignatureSchemes} {AEAD : Aead}.
Context {Value : Type} {CHRONO : Chrono} {HMAC : Hmac}.
Context {ST : Serde EventType} {SR : Serde OperationResult} {SVal : SerdeCodec Value}.
Context {SEv : SerdeCodec (AuditEvent Value)} {SCp : Serde Checkpoint}.
Context {B64 : Base64} {UUID : Uuid} {RFC : Rfc3339}.
Context {DK : Display Error} {DA : Display AsyncAuditError} {DC : Display CryptoError}.
Abbreviation AppState := (@AppState Cache S Value).
Abbreviation manager := (@DefaultKeyManager Cache S).
Abbreviation handler := (M AppState ApiError).
Implicit Types (s : AppState) (i : ClientIdentity) (r : request).

(** ** Mediation *)

(** The permission a request needs, the namespace it asks for (the inner
    [None] is the client's own) and the key it is about. *)
Definition needs (r : request) : option Permission :=
  match r with
  | ReqGenerateKey _ _ _ => Some PGenerateKey
  | ReqListKeys _ | ReqGetKey _ | ReqVerify _ _ => Some PViewMetadata
  | ReqDeleteKey _ => Some PDeleteKey
  | ReqRotateKey _ _ _ => Some PRotateKey
  | ReqSign _ _ => Some PSign
  | ReqEncrypt _ _ _ _ => Some PEncrypt
  | ReqDecrypt _ _ => Some PDecrypt
  | ReqAuditLog _ => Some PViewAuditLogs
  | ReqMe | ReqLogout => None
  | ReqListNamespaces | ReqCreateNamespace _ | ReqGetNamespace _ | ReqDeleteNamespace _ =>
      Some PManageNamespaces
  end.
Definition home (r : request) : option (option string) :=
  match r with
  | ReqGenerateKey rq _ _ => Some (Some (rq_namespace rq))
  | ReqListKeys q => Some (q_namespace q)
  | ReqGetKey _ | ReqDeleteKey _ | ReqRotateKey _ _ _ | ReqSign _ _ | ReqVerify _ _
  | ReqEncrypt _ _ _ _ | ReqDecrypt _ _ => Some None
  | _ => None
  end.
Definition subject (r : request) : option string :=
  match r with
  | ReqGetKey k | ReqDeleteKey k | ReqRotateKey k _ _ | ReqSign k _ | ReqVerify k _
  | ReqEncrypt k _ _ _ | ReqDecrypt k _ => Some k
  | _ => None
  end.
Definition authorized s i r : bool :=
  match needs r with
  | None => true
  | Some p =>
      can_any (rbac s) (roles i) p &&
      match home r with
      | Some requested => has_access (namespaces s) i (default (AccessControl.namespace i) requested)
      | None => true
      end &&
      match subject r with
      | Some k =>
          match uuid_parse k with
          | Some k => can_access_with_permission (acls s) k i p
          | None => false
          end
      | None => true
      end
  end.

Definition refused {A} (c : handler A) s : Prop := exists e, c s = (Err e, s).

Lemma refused_bind {A B} (c : handler A) (k : A -> handler B) s :
  (c s).2 = s -> (forall a, (c s).1 = Ok a -> refused (k a) s) -> refused (bind c k) s.
Proof.
  unfold refused, bind. destruct (c s) as [[a|e] s1]; cbn; intros -> H; [by apply H|by exists e].
Qed.

Lemma refused_answer {A} (f : A -> response) (c : handler A) s : refused c s -> refused (answer_with f c) s.
Proof. intros [e H]. exists e. unfold answer_with, bind. by rewrite H. Qed.

Lemma require_rbac_Ok i p s a : (require_rbac i p s).1 = Ok a -> can_any (rbac s) (roles i) p = true.
Proof. unfold require_rbac, read, require_any. by destruct (can_any _ _ _). Qed.

Lemma resolve_namespace_Ok i requested s ns :
  (resolve_namespace i requested s).1 = Ok ns ->
  ns = default (AccessControl.namespace i) requested /\ has_access (namespaces s) i ns = true.
Proof.
  unfold resolve_namespace, bind, read, require_access. cbn.
  destruct (has_access _ _ _) eqn:H; cbn; [|done]. by intros [= <-].
Qed.

Lemma resolve_namespace_state i requested s : (resolve_namespace i requested s).2 = s.
Proof. unfold resolve_namespace, bind, read. cbn. by destruct (rmap_err _ _). Qed.

Lemma require_acl_Ok i k p s a :
  (require_acl i k p s).1 = Ok a -> can_access_with_permission (acls s) k i p = true.
Proof. unfold require_acl, read, require_access_with_permission. by destruct (can_access_with_permission _ _ _ _). Qed.

Lemma parse_key_id_Ok k s k' : (parse_key_id k s).1 = Ok k' -> uuid_parse k = Some k'.
Proof. unfold parse_key_id, lift. destruct (uuid_parse k); by intros [= ->]. Qed.

(** The guards at the head of a handler. *)
Ltac guards :=
  repeat (apply refused_bind; [first [done | apply resolve_namespace_state]|];
          let a := fresh "a" in let H := fresh "G" in intros a H;
          first [ apply require_rbac_Ok in H | apply resolve_namespace_Ok in H as [-> H]
                | apply parse_key_id_Ok in H | apply require_acl_Ok in H | idtac ]).

Lemma unauthorized_refused s i r now : authorized s i r = false -> refused (route r i now) s.
Proof.
  unfold authorized. intros Ha. destruct r; cbn [needs home subject route] in *; try done;
    apply refused_answer;
    first [unfold rest_generate_key | unfold rest_list_keys | unfold rest_get_key | unfold rest_delete_key
          | unfold rest_rotate_key | unfold sign_data | unfold verify_signature | unfold encrypt_data
          | unfold decrypt_data | unfold get_audit_log | unfold rest_list_namespaces
          | unfold rest_create_namespace | unfold rest_get_namespace | unfold rest_delete_namespace].
  all: guards; exfalso;
    repeat match goal with
           | H : _ = true |- _ => rewrite H in Ha; clear H
           | H : uuid_parse _ = Some _ |- _ => rewrite H in Ha; clear H
           end; done.
Qed.

Lemma split_colon_Some t a b : split_colon t = Some (a, b) -> t = a +:+ ":" +:+ b.
Proof.
  revert a. induction t as [|c t IH]; intros a; cbn [split_colon]; [done|].
  destruct (Ascii.ascii_dec c _) as [->|]; [by intros [= <- <-]|].
  destruct (split_colon t) as [[a' b']|]; [|done]. cbn. intros [= <- <-].
  change (String c t = String c (a' +:+ ":" +:+ b')). f_equal. by apply IH.
Qed.

(** A header that presents the token of a session. *)
Definition presents (h session_id token : string) : Prop :=
  h = "Bearer " +:+ session_id +:+ ":" +:+ token \/ h = "bearer " +:+ session_id +:+ ":" +:+ token.

Lemma auth_middleware_cases header now s res s' :
  auth_middleware header now s = (res, s') ->
  (is_ok res = false /\ s' = s) \/
  (exists h session_id token session m,
    header = Some h /\ presents h session_id token /\
    sessions (app_sessions s) !! session_id = Some session /\ session_is_expired now session = false /\
    verify_token session (MkToken token) = true /\ res = Ok (identity session) /\ s' = set_app_sessions m s).
Proof.
  unfold auth_middleware. destruct header as [h|]; [|intros [= <- <-]; by left].
  destruct (extract_bearer_token h) as [t|] eqn:Ht; [|intros [= <- <-]; by left].
  destruct (split_colon t) as [[id tok]|] eqn:Hs; [|intros [= <- <-]; by left].
  apply split_colon_Some in Hs as ->.
  assert (presents h id tok) as Hp.
  { unfold extract_bearer_token in Ht. destruct (strip_prefix "Bearer " h) as [u|] eqn:Hu.
    - left. apply strip_prefix_Some in Hu. congruence.
    - right. by apply strip_prefix_Some in Ht. }
  unfold validate_session_with_token, with_session.
  destruct (sessions (app_sessions s) !! id) as [se|] eqn:Hl; [|intros [= <- <-]; left; by destruct s].
  destruct (session_is_expired now se) eqn:He; [intros [= <- <-]; left; by destruct s|].
  destruct (verify_token se (MkToken tok)) eqn:Hv; cbn; [|intros [= <- <-]; left; by destruct s].
  intros [= <- <-]. right. eexists h, id, tok, se, _. by split_and!.
Qed.

(** C23: every request is mediated.  A request either fails and leaves the keys,
    the policy, the namespaces, the access lists and the audit log exactly as
    they were, or its header presents the token of a session that exists, has
    not expired and has that token, and the identity of that session has a
    role with the permission the request needs, access to the namespace it
    runs in, and, when it is about a key, access to that key for this
    permission. *)
Theorem complete_mediation (header : option string) (r : request) (now : DateTime) (s : AppState) :
  let '(res, s') := serve header r now s in
  (is_ok res = false /\ set_app_sessions (app_sessions s) s' = s) \/
  exists h session_id token session,
    header = Some h /\ presents h session_id token /\
    sessions (app_sessions s) !! session_id = Some session /\ session_is_expired now session = false /\
    verify_token session (MkToken token) = true /\ authorized s (identity session) r = true.
Proof.
  destruct (serve header r now s) as [res s'] eqn:H. unfold serve, bind in H.
  destruct (auth_middleware header now s) as [[i|e] s1] eqn:Ha;
    apply auth_middleware_cases in Ha as [[? ->]|(h & id & tok & se & m & -> & Hp & Hl & He & Hv & Hi & ->)];
    try done; [|injection H as <- <-; left; by destruct s].
  injection Hi as ->. destruct (authorized s (identity se) r) eqn:Haut; [right; by eexists h, id, tok, se|].
  left. destruct (unauthorized_refused (set_app_sessions m s) (identity se) r now) as [e He']; [done|].
  rewrite H in He'. injection He' as -> ->. by destruct s.
Qed.

(** ** Tenants *)

(** The keys of the namespaces other than [ns] are as they were. *)
Definition elsewhere (ns : string) (st st' : @KeyStore Cache) : Prop :=
  forall ns' k, ns' <> ns -> keys st' !! (ns', k) = keys st !! (ns', k).
Definition elsewhere_km (ns : string) (m m' : manager) : Prop := elsewhere ns (store m) (store m').
Definition elsewhere_app (ns : string) s s' : Prop := elsewhere_km ns (key_manager s) (key_manager s').

#[local] Instance elsewhere_preorder ns : PreOrder (elsewhere ns).
Proof. split; [by intros s|]. intros a b c H1 H2 ns' k Hne. by rewrite H2, H1. Qed.
#[local] Instance elsewhere_km_preorder ns : PreOrder (elsewhere_km ns).
Proof. split; [by intros s|]. intros a b c H1 H2. exact (transitivity (R := elsewhere ns) H1 H2). Qed.
#[local] Instance elsewhere_app_preorder ns : PreOrder (elsewhere_app ns).
Proof. split; [by intros s|]. intros a b c H1 H2. exact (transitivity (R := elsewhere ns) H1 H2). Qed.
#[local] Hint Extern 1 (PreOrder _) => apply _ : hsm.

Lemma get_elsewhere ns k : keeps (elsewhere ns) (get ns k).
Proof.
  intros s ns' k' _. unfold get. destruct (lru_get _ _) as [[key|] c]; cbn; [done|].
  destruct (keys s !! (ns, k)) as [key|]; [|done]. by destruct (check_namespace ns key).
Qed.

Lemma insert_elsewhere ns key : keeps (elsewhere ns) (insert ns key).
Proof.
  intros s ns' k' Hne. unfold insert, insert_main, bind. destruct (keys s !! (ns, id key)); [done|]. cbn.
  by rewrite lookup_insert_ne by congruence.
Qed.

Lemma update_elsewhere ns k f : keeps (elsewhere ns) (update ns k f).
Proof.
  intros s ns' k' Hne. unfold update. destruct (keys s !! (ns, k)) as [key|]; [|done].
  destruct (check_namespace ns key); [|done]. cbn. by rewrite lookup_insert_ne by congruence.
Qed.

Lemma delete_elsewhere ns k : keeps (elsewhere ns) (delete ns k).
Proof.
  intros s ns' k' Hne. unfold delete. destruct (keys s !! (ns, k)) as [key|]; [|done].
  destruct (check_namespace ns key); cbn; by rewrite lookup_delete_ne by congruence.
Qed.

Lemma on_store_elsewhere {A} ns (c : M KeyStore Error A) :
  keeps (elsewhere ns) c -> keeps (elsewhere_km ns) (@on_store Cache S A c).
Proof. intros Hc m. specialize (Hc (store m)). unfold on_store. by destruct (c (store m)). Qed.

Lemma on_storage_elsewhere {A} ns (b : S) (c : M S string A) :
  keeps (elsewhere_km ns) (@on_storage Cache S A b c).
Proof. intros m. unfold on_storage. by destruct (c b). Qed.

#[local] Hint Resolve get_elsewhere insert_elsewhere update_elsewhere delete_elsewhere on_store_elsewhere
  on_storage_elsewhere : hsm.

Lemma persist_key_elsewhere ns ns0 key : keeps (elsewhere_km ns) (persist_key ns0 key).
Proof.
  intros m. unfold persist_key. destruct (storage m) as [b|]; [|done].
  destruct (to_allocvec key); [|done]. destruct (sb_list_namespaces b); [|done].
  match goal with |- elsewhere_km _ _ (?c m).2 => enough (keeps (elsewhere_km ns) c) as H by apply H end.
  apply keeps_bind; [apply _|case_bool_decide; auto 6 with hsm|].
  intros. auto 6 with hsm.
Qed.

Lemma persist_existing_elsewhere ns k : keeps (elsewhere_km ns) (persist_existing ns k).
Proof.
  intros m. unfold persist_existing. destruct (storage m) as [b|]; [|done].
  match goal with |- elsewhere_km _ _ (?c m).2 => enough (keeps (elsewhere_km ns) c) as H by apply H end.
  apply keeps_bind; [apply _|auto with hsm|]. intros. apply persist_key_elsewhere.
Qed.

Lemma remove_persisted_elsewhere ns ns0 k : keeps (elsewhere_km ns) (remove_persisted ns0 k).
Proof. intros m. unfold remove_persisted. by destruct (storage m). Qed.

#[local] Hint Resolve persist_key_elsewhere persist_existing_elsewhere remove_persisted_elsewhere : hsm.

Lemma generate_key_elsewhere spec generated k now :
  keeps (elsewhere_km (ks_namespace spec)) (generate_key spec generated k now).
Proof. unfold generate_key, persist_and_insert. auto 8 with hsm. Qed.

Lemma get_key_elsewhere ns k now : keeps (elsewhere_km ns) (get_key k ns now).
Proof. unfold get_key. apply keeps_bind; [auto with hsm..|]. intros key. repeat case_match; auto with hsm. Qed.

Lemma get_metadata_elsewhere ns k now : keeps (elsewhere_km ns) (get_metadata k ns now).
Proof. unfold get_metadata. auto with hsm. Qed.

Lemma collect_metadata_keeps R `{!PreOrder R} ns f now ids :
  (forall k, keeps R (@on_store Cache S _ (get ns k))) -> keeps R (collect_metadata ns f now ids).
Proof. intros H. induction ids; cbn; auto 8 with hsm. Qed.

(** Looking up a key changes at most the cache. *)
Lemma get_keys ns k (s : @KeyStore Cache) : keys (get ns k s).2 = keys s.
Proof.
  unfold get. destruct (lru_get _ _) as [[key|] c]; cbn; [done|].
  destruct (keys s !! (ns, k)) as [key|]; [|done]. by destruct (check_namespace ns key).
Qed.

Lemma list_keys_elsewhere ns ns0 f now : keeps (elsewhere_km ns) (list_keys ns0 f now).
Proof.
  intros m. unfold list_keys.
  enough (keeps (elsewhere_km ns) (collect_metadata ns0 (matches_filter f) now (KeyStore.list ns0 (store m)))) as H
    by apply H.
  apply collect_metadata_keeps; [apply _|]. intros k m0 ns' k' _. unfold on_store.
  pose proof (get_keys ns0 k (store m0)) as Hk. destruct (get ns0 k (store m0)). cbn in *. by rewrite Hk.
Qed.

Lemma rotate_key_elsewhere ns k generated k' now : keeps (elsewhere_km ns) (rotate_key k ns generated k' now).
Proof.
  unfold rotate_key, update_state. apply keeps_bind; [auto with hsm..|]. intros old.
  apply keeps_bind; [auto with hsm| |auto 8 with hsm].
  apply (generate_key_elsewhere (MkKeySpec (key_type old) ns (policy old) ∅)).
Qed.

Lemma delete_key_elsewhere ns k : keeps (elsewhere_km ns) (delete_key k ns).
Proof. unfold delete_key. auto 6 with hsm. Qed.

Lemma increment_elsewhere ns k : keeps (elsewhere_km ns) (manager_increment_operations k ns).
Proof. unfold manager_increment_operations. auto with hsm. Qed.

Lemma km_elsewhere {A} ns (c : M manager Error A) : keeps (elsewhere_km ns) c -> keeps (elsewhere_app ns) (km (Value := Value) c).
Proof. intros Hc s. specialize (Hc (key_manager s)). unfold km. by destruct (c (key_manager s)). Qed.

(** Computations that leave the key manager alone. *)
Definition same_km s s' : Prop := key_manager s' = key_manager s.

Lemma same_km_elsewhere {A} ns (c : handler A) : keeps same_km c -> keeps (elsewhere_app ns) c.
Proof. intros Hc s. unfold elsewhere_app. by rewrite (Hc s). Qed.

Lemma read_keeps {A} R `{!PreOrder R} (f : AppState -> result A ApiError) : keeps R (read f).
Proof. intros s. by cbn. Qed.

Lemma or_else_keeps {A E} R `{!PreOrder R} (f : E -> ApiError) (c : handler (result A E)) :
  keeps R c -> keeps R (or_else f c).
Proof. unfold or_else. auto with hsm. Qed.

Lemma answer_with_keeps {A} R `{!PreOrder R} (f : A -> response) (c : handler A) :
  keeps R c -> keeps R (answer_with f c).
Proof. unfold answer_with. auto with hsm. Qed.

Lemma resolve_namespace_keeps (R : relation AppState) `{!PreOrder R} i q : keeps R (resolve_namespace i q).
Proof. unfold resolve_namespace. auto using read_keeps with hsm. Qed.

Lemma on_audit_same_km c : keeps same_km (on_audit c).
Proof. intros s. unfold on_audit. destruct (audit s) as [a|]; [|done]. by destruct (c a). Qed.

Lemma on_namespaces_same_km {A} (c : M (gmap string NamespaceMetadata) AuthError A) :
  keeps same_km (on_namespaces c).
Proof. intros s. unfold on_namespaces. by destruct (c (namespaces s)). Qed.

Lemma km_list_keys_elsewhere ns ns0 f now : keeps (elsewhere_app ns) (km (list_keys ns0 f now)).
Proof. apply km_elsewhere, list_keys_elsewhere. Qed.

#[local] Hint Resolve read_keeps or_else_keeps answer_with_keeps resolve_namespace_keeps on_audit_same_km
  on_namespaces_same_km same_km_elsewhere km_list_keys_elsewhere : hsm.

Lemma audit_success_elsewhere ns now t op n c k : keeps (elsewhere_app ns) (audit_success now t op n c k).
Proof. unfold audit_success. auto with hsm. Qed.

Lemma audit_failure_elsewhere ns now t op n c k e : keeps (elsewhere_app ns) (audit_failure now t op n c k e).
Proof. unfold audit_failure. auto with hsm. Qed.

#[local] Hint Resolve audit_success_elsewhere audit_failure_elsewhere : hsm.

Lemma set_acls_elsewhere ns f : keeps (elsewhere_app ns) (@modify _ ApiError (fun s => set_acls (f s) s)).
Proof. by intros s. Qed.

Lemma namespace_response_elsewhere ns name now : keeps (elsewhere_app ns) (namespace_response name now).
Proof. unfold namespace_response. auto with hsm. Qed.

Lemma namespace_responses_elsewhere ns names now : keeps (elsewhere_app ns) (namespace_responses names now).
Proof. induction names; cbn; auto using namespace_response_elsewhere with hsm. Qed.

#[local] Hint Resolve set_acls_elsewhere namespace_response_elsewhere namespace_responses_elsewhere : hsm.
#[local] Hint Unfold require_rbac require_acl parse_key_id : hsm.

(** After [resolve_namespace] the handler works in the client's namespace. *)
Lemma in_own_namespace {A} i requested (k : string -> handler A) :
  keeps (elsewhere_app (AccessControl.namespace i)) (k (AccessControl.namespace i)) ->
  keeps (elsewhere_app (AccessControl.namespace i)) (bind (resolve_namespace i requested) k).
Proof.
  intros Hk. apply keeps_bind_post; [apply _|auto with hsm|]. intros s ns s' H.
  destruct (resolve_namespace_Ok i requested s ns) as [_ Ha]; [by rewrite H|].
  unfold has_access in Ha. case_bool_decide as Hn; [|done]. by rewrite <- Hn.
Qed.

Lemma km_elsewhere_bind {A B} ns (c : M manager Error A) (k : result A Error -> handler B) :
  keeps (elsewhere_km ns) c -> (forall a, keeps (elsewhere_app ns) (k a)) -> keeps (elsewhere_app ns) (bind (km c) k).
Proof. intros. apply keeps_bind; [apply _|by apply km_elsewhere|done]. Qed.

#[local] Hint Resolve in_own_namespace km_elsewhere get_key_elsewhere get_metadata_elsewhere rotate_key_elsewhere
  delete_key_elsewhere increment_elsewhere : hsm.

(** Frames of the handlers, by their structure. *)
Ltac frame :=
  repeat first
    [ solve [auto 4 with hsm]
    | apply in_own_namespace
    | apply keeps_bind; [apply _| |intros ?]
    | apply or_else_keeps; [apply _|]
    | case_match ].

Lemma generate_elsewhere i rq generated k now :
  keeps (elsewhere_app (AccessControl.namespace i)) (rest_generate_key i rq generated k now).
Proof.
  unfold rest_generate_key. apply keeps_bind; [apply _|unfold require_rbac; auto with hsm|intros _].
  apply in_own_namespace. apply keeps_bind; [apply _|auto with hsm|intros t].
  apply keeps_bind; [apply _| |intros g; frame].
  apply km_elsewhere,
    (generate_key_elsewhere (MkKeySpec t (AccessControl.namespace i) (to_usage_policy (rq_purpose rq)) (rq_labels rq))).
Qed.

Lemma route_elsewhere r i now : keeps (elsewhere_app (AccessControl.namespace i)) (route r i now).
Proof.
  destruct r; apply answer_with_keeps; try apply _; try apply generate_elsewhere.
  - unfold rest_list_keys, require_rbac. frame.
  - unfold rest_get_key, require_rbac, require_acl, parse_key_id. frame.
  - unfold rest_delete_key, require_rbac, require_acl, parse_key_id. frame.
  - unfold rest_rotate_key, require_rbac, require_acl, parse_key_id. frame.
  - unfold sign_data, require_rbac, require_acl, parse_key_id. frame.
  - unfold verify_signature, audit_failure_ignore_ok, require_rbac, require_acl, parse_key_id. frame.
  - unfold encrypt_data, require_rbac, require_acl, parse_key_id. frame.
  - unfold decrypt_data, require_rbac, require_acl, parse_key_id. frame.
  - unfold get_audit_log, require_rbac. frame.
  - unfold me. frame.
  - unfold logout. by intros s.
  - unfold rest_list_namespaces, require_rbac. frame.
  - unfold rest_create_namespace, require_rbac. cbv zeta. frame.
  - unfold rest_get_namespace, require_rbac. frame.
  - unfold rest_delete_namespace, require_rbac. frame.
Qed.

(** C24: tenants are isolated.  Whatever a request of a client does, and whether it
    succeeds or fails, every key of every namespace other than the client's
    own stays exactly as it is.  This holds whatever access lists the
    namespaces have: a grant only restricts further who may act in the
    namespace of an identity, and does not open another one, contrary to the
    comment on [resolve_namespace]. *)
Theorem tenant_isolation (r : request) (i : ClientIdentity) (now : DateTime) (s : AppState)
    (ns : string) (k : KeyId) :
  ns <> AccessControl.namespace i ->
  keys (store (key_manager (route r i now s).2)) !! (ns, k) = keys (store (key_manager s)) !! (ns, k).
Proof. intros Hne. by apply route_elsewhere. Qed.
End safety.
