(* ===== verification/RestAudit.v ===== *)
(** * Audit records of the REST interface

    What a successful request has appended to the hash chain of the audit
    logger, kind by kind, and that no request removes or changes a record of
    that chain. *)

From Stdlib Require Import ZArith Lia Strings.Byte.
From stdpp Require Import base gmap strings list.
From S2P Require Import Prelude External Platform AesGcm Signing AuditEvent HashChain.
From S2P Require Import HashChain AuditStorage AuditLogger AsyncAudit AccessControl Sessions.
From S2P Require Import SessionManager RestApi.
From S2P Require Import KeyTypes KeyStore KeyManager RestSafety.

#[local] Abbreviation list := Datatypes.list.

Section audit.
Context {Cache : Type} {LRU : Lru CompositeKey Key Cache}.
Context {S : Type} {SB : StorageBackend S} {PC : Postcard Key}.
Context {SHA : Sha256} {HEX : Hex} {PK : PublicKeys} {SCH : SignatureSchemes} {AEAD : Aead}.
Context {Value : Type} {CHRONO : Chrono} {HMAC : Hmac}.
Context {ST : Serde EventType} {SR : Serde OperationResult} {SVal : SerdeCodec Value}.
Context {SEv : SerdeCodec (AuditEvent Value)} {SCp : Serde Checkpoint}.
Context {B64 : Base64} {UUID : Uuid} {RFC : Rfc3339}.
Context {DK : Display Error} {DA : Display AsyncAuditError} {DC : Display CryptoError}.
Abbreviation AppState := (@AppState Cache S Value).
Abbreviation manager := (@DefaultKeyManager Cache S).
Abbreviation handler := (M AppState ApiError).
Implicit Types (s : AppState) (i : ClientIdentity) (r : request) (l : AsyncAuditLogger Value).

(** ** The log of events *)

Definition trail l : list (AuditEvent Value) := events (hash_chain (core l)).

(** The records are still there; a logger stays attached. *)
Definition extended (o o' : option (AsyncAuditLogger Value)) : Prop :=
  match o, o' with
  | Some l, Some l' => trail l `prefix_of` trail l'
  | None, None => True
  | _, _ => False
  end.
Definition append_only s s' : Prop := extended (audit s) (audit s').
Definition same_audit s s' : Prop := audit s' = audit s.

#[local] Instance append_only_preorder : PreOrder append_only.
Proof.
  split; unfold append_only; [intros s; destruct (audit s); [cbn; reflexivity|done]|].
  intros a b c. destruct (audit a), (audit b), (audit c); cbn; try done. by etrans.
Qed.
#[local] Instance same_audit_preorder : PreOrder same_audit.
Proof. split; [done|]. unfold same_audit. intros a b c. congruence. Qed.
#[local] Hint Extern 1 (PreOrder _) => apply _ : hsm.

(** An event keeps its contents when it is linked into the chain. *)
Definition says (now : Z) (b : AuditEventBuilder Value) (e : AuditEvent Value) : Prop :=
  timestamp e = now /\ b_event_type b = Some (event_type e) /\ b_operation b = Some (operation e) /\
  b_namespace b = Some (AuditEvent.namespace e) /\ b_client_id b = Some (client_id e) /\
  b_key_id b = AuditEvent.key_id e /\ b_result b = Some (result_of e).

Lemma build_says now b e : b_timestamp b = Some now -> build now b = Ok e -> says now b e.
Proof.
  unfold build, says. intros ->.
  destruct (b_sequence b), (b_event_type b), (b_operation b), (b_namespace b), (b_client_id b),
    (b_result b); cbn; try done. by intros [= <-].
Qed.

Lemma async_storage_chain {A} (c : M AuditStorage StorageError A) (g : AuditLogger Value) :
  hash_chain (async_storage c g).2 = hash_chain g.
Proof. unfold async_storage. by destruct (c (AuditLogger.storage g)). Qed.

Lemma process_single_trail now b (g : AuditLogger Value) :
  let '(res, g') := process_single_event now b g in
  (events (hash_chain g') = events (hash_chain g) /\ is_ok res = false) \/
  exists e, events (hash_chain g') = events (hash_chain g) ++ [e] /\ says now b e.
Proof.
  unfold process_single_event, bind at 1 2, async_get at 1 2. cbn beta.
  unfold lift, bind at 1. destruct (build now _) as [e|err] eqn:Hb; cbn [rmap_err]; [|by left].
  apply build_says in Hb; [|done].
  unfold async_storage at 1, bind at 1. destruct (write_event e (AuditLogger.storage g)) as [[[]|err] st1];
    cbn; [|by left].
  unfold async_append, bind at 1. cbn. destruct (append e (hash_chain g)) as [h c] eqn:Ha. unfold append in Ha.
  destruct (negb (sequence e =? _)); injection Ha as <- <-; cbn; [by left|].
  unfold bind, async_get. cbn -[async_storage]. destruct (root_opt _) as [root|]; [|right; by eexists].
  match goal with |- context [async_storage ?c ?g1] => pose proof (async_storage_chain c g1) as Hc;
    destruct (async_storage c g1) as [[]] end; cbn in *; rewrite Hc; right; by eexists.
Qed.

Lemma async_log_trail now b l :
  let '(res, l') := async_log now b l in
  (trail l' = trail l /\ is_ok res = false) \/ exists e, trail l' = trail l ++ [e] /\ says now b e.
Proof.
  unfold async_log. destruct (negb (enabled _)); [by left|]. destruct (negb (sender_open l)); [by left|].
  unfold process_batch, process_requests. pose proof (process_single_trail now b (core l)) as H.
  destruct (process_single_event now b (core l)) as [res g]. unfold trail. cbn [core fst snd head default].
  by rewrite async_storage_chain.
Qed.

Lemma on_audit_append_only now b : keeps append_only (on_audit (async_log now b)).
Proof.
  intros s. unfold on_audit, append_only. destruct (audit s) as [l|] eqn:Ha; cbn; [|by rewrite Ha].
  pose proof (async_log_trail now b l) as H. destruct (async_log now b l) as [res l']. cbn.
  destruct H as [[-> _]|(e & -> & _)]; [done|]. by apply prefix_app_r.
Qed.

Lemma same_audit_append_only {A} (c : handler A) : keeps same_audit c -> keeps append_only c.
Proof. intros Hc s. unfold append_only. rewrite (Hc s). apply (append_only_preorder). Qed.

Lemma km_same_audit {A} (c : M manager Error A) : keeps same_audit (km c).
Proof. intros s. unfold km. by destruct (c (key_manager s)). Qed.

Lemma on_namespaces_same_audit {A} (c : M (gmap string NamespaceMetadata) AuthError A) :
  keeps same_audit (on_namespaces c).
Proof. intros s. unfold on_namespaces. by destruct (c (namespaces s)). Qed.

Lemma set_acls_same_audit f : keeps same_audit (@modify _ ApiError (fun s => set_acls (f s) s)).
Proof. by intros s. Qed.

#[local] Hint Resolve read_keeps or_else_keeps answer_with_keeps resolve_namespace_keeps km_same_audit
  on_namespaces_same_audit set_acls_same_audit on_audit_append_only same_audit_append_only : hsm.

Lemma audit_success_append_only now t op n c k : keeps append_only (audit_success now t op n c k).
Proof. unfold audit_success, async_log_success. auto with hsm. Qed.

Lemma audit_failure_append_only now t op n c k e : keeps append_only (audit_failure now t op n c k e).
Proof. unfold audit_failure, async_log_failure. auto with hsm. Qed.

Lemma namespace_response_same_audit name now : keeps same_audit (namespace_response name now).
Proof. unfold namespace_response. auto with hsm. Qed.

Lemma namespace_responses_same_audit names now : keeps same_audit (namespace_responses names now).
Proof. induction names; cbn; auto using namespace_response_same_audit with hsm. Qed.

#[local] Hint Resolve audit_success_append_only audit_failure_append_only namespace_response_same_audit
  namespace_responses_same_audit : hsm.

#[local] Ltac frame :=
  repeat first
    [ solve [auto 4 with hsm]
    | apply keeps_bind; [apply _| |intros ?]
    | apply or_else_keeps; [apply _|]
    | case_match ].

(** C26: the hash chain of the audit logger, which the interface serves as the
    audit log, only grows.  No request, successful or not, removes, changes or
    reorders a record of the chain or detaches the logger: the records before
    the request are a prefix of the records after it.  (The chain is kept in
    memory; of the log files, rotation drops the oldest.) *)
Theorem audit_chain_grows (r : request) (i : ClientIdentity) (now : DateTime) (s : AppState) :
  extended (audit s) (audit (route r i now s).2).
Proof.
  enough (keeps append_only (route r i now)) as H by apply H.
  destruct r; apply answer_with_keeps; try apply _.
  all: unfold rest_generate_key, rest_list_keys, rest_get_key, rest_delete_key, rest_rotate_key, sign_data,
    verify_signature, audit_failure_ignore_ok, encrypt_data, decrypt_data, get_audit_log, me,
    rest_list_namespaces, rest_create_namespace, rest_get_namespace, rest_delete_namespace, require_rbac,
    require_acl, parse_key_id; cbv zeta; try solve [frame].
  by apply same_audit_append_only.
Qed.

(** ** Successful operations are recorded *)

(** A successful run relates the records before and after as [P] says. *)
Abbreviation growth := (list (AuditEvent Value) -> list (AuditEvent Value) -> Prop).
Definition records {A} (P : growth) (c : handler A) : Prop :=
  forall s a s' l, c s = (Ok a, s') -> audit s = Some l ->
    exists l', audit s' = Some l' /\ P (trail l) (trail l').

(** Exactly one record, at most one, none. *)
Definition one (P : AuditEvent Value -> Prop) : growth := fun old new => exists e, new = old ++ [e] /\ P e.
Definition at_most_one (P : AuditEvent Value -> Prop) : growth := fun old new => new = old \/ one P old new.
Definition none : growth := fun old new => new = old.

Lemma records_post {A B} P (c : handler A) (k : A -> handler B) :
  keeps same_audit c -> (forall s a s', c s = (Ok a, s') -> records P (k a)) -> records P (bind c k).
Proof.
  intros Hc Hk s b s' l (a & s1 & H1 & H2)%bind_inv_Ok Hl. eapply Hk; [done..|].
  specialize (Hc s). rewrite H1 in Hc. by rewrite <- Hl.
Qed.

Lemma records_after {A B} P (c : handler A) (k : A -> handler B) :
  keeps same_audit c -> (forall a, records P (k a)) -> records P (bind c k).
Proof. intros Hc Hk. by apply records_post. Qed.

Lemma records_before {A B} P (c : handler A) (k : A -> handler B) :
  records P c -> (forall a, keeps same_audit (k a)) -> records P (bind c k).
Proof.
  intros Hc Hk s b s' l (a & s1 & H1 & H2)%bind_inv_Ok Hl.
  destruct (Hc _ _ _ _ H1 Hl) as (l' & Ha & HP). exists l'. split; [|done].
  specialize (Hk a s1). rewrite H2 in Hk. by rewrite <- Ha.
Qed.

Lemma records_failed {A B} P (c : handler A) e : records P (bind c (fun _ => @throw _ _ B e)).
Proof. by intros s b s' l (a & s1 & _ & [=])%bind_inv_Ok. Qed.

Lemma records_throw {A} P e : records P (@throw _ _ A e).
Proof. by intros s b s' l [=]. Qed.

Lemma records_none {A} (c : handler A) : keeps same_audit c -> records none c.
Proof. intros Hc s a s' l H Hl. specialize (Hc s). rewrite H in Hc. exists l. by rewrite <- Hl. Qed.

(** What a record says, and a record of success. *)
Definition entry (now : DateTime) (t : EventType) (op ns client : string) (k : option KeyId)
    (e : AuditEvent Value) : Prop :=
  timestamp e = now /\ event_type e = t /\ operation e = op /\ AuditEvent.namespace e = ns /\
  client_id e = client /\ AuditEvent.key_id e = k.
Definition record (now : DateTime) (t : EventType) (op ns client : string) (k : option KeyId)
    (e : AuditEvent Value) : Prop :=
  entry now t op ns client k e /\ result_of e = Success.

(** A record written as far as possible. *)
Lemma on_audit_records now b t op ns client k s (r : result unit AsyncAuditError) s' l :
  (forall e, says now b e -> entry now t op ns client k e) ->
  on_audit (async_log now b) s = (Ok r, s') -> audit s = Some l ->
  exists l', audit s' = Some l' /\ at_most_one (entry now t op ns client k) (trail l) (trail l').
Proof.
  intros Hb H Hl. unfold on_audit in H. rewrite Hl in H. pose proof (async_log_trail now b l) as Ht.
  destruct (async_log now b l) as [n l']. injection H as _ <-. exists l'. split; [done|].
  destruct Ht as [[Ht _]|(e & Ht & He)]; [by left|right]. exists e. split; [done|]. by apply Hb.
Qed.

Lemma verify_records now t op ns client k valid :
  records (at_most_one (entry now t op ns client k)) (audit_failure_ignore_ok now t op ns client k valid).
Proof.
  intros s a s' l H Hl. unfold audit_failure_ignore_ok in H. destruct valid.
  - apply bind_inv_Ok in H as (r & s1 & H & [= _ <-]). unfold attempt, audit_success, or_else, bind in H.
    destruct (on_audit _ s) as [x s2] eqn:Ho. assert (exists y, x = Ok y) as [y ->].
    { unfold on_audit in Ho. rewrite Hl in Ho. destruct (async_log_success _ _ _ _ _ _ l). injection Ho as <- _. eauto. }
    assert (s2 = s1) as -> by (by destruct y; injection H as _ <-).
    eapply on_audit_records; [|exact Ho|done]. unfold says, entry. destruct k; cbn; naive_solver.
  - apply bind_inv_Ok in H as (r & s1 & H & [= _ <-]).
    eapply on_audit_records; [|exact H|done]. unfold says, entry. destruct k; cbn; naive_solver.
Qed.

Lemma audit_success_records now t op ns client k :
  records (one (record now t op ns client k)) (audit_success now t op ns client k).
Proof.
  intros s a s' l H Hl. unfold audit_success, or_else, on_audit, bind in H. rewrite Hl in H.
  unfold async_log_success in H.
  match type of H with context [async_log now ?b l] => pose proof (async_log_trail now b l) as Hb;
    destruct (async_log now b l) as [[n|err] l'] end; [|done].
  injection H as _ <-. destruct Hb as [[_ [=]]|(e & Ht & Hs)]. exists l'. split; [done|]. exists e.
  split; [done|]. unfold says in Hs. unfold record, entry. destruct k; cbn in Hs; naive_solver.
Qed.

(** The type, operation, namespace and key of the record of a successful
    request. *)
Definition record_of i r : option (EventType * string * string * option KeyId) :=
  let own := AccessControl.namespace i in
  match r with
  | ReqGenerateKey _ _ k => Some (KeyGeneration, "generate_key", own, Some k)
  | ReqDeleteKey key_id => Some (KeyDeletion, "delete_key", own, uuid_parse key_id)
  | ReqRotateKey _ _ k => Some (KeyRotation, "rotate_key", own, Some k)
  | ReqSign key_id _ => Some (Sign, "sign", own, uuid_parse key_id)
  | ReqEncrypt key_id _ _ _ => Some (Encrypt, "encrypt", own, uuid_parse key_id)
  | ReqCreateNamespace name => Some (ConfigChange, "create_namespace", trim name, None)
  | ReqDeleteNamespace name => Some (ConfigChange, "delete_namespace", name, None)
  | _ => None
  end.

(** What a successful request appends to the chain: requests that change
    something or use a private key one record of success, a verification one
    record if the logger takes it, requests that only read none. *)
Definition recorded_growth i r (now : DateTime) : growth :=
  match r with
  | ReqVerify key_id _ =>
      at_most_one (entry now Verify "verify" (AccessControl.namespace i) (common_name i) (uuid_parse key_id))
  | _ =>
      match record_of i r with
      | Some (t, op, ns, k) => one (record now t op ns (common_name i) k)
      | None => none
      end
  end.

Lemma records_own {A} P i requested (k : string -> handler A) :
  records P (k (AccessControl.namespace i)) -> records P (bind (resolve_namespace i requested) k).
Proof.
  intros Hk. apply records_post; [auto with hsm|]. intros s ns s' H.
  destruct (resolve_namespace_Ok i requested s ns) as [_ Ha]; [by rewrite H|].
  unfold has_access in Ha. case_bool_decide as Hn; [|done]. by rewrite <- Hn.
Qed.

Lemma records_parsed {A} P key_id (k : KeyId -> handler A) :
  (forall k0, uuid_parse key_id = Some k0 -> records P (k k0)) -> records P (bind (parse_key_id key_id) k).
Proof.
  intros Hk. apply records_post; [by intros s|]. intros s k0 s' H. apply Hk.
  apply (parse_key_id_Ok key_id s). by rewrite H.
Qed.

Lemma generate_key_id spec generated k now (m : manager) k' m' :
  generate_key spec generated k now m = (Ok k', m') -> k' = k.
Proof.
  unfold generate_key, persist_and_insert.
  by intros (p & m1 & _ & (u & m2 & _ & (v & m3 & _ & [= <- <-])%bind_inv_Ok)%bind_inv_Ok)%bind_inv_Ok.
Qed.

Lemma rotate_key_id k ns generated k1 now (m : manager) k' m' :
  rotate_key k ns generated k1 now m = (Ok k', m') -> k' = k1.
Proof.
  unfold rotate_key. intros (old & m1 & _ & (k2 & m2 & H & H2)%bind_inv_Ok)%bind_inv_Ok.
  apply generate_key_id in H as ->.
  apply bind_inv_Ok in H2 as (u & m3 & _ & (v & m4 & _ & (w & m5 & _ & [= <- _])%bind_inv_Ok)%bind_inv_Ok).
  done.
Qed.

Lemma km_value {A} (c : M manager Error A) s (a : result A Error) s' :
  km c s = (Ok a, s') -> a = (c (key_manager s)).1.
Proof. unfold km. destruct (c (key_manager s)). by intros [= <- _]. Qed.

(** A new key has the id drawn for it. *)
Lemma records_new {B} P (c : M manager Error KeyId) k1 (k : result KeyId Error -> handler B) :
  (forall m k' m', c m = (Ok k', m') -> k' = k1) -> records P (k (Ok k1)) -> (forall e, records P (k (Err e))) ->
  records P (bind (km c) k).
Proof.
  intros Hc Hok Herr. apply records_post; [auto with hsm|]. intros s [k'|e] s' H; [|done].
  apply km_value in H. destruct (c (key_manager s)) as [r m] eqn:Hm. cbn in H. subst r.
  by rewrite (Hc _ _ _ Hm).
Qed.

#[local] Ltac recorded :=
  repeat first
    [ apply records_own | apply audit_success_records | apply verify_records | apply records_failed
    | apply records_parsed; intros ? ->
    | apply records_after; [solve [auto 4 with hsm]|intros ?] | case_match
    | apply records_before; [|intros ?; solve [auto 4 with hsm]] ].

End audit.
