(* ===== verification/RestKeys.v ===== *)
(** * Keys behind the REST interface

    The signatures of [sign_data] are accepted by [verify_signature].  Three
    theorems on effects that the handlers have beyond or against their
    documentation: a deletion stays when its record cannot be written, the
    key that replaces a rotated one is open to every client of the namespace,
    and the encryption does not use the key it names. *)

From Stdlib Require Import ZArith Lia Strings.Byte.
From stdpp Require Import base gmap strings list.
From S2P Require Import Prelude External Platform AesGcm Signing AuditEvent HashChain.
From S2P Require Import HashChain AuditStorage AuditLogger AsyncAudit AccessControl Sessions.
From S2P Require Import SessionManager RestApi.
From S2P Require Import KeyTypes KeyStore KeyManager Signing RestSafety RestAudit.

Section keys.
Context {Cache : Type} {LRU : Lru CompositeKey Key Cache}.
Context {S : Type} {SB : StorageBackend S} {PC : Postcard Key}.
Context {SHA : Sha256} {HEX : Hex} {PK : PublicKeys} {SCH : SignatureSchemes} {AEAD : Aead}.
Context {Value : Type} {CHRONO : Chrono} {HMAC : Hmac}.
Context {ST : Serde EventType} {SR : Serde OperationResult} {SVal : SerdeCodec Value}.
Context {SEv : SerdeCodec (AuditEvent Value)} {SCp : Serde Checkpoint}.
Context {B64 : Base64} {UUID : Uuid} {RFC : Rfc3339}.
Context {DK : Display Error} {DA : Display AsyncAuditError} {DC : Display CryptoError}.
Abbreviation AppState := (@AppState Cache S Value).
Abbreviation manager := (@DefaultKeyManager Cache S).
Abbreviation handler := (M AppState ApiError).
Implicit Types (s : AppState) (i j : ClientIdentity) (m : manager).

(** ** Guards that pass *)

Lemma require_rbac_pass {B} i p s (k : unit -> handler B) :
  can_any (rbac s) (roles i) p = true -> bind (require_rbac i p) k s = k tt s.
Proof. intros H. unfold require_rbac, read, require_any, bind. by rewrite H. Qed.

Lemma resolve_namespace_pass {B} i requested s (k : string -> handler B) :
  has_access (namespaces s) i (default (AccessControl.namespace i) requested) = true ->
  bind (resolve_namespace i requested) k s = k (default (AccessControl.namespace i) requested) s.
Proof. intros H. unfold resolve_namespace, read, require_access, bind. by rewrite H. Qed.

Lemma parse_key_id_pass {B} key_id k0 s (k : KeyId -> handler B) :
  uuid_parse key_id = Some k0 -> bind (parse_key_id key_id) k s = k k0 s.
Proof. intros H. unfold parse_key_id, lift, bind. by rewrite H. Qed.

Lemma require_acl_pass {B} i key_id p s (k : unit -> handler B) :
  can_access_with_permission (acls s) key_id i p = true -> bind (require_acl i key_id p) k s = k tt s.
Proof. intros H. unfold require_acl, read, require_access_with_permission, bind. by rewrite H. Qed.

(** What authorization for a key amounts to. *)
Lemma authorized_key s i r p key_id k :
  needs r = Some p -> home r = Some None -> subject r = Some key_id -> uuid_parse key_id = Some k ->
  authorized s i r = true ->
  can_any (rbac s) (roles i) p = true /\ has_access (namespaces s) i (AccessControl.namespace i) = true /\
  can_access_with_permission (acls s) k i p = true.
Proof.
  intros Hn Hh Hs Hu. unfold authorized. rewrite Hn, Hh, Hs, Hu. cbn.
  by intros [[? ?]%andb_true_iff ?]%andb_true_iff.
Qed.

(** Writing a record changes only the log. *)
Lemma audit_success_only now t op n c k s :
  let s' := (audit_success now t op n c k s).2 in s' = set_audit (audit s') s.
Proof.
  unfold audit_success, or_else, bind, on_audit, lift. destruct (audit s) as [l|] eqn:Ha; cbn.
  - unfold async_log_success. destruct (async_log _ _ l) as [[]]; by destruct s.
  - destruct s. cbn in *. by subst.
Qed.

(** ** Signatures *)

Lemma sign_with_verifies key sk pk data sig alg :
  import_public (key_type key) (key_bytes sk) = Ok pk -> sign_with key sk data = Ok (sig, alg) ->
  verify_with key pk data sig = Ok true.
Proof.
  unfold sign_with, verify_with. intros Hp. pose proof Hp as Hp'.
  destruct (key_type key); cbv zeta beta; try done; cbn in Hp'.
  1-3: destruct (sign_pkcs1v15_sha256 sk data) as [x|] eqn:Hs; [|done]; intros [= -> _];
    apply rbind_Ok in Hp' as ([n q] & Hq%rmap_err_Ok & Hp'); cbn in Hp'; case_match; [|done];
    apply rmap_err_Ok in Hp' as ->; by rewrite (rsa_sign_verify sk n pk data sig).
  - destruct (sign_p256 sk data) as [x|] eqn:Hs; [|done]. intros [= -> _].
    apply rbind_Ok in Hp' as (_ & _ & Hp'%rmap_err_Ok). unfold verify_p256.
    by rewrite (ecdsa_sign_verify P256 sk pk data sig).
  - destruct (sign_p384 sk data) as [x|] eqn:Hs; [|done]. intros [= -> _].
    apply rbind_Ok in Hp' as (_ & _ & Hp'%rmap_err_Ok). unfold verify_p384.
    by rewrite (ecdsa_sign_verify P384 sk pk data sig).
  - destruct (ed25519_sign sk data) as [x|] eqn:Hs; [|done]. intros [= -> _].
    by rewrite (ed25519_sign_verify sk pk data sig).
Qed.

(** A request passes its guards only when it is authorized. *)
Lemma route_authorized r i now s a s' : route r i now s = (Ok a, s') -> authorized s i r = true.
Proof.
  intros H. destruct (authorized s i r) eqn:Ha; [done|].
  destruct (unauthorized_refused s i r now Ha) as [e He]. by rewrite H in He.
Qed.

(** What a successful [sign_data] has done. *)
Lemma sign_data_Ok i key_id rq now s resp s' :
  coherent (store (key_manager s)) -> sign_data i key_id rq now s = (Ok resp, s') ->
  exists data k key sk sig alg,
    b64_decode (sg_data rq) = Ok data /\ uuid_parse key_id = Some k /\
    keys (store (key_manager s)) !! (AccessControl.namespace i, k) = Some key /\ usable now key = true /\
    private_material key = Some sk /\ sign_with key sk data = Ok (sig, alg) /\
    resp = MkSignResponse (b64_encode sig) alg /\
    coherent (store (key_manager s')) /\
    keys (store (key_manager s')) !! (AccessControl.namespace i, k) = Some (increment_operations key) /\
    rbac s' = rbac s /\ namespaces s' = namespaces s /\ acls s' = acls s.
Proof.
  intros Hco H.
  assert (authorized s i (ReqSign key_id rq) = true) as Ha.
  { eapply (route_authorized _ _ now _ (ResSigned resp) s'). cbn. unfold answer_with, bind. by rewrite H. }
  unfold authorized in Ha. cbn in Ha.
  destruct (uuid_parse key_id) as [k|] eqn:Hk; [|by rewrite andb_false_r in Ha].
  apply andb_true_iff in Ha as [[Ha1 Ha2]%andb_true_iff Ha3].
  unfold sign_data in H. rewrite require_rbac_pass, resolve_namespace_pass in H by done.
  apply bind_inv_Ok in H as (data & s1 & Hd & H). injection Hd as Hd <-. apply rmap_err_Ok in Hd.
  rewrite (parse_key_id_pass _ k), require_acl_pass in H by done.
  apply bind_inv_Ok in H as (key & s1 & Hg & H). unfold or_else, km, bind in Hg.
  destruct (get_key k _ now (key_manager s)) as [[key'|e] m1] eqn:Hgk; [|done]. injection Hg as -> <-.
  apply get_key_Ok in Hgk as (Hkey & Hu & Hco1 & Hks1); [|done].
  apply bind_inv_Ok in H as (sk & s1 & Hsk & H). unfold lift in Hsk.
  destruct (private_material key) as [sk'|] eqn:Hpm; [|done]. injection Hsk as -> <-.
  destruct (sign_with key sk data) as [[sig alg]|e] eqn:Hsw; [|by apply bind_inv_Ok in H as (? & ? & _ & [=])].
  apply bind_inv_Ok in H as (u & s1 & Hi & H). unfold km in Hi. cbn in Hi.
  destruct (increment_store (AccessControl.namespace i) k m1 key Hco1) as (Hco2 & Hk2); [by rewrite Hks1|].
  destruct (manager_increment_operations k _ m1) as [ri m2]. injection Hi as _ <-.
  apply bind_inv_Ok in H as (v & s1 & Hau & [= <- <-]).
  pose proof (audit_success_only now Sign "sign" (AccessControl.namespace i) (common_name i) (Some k)
    (set_key_manager m2 (set_key_manager m1 s))) as Ho.
  cbn [default] in Hau. rewrite Hau in Ho. cbn in Ho. rewrite Ho.
  by exists data, k, key, sk, sig, alg.
Qed.

(** Signing and verifying round-trip through the interface.  When [sign_data]
    returns a signature over some data under a key whose public part belongs
    to its private part, then [verify_signature] with the returned text, asked
    later by any client who may view the key, answers that it is valid, as
    long as the key can still be used. *)
Theorem signed_verifies (i j : ClientIdentity) (key_id : string) (rq : SignRequest) (now now' : DateTime)
    (s s' : AppState) (resp : SignResponse) (k : KeyId) (key : Key) :
  coherent (store (key_manager s)) -> uuid_parse key_id = Some k ->
  keys (store (key_manager s)) !! (AccessControl.namespace i, k) = Some key -> paired key ->
  sign_data i key_id rq now s = (Ok resp, s') ->
  AccessControl.namespace j = AccessControl.namespace i ->
  usable now' (increment_operations key) = true ->
  let vq := MkVerifyRequest (sg_data rq) (sg_signature resp) in
  authorized s j (ReqVerify key_id vq) = true ->
  exists s'', verify_signature j key_id vq now' s' = (Ok (MkVerifyResponse true), s'').
Proof.
  intros Hco Hk Hkey (sk & pk & Hsk & Hpk & Himp) H Hns Hu vq Ha.
  apply sign_data_Ok in H as (data & k0 & key0 & sk0 & sig & alg & Hd & Hk0 & Hkey0 & _ & Hsk0 & Hsw & -> &
    Hco' & Hkey' & Hr' & Hn' & Ha'); [|done].
  assert (k0 = k) as -> by congruence. assert (key0 = key) as -> by congruence.
  assert (sk0 = sk) as -> by congruence.
  eapply (authorized_key s j (ReqVerify key_id vq)) in Ha as (G1 & G2 & G3); [|done..].
  unfold verify_signature. rewrite require_rbac_pass, resolve_namespace_pass by (by rewrite ?Hr', ?Hn').
  unfold decode_field, vq. cbn [vf_data vf_signature sg_signature]. rewrite Hd, b64_decode_encode.
  unfold lift at 1, bind at 1. cbn [rmap_err]. unfold lift at 1, bind at 1. cbn [rmap_err].
  rewrite (parse_key_id_pass _ k), require_acl_pass by (by rewrite ?Ha'). cbn [default]. rewrite Hns.
  destruct (get_key_usable (AccessControl.namespace i) k now' (key_manager s') (increment_operations key))
    as (m' & Hg & _ & _); [done..|].
  unfold or_else, km, bind at 1 2. rewrite Hg. unfold lift at 1, bind at 1. cbn [rmap_err].
  change (public_material (increment_operations key)) with (public_material key). rewrite Hpk.
  unfold lift at 1, bind at 1.
  change (verify_with (increment_operations key)) with (verify_with key).
  rewrite (sign_with_verifies key sk pk data sig alg) by done. unfold bind, audit_failure_ignore_ok, attempt.
  unfold lift, bind. cbn -[audit_success].
  match goal with |- context [audit_success ?a ?b ?c ?d ?e ?f ?g] => destruct (audit_success a b c d e f g) end.
  by eexists.
Qed.

(** ** Gaps *)

(** A deletion is not undone when its record cannot be written.  With a logger
    that has been shut down, an authorized deletion of a usable key answers
    with an error and records nothing, but the key is gone. *)
Theorem unrecorded_deletion (i : ClientIdentity) (key_id : string) (k : KeyId) (key : Key) (now : DateTime)
    (s : AppState) (l : AsyncAuditLogger Value) :
  coherent (store (key_manager s)) -> uuid_parse key_id = Some k ->
  keys (store (key_manager s)) !! (AccessControl.namespace i, k) = Some key ->
  authorized s i (ReqDeleteKey key_id) = true -> audit s = Some l -> sender_open l = false ->
  exists e s', rest_delete_key i key_id now s = (Err e, s') /\
    keys (store (key_manager s')) !! (AccessControl.namespace i, k) = None /\ audit s' = audit s.
Proof.
  intros Hco Hk Hkey Ha Hl Hclosed.
  eapply (authorized_key s i (ReqDeleteKey key_id)) in Ha as (G1 & G2 & G3); [|done..].
  unfold rest_delete_key. rewrite require_rbac_pass, resolve_namespace_pass, (parse_key_id_pass _ k),
    require_acl_pass by done. cbn [default].
  unfold km, delete_key, bind at 1 2, on_store.
  destruct (delete_spec (AccessControl.namespace i) k (store (key_manager s)) Hco) as (Hr & Hks & _).
  unfold t_delete in Hr, Hks. rewrite Hkey in Hr, Hks. cbn in Hr, Hks.
  destruct (delete _ k (store (key_manager s))) as [res st]. cbn in Hr, Hks. subst res.
  unfold remove_persisted. cbn [storage store].
  unfold bind at 1, modify at 1, audit_success, or_else, bind, on_audit.
  destruct (storage (key_manager s)); cbn; rewrite Hl; unfold async_log_success, async_log;
    rewrite Hclosed; destruct (negb (enabled _)); cbn; eexists _, _; (split; [done|]); cbn;
    by rewrite Hks, lookup_delete_eq.
Qed.

(** Rotation drops the access rules of a key.  The key that a successful
    rotation puts in place of the old one admits every client for every
    permission, even clients that the old key denies, and whatever the old
    key requires. *)
Theorem rotation_drops_rules (i j : ClientIdentity) (key_id : string) generated (k : KeyId) (now : DateTime)
    (s s' : AppState) (resp : GenerateKeyResponse) (p : Permission) :
  rest_rotate_key i key_id generated k now s = (Ok resp, s') ->
  rs_key_id resp = k /\ can_access_with_permission (acls s') k j p = true.
Proof.
  unfold rest_rotate_key. intros H.
  apply bind_inv_Ok in H as (? & s1 & _ & (ns & s2 & _ & (k0 & s3 & _ & (? & s4 & _ & H)%bind_inv_Ok)
    %bind_inv_Ok)%bind_inv_Ok).
  apply bind_inv_Ok in H as (? & s5 & _ & (g & s6 & Hg & H)%bind_inv_Ok).
  destruct g as [k'|e]; [|by apply bind_inv_Ok in H as (? & ? & _ & [=])].
  apply km_value in Hg. destruct (rotate_key k0 ns generated k now (key_manager s5)) as [res m] eqn:Hr.
  cbn in Hg. subst res. apply rotate_key_id in Hr as ->.
  apply bind_inv_Ok in H as (key & s7 & _ & (? & s8 & [= <- <-] & (? & s9 & Hau & [= <- <-])%bind_inv_Ok)
    %bind_inv_Ok).
  split; [done|].
  match type of Hau with audit_success ?t ?a ?b ?c ?d ?e ?st = _ =>
    pose proof (audit_success_only t a b c d e st) as Ho; rewrite Hau in Ho end.
  cbn in Ho. rewrite Ho. unfold can_access_with_permission. cbn. by rewrite lookup_insert_eq.
Qed.

(** Computations that do not depend on the key manager. *)
Definition blind {A} (c : handler A) : Prop :=
  forall m s, c (set_key_manager m s) = ((c s).1, set_key_manager m (c s).2).

Lemma blind_bind {A B} (c : handler A) (k : A -> handler B) :
  blind c -> (forall a, blind (k a)) -> blind (bind c k).
Proof. intros Hc Hk m s. unfold bind. rewrite Hc. destruct (c s) as [[a|e] s1]; cbn; [apply Hk|done]. Qed.

Lemma blind_on_audit c : blind (on_audit c).
Proof. intros m s. unfold on_audit. cbn. destruct (audit s) as [l|]; [|done]. by destruct (c l). Qed.

(** The answer of an encryption is the same with any store of keys: it does
    not depend on the key it is asked for, not even on its existence. *)
Lemma encrypt_ignores_keys i key_id rq fill_key fill now : blind (encrypt_data i key_id rq fill_key fill now).
Proof.
  unfold encrypt_data, resolve_namespace.
  repeat first [done | apply blind_on_audit | apply blind_bind; [|intros ?] | progress unfold audit_success, audit_failure, or_else
    | case_match ].
Qed.
End keys.
