(* ===== verification/Webhooks.v ===== *)
(** * Webhooks

    [crates/webhooks/src]: event types, filters, the registry, signatures,
    delivery with retries behind a circuit breaker per URL, and the dispatcher;
    and the handlers for webhooks of [crates/rest-api/src/handlers.rs].

    Arguments that stand for effects: [now], the clock; [net], the outcome of
    each HTTP request; [jitter], the random part of each pause; ids.  URLs are
    parsed by the package [url], the parameter [UrlParser].  Payloads are UTF-8
    as the JSON of an event is.  Deliveries of one event, which run as tasks,
    are modelled one after the other. *)

From Stdlib Require Import ZArith Lia Strings.Byte.
From stdpp Require Import base gmap strings list sorting.
From S2P Require Import Prelude External Platform AesGcm KeyTypes KeyStore KeyManager.
From S2P Require Import AuditEvent AccessControl Sessions SessionManager AsyncAudit RestApi.

#[local] Abbreviation list := Datatypes.list.

(** ** Events ([lib.rs]) *)

Inductive WebhookEventType :=
| KeyCreated | KeyDeleted | KeyRotated | KeyUsed | KeyExported
| SessionCreated | SessionExpired | SessionRevoked
| PolicyViolated | PolicyUpdated
| BackupStarted | BackupCompleted | BackupFailed
| SystemStartup | SystemShutdown
| AuthenticationFailed | AuthorizationDenied | RateLimitExceeded
| TestEvent.
#[export] Instance WebhookEventType_eq_dec : EqDecision WebhookEventType.
Proof. solve_decision. Defined.
Definition event_as_str (t : WebhookEventType) : string :=
  match t with
  | KeyCreated => "key.created" | KeyDeleted => "key.deleted" | KeyRotated => "key.rotated" | KeyUsed => "key.used"
  | KeyExported => "key.exported" | SessionCreated => "session.created" | SessionExpired => "session.expired"
  | SessionRevoked => "session.revoked" | PolicyViolated => "policy.violated" | PolicyUpdated => "policy.updated"
  | BackupStarted => "backup.started" | BackupCompleted => "backup.completed" | BackupFailed => "backup.failed"
  | SystemStartup => "system.startup" | SystemShutdown => "system.shutdown"
  | AuthenticationFailed => "security.auth_failed" | AuthorizationDenied => "security.authz_denied"
  | RateLimitExceeded => "security.rate_limited" | TestEvent => "webhook.test"
  end.
Definition event_parse (s : string) : option WebhookEventType :=
  if decide (s = "key.created") then Some KeyCreated else if decide (s = "key.deleted") then Some KeyDeleted
  else if decide (s = "key.rotated") then Some KeyRotated else if decide (s = "key.used") then Some KeyUsed
  else if decide (s = "key.exported") then Some KeyExported else if decide (s = "session.created") then Some SessionCreated
  else if decide (s = "session.expired") then Some SessionExpired else if decide (s = "session.revoked") then Some SessionRevoked
  else if decide (s = "policy.violated") then Some PolicyViolated else if decide (s = "policy.updated") then Some PolicyUpdated
  else if decide (s = "backup.started") then Some BackupStarted else if decide (s = "backup.completed") then Some BackupCompleted
  else if decide (s = "backup.failed") then Some BackupFailed else if decide (s = "system.startup") then Some SystemStartup
  else if decide (s = "system.shutdown") then Some SystemShutdown
  else if decide (s = "security.auth_failed") then Some AuthenticationFailed
  else if decide (s = "security.authz_denied") then Some AuthorizationDenied
  else if decide (s = "security.rate_limited") then Some RateLimitExceeded
  else if decide (s = "webhook.test") then Some TestEvent else None.
Definition event_all : list WebhookEventType :=
  [KeyCreated; KeyDeleted; KeyRotated; KeyUsed; KeyExported; SessionCreated; SessionExpired; SessionRevoked; PolicyViolated;
   PolicyUpdated; BackupStarted; BackupCompleted; BackupFailed; SystemStartup; SystemShutdown; AuthenticationFailed;
   AuthorizationDenied; RateLimitExceeded; TestEvent].
(** [serde_json::Value]; a number is its text. *)
Inductive Json :=
| JNull | JBool (b : bool) | JNumber (text : string) | JString (s : string)
| JArray (l : list Json) | JObject (l : list (string * Json)).
Record WebhookEvent := MkWebhookEvent {
  we_id : string;
  we_type : WebhookEventType;
  we_timestamp : DateTime;
  we_namespace : string;
  we_data : Json
}.
Definition webhook_event_new (id : string) (t : WebhookEventType) (ns : string) (data : Json) (now : DateTime) : WebhookEvent :=
  MkWebhookEvent id t now ns data.

(** ** Filters ([filter.rs]) *)

Inductive EventSeverity := SevDebug | SevInfo | SevWarning | SevError | SevCritical.
Definition severity_level (s : EventSeverity) : Z :=
  match s with SevDebug => 0 | SevInfo => 1 | SevWarning => 2 | SevError => 3 | SevCritical => 4 end.
(** The hash sets are lists of their elements. *)
Record EventFilter := MkEventFilter {
  include_events : list WebhookEventType;
  exclude_events : list WebhookEventType;
  include_namespaces : list string;
  exclude_namespaces : list string;
  min_severity : option EventSeverity
}.
Definition filter_all : EventFilter := MkEventFilter [] [] [] [] None.
Definition filter_events (es : list WebhookEventType) : EventFilter := MkEventFilter (remove_dups es) [] [] [] None.
Definition include_event (e : WebhookEventType) (f : EventFilter) : EventFilter :=
  MkEventFilter (remove_dups (e :: include_events f)) (exclude_events f) (include_namespaces f) (exclude_namespaces f) (min_severity f).
Definition exclude_event (e : WebhookEventType) (f : EventFilter) : EventFilter :=
  MkEventFilter (include_events f) (remove_dups (e :: exclude_events f)) (include_namespaces f) (exclude_namespaces f) (min_severity f).
Definition include_namespace (n : string) (f : EventFilter) : EventFilter :=
  MkEventFilter (include_events f) (exclude_events f) (remove_dups (n :: include_namespaces f)) (exclude_namespaces f) (min_severity f).
Definition exclude_namespace (n : string) (f : EventFilter) : EventFilter :=
  MkEventFilter (include_events f) (exclude_events f) (include_namespaces f) (remove_dups (n :: exclude_namespaces f)) (min_severity f).
Definition with_min_severity (s : EventSeverity) (f : EventFilter) : EventFilter :=
  MkEventFilter (include_events f) (exclude_events f) (include_namespaces f) (exclude_namespaces f) (Some s).
Definition filter_matches (t : WebhookEventType) (ns : string) (f : EventFilter) : bool :=
  if bool_decide (t ∈ exclude_events f) then false
  else if negb (bool_decide (include_events f = [])) && negb (bool_decide (t ∈ include_events f)) then false
  else if bool_decide (ns ∈ exclude_namespaces f) then false
  else if negb (bool_decide (include_namespaces f = [])) && negb (bool_decide (ns ∈ include_namespaces f)) then false
  else true.
Definition matches_with_severity (t : WebhookEventType) (ns : string) (s : EventSeverity) (f : EventFilter) : bool :=
  match min_severity f with
  | Some m => if severity_level s <? severity_level m then false else filter_matches t ns f
  | None => filter_matches t ns f
  end.
Definition event_severity (t : WebhookEventType) : EventSeverity :=
  match t with
  | PolicyViolated | AuthenticationFailed | AuthorizationDenied | BackupFailed => SevCritical
  | KeyDeleted | SessionRevoked | RateLimitExceeded => SevWarning
  | KeyUsed => SevDebug
  | _ => SevInfo
  end.
Definition security_only : EventFilter :=
  filter_events [AuthenticationFailed; AuthorizationDenied; PolicyViolated; RateLimitExceeded; KeyDeleted; KeyExported].
Definition key_lifecycle : EventFilter := filter_events [KeyCreated; KeyDeleted; KeyRotated; KeyExported].
Definition backup_events : EventFilter := filter_events [BackupStarted; BackupCompleted; BackupFailed].
Definition system_events : EventFilter := filter_events [SystemStartup; SystemShutdown].
Definition high_severity : EventFilter := with_min_severity SevWarning filter_all.

(** ** Configuration ([config.rs]) *)

(** Custom headers are listed in the order in which the map yields them. *)
Record WebhookConfig := MkWebhookConfig {
  wc_url : string;
  wc_secret : string;
  wc_timeout : Duration;
  max_retries : Z;
  retry_delay : Duration;
  wc_enabled : bool;
  wc_headers : list (string * string)
}.
Definition webhook_config_new (url secret : string) : WebhookConfig :=
  MkWebhookConfig url secret (nanos 30) 3 (nanos 1) true [].
Definition set_wc_enabled (b : bool) (c : WebhookConfig) : WebhookConfig :=
  MkWebhookConfig (wc_url c) (wc_secret c) (wc_timeout c) (max_retries c) (retry_delay c) b (wc_headers c).

Inductive IpAddr := V4 (a b c d : Z) | V6 (segments : list Z).
Definition is_private_ip (ip : IpAddr) : bool :=
  match ip with
  | V4 a b c d =>
      (a =? 10) || ((a =? 172) && ((16 <=? b) && (b <=? 31))) || ((a =? 192) && (b =? 168)) || (a =? 127) ||
      ((a =? 169) && (b =? 254)) || ((a =? 0) && (b =? 0) && (c =? 0) && (d =? 0))
  | V6 s => bool_decide (s = [0; 0; 0; 0; 0; 0; 0; 1]) || bool_decide (s = [0; 0; 0; 0; 0; 0; 0; 0])
  end.
(** The package [url]: the scheme and the host of a URL.  [host_str] writes an
    IPv6 address in brackets, and a domain never is the text of an address. *)
Inductive UrlHost := Domain (name : string) | Ipv4Host (a b c d : Z) | Ipv6Host (segments : list Z) (text : string).
Class UrlParser := { url_parse : string -> result (string * option UrlHost) string }.
Definition host_str (h : UrlHost) : string :=
  match h with
  | Domain name => name
  | Ipv4Host a b c d => to_decimal a +:+ "." +:+ to_decimal b +:+ "." +:+ to_decimal c +:+ "." +:+ to_decimal d
  | Ipv6Host _ text => "[" +:+ text +:+ "]"
  end.
(** [host_str().parse::<IpAddr>()]: brackets are no part of an address. *)
Definition parse_host_ip (h : UrlHost) : option IpAddr :=
  match h with Ipv4Host a b c d => Some (V4 a b c d) | _ => None end.
Definition validate_url `{UrlParser} (url : string) : result unit string :=
  match url_parse url with
  | Err e => Err ("Invalid URL: " +:+ e)
  | Ok (scheme, host) =>
      if negb (bool_decide (scheme = "https")) then Err "URL scheme must be https"
      else
        match host with
        | None => Err "URL must have a hostname"
        | Some h =>
            let name := host_str h in
            if match parse_host_ip h with Some ip => is_private_ip ip | None => false end
            then Err ("URL hostname resolves to private IP range: " +:+ name)
            else if bool_decide (name = "localhost") || bool_decide (is_Some (strip_suffix ".local" name)) ||
                    bool_decide (is_Some (strip_suffix ".internal" name))
            then Err ("URL hostname is not allowed: " +:+ name)
            else Ok tt
        end
  end.
Definition validate_webhook `{UrlParser} (c : WebhookConfig) : result unit string :=
  if bool_decide (wc_url c = EmptyString) then Err "URL cannot be empty"
  else
    let? _ := validate_url (wc_url c) in
    if (String.length (wc_secret c) <? 16)%nat then Err "Secret must be at least 16 characters" else Ok tt.

(** ** Signatures ([signature.rs]) *)

Fixpoint xor_all (acc : Z) (xs ys : bytes) : Z :=
  match xs, ys with
  | x :: xs', y :: ys' => xor_all (Z.lor acc (Z.lxor (byte_to_Z x) (byte_to_Z y))) xs' ys'
  | _, _ => acc
  end.
Definition constant_time_compare (a b : string) : bool :=
  if negb (String.length a =? String.length b)%nat then false else xor_all 0 (as_bytes a) (as_bytes b) =? 0.
(** [i64::to_string] *)
Definition to_signed_decimal (n : Z) : string := if n <? 0 then "-" +:+ to_decimal (- n) else to_decimal n.

Section signature.
Context {HMAC : Hmac} {HEX : Hex}.
Definition webhook_sign (secret payload : string) : string :=
  "sha256=" +:+ hex_encode (hmac_sha256 (as_bytes secret) (as_bytes payload)).
Definition sign_with_timestamp (secret payload : string) (timestamp : Z) : string :=
  webhook_sign secret (to_signed_decimal timestamp +:+ "." +:+ payload).
Definition webhook_verify (secret payload signature : string) : bool :=
  constant_time_compare (webhook_sign secret payload) signature.
Definition verify_with_timestamp (secret payload : string) (timestamp : Z) (signature : string) : bool :=
  constant_time_compare (sign_with_timestamp secret payload timestamp) signature.
Definition verify_fresh (secret payload : string) (timestamp : Z) (signature : string) (max_age now : Z) : bool :=
  let age := now - timestamp in
  if (age <? 0) || (max_age <? age) then false else verify_with_timestamp secret payload timestamp signature.
End signature.

(** ** The registry ([registry.rs])

    Counters wrap around; [is_healthy], which computes with floating point
    numbers and is not consulted, is left out. *)

Record Webhook := MkWebhook {
  wh_id : string;
  wh_name : string;
  wh_description : option string;
  wh_config : WebhookConfig;
  wh_filter : EventFilter;
  wh_created_at : DateTime;
  last_delivery : option DateTime;
  delivery_count : Z;
  success_count : Z;
  failure_count : Z;
  wh_owner : string
}.
Definition webhook_new (id name : string) (config : WebhookConfig) (owner : string) (now : DateTime) : Webhook :=
  MkWebhook id name None config filter_all now None 0 0 0 owner.
Definition with_filter (f : EventFilter) (w : Webhook) : Webhook :=
  MkWebhook (wh_id w) (wh_name w) (wh_description w) (wh_config w) f (wh_created_at w) (last_delivery w)
    (delivery_count w) (success_count w) (failure_count w) (wh_owner w).
Definition with_config (c : WebhookConfig) (w : Webhook) : Webhook :=
  MkWebhook (wh_id w) (wh_name w) (wh_description w) c (wh_filter w) (wh_created_at w) (last_delivery w)
    (delivery_count w) (success_count w) (failure_count w) (wh_owner w).
Definition count_delivery (success : bool) (now : DateTime) (w : Webhook) : Webhook :=
  MkWebhook (wh_id w) (wh_name w) (wh_description w) (wh_config w) (wh_filter w) (wh_created_at w) (Some now)
    (wrap 64 (delivery_count w + 1))
    (if success then wrap 64 (success_count w + 1) else success_count w)
    (if success then failure_count w else wrap 64 (failure_count w + 1)) (wh_owner w).

Abbreviation WebhookRegistry := (gmap string Webhook).
Definition webhook_register (w : Webhook) (r : WebhookRegistry) : WebhookRegistry := <[wh_id w := w]> r.
Definition webhook_update (id : string) (f : Webhook -> Webhook) (r : WebhookRegistry) : option Webhook * WebhookRegistry :=
  match r !! id with
  | None => (None, r)
  | Some w => (Some (f w), <[id := f w]> r)
  end.
Definition webhook_delete (id : string) (r : WebhookRegistry) : option Webhook * WebhookRegistry := (r !! id, base.delete id r).
Definition webhook_list (r : WebhookRegistry) : list Webhook := (map_to_list r).*2.
Definition list_by_owner (owner : string) (r : WebhookRegistry) : list Webhook :=
  filter (fun w => wh_owner w = owner) (webhook_list r).
Definition get_matching (t : WebhookEventType) (ns : string) (r : WebhookRegistry) : list Webhook :=
  filter (fun w => wc_enabled (wh_config w) && filter_matches t ns (wh_filter w) = true) (webhook_list r).
Definition record_delivery (id : string) (success : bool) (now : DateTime) (r : WebhookRegistry) : WebhookRegistry :=
  (webhook_update id (count_delivery success now) r).2.
Definition webhook_enable (id : string) (r : WebhookRegistry) : bool * WebhookRegistry :=
  let '(w, r') := webhook_update id (fun w => with_config (set_wc_enabled true (wh_config w)) w) r in
  (bool_decide (is_Some w), r').
Definition webhook_disable (id : string) (r : WebhookRegistry) : bool * WebhookRegistry :=
  let '(w, r') := webhook_update id (fun w => with_config (set_wc_enabled false (wh_config w)) w) r in
  (bool_decide (is_Some w), r').
Definition count_enabled (r : WebhookRegistry) : nat :=
  length (filter (fun w => wc_enabled (wh_config w) = true) (webhook_list r)).


(** ** Delivery ([delivery.rs]) *)

(** [Timeout], [MaxRetriesExceeded] and [CircuitBreakerOpen] are never made. *)
Inductive DeliveryError :=
| HttpError (e : string)
| Timeout
| InvalidResponse (status : Z) (message : string)
| MaxRetriesExceeded (attempts : Z)
| CircuitBreakerOpen (url : string).
Definition delivery_error_to_string (e : DeliveryError) : string :=
  match e with
  | HttpError e => "HTTP error: " +:+ e
  | Timeout => "Request timeout"
  | InvalidResponse status message => "Invalid response: " +:+ to_decimal status +:+ " - " +:+ message
  | MaxRetriesExceeded attempts => "Max retries exceeded after " +:+ to_decimal attempts +:+ " attempts"
  | CircuitBreakerOpen url => "Circuit breaker open for URL: " +:+ url
  end.
Inductive DeliveryStatus := Success | Failed | PendingRetry.
#[export] Instance DeliveryStatus_eq_dec : EqDecision DeliveryStatus.
Proof. solve_decision. Defined.
Record DeliveryResult := MkDeliveryResult {
  dr_webhook_id : string;
  dr_event_id : string;
  dr_status : DeliveryStatus;
  http_status : option Z;
  dr_attempt : Z;
  dr_timestamp : DateTime;
  duration_ms : Z;
  dr_error : option string
}.
Record HttpRequest := MkHttpRequest { hr_url : string; hr_headers : list (string * string); hr_body : bytes }.

(** One request seen from outside: the clock before it, the answer (an error,
    or a status with a body unless that cannot be read), the time it took, the
    clock after it, and the draw for the pause that follows. *)
Record Exchange := MkExchange {
  x_start : DateTime;
  x_answer : result (Z * option string) string;
  x_elapsed : Duration;
  x_end : DateTime;
  x_draw : Z
}.
(** [DateTime::timestamp]: seconds, rounded down. *)
Definition unix_seconds (t : DateTime) : Z := t / 1000000000.

Record CircuitState := MkCircuitState { consecutive_failures : Z; last_failure_time : Z; is_open : bool }.
Definition circuit_new : CircuitState := MkCircuitState 0 0 false.
Definition CIRCUIT_BREAKER_THRESHOLD : Z := 5.
Definition CIRCUIT_BREAKER_COOLDOWN_SECS : Z := 60.
Definition MAX_BACKOFF : Duration := nanos 30.
Abbreviation Circuits := (gmap string CircuitState).

Definition is_circuit_open (url : string) (now : DateTime) (cb : Circuits) : bool :=
  match cb !! url with
  | Some state => is_open state && (unix_seconds now - last_failure_time state <? CIRCUIT_BREAKER_COOLDOWN_SECS)
  | None => false
  end.
Definition record_success (url : string) (cb : Circuits) : Circuits := <[url := circuit_new]> cb.
Definition record_failure (url : string) (now : DateTime) (cb : Circuits) : Circuits :=
  let state := default circuit_new (cb !! url) in
  let failures := wrap 32 (consecutive_failures state + 1) in
  <[url := MkCircuitState failures (unix_seconds now)
             (if CIRCUIT_BREAKER_THRESHOLD <=? failures then true else is_open state)]> cb.

(** [StatusCode::is_success] *)
Definition is_success (status : Z) : bool := (200 <=? status) && (status <? 300).
(** [Duration * 2]; [None] is the panic beyond [u64::MAX] seconds. *)
Definition duration_double (d : Duration) : option Duration := if d * 2 <? nanos (2 ^ 64) then Some (d * 2) else None.

Section delivery.
Context {HMAC : Hmac} {HEX : Hex} {SE : SerdeCodec WebhookEvent}.

(** The request that is sent, and what becomes of it; [None] is the panic of
    an event that cannot be serialized. *)
Definition deliver (url : string) (event : WebhookEvent) (secret : string) (headers : list (string * string))
    (x : Exchange) : option (HttpRequest * result DeliveryResult DeliveryError) :=
  match to_vec event with
  | Err _ => None
  | Ok payload =>
      let timestamp := unix_seconds (x_start x) in
      let signature := sign_with_timestamp secret (of_bytes payload) timestamp in
      let request := MkHttpRequest url
        ([("Content-Type", "application/json"); ("X-Webhook-Signature", signature);
          ("X-Webhook-Timestamp", to_signed_decimal timestamp); ("X-Webhook-ID", we_id event);
          ("X-Webhook-Event", event_as_str (we_type event))] ++ headers) payload in
      Some (request,
        match x_answer x with
        | Err e => Err (HttpError e)
        | Ok (status, body) =>
            if is_success status
            then Ok (MkDeliveryResult EmptyString (we_id event) Success (Some status) 1 (x_end x)
                       (wrap 64 (x_elapsed x / 1000000)) None)
            else Err (InvalidResponse status (default EmptyString body))
        end)
  end.

Definition failed_delivery (event : WebhookEvent) (attempt : Z) (now : DateTime) (error : string) : DeliveryResult :=
  MkDeliveryResult EmptyString (we_id event) Failed None attempt now 0 (Some error).
Definition with_attempt (attempt : Z) (r : DeliveryResult) : DeliveryResult :=
  MkDeliveryResult (dr_webhook_id r) (dr_event_id r) (dr_status r) (http_status r) attempt (dr_timestamp r)
    (duration_ms r) (dr_error r).
(** The pause after a failure: half of the delay and a random part. *)
Definition backoff (delay : Duration) (draw : Z) : Duration :=
  let half := delay / 2 in
  let jitter_ms := if half =? 0 then 0 else draw mod (wrap 64 (half / 1000000) + 1) in
  half + jitter_ms * 1000000.

(** A delivery: its result, the state of the circuits, the requests sent and
    the pauses made. *)
Definition delivery : Type := DeliveryResult * Circuits * list HttpRequest * list Duration.
(** The loop from attempt [attempt] on; [net k] is the k-th request.  [None]
    is a panic, or the end of the fuel. *)
Fixpoint retry_loop (fuel : nat) (url : string) (event : WebhookEvent) (secret : string)
    (headers : list (string * string)) (max_retries : Z) (net : Z -> Exchange) (attempt : Z) (delay : Duration)
    (cb : Circuits) : option delivery :=
  match fuel with
  | O => None
  | S fuel =>
      let x := net attempt in
      '(request, r) ← deliver url event secret headers x;
      match r with
      | Ok result => Some (with_attempt attempt result, record_success url cb, [request], [])
      | Err e =>
          let cb := record_failure url (x_end x) cb in
          if max_retries <=? attempt
          then Some (failed_delivery event attempt (x_end x) (delivery_error_to_string e), cb, [request], [])
          else if is_circuit_open url (x_end x) cb
          then Some (failed_delivery event attempt (x_end x) ("Circuit breaker open for URL: " +:+ url), cb, [request], [])
          else
            doubled ← duration_double delay;
            '(result, cb, sent, pauses) ←
              retry_loop fuel url event secret headers max_retries net (attempt + 1) (Z.min doubled MAX_BACKOFF) cb;
            Some (result, cb, request :: sent, backoff delay (x_draw x) :: pauses)
      end
  end.
Definition deliver_with_retries (url : string) (event : WebhookEvent) (secret : string)
    (headers : list (string * string)) (max_retries : Z) (initial_delay : Duration) (net : Z -> Exchange)
    (now : DateTime) (cb : Circuits) : option delivery :=
  if is_circuit_open url now cb
  then Some (failed_delivery event 0 now ("Circuit breaker open for URL: " +:+ url), cb, [], [])
  else retry_loop (Z.to_nat (Z.max 1 max_retries)) url event secret headers max_retries net 1 initial_delay cb.

(** ** The dispatcher ([dispatcher.rs]) *)

Record WebhookDispatcher := MkDispatcher {
  wd_registry : WebhookRegistry;
  wd_circuits : Circuits;
  wd_queue : list WebhookEvent;
  wd_capacity : nat
}.
Definition dispatcher_new (r : WebhookRegistry) : WebhookDispatcher := MkDispatcher r ∅ [] (Z.to_nat 10000).
(** The builder takes a size of the channel and does not use it. *)
Definition dispatcher_build (r : option WebhookRegistry) (channel_size : nat) : WebhookDispatcher :=
  dispatcher_new (default ∅ r).
(** [try_send]: [false] is the error of a full channel. *)
Definition dispatch_sync (event : WebhookEvent) (d : WebhookDispatcher) : bool * WebhookDispatcher :=
  if (length (wd_queue d) <? wd_capacity d)%nat
  then (true, MkDispatcher (wd_registry d) (wd_circuits d) (wd_queue d ++ [event]) (wd_capacity d))
  else (false, d).
(** [None]: the caller waits until there is room. *)
Definition dispatch (event : WebhookEvent) (d : WebhookDispatcher) : option WebhookDispatcher :=
  let '(sent, d') := dispatch_sync event d in if sent then Some d' else None.
Definition emit (id : string) (t : WebhookEventType) (ns : string) (data : Json) (now : DateTime) (d : WebhookDispatcher)
  : option (string * WebhookDispatcher) :=
  d' ← dispatch (webhook_event_new id t ns data now) d; Some (id, d').
Definition pending_count (d : WebhookDispatcher) : nat := wd_capacity d - (wd_capacity d - length (wd_queue d)).

(** [at_] is the clock when the delivery starts and when it is recorded. *)
Definition deliver_to_webhook (w : Webhook) (event : WebhookEvent) (net : Z -> Exchange) (at_ : DateTime * DateTime)
    (st : WebhookRegistry * Circuits) : option (DeliveryResult * (WebhookRegistry * Circuits)) :=
  let c := wh_config w in
  '(result, cb, _, _) ←
    deliver_with_retries (wc_url c) event (wc_secret c) (wc_headers c) (max_retries c) (retry_delay c) net at_.1 st.2;
  Some (result, (record_delivery (wh_id w) (bool_decide (dr_status result = Success)) at_.2 st.1, cb)).
Fixpoint deliver_all (ws : list Webhook) (event : WebhookEvent) (net : string -> Z -> Exchange)
    (at_ : string -> DateTime * DateTime) (st : WebhookRegistry * Circuits) : option (WebhookRegistry * Circuits) :=
  match ws with
  | [] => Some st
  | w :: ws =>
      '(_, st) ← deliver_to_webhook w event (net (wh_id w)) (at_ (wh_id w)) st;
      deliver_all ws event net at_ st
  end.
(** One round of the background task. *)
Definition delivery_task (net : string -> Z -> Exchange) (at_ : string -> DateTime * DateTime) (d : WebhookDispatcher)
  : option WebhookDispatcher :=
  match wd_queue d with
  | [] => Some d
  | event :: rest =>
      let ws := get_matching (we_type event) (we_namespace event) (wd_registry d) in
      '(r, cb) ← deliver_all ws event net at_ (wd_registry d, wd_circuits d);
      Some (MkDispatcher r cb rest (wd_capacity d))
  end.
End delivery.

(** ** Handlers ([rest-api/src/handlers.rs]) *)

Record WebhookCreateRequest := MkWebhookCreateRequest {
  wr_url : string;
  wr_events : list string;
  wr_secret : option string
}.
Record WebhookResponse := MkWebhookResponse {
  wp_id : string;
  wp_url : string;
  wp_events : list string;
  wp_status : string;
  wp_secret_hash : string;
  wp_created_at : string;
  wp_last_triggered : option string;
  wp_failure_count : Z
}.
(** The order of texts by bytes. *)
Definition str_le (a b : string) : Prop := String.leb a b = true.
#[export] Instance str_le_dec : RelDecision str_le.
Proof. intros a b. unfold str_le. apply _. Defined.
(** [Option::filter] with a text that is not empty. *)
Definition given_secret (rq : WebhookCreateRequest) : option string :=
  s ← wr_secret rq; if bool_decide (s = EmptyString) then None else Some s.
Fixpoint parse_events (events : list string) : result (list WebhookEventType) ApiError :=
  match events with
  | [] => Ok []
  | e :: events =>
      match event_parse e with
      | None => Err (BadRequest ("unknown event type: " +:+ e))
      | Some t => let? ts := parse_events events in Ok (t :: ts)
      end
  end.
Definition events_to_filter (events : list string) : result EventFilter ApiError :=
  if bool_decide (events = []) then Ok filter_all
  else let? types := parse_events events in Ok (filter_events types).

(** Routes below [/webhooks]. *)
Inductive WebhookRequest :=
| WListWebhooks
| WCreateWebhook (rq : WebhookCreateRequest) (id : string)
| WGetWebhook (id : string)
| WUpdateWebhook (id : string) (rq : WebhookCreateRequest)
| WDeleteWebhook (id : string)
| WTestWebhook (id event_id : string) (x : Exchange).
Inductive WebhookAnswer :=
| WWebhooks (l : list WebhookResponse) | WWebhook (r : WebhookResponse) | WNoContent
| WTested (o : option (HttpRequest * bool)).

Section handlers.
Context {Cache : Type} {LRU : Lru CompositeKey Key Cache}.
Context {S : Type} {SB : StorageBackend S} {PC : Postcard Key}.
Context {SHA : Sha256} {HEX : Hex} {Value : Type} {CHRONO : Chrono} {HMAC : Hmac}.
Context {ST : Serde EventType} {SR : Serde OperationResult} {SVal : SerdeCodec Value}.
Context {SEv : SerdeCodec (AuditEvent Value)} {SCp : Serde HashChain.Checkpoint}.
Context {DA : Display AsyncAuditError} {SE : SerdeCodec WebhookEvent}.

Abbreviation AppState := (@AppState Cache S Value).
(** The field [webhooks] of the application state stands beside the others. *)
Abbreviation whandler := (M (AppState * WebhookRegistry) ApiError).
Definition on_app {A} (c : M AppState ApiError A) : whandler A := fun s =>
  let '(r, a) := c s.1 in (r, (a, s.2)).
Definition on_webhooks {A} (f : WebhookRegistry -> A * WebhookRegistry) : whandler A := fun s =>
  let '(a, r) := f s.2 in (Ok a, (s.1, r)).
Definition or_not_found {A} (id : string) (o : option A) : whandler A :=
  match o with Some a => ret a | None => throw (NotFound ("webhook " +:+ id +:+ " not found")) end.

Definition secret_hash (secret : string) : string := hex_encode (sha256 (as_bytes secret)).
Definition webhook_response (w : Webhook) : WebhookResponse :=
  MkWebhookResponse (wh_id w) (wc_url (wh_config w))
    (merge_sort str_le (event_as_str <$> include_events (wh_filter w)))
    (if wc_enabled (wh_config w) then "active" else "inactive") (secret_hash (wc_secret (wh_config w)))
    (to_rfc3339 (wh_created_at w)) (to_rfc3339 <$> last_delivery w) (failure_count w).

Definition list_webhooks (i : ClientIdentity) : whandler (list WebhookResponse) :=
  on_app (require_rbac i PManageWebhooks) ;!
  let! ws := on_webhooks (fun r => (webhook_list r, r)) in
  ret (webhook_response <$> ws).
Definition create_webhook (i : ClientIdentity) (rq : WebhookCreateRequest) (id : string) (now : DateTime)
  : whandler WebhookResponse :=
  on_app (require_rbac i PManageWebhooks) ;!
  if is_blank (as_bytes (wr_url rq)) then throw (BadRequest "webhook url is required")
  else
    match given_secret rq with
    | None => throw (BadRequest "webhook secret is required")
    | Some secret =>
        let! f := lift (events_to_filter (wr_events rq)) in
        let config := webhook_config_new (wr_url rq) secret in
        let w := with_filter f (webhook_new id (wr_url rq) config (common_name i) now) in
        on_webhooks (fun r => (tt, webhook_register w r)) ;!
        on_app (audit_success now ConfigChange "create_webhook" (AccessControl.namespace i) (common_name i) (Some id)) ;!
        ret (webhook_response w)
    end.
Definition get_webhook (i : ClientIdentity) (id : string) : whandler WebhookResponse :=
  on_app (require_rbac i PManageWebhooks) ;!
  let! o := on_webhooks (fun r => (r !! id, r)) in
  let! w := or_not_found id o in
  ret (webhook_response w).
(** The closure of [update_webhook]. *)
Definition updater (rq : WebhookCreateRequest) (f : EventFilter) (w : Webhook) : Webhook :=
  let c := wh_config w in
  let url := if is_blank (as_bytes (wr_url rq)) then wc_url c else wr_url rq in
  let w := if bool_decide (wr_events rq = []) then w else with_filter f w in
  let secret := default (wc_secret c) (given_secret rq) in
  with_config (MkWebhookConfig url secret (wc_timeout c) (max_retries c) (retry_delay c) (wc_enabled c) (wc_headers c)) w.
Definition update_webhook (i : ClientIdentity) (id : string) (rq : WebhookCreateRequest) (now : DateTime)
  : whandler WebhookResponse :=
  on_app (require_rbac i PManageWebhooks) ;!
  let! f := lift (events_to_filter (wr_events rq)) in
  let! o := on_webhooks (webhook_update id (updater rq f)) in
  let! w := or_not_found id o in
  on_app (audit_success now ConfigChange "update_webhook" (AccessControl.namespace i) (common_name i) (Some id)) ;!
  ret (webhook_response w).
Definition delete_webhook (i : ClientIdentity) (id : string) (now : DateTime) : whandler unit :=
  on_app (require_rbac i PManageWebhooks) ;!
  let! o := on_webhooks (webhook_delete id) in
  or_not_found id o ;!
  on_app (audit_success now ConfigChange "delete_webhook" (AccessControl.namespace i) (common_name i) (Some id)).
(** The answer with the request that was sent; the inner [None] is the panic
    of [deliver]. *)
Definition test_webhook (i : ClientIdentity) (id event_id : string) (x : Exchange) (now : DateTime)
  : whandler (option (HttpRequest * bool)) :=
  on_app (require_rbac i PManageWebhooks) ;!
  let! o := on_webhooks (fun r => (r !! id, r)) in
  let! w := or_not_found id o in
  let event := webhook_event_new event_id TestEvent (AccessControl.namespace i)
    (JObject [("message", JString "HSM webhook connectivity test"); ("webhook_id", JString id)]) now in
  ret ('(request, r) ← deliver (wc_url (wh_config w)) event (wc_secret (wh_config w)) (wc_headers (wh_config w)) x;
       Some (request, match r with Ok result => default false (is_success <$> http_status result) | Err _ => false end)).

Definition webhook_route (q : WebhookRequest) (i : ClientIdentity) (now : DateTime) : whandler WebhookAnswer :=
  match q with
  | WListWebhooks => let! l := list_webhooks i in ret (WWebhooks l)
  | WCreateWebhook rq id => let! r := create_webhook i rq id now in ret (WWebhook r)
  | WGetWebhook id => let! r := get_webhook i id in ret (WWebhook r)
  | WUpdateWebhook id rq => let! r := update_webhook i id rq now in ret (WWebhook r)
  | WDeleteWebhook id => delete_webhook i id now ;! ret WNoContent
  | WTestWebhook id event_id x => let! o := test_webhook i id event_id x now in ret (WTested o)
  end.
End handlers.
