(* ===== verification/WebhookCorrect.v ===== *)
(** * Webhooks: deliveries, signatures, registrations

    A delivery ends after a bounded number of requests and pauses, and its
    result says what became of the last request; an open circuit sends
    nothing; receivers accept what is sent; each event is recorded once for
    each webhook it matches; handlers require the permission; what the filter
    of severities and the check of URLs do not do. *)

From Stdlib Require Import ZArith Lia Strings.Byte.
From stdpp Require Import base gmap strings list sorting.
From S2P Require Import Prelude External Platform AesGcm KeyTypes KeyStore KeyManager.
From S2P Require Import AuditEvent AccessControl Sessions SessionManager AsyncAudit RestApi RestSafety Webhooks.

#[local] Abbreviation list := Datatypes.list.

(** ** Names of events *)

Lemma event_roundtrip s t : event_parse s = Some t <-> s = event_as_str t.
Proof.
  split; [|intros ->; by destruct t].
  unfold event_parse. repeat (case_decide; [by intros [= <-]|]). done.
Qed.
Lemma event_all_complete t : t ∈ event_all.
Proof. apply (bool_decide_unpack _). by destruct t. Qed.

(** The preset for high severities lets every event through. *)
Lemma high_severity_matches_all t ns : filter_matches t ns high_severity = true.
Proof. done. Qed.

(** ** Addresses *)

(** The address with these octets lies in the block [base/bits]. *)
Definition in_block (a b c d : Z) (block : Z * Z * Z * Z * Z) : Prop :=
  let '(a', b', c', d', bits) := block in
  (a * 2 ^ 24 + b * 2 ^ 16 + c * 2 ^ 8 + d) / 2 ^ (32 - bits) =
  (a' * 2 ^ 24 + b' * 2 ^ 16 + c' * 2 ^ 8 + d') / 2 ^ (32 - bits).
Definition private_blocks : list (Z * Z * Z * Z * Z) :=
  [(10, 0, 0, 0, 8); (172, 16, 0, 0, 12); (192, 168, 0, 0, 16); (127, 0, 0, 0, 8); (169, 254, 0, 0, 16); (0, 0, 0, 0, 32)].
Lemma private_ip_blocks a b c d :
  in_u 8 a -> in_u 8 b -> in_u 8 c -> in_u 8 d ->
  is_private_ip (V4 a b c d) = true <-> Exists (in_block a b c d) private_blocks.
Proof.
  unfold in_u, private_blocks, is_private_ip. intros Ha Hb Hc Hd.
  rewrite !Exists_cons, Exists_nil. unfold in_block. cbn [Z.sub Z.add Z.opp Z.pos_sub Pos.pred_double].
  change (2 ^ 8) with 256 in *. change (2 ^ 24) with 16777216. change (2 ^ 16) with 65536.
  change (2 ^ (32 - 8)) with 16777216. change (2 ^ (32 - 12)) with 1048576.
  change (2 ^ (32 - 16)) with 65536. change (2 ^ (32 - 32)) with 1.
  rewrite !orb_true_iff, !andb_true_iff, !Z.eqb_eq, !Z.leb_le. split; intros H.
  - destruct H as [[[[[H|H]|H]|H]|H]|H]; [left|right; left|do 2 right; left|do 3 right; left|do 4 right; left|do 5 right; left];
      Z.to_euclidean_division_equations; lia.
  - destruct H as [H|[H|[H|[H|[H|[H|[]]]]]]].
    all: Z.to_euclidean_division_equations; lia.
Qed.

(** ** Signatures *)

Lemma xor_all_0 acc xs ys : length xs = length ys -> 0 <= acc -> xor_all acc xs ys = 0 <-> acc = 0 /\ xs = ys.
Proof.
  revert acc ys. induction xs as [|x xs IH]; intros acc [|y ys] Hl Ha; try done; [naive_solver|].
  cbn [xor_all]. assert (Hx : 0 <= Z.lxor (byte_to_Z x) (byte_to_Z y)).
  { apply Z.lxor_nonneg. pose proof (byte_to_Z_range x). pose proof (byte_to_Z_range y). lia. }
  rewrite IH by (try (apply Z.lor_nonneg; lia); by injection Hl). rewrite Z.lor_eq_0_iff, Z.lxor_eq_0_iff.
  split; [|by intros [-> [= -> ->]]]. intros [[-> E] ->]. split; [done|]. f_equal.
  by apply byte_to_Z_inj.
Qed.
Lemma constant_time_compare_eq a b : constant_time_compare a b = true <-> a = b.
Proof.
  unfold constant_time_compare. destruct (String.length a =? String.length b)%nat eqn:Hl; cbn.
  - rewrite Z.eqb_eq, xor_all_0; [|by rewrite !length_as_bytes; apply Nat.eqb_eq|done].
    split; [intros [_ H]; by apply as_bytes_inj|by intros ->].
  - split; [done|]. intros ->. by rewrite Nat.eqb_refl in Hl.
Qed.

Section signatures.
Context {HMAC : Hmac} {HEX : Hex}.
Lemma verify_fresh_iff secret payload timestamp signature max_age now :
  verify_fresh secret payload timestamp signature max_age now = true <->
  0 <= now - timestamp <= max_age /\ signature = sign_with_timestamp secret payload timestamp.
Proof.
  unfold verify_fresh, verify_with_timestamp.
  destruct (now - timestamp <? 0) eqn:E1, (max_age <? now - timestamp) eqn:E2; cbn; split; try done;
    rewrite ?constant_time_compare_eq; try (intros ->; split; [lia|done]); try (intros [? ->]; done); intros [? _]; lia.
Qed.
End signatures.

(** ** Deliveries *)

(** The endpoint accepted the request. *)
Definition accepted (x : Exchange) : bool :=
  match x_answer x with Ok (status, _) => is_success status | Err _ => false end.

Lemma backoff_bounds delay draw : 0 <= delay -> 0 <= backoff delay draw <= delay.
Proof.
  intros Hd. unfold backoff. set (half := delay / 2).
  assert (0 <= half /\ 2 * half <= delay) as [Hh Hh2] by (subst half; Z.to_euclidean_division_equations; lia).
  destruct (half =? 0) eqn:E; [lia|].
  assert (0 <= wrap 64 (half / 1000000) <= half / 1000000) as [H0 H1].
  { unfold wrap. split; [apply Z.mod_pos_bound; lia|]. apply Z.mod_le; [apply Z.div_pos; lia|lia]. }
  pose proof (Z.mod_pos_bound draw (wrap 64 (half / 1000000) + 1)).
  assert (half / 1000000 * 1000000 <= half) by (Z.to_euclidean_division_equations; lia). nia.
Qed.

Lemma circuit_opens url now cb :
  is_circuit_open url now (record_failure url now cb) = true <->
  is_open (default circuit_new (cb !! url)) = true \/
  CIRCUIT_BREAKER_THRESHOLD <= wrap 32 (consecutive_failures (default circuit_new (cb !! url)) + 1).
Proof.
  unfold is_circuit_open, record_failure. rewrite lookup_insert_eq. cbn.
  rewrite Z.sub_diag, andb_true_r. destruct (Z.leb_spec CIRCUIT_BREAKER_THRESHOLD
    (wrap 32 (consecutive_failures (default circuit_new (cb !! url)) + 1))); naive_solver lia.
Qed.

Section delivery.
Context {HMAC : Hmac} {HEX : Hex} {SE : SerdeCodec WebhookEvent}.
Context (url : string) (event : WebhookEvent) (secret : string) (headers : list (string * string)) (payload : bytes).
Hypothesis (Hpayload : to_vec event = Ok payload).

Lemma deliver_cases x : exists request, deliver url event secret headers x = Some (request,
    match x_answer x with
    | Err e => Err (HttpError e)
    | Ok (status, body) =>
        if is_success status
        then Ok (MkDeliveryResult EmptyString (we_id event) Success (Some status) 1 (x_end x)
                   (wrap 64 (x_elapsed x / 1000000)) None)
        else Err (InvalidResponse status (default EmptyString body))
    end) /\
  hr_url request = url /\ hr_body request = payload /\
  ("X-Webhook-Timestamp", to_signed_decimal (unix_seconds (x_start x))) ∈ hr_headers request /\
  ("X-Webhook-Signature", sign_with_timestamp secret (of_bytes payload) (unix_seconds (x_start x))) ∈ hr_headers request.
Proof.
  unfold deliver. rewrite Hpayload. eexists. split; [reflexivity|]. cbn. split; [done|]. split; [done|].
  rewrite !elem_of_cons. auto.
Qed.

(** What a run of the loop from attempt [n] on yields. *)
Record loop_spec (max_retries n : Z) (net : Z -> Exchange) (delay : Duration) (d : delivery) : Prop := {
  ls_attempt : n <= dr_attempt d.1.1.1 <= Z.max n max_retries;
  ls_status : dr_status d.1.1.1 = if accepted (net (dr_attempt d.1.1.1)) then Success else Failed;
  ls_before k : n <= k < dr_attempt d.1.1.1 -> accepted (net k) = false;
  ls_sent : Z.of_nat (length d.1.2) = dr_attempt d.1.1.1 - n + 1;
  ls_pauses : Z.of_nat (length d.2) = dr_attempt d.1.1.1 - n;
  ls_bounded : Forall (fun p => 0 <= p <= Z.max delay MAX_BACKOFF) d.2
}.

Lemma retry_loop_spec fuel max_retries net n delay cb :
  (Z.to_nat (Z.max n max_retries - n) < fuel)%nat -> 0 <= delay < nanos (2 ^ 63) ->
  exists d, retry_loop fuel url event secret headers max_retries net n delay cb = Some d /\
    loop_spec max_retries n net delay d.
Proof.
  revert n delay cb. induction fuel as [|fuel IH]; intros n delay cb Hf Hd; [lia|]. cbn [retry_loop].
  destruct (deliver_cases (net n)) as (rq & -> & _). cbn [mbind option_bind].
  assert (Ha : forall s b, x_answer (net n) = Ok (s, b) -> accepted (net n) = is_success s) by (unfold accepted; by intros s b ->).
  assert (He : forall e, x_answer (net n) = Err e -> accepted (net n) = false) by (unfold accepted; by intros e ->).
  set (r := match x_answer (net n) with Err e => _ | Ok _ => _ end).
  assert (Hr : (exists res, r = Ok res /\ dr_status res = Success /\ accepted (net n) = true) \/
               (exists e, r = Err e /\ accepted (net n) = false)).
  { subst r. destruct (x_answer (net n)) as [[s b]|e]; [|right; eauto]. rewrite (Ha s b) by done.
    destruct (is_success s); [left; eexists; split; [done|]; done|right; eauto]. }
  destruct Hr as [(res & -> & Hs & Hacc)|(e & -> & Hacc)].
  - eexists. split; [reflexivity|]. split; cbn; rewrite ?Hacc; auto with lia.
  - destruct (max_retries <=? n) eqn:Em; [eexists; split; [reflexivity|]; split; cbn; rewrite ?Hacc; auto with lia|].
    destruct (is_circuit_open _ _ _); [eexists; split; [reflexivity|]; split; cbn; rewrite ?Hacc; auto with lia|].
    unfold duration_double. assert (Hdd : (delay * 2 <? nanos (2 ^ 64)) = true) by (unfold nanos in *; lia).
    rewrite Hdd. cbn [mbind option_bind].
    destruct (IH (n + 1) (Z.min (delay * 2) MAX_BACKOFF) (record_failure url (x_end (net n)) cb))
      as ([[[res cb'] sent] pauses] & -> & [H1 H2 H3 H4 H5 H6]); [lia|unfold MAX_BACKOFF, nanos in *; lia|].
    eexists. split; [reflexivity|]. cbn in *. split; cbn; [lia|done| |lia|lia|].
    + intros k Hk. destruct (decide (k = n)) as [->|]; [done|apply H3; lia].
    + constructor; [pose proof (backoff_bounds delay (x_draw (net n))); lia|].
      eapply Forall_impl; [exact H6|]. cbn. lia.
Qed.

(** Five failures in a row open the circuit. *)
Definition circuit_wf (c : CircuitState) : Prop :=
  in_u 32 (consecutive_failures c) /\ (CIRCUIT_BREAKER_THRESHOLD <= consecutive_failures c -> is_open c = true).
Definition circuits_wf (cb : Circuits) : Prop := map_Forall (fun _ => circuit_wf) cb.

Lemma circuit_new_wf : circuit_wf circuit_new.
Proof. split; [unfold in_u; cbn; lia|]. unfold CIRCUIT_BREAKER_THRESHOLD. cbn. lia. Qed.
Lemma circuit_at_wf cb u : circuits_wf cb -> circuit_wf (default circuit_new (cb !! u)).
Proof. intros H. destruct (cb !! u) eqn:E; [exact (H _ _ E)|apply circuit_new_wf]. Qed.
Lemma record_success_wf cb u : circuits_wf cb -> circuits_wf (record_success u cb).
Proof. intros H. apply map_Forall_insert_2; [apply circuit_new_wf|done]. Qed.
Lemma record_failure_wf cb u now : circuits_wf cb -> circuits_wf (record_failure u now cb).
Proof.
  intros H. apply map_Forall_insert_2; [|done]. split; cbn; [apply wrap_range; lia|].
  intros Ht. apply Z.leb_le in Ht. by rewrite Ht.
Qed.

(** The state of the circuit after a run of the loop. *)
Lemma retry_loop_circuit fuel max_retries net n delay cb d :
  circuits_wf cb -> retry_loop fuel url event secret headers max_retries net n delay cb = Some d ->
  circuits_wf d.1.1.2 /\
  dr_attempt d.1.1.1 <= n + Z.max 0 (4 - consecutive_failures (default circuit_new (cb !! url))) /\
  (dr_status d.1.1.1 = Failed -> dr_attempt d.1.1.1 < max_retries ->
   exists c, d.1.1.2 !! url = Some c /\ is_open c = true /\
     last_failure_time c = unix_seconds (x_end (net (dr_attempt d.1.1.1)))).
Proof.
  revert n delay cb d. induction fuel as [|fuel IH]; intros n delay cb d Hwf H; [done|]. cbn [retry_loop] in H.
  destruct (deliver_cases (net n)) as (rq & Hd & _). rewrite Hd in H. cbn [mbind option_bind] in H.
  set (r := match x_answer (net n) with Err e => _ | Ok _ => _ end) in H.
  assert (Hr : (exists res, r = Ok res /\ dr_status res = Success) \/ exists e, r = Err e).
  { subst r. destruct (x_answer (net n)) as [[s b]|e]; [|eauto]. destruct (is_success s); eauto. }
  destruct Hr as [(res & Hr & Hs)|(e & Hr)]; rewrite Hr in H.
  { simplify_eq. cbn. split; [by apply record_success_wf|]. split; [lia|]. by rewrite Hs. }
  pose proof (record_failure_wf cb url (x_end (net n)) Hwf) as Hwf'.
  destruct (Z.leb_spec max_retries n); [simplify_eq; cbn; split; [done|]; split; lia|].
  destruct (is_circuit_open url _ _) eqn:Eo.
  { simplify_eq. cbn. split; [done|]. split; [lia|]. intros _ _. eexists. split; [apply lookup_insert_eq|].
    unfold is_circuit_open, record_failure in Eo. rewrite lookup_insert_eq in Eo. by apply andb_true_iff in Eo as [? _]. }
  apply bind_Some in H as (dd & _ & H). apply bind_Some in H as ([[[res cb'] sent] pauses] & H & ?). simplify_eq.
  apply IH in H as (H1 & H2 & H3); [|done]. cbn in *. split; [done|]. split; [|done].
  apply not_true_iff_false in Eo. rewrite circuit_opens in Eo.
  destruct (circuit_at_wf cb url Hwf) as [Hu Ho]. unfold record_failure in H2. rewrite lookup_insert_eq in H2. cbn in H2.
  assert (consecutive_failures (default circuit_new (cb !! url)) < 5)
    by (destruct (Z.lt_ge_cases (consecutive_failures (default circuit_new (cb !! url))) 5); [done|tauto]).
  rewrite wrap_small in Eo, H2 by (unfold in_u in *; lia). unfold CIRCUIT_BREAKER_THRESHOLD in *. lia.
Qed.

Lemma retry_loop_authentic fuel max_retries net n delay cb d rq :
  retry_loop fuel url event secret headers max_retries net n delay cb = Some d -> rq ∈ d.1.2 ->
  exists k, hr_url rq = url /\ hr_body rq = payload /\
    ("X-Webhook-Timestamp", to_signed_decimal (unix_seconds (x_start (net k)))) ∈ hr_headers rq /\
    ("X-Webhook-Signature", sign_with_timestamp secret (of_bytes payload) (unix_seconds (x_start (net k)))) ∈ hr_headers rq.
Proof.
  revert n delay cb d. induction fuel as [|fuel IH]; intros n delay cb d H Hin; [done|]. cbn [retry_loop] in H.
  destruct (deliver_cases (net n)) as (rq0 & Hd & Hrq). rewrite Hd in H. cbn [mbind option_bind] in H.
  assert (Hone : rq ∈ [rq0] -> rq = rq0) by (by intros ?%list_elem_of_singleton).
  destruct (match x_answer (net n) with Err e => _ | Ok _ => _ end) as [res|e].
  { simplify_eq. cbn in Hin. rewrite (Hone Hin). by exists n. }
  destruct (max_retries <=? n); [simplify_eq; cbn in Hin; rewrite (Hone Hin); by exists n|].
  destruct (is_circuit_open url _ _); [simplify_eq; cbn in Hin; rewrite (Hone Hin); by exists n|].
  apply bind_Some in H as (dd & _ & H). apply bind_Some in H as ([[[res cb'] sent] pauses] & H & ?). simplify_eq.
  cbn in Hin. apply elem_of_cons in Hin as [->|Hin]; [by exists n|]. exact (IH _ _ _ _ H Hin).
Qed.

Lemma deliver_with_retries_total max_retries initial_delay net now cb :
  0 <= initial_delay < nanos (2 ^ 63) ->
  exists r cb' sent pauses,
    deliver_with_retries url event secret headers max_retries initial_delay net now cb = Some (r, cb', sent, pauses).
Proof.
  intros Hd. unfold deliver_with_retries. destruct (is_circuit_open url now cb); [by do 4 eexists|].
  destruct (retry_loop_spec (Z.to_nat (Z.max 1 max_retries)) max_retries net 1 initial_delay cb)
    as ([[[r cb'] sent] pauses] & H & _); [lia|done|]. by exists r, cb', sent, pauses.
Qed.

(** C36: A delivery of an event to a webhook ends.  If the circuit of the URL is
    open nothing is sent.  Otherwise between one and [max_retries] requests are
    sent (one, when that is 0), the result is a success exactly if the last of
    them was accepted with a status 2xx, all before it were not, and between
    two requests there is a pause of at most 30 seconds or the configured
    delay, whichever is longer. *)
Theorem delivery_outcome max_retries initial_delay net now cb :
  0 <= initial_delay < nanos (2 ^ 63) ->
  exists r cb' sent pauses,
    deliver_with_retries url event secret headers max_retries initial_delay net now cb = Some (r, cb', sent, pauses) /\
    if is_circuit_open url now cb
    then dr_status r = Failed /\ dr_attempt r = 0 /\ cb' = cb /\ sent = [] /\ pauses = []
    else 1 <= dr_attempt r <= Z.max 1 max_retries /\
      dr_status r = (if accepted (net (dr_attempt r)) then Success else Failed) /\
      (forall k, 1 <= k < dr_attempt r -> accepted (net k) = false) /\
      Z.of_nat (length sent) = dr_attempt r /\ Z.of_nat (length pauses) = dr_attempt r - 1 /\
      Forall (fun p => 0 <= p <= Z.max initial_delay MAX_BACKOFF) pauses.
Proof.
  intros Hd. unfold deliver_with_retries. destruct (is_circuit_open url now cb); [by do 4 eexists|].
  destruct (retry_loop_spec (Z.to_nat (Z.max 1 max_retries)) max_retries net 1 initial_delay cb)
    as ([[[r cb'] sent] pauses] & H & [H1 H2 H3 H4 H5 H6]); [lia|done|].
  exists r, cb', sent, pauses. split; [exact H|]. cbn in *. repeat split; auto with lia.
Qed.

(** Whatever [max_retries] says, a delivery sends at most five requests,
    because the fifth failure in a row opens the circuit; and when a delivery
    gives up before [max_retries], no delivery to that URL within the next 60
    seconds sends anything. *)
Theorem breaker_limits_attempts max_retries initial_delay net now cb r cb' sent pauses :
  circuits_wf cb ->
  deliver_with_retries url event secret headers max_retries initial_delay net now cb = Some (r, cb', sent, pauses) ->
  circuits_wf cb' /\ dr_attempt r <= 5 /\
  (dr_status r = Failed -> 1 <= dr_attempt r < max_retries ->
   forall event2 secret2 headers2 retries2 delay2 net2 now2,
     unix_seconds now2 - unix_seconds (x_end (net (dr_attempt r))) < 60 ->
     exists r2, deliver_with_retries url event2 secret2 headers2 retries2 delay2 net2 now2 cb' = Some (r2, cb', [], [])).
Proof.
  intros Hwf H. unfold deliver_with_retries in H.
  destruct (is_circuit_open url now cb); [simplify_eq; cbn; split; [done|]; split; lia|].
  destruct (retry_loop_circuit _ _ _ _ _ _ _ Hwf H) as (H1 & H2 & H3). cbn in *.
  destruct (circuit_at_wf cb url Hwf) as [[Hu _] _].
  split; [done|]. split; [lia|]. intros Hs Ha event2 secret2 headers2 retries2 delay2 net2 now2 Hnow.
  destruct (H3 Hs) as (c & Hc & Ho & Ht); [lia|]. unfold deliver_with_retries, is_circuit_open at 1.
  rewrite Hc, Ho, Ht. unfold CIRCUIT_BREAKER_COOLDOWN_SECS. cbn [andb].
  apply Z.ltb_lt in Hnow. rewrite Hnow. by eexists.
Qed.

(** Every request of a delivery carries the time it was made and a signature
    that a receiver with the webhook's secret accepts for that body and time
    exactly while the request is not older than the receiver allows. *)
Theorem requests_authentic max_retries initial_delay net now cb r cb' sent pauses rq :
  deliver_with_retries url event secret headers max_retries initial_delay net now cb = Some (r, cb', sent, pauses) ->
  rq ∈ sent ->
  exists timestamp signature, hr_url rq = url /\ hr_body rq = payload /\
    ("X-Webhook-Timestamp", to_signed_decimal timestamp) ∈ hr_headers rq /\
    ("X-Webhook-Signature", signature) ∈ hr_headers rq /\
    forall max_age at_, verify_fresh secret (of_bytes (hr_body rq)) timestamp signature max_age at_ = true <->
      0 <= at_ - timestamp <= max_age.
Proof.
  intros H Hin. unfold deliver_with_retries in H. destruct (is_circuit_open url now cb).
  { simplify_eq. by apply not_elem_of_nil in Hin. }
  destruct (retry_loop_authentic _ _ _ _ _ _ _ rq H Hin) as (k & Hurl & Hb & Ht & Hsig).
  eexists _, _. split; [done|]. split; [done|]. split; [exact Ht|]. split; [exact Hsig|].
  intros max_age at_. rewrite verify_fresh_iff, Hb. naive_solver.
Qed.
End delivery.

(** ** The dispatcher *)

(** The registry files webhooks under their ids, and no delay overflows. *)
Definition registry_wf (r : WebhookRegistry) : Prop :=
  map_Forall (fun id w => wh_id w = id /\ 0 <= retry_delay (wh_config w) < nanos (2 ^ 63)) r.
(** The counters of a webhook agree, modulo their width. *)
Definition counts_agree (w : Webhook) : Prop := delivery_count w = wrap 64 (success_count w + failure_count w).

Lemma count_delivery_agree b now w : counts_agree w -> counts_agree (count_delivery b now w).
Proof.
  unfold counts_agree, wrap. intros H. destruct b; cbn; rewrite H; unfold wrap.
  - rewrite !Z.add_mod_idemp_l by lia. f_equal. lia.
  - rewrite Z.add_mod_idemp_l, Z.add_mod_idemp_r by lia. f_equal. lia.
Qed.
Lemma update_forall (P : string -> Webhook -> Prop) id f r :
  (forall w, P id w -> P id (f w)) -> map_Forall P r -> map_Forall P (webhook_update id f r).2.
Proof.
  intros Hf H. unfold webhook_update. destruct (r !! id) eqn:E; [|done]. cbn.
  apply map_Forall_insert_2; [apply Hf; exact (H _ _ E)|done].
Qed.
Lemma lookup_update id f r j : (webhook_update id f r).2 !! j = if decide (j = id) then f <$> r !! id else r !! j.
Proof.
  unfold webhook_update. destruct (r !! id) as [w|] eqn:E; cbn; case_decide as Hj; subst;
    by rewrite ?lookup_insert_eq, ?lookup_insert_ne.
Qed.

Section dispatcher.
Context {HMAC : Hmac} {HEX : Hex} {SE : SerdeCodec WebhookEvent}.

Lemma deliver_all_spec ws event payload net at_ r cb :
  to_vec event = Ok payload -> NoDup (wh_id <$> ws) -> Forall (fun w => 0 <= retry_delay (wh_config w) < nanos (2 ^ 63)) ws ->
  exists r' cb', deliver_all ws event net at_ (r, cb) = Some (r', cb') /\
    forall id, if decide (id ∈ wh_id <$> ws) then exists b, r' !! id = count_delivery b (at_ id).2 <$> r !! id
               else r' !! id = r !! id.
Proof.
  intros Hp. revert r cb. induction ws as [|w ws IH]; intros r cb Hnd Hws.
  { do 2 eexists. split; [reflexivity|]. intros id. by rewrite decide_False by apply not_elem_of_nil. }
  cbn [fmap list_fmap] in Hnd. apply NoDup_cons in Hnd as [Hw Hnd]. apply Forall_cons in Hws as [Hd Hws].
  cbn [deliver_all]. unfold deliver_to_webhook.
  destruct (deliver_with_retries_total (wc_url (wh_config w)) event (wc_secret (wh_config w)) (wc_headers (wh_config w)) payload Hp
    (max_retries (wh_config w)) _ (net (wh_id w)) (at_ (wh_id w)).1 cb Hd) as (res & cb1 & sent & pauses & H).
  cbn [fst snd]. rewrite H. cbn [mbind option_bind].
  edestruct (IH (record_delivery (wh_id w) (bool_decide (dr_status res = Success)) (at_ (wh_id w)).2 r) cb1 Hnd Hws)
    as (r' & cb' & -> & Hr'). do 2 eexists. split; [reflexivity|]. intros id. specialize (Hr' id).
  unfold record_delivery in Hr'. rewrite lookup_update in Hr'. cbn [fmap list_fmap].
  destruct (decide (id = wh_id w)) as [->|Hne].
  - rewrite decide_True by (by left). rewrite decide_False in Hr' by done. eauto.
  - destruct (decide (id ∈ wh_id <$> ws)) as [Hin|Hin]; [rewrite decide_True by (by right); exact Hr'|].
    rewrite decide_False by (rewrite elem_of_cons; naive_solver). exact Hr'.
Qed.

Lemma elem_of_matching t ns r id w :
  registry_wf r -> r !! id = Some w ->
  id ∈ wh_id <$> get_matching t ns r <-> wc_enabled (wh_config w) && filter_matches t ns (wh_filter w) = true.
Proof.
  intros Hwf Hw. unfold get_matching, webhook_list. rewrite list_elem_of_fmap. split.
  - intros (w' & -> & Hin). apply list_elem_of_filter in Hin as [Hm Hin].
    apply list_elem_of_fmap in Hin as ([id' w''] & -> & Hin%elem_of_map_to_list). cbn in *.
    destruct (Hwf _ _ Hin) as [Hid _]. rewrite Hid in Hw. by simplify_eq.
  - intros Hm. destruct (Hwf _ _ Hw) as [Hid _]. exists w. split; [done|]. apply list_elem_of_filter. split; [done|].
    apply list_elem_of_fmap. exists (id, w). split; [done|]. by apply elem_of_map_to_list.
Qed.
Lemma webhook_list_ids r : registry_wf r -> wh_id <$> webhook_list r = (map_to_list r).*1.
Proof.
  intros Hwf. unfold webhook_list. rewrite <- list_fmap_compose. apply list_fmap_ext. intros i [id w] Hi. cbn.
  apply list_elem_of_lookup_2, elem_of_map_to_list in Hi. by destruct (Hwf _ _ Hi).
Qed.
Lemma matching_ok t ns r : registry_wf r ->
  NoDup (wh_id <$> get_matching t ns r) /\
  Forall (fun w => 0 <= retry_delay (wh_config w) < nanos (2 ^ 63)) (get_matching t ns r).
Proof.
  intros Hwf. split.
  - eapply sublist_NoDup; [|apply fmap_sublist, sublist_filter]. rewrite webhook_list_ids by done. apply NoDup_fst_map_to_list.
  - apply Forall_forall. intros w Hin. apply list_elem_of_filter in Hin as [_ Hin].
    apply list_elem_of_fmap in Hin as ([id w'] & -> & Hin%elem_of_map_to_list). by destruct (Hwf _ _ Hin).
Qed.

(** C37: The background task takes the oldest event, and records one delivery
    for each enabled webhook whose filter matches it, successful or not; the
    other webhooks stay as they are, and no webhook comes or goes. *)
Theorem event_recorded_once net at_ d event rest payload :
  registry_wf (wd_registry d) -> wd_queue d = event :: rest -> to_vec event = Ok payload ->
  exists d', delivery_task net at_ d = Some d' /\ wd_queue d' = rest /\
    dom (wd_registry d') = dom (wd_registry d) /\
    forall id w, wd_registry d !! id = Some w ->
      if wc_enabled (wh_config w) && filter_matches (we_type event) (we_namespace event) (wh_filter w)
      then exists success, wd_registry d' !! id = Some (count_delivery success (at_ id).2 w)
      else wd_registry d' !! id = Some w.
Proof.
  intros Hwf Hq Hp. unfold delivery_task. rewrite Hq.
  destruct (matching_ok (we_type event) (we_namespace event) _ Hwf) as [Hnd Hd].
  destruct (deliver_all_spec _ event payload net at_ (wd_registry d) (wd_circuits d) Hp Hnd Hd) as (r' & cb' & H & Hr').
  rewrite H. eexists. split; [reflexivity|]. cbn. split; [done|]. split.
  - apply set_eq. intros id. rewrite !elem_of_dom. specialize (Hr' id). case_decide.
    + destruct Hr' as [b ->]. by rewrite fmap_is_Some.
    + by rewrite Hr'.
  - intros id w Hw. specialize (Hr' id). pose proof (elem_of_matching (we_type event) (we_namespace event) _ _ _ Hwf Hw) as Hm.
    destruct (wc_enabled _ && _).
    + rewrite decide_True in Hr' by tauto. destruct Hr' as [b Hb]. exists b. by rewrite Hb, Hw.
    + rewrite decide_False in Hr' by (intros ?%Hm; done). by rewrite Hr'.
Qed.
End dispatcher.

(** ** Handlers *)

Section handlers.
Context {Cache : Type} {LRU : Lru CompositeKey Key Cache}.
Context {S : Type} {SB : StorageBackend S} {PC : Postcard Key}.
Context {SHA : Sha256} {HEX : Hex} {Value : Type} {CHRONO : Chrono} {HMAC : Hmac}.
Context {ST : Serde EventType} {SR : Serde OperationResult} {SVal : SerdeCodec Value}.
Context {SEv : SerdeCodec (AuditEvent Value)} {SCp : Serde HashChain.Checkpoint}.
Context {DA : Display AsyncAuditError} {SE : SerdeCodec WebhookEvent}.
Abbreviation state := (@AppState Cache S Value * WebhookRegistry)%type.

Lemma denied_bind {A B} i p (k : unit -> M state ApiError A) (k2 : A -> M state ApiError B) (s : state) :
  can_any (rbac s.1) (roles i) p = false -> exists e, bind (bind (on_app (require_rbac i p)) k) k2 s = (Err e, s).
Proof.
  intros H. unfold bind, on_app, require_rbac, read, require_any. rewrite H. cbn. eexists. by destruct s.
Qed.

(** Without the permission to manage webhooks every webhook route answers
    with an error and changes nothing: no registration, no audit record. *)
Theorem webhooks_need_permission q i now (s : state) :
  can_any (rbac s.1) (roles i) PManageWebhooks = false -> exists e, webhook_route q i now s = (Err e, s).
Proof.
  intros H. destruct q; cbn [webhook_route];
    unfold list_webhooks, create_webhook, get_webhook, update_webhook, delete_webhook, test_webhook;
    by apply denied_bind.
Qed.

(** The registrations stay well formed. *)
Definition registrations (s s' : state) : Prop :=
  registry_wf s.2 /\ map_Forall (fun _ => counts_agree) s.2 -> registry_wf s'.2 /\ map_Forall (fun _ => counts_agree) s'.2.
#[local] Instance registrations_preorder : PreOrder registrations.
Proof. split; [intros s H; exact H|intros s1 s2 s3; unfold registrations; tauto]. Qed.
Lemma on_app_keeps {A} (c : M AppState ApiError A) : keeps registrations (on_app c).
Proof. intros s. unfold registrations, on_app. by destruct (c s.1). Qed.
Lemma on_webhooks_keeps {A} (f : WebhookRegistry -> A * WebhookRegistry) :
  (forall r, registry_wf r -> registry_wf (f r).2) ->
  (forall r, map_Forall (fun _ => counts_agree) r -> map_Forall (fun _ => counts_agree) (f r).2) ->
  keeps registrations (on_webhooks f).
Proof. intros H1 H2 s [Ha Hb]. specialize (H1 _ Ha). specialize (H2 _ Hb). unfold on_webhooks. by destruct (f s.2). Qed.
Lemma or_not_found_keeps {A} id (o : option A) : keeps registrations (or_not_found id o).
Proof. unfold or_not_found. destruct o; [apply keeps_ret|apply keeps_throw]; apply _. Qed.
Lemma register_keeps w : 0 <= retry_delay (wh_config w) < nanos (2 ^ 63) -> counts_agree w ->
  keeps registrations (on_webhooks (fun r => (tt, webhook_register w r))).
Proof. intros Hd Hc. apply on_webhooks_keeps; intros r Hr; by apply map_Forall_insert_2. Qed.
Lemma update_keeps id rq f : keeps registrations (on_webhooks (webhook_update id (updater rq f))).
Proof.
  apply on_webhooks_keeps; intros r Hr; apply update_forall; try exact Hr; intros w; unfold updater; by case_bool_decide.
Qed.
Lemma delete_keeps id : keeps registrations (on_webhooks (webhook_delete id)).
Proof. apply on_webhooks_keeps; intros r Hr; by apply map_Forall_delete. Qed.
Lemma look_keeps {A} (f : WebhookRegistry -> A) : keeps registrations (on_webhooks (fun r => (f r, r))).
Proof. by apply on_webhooks_keeps. Qed.
#[local] Hint Resolve registrations_preorder on_app_keeps or_not_found_keeps update_keeps delete_keeps look_keeps : hsm.

(** In every history of webhook requests, whoever sends them and whatever
    is answered, webhooks stay filed under their ids, with delays that cannot
    overflow, and with as many deliveries counted as successes and failures. *)
Theorem registrations_well_formed requests (s : state) :
  registry_wf s.2 -> map_Forall (fun _ => counts_agree) s.2 ->
  let s' := foldl (fun s '(q, i, now) => (webhook_route q i now s).2) s requests in
  registry_wf s'.2 /\ map_Forall (fun _ => counts_agree) s'.2.
Proof.
  assert (Hq : forall q i now, keeps registrations (webhook_route q i now)).
  { intros q i now. destruct q; cbn [webhook_route];
      unfold list_webhooks, create_webhook, get_webhook, update_webhook, delete_webhook, test_webhook;
      repeat first [solve [auto 3 with hsm] | apply keeps_bind; [apply _| |intros ?] | case_match].
    apply register_keeps; [split; [discriminate|reflexivity]|done]. }
  revert s. induction requests as [|[[q i] now] requests IH]; intros s H1 H2; [done|]. cbn.
  destruct (Hq q i now s) as [H1' H2']; [done|]. by apply IH.
Qed.
End handlers.
