(* ===== verification/CircuitBreaker.v ===== *)
(** * The circuit breaker

    [crates/grpc-api/src/circuit_breaker.rs]: the breaker that the gRPC
    handlers put in front of the key manager.  Its methods hold a lock on the
    state; where they give it up to take it again for writing, the two halves
    are definitions of their own.  Instants are nanoseconds, counters are
    64-bit atomics.

    Two views: calls one after the other, with the exact behaviour as an
    abstract machine, and calls that overlap, as a step relation. *)

From Stdlib Require Import ZArith Lia.
From stdpp Require Import base gmap strings list.
From S2P Require Import Prelude External Platform.

Inductive CircuitBreakerError := CircuitOpen | TooManyRequests.
Inductive CircuitState := Closed | Open | HalfOpen.
#[export] Instance CircuitState_eq_dec : EqDecision CircuitState.
Proof. solve_decision. Defined.

Record CircuitBreakerConfig := MkBreakerConfig {
  failure_threshold : Z;
  success_threshold : Z;
  timeout : Duration;
  half_open_max_requests : Z
}.
Definition breaker_config_default : CircuitBreakerConfig := MkBreakerConfig 5 2 (nanos 60) 1.

Record CircuitBreaker := MkBreaker {
  cb_state : CircuitState;
  failure_count : Z;
  success_count : Z;
  last_failure_time : option DateTime;
  half_open_requests : Z
}.
Definition breaker_new : CircuitBreaker := MkBreaker Closed 0 0 None 0.

Section breaker.
Context (config : CircuitBreakerConfig).

(** [last_time.elapsed()] *)
Definition elapsed (now last : DateTime) : Duration := Z.max 0 (now - last).

Definition check_state (now : DateTime) : M CircuitBreaker CircuitBreakerError unit := fun b =>
  match cb_state b with
  | Closed => (Ok tt, b)
  | Open =>
      match last_failure_time b with
      | Some last_time =>
          if timeout config <=? elapsed now last_time
          then (Ok tt, MkBreaker HalfOpen 0 0 (last_failure_time b) 0)
          else (Err CircuitOpen, b)
      | None => (Err CircuitOpen, b)
      end
  | HalfOpen =>
      if half_open_max_requests config <=? half_open_requests b then (Err TooManyRequests, b)
      else (Ok tt, MkBreaker HalfOpen (failure_count b) (success_count b) (last_failure_time b)
                     (wrap 64 (half_open_requests b + 1)))
  end.

(** Under the read lock; [true] when the circuit is to be closed. *)
Definition on_success_read (b : CircuitBreaker) : bool * CircuitBreaker :=
  match cb_state b with
  | Closed => (false, MkBreaker Closed 0 (success_count b) (last_failure_time b) (half_open_requests b))
  | HalfOpen =>
      let successes := wrap 64 (success_count b + 1) in
      (success_threshold config <=? successes,
       MkBreaker HalfOpen (failure_count b) successes (last_failure_time b) (wrap 64 (half_open_requests b - 1)))
  | Open => (false, b)
  end.
Definition close_circuit (b : CircuitBreaker) : CircuitBreaker :=
  MkBreaker Closed 0 0 (last_failure_time b) (half_open_requests b).
Definition on_success (b : CircuitBreaker) : CircuitBreaker :=
  let '(close, b) := on_success_read b in if close then close_circuit b else b.

Inductive opening := NoOpening | FromClosed | FromHalfOpen.
Definition on_failure_read (now : DateTime) (b : CircuitBreaker) : opening * CircuitBreaker :=
  match cb_state b with
  | Closed =>
      let failures := wrap 64 (failure_count b + 1) in
      (if failure_threshold config <=? failures then FromClosed else NoOpening,
       MkBreaker Closed failures (success_count b) (last_failure_time b) (half_open_requests b))
  | HalfOpen =>
      (FromHalfOpen,
       MkBreaker HalfOpen (failure_count b) (success_count b) (last_failure_time b) (wrap 64 (half_open_requests b - 1)))
  | Open => (NoOpening, MkBreaker Open (failure_count b) (success_count b) (Some now) (half_open_requests b))
  end.
Definition open_circuit (from : opening) (now : DateTime) (b : CircuitBreaker) : CircuitBreaker :=
  match from with
  | NoOpening => b
  | FromClosed => MkBreaker Open (failure_count b) (success_count b) (Some now) (half_open_requests b)
  | FromHalfOpen => MkBreaker Open 0 0 (Some now) (half_open_requests b)
  end.
Definition on_failure (now : DateTime) (b : CircuitBreaker) : CircuitBreaker :=
  let '(from, b) := on_failure_read now b in open_circuit from now b.

(** A call: the operation runs on its own state between the check and the
    report. *)
Definition call {S E A} (now : DateTime) (f : M S E A) : M (CircuitBreaker * S) CircuitBreakerError (result A E) :=
  fun '(b, s) =>
    match check_state now b with
    | (Err e, b) => (Err e, (b, s))
    | (Ok _, b) =>
        let '(r, s) := f s in
        (Ok r, (match r with Ok _ => on_success b | Err _ => on_failure now b end, s))
    end.

Definition reset (b : CircuitBreaker) : CircuitBreaker := MkBreaker Closed 0 0 None 0.

(** ** One call after the other *)

(** A call at an instant, of an operation that succeeds or fails; the outcome
    is the rejection, if any. *)
Definition attempt_call (now : DateTime) (succeeds : bool) (b : CircuitBreaker) : option CircuitBreakerError * CircuitBreaker :=
  match check_state now b with
  | (Err e, b) => (Some e, b)
  | (Ok _, b) => (None, if succeeds then on_success b else on_failure now b)
  end.
Fixpoint attempt_calls (cs : list (DateTime * bool)) (b : CircuitBreaker) : list (option CircuitBreakerError) :=
  match cs with
  | [] => []
  | (now, succeeds) :: rest => let '(r, b) := attempt_call now succeeds b in r :: attempt_calls rest b
  end.

(** What a sequence of calls amounts to: closed with the number of failures in
    a row, open since an instant, or locked. *)
Inductive breaker_spec := SClosed (failures : Z) | SOpen (since : DateTime) | SLocked.
Definition spec_call (now : DateTime) (succeeds : bool) (s : breaker_spec) : option CircuitBreakerError * breaker_spec :=
  match s with
  | SClosed n =>
      (None, if succeeds then SClosed 0 else if failure_threshold config <=? n + 1 then SOpen now else SClosed (n + 1))
  | SOpen since =>
      if timeout config <=? elapsed now since then
        (None, if negb succeeds then SOpen now else if success_threshold config <=? 1 then SClosed 0 else SLocked)
      else (Some CircuitOpen, s)
  | SLocked => (Some TooManyRequests, SLocked)
  end.
Fixpoint spec_calls (cs : list (DateTime * bool)) (s : breaker_spec) : list (option CircuitBreakerError) :=
  match cs with
  | [] => []
  | (now, succeeds) :: rest => let '(r, s) := spec_call now succeeds s in r :: spec_calls rest s
  end.

Definition simulates (s : breaker_spec) (b : CircuitBreaker) : Prop :=
  match s with
  | SClosed n => cb_state b = Closed /\ failure_count b = n /\ 0 <= n < failure_threshold config \/
                 cb_state b = Closed /\ failure_count b = 0 /\ n = 0
  | SOpen since => cb_state b = Open /\ last_failure_time b = Some since
  | SLocked => cb_state b = HalfOpen /\ half_open_max_requests config <= half_open_requests b
  end.

Context (Hthreshold : in_u 64 (failure_threshold config)) (Hmax : in_u 64 (half_open_max_requests config)).

Lemma attempt_call_simulates now succeeds s b :
  simulates s b ->
  (attempt_call now succeeds b).1 = (spec_call now succeeds s).1 /\
  simulates (spec_call now succeeds s).2 (attempt_call now succeeds b).2.
Proof using Hthreshold Hmax.
  destruct Hthreshold as [Ht0 Ht]. destruct Hmax as [Hm0 Hm]. unfold attempt_call, check_state. destruct s as [n|since|]; cbn [simulates].
  - intros Hs. assert (cb_state b = Closed /\ failure_count b = n /\ 0 <= n /\ (n < failure_threshold config \/ n = 0)) as (Hb & Hf & Hn & Hlt)
      by (destruct Hs as [(? & ? & ? & ?)|(? & ? & ->)]; auto with lia).
    rewrite Hb. cbn [fst snd spec_call]. split; [done|]. destruct succeeds.
    + unfold on_success, on_success_read. rewrite Hb. cbn. auto.
    + unfold on_failure, on_failure_read. rewrite Hb, Hf.
      assert (wrap 64 (n + 1) = n + 1) as -> by (unfold wrap; apply Z.mod_small; lia).
      destruct (Z.leb_spec (failure_threshold config) (n + 1)); cbn; [done|]. left. split; [done|]. split; [done|lia].
  - intros [Hb Hl]. rewrite Hb, Hl. cbn [spec_call]. destruct (timeout config <=? elapsed now since); [|done].
    cbn [fst snd]. split; [done|]. destruct succeeds; cbn [negb].
    + unfold on_success, on_success_read. cbn. change (wrap 64 (0 + 1)) with 1.
      destruct (success_threshold config <=? 1); cbn; [auto|]. split; [done|]. change (wrap 64 (0 - 1)) with (2 ^ 64 - 1). lia.
    + unfold on_failure, on_failure_read. cbn. done.
  - intros [Hb Hh]. rewrite Hb, (proj2 (Z.leb_le _ _) Hh). done.
Qed.

Lemma attempt_calls_spec cs s b : simulates s b -> attempt_calls cs b = spec_calls cs s.
Proof using Hthreshold Hmax.
  revert s b. induction cs as [|[now succeeds] cs IH]; intros s b Hs; [done|]. cbn.
  destruct (attempt_call_simulates now succeeds s b Hs) as [H1 H2].
  destruct (attempt_call now succeeds b) as [r b'], (spec_call now succeeds s) as [r' s']. cbn in *. subst r'. f_equal. by apply IH.
Qed.
End breaker.

(** C27: the exact behaviour of the breaker on calls one after the other, as an
    abstract machine.  It lets calls through while it is closed, opens after
    the configured number of failures in a row, rejects until the timeout has
    passed and then lets one call through.  A failure opens it again; a success
    closes it when one success is enough.  When more successes are required, it
    is locked: it rejects every later call with [TooManyRequests], however much
    time passes, because the call that half-opened it was not counted and its
    completion takes the counter of running calls below zero, to 2^64 - 1. *)
Theorem breaker_refines config cs :
  in_u 64 (failure_threshold config) -> in_u 64 (half_open_max_requests config) ->
  attempt_calls config cs breaker_new = spec_calls config cs (SClosed 0).
Proof. intros Ht Hm. apply attempt_calls_spec; [done..|]. right. done. Qed.

(** A locked breaker rejects whatever comes. *)
Lemma locked_forever config cs : spec_calls config cs SLocked = replicate (length cs) (Some TooManyRequests).
Proof. induction cs as [|[now succeeds] cs IH]; [done|]. cbn. by f_equal. Qed.

(** ** Calls that overlap *)

(** The breaker with the calls in progress: running their operation, or about
    to close or to open the circuit. *)
Record overlap := MkOverlap {
  shared : CircuitBreaker;
  running : nat;
  closing : nat;
  opening_from : list opening
}.

Inductive overlap_step (config : CircuitBreakerConfig) : overlap -> overlap -> Prop :=
| step_admit now b b' r c o :
    check_state config now b = (Ok tt, b') ->
    overlap_step config (MkOverlap b r c o) (MkOverlap b' (S r) c o)
| step_reject now b b' e r c o :
    check_state config now b = (Err e, b') ->
    overlap_step config (MkOverlap b r c o) (MkOverlap b' r c o)
| step_success b b' close r c o :
    on_success_read config b = (close, b') ->
    overlap_step config (MkOverlap b (S r) c o) (MkOverlap b' r (if close then S c else c) o)
| step_close b r c o :
    overlap_step config (MkOverlap b r (S c) o) (MkOverlap (close_circuit b) r c o)
| step_failure now b b' from r c o :
    on_failure_read config now b = (from, b') ->
    overlap_step config (MkOverlap b (S r) c o) (MkOverlap b' r c (from :: o))
| step_open now b from r c o o' :
    overlap_step config (MkOverlap b r c (o ++ from :: o')) (MkOverlap (open_circuit from now b) r c (o ++ o')).
Inductive overlap_reachable (config : CircuitBreakerConfig) : overlap -> Prop :=
| overlap_new : overlap_reachable config (MkOverlap breaker_new 0 0 [])
| overlap_next x y : overlap_reachable config x -> overlap_step config x y -> overlap_reachable config y
| overlap_reset b r c o :
    overlap_reachable config (MkOverlap b r c o) -> overlap_reachable config (MkOverlap (reset b) r c o).

Lemma reachable_open_since config x :
  overlap_reachable config x -> cb_state (shared x) = Open -> is_Some (last_failure_time (shared x)).
Proof.
  induction 1 as [|x y _ IH Hs|b r c o _ IH]; [done| |done].
  destruct Hs as [now b b' r c o H|now b b' e r c o H|b b' close r c o H|b r c o|now b b' from r c o H|now b from r c o o'];
    cbn in *; try done.
  1-4: unfold check_state, on_success_read, on_failure_read in H; repeat case_match; simplify_eq; cbn; intros ?;
    first [congruence|by eauto|by destruct IH].
  destruct from; cbn; eauto.
Qed.

(** An open breaker is not open for good.  However calls and resets overlap,
    in every reachable state in which the circuit is open it remembers the last
    failure: calls are rejected until the timeout has passed since then, and a
    call after that is let through and half-opens the circuit. *)
Theorem open_until_timeout config x :
  overlap_reachable config x -> cb_state (shared x) = Open ->
  exists last, last_failure_time (shared x) = Some last /\
    forall now, check_state config now (shared x) =
      if timeout config <=? elapsed now last
      then (Ok tt, MkBreaker HalfOpen 0 0 (Some last) 0) else (Err CircuitOpen, shared x).
Proof.
  intros Hr Ho. destruct (reachable_open_since config x Hr Ho) as [last Hl]. exists last. split; [done|].
  intros now. unfold check_state. by rewrite Ho, Hl.
Qed.

(** No call is in progress and the counter of the half-open state is full. *)
Definition locked (config : CircuitBreakerConfig) (x : overlap) : Prop :=
  cb_state (shared x) = HalfOpen /\ half_open_max_requests config <= half_open_requests (shared x) /\
  running x = 0%nat /\ closing x = 0%nat /\ opening_from x = [].

Lemma locked_step config x y : locked config x -> overlap_step config x y -> y = x.
Proof.
  intros (Hs & Hh & Hr & Hc & Ho) H. destruct H as [now b b' r c o H|now b b' e r c o H| | | |now b from r c o o'];
    cbn in *; subst; try done.
  - unfold check_state in H. rewrite Hs, (proj2 (Z.leb_le _ _) Hh) in H. done.
  - unfold check_state in H. rewrite Hs, (proj2 (Z.leb_le _ _) Hh) in H. by simplify_eq.
  - by destruct o.
Qed.
