(* ===== verification/GrpcApi.v ===== *)
(** * The gRPC interface

    [SimpleHsmHandler] of [crates/grpc-api/src/handlers_simple.rs] with
    [validation.rs] and [error.rs]: requests are validated and run on the key
    manager through the circuit breaker.  A handler is one computation of the
    model; the calls it makes are in the order of the source.

    Arguments that stand for effects: [t], the two clocks; [i] and
    [generated], the id and the outcome of key generation; [fill], the random
    bytes of the encryption.  Parameters: [Uuid], the parser of key ids;
    [Display], the texts of errors; [Alphanumeric], the Unicode property of
    [char::is_alphanumeric] beyond ASCII.

    The last part is authentication and authorization: [AuthService] of
    [crates/auth/src/lib.rs], which puts the session manager and the three
    layers of [AccessControl] together, and [AuthInterceptor] of
    [crates/grpc-api/src/middleware/auth.rs] on top of it.  Client
    certificates are checked by [MtlsAuthenticator], the argument
    [authenticated]: its outcome for a certificate. *)

From Stdlib Require Import ZArith Lia Strings.Byte.
From stdpp Require Import base gmap strings list.
From S2P Require Import Prelude External Platform AesGcm KeyTypes KeyStore KeyManager Signing CircuitBreaker.
From S2P Require Import AccessControl Sessions SessionManager.

#[local] Abbreviation list := Datatypes.list.

(** ** Status codes and errors *)

Inductive Code :=
| InvalidArgument | NotFound | PermissionDenied | Unauthenticated | ResourceExhausted | FailedPrecondition
| InternalCode | Unavailable.
Record Status := MkStatus { code : Code; message : string }.
Definition invalid_argument (msg : string) : Status := MkStatus InvalidArgument msg.
Definition failed_precondition (msg : string) : Status := MkStatus FailedPrecondition msg.

Inductive ApiError :=
| ApiKeyNotFound (msg : string) | ApiInvalidKeyType (msg : string) | AuthenticationFailed (msg : string)
| AuthorizationFailed (msg : string) | InvalidRequest (msg : string) | CryptoFailed (msg : string)
| KeyManagerFailed (msg : string) | InternalFailed (msg : string) | DatabaseFailed (msg : string)
| PolicyViolation (msg : string) | RateLimited | ApiResourceExhausted (msg : string).
(** Only validation messages reach the client. *)
Definition status_of (e : ApiError) : Status :=
  match e with
  | ApiKeyNotFound _ => MkStatus NotFound "Key not found"
  | ApiInvalidKeyType _ => MkStatus InvalidArgument "Invalid key type"
  | AuthenticationFailed _ => MkStatus Unauthenticated "Authentication failed"
  | AuthorizationFailed _ => MkStatus PermissionDenied "Access denied"
  | InvalidRequest msg => MkStatus InvalidArgument msg
  | CryptoFailed _ => MkStatus InternalCode "Cryptographic operation failed"
  | KeyManagerFailed _ => MkStatus InternalCode "Key management operation failed"
  | InternalFailed _ => MkStatus InternalCode "Internal server error"
  | DatabaseFailed _ => MkStatus Unavailable "Service temporarily unavailable"
  | PolicyViolation _ => MkStatus PermissionDenied "Operation not permitted"
  | RateLimited => MkStatus ResourceExhausted "Rate limit exceeded"
  | ApiResourceExhausted _ => MkStatus ResourceExhausted "Resource limit exceeded"
  end.
Definition api_error_of `{Display Error, Display KeyType} (e : Error) : ApiError :=
  match e with
  | KeyNotFound key_id => ApiKeyNotFound key_id
  | UnsupportedKeyType key_type => ApiInvalidKeyType (display key_type)
  | MaxOperationsReached key_id => PolicyViolation ("Max operations reached for key " +:+ key_id)
  | _ => KeyManagerFailed (display e)
  end.

(** ** Validation ([validation.rs]) *)

Definition MAX_KEY_ID_SIZE : Z := 256.
Definition MAX_NAMESPACE_SIZE : Z := 256.
Definition MAX_MESSAGE_SIZE : Z := 10 * 1024 * 1024.
Definition MAX_BATCH_SIZE : Z := 1000.
Definition MAX_ALGORITHM_NAME_SIZE : Z := 64.
Definition MAX_METADATA_ENTRIES : Z := 100.
Definition MAX_METADATA_KEY_SIZE : Z := 256.
Definition MAX_METADATA_VALUE_SIZE : Z := 1024.

(** [is_empty] and [len] of bytes; of a string, its UTF-8 bytes. *)
Definition size (b : bytes) : Z := Z.of_nat (length b).
Definition slen (s : string) : Z := Z.of_nat (String.length s).

(** "<what>: <actual> > <max>" *)
Definition too_large (what : string) (actual max : Z) : Status :=
  invalid_argument (what +:+ ": " +:+ to_decimal actual +:+ " > " +:+ to_decimal max).

Definition validate_key_id (key_id : bytes) : result unit Status :=
  if size key_id =? 0 then Err (invalid_argument "key_id is required")
  else if MAX_KEY_ID_SIZE <? size key_id then Err (too_large "key_id too large" (size key_id) MAX_KEY_ID_SIZE)
  else Ok tt.

(** The characters of well-formed UTF-8, as code points. *)
Definition low6 (b : byte) : Z := Z.land (byte_to_Z b) 0x3F.
Fixpoint chars (bs : bytes) : list Z :=
  match bs with
  | [] => []
  | b0 :: rest0 =>
      let v := byte_to_Z b0 in
      if v <? 0x80 then v :: chars rest0
      else match rest0 with
      | [] => [v]
      | b1 :: rest1 =>
          if v <? 0xE0 then (Z.land v 0x1F * 64 + low6 b1) :: chars rest1
          else match rest1 with
          | [] => [v]
          | b2 :: rest2 =>
              if v <? 0xF0 then ((Z.land v 0x0F * 64 + low6 b1) * 64 + low6 b2) :: chars rest2
              else match rest2 with
              | [] => [v]
              | b3 :: rest3 => (((Z.land v 0x07 * 64 + low6 b1) * 64 + low6 b2) * 64 + low6 b3) :: chars rest3
              end
          end
      end
  end.
Definition ascii_alphanumeric (c : Z) : bool :=
  (48 <=? c) && (c <=? 57) || (65 <=? c) && (c <=? 90) || (97 <=? c) && (c <=? 122).
Class Alphanumeric := { non_ascii_alphanumeric : Z -> bool }.
Definition is_alphanumeric `{Alphanumeric} (c : Z) : bool :=
  if c <? 128 then ascii_alphanumeric c else non_ascii_alphanumeric c.
Definition validate_namespace `{Alphanumeric} (ns : string) : result unit Status :=
  if slen ns =? 0 then Err (invalid_argument "namespace is required")
  else if MAX_NAMESPACE_SIZE <? slen ns then Err (too_large "namespace too large" (slen ns) MAX_NAMESPACE_SIZE)
  else if negb (forallb (fun c => is_alphanumeric c || (c =? 45) || (c =? 95)) (chars (as_bytes ns)))
  then Err (invalid_argument "namespace must be alphanumeric with hyphens/underscores only")
  else Ok tt.

Definition validate_data_size (data : bytes) (operation : string) : result unit Status :=
  if size data =? 0 then Err (invalid_argument (operation +:+ " data is required"))
  else if MAX_MESSAGE_SIZE <? size data
  then Err (too_large (operation +:+ " data too large") (size data) MAX_MESSAGE_SIZE)
  else Ok tt.
Definition validate_algorithm (algorithm : string) : result unit Status :=
  if slen algorithm =? 0 then Err (invalid_argument "algorithm is required")
  else if MAX_ALGORITHM_NAME_SIZE <? slen algorithm
  then Err (too_large "algorithm name too large" (slen algorithm) MAX_ALGORITHM_NAME_SIZE)
  else Ok tt.
Definition validate_batch_size (n : Z) (operation : string) : result unit Status :=
  if n =? 0 then Err (invalid_argument (operation +:+ " batch cannot be empty"))
  else if MAX_BATCH_SIZE <? n then Err (too_large (operation +:+ " batch too large") n MAX_BATCH_SIZE)
  else Ok tt.
(** The entries in the order in which the map lists them. *)
Fixpoint validate_entries (entries : list (string * string)) : result unit Status :=
  match entries with
  | [] => Ok tt
  | (key, value) :: rest =>
      if MAX_METADATA_KEY_SIZE <? slen key
      then Err (too_large "metadata key too large" (slen key) MAX_METADATA_KEY_SIZE)
      else if MAX_METADATA_VALUE_SIZE <? slen value
      then Err (too_large "metadata value too large" (slen value) MAX_METADATA_VALUE_SIZE)
      else validate_entries rest
  end.
Definition validate_metadata (metadata : gmap string string) : result unit Status :=
  let n := Z.of_nat (base.size metadata) in
  if MAX_METADATA_ENTRIES <? n then Err (too_large "too many metadata entries" n MAX_METADATA_ENTRIES)
  else validate_entries (map_to_list metadata).
Definition validate_plaintext_size (plaintext : bytes) : result unit Status := validate_data_size plaintext "plaintext".
Definition validate_ciphertext_size (ciphertext : bytes) : result unit Status := validate_data_size ciphertext "ciphertext".
Definition validate_signature_size (signature : bytes) : result unit Status :=
  if size signature =? 0 then Err (invalid_argument "signature is required")
  else if MAX_MESSAGE_SIZE <? size signature
  then Err (too_large "signature too large" (size signature) MAX_MESSAGE_SIZE)
  else Ok tt.

(** ** Messages *)

Record ProtoPolicy := MkProtoPolicy {
  allowed_usages : list Z;
  exportable : bool;
  max_uses : Z;
  expiry_time : Z
}.
Record GenerateKeyRequest := MkGenerateKeyRequest {
  gk_namespace : string;
  gk_key_type : Z;
  gk_policy : option ProtoPolicy;
  gk_metadata : gmap string string
}.
(** [GetKeyRequest], [DeleteKeyRequest], [RotateKeyRequest] *)
Record KeyRequest := MkKeyRequest { kr_key_id : string; kr_namespace : string }.
Record ProtoMetadata := MkProtoMetadata {
  pm_key_id : string;
  pm_namespace : string;
  pm_key_type : Z;
  pm_state : Z;
  pm_created_at : Z;
  pm_updated_at : Z;
  pm_version : string
}.
Record GenerateKeyResponse := MkGenerateKeyResponse {
  gr_key_id : string;
  gr_public_key : bytes;
  gr_metadata : ProtoMetadata
}.
Record GetKeyResponse := MkGetKeyResponse { gt_metadata : ProtoMetadata; gt_public_key : bytes }.
Record RotateKeyResponse := MkRotateKeyResponse { rr_new_key_id : string; rr_metadata : ProtoMetadata }.
Record SignRequest := MkSignRequest { sq_key_id : bytes; sq_namespace : string; sq_data : bytes; sq_algorithm : string }.
Record SignResponse := MkSignResponse { sr_signature : bytes; sr_algorithm : string }.
Record VerifyRequest := MkVerifyRequest { vq_key_id : bytes; vq_namespace : string; vq_data : bytes; vq_signature : bytes }.
Record EncryptRequest := MkEncryptRequest {
  eq_key_id : bytes; eq_namespace : string; eq_plaintext : bytes; eq_associated_data : bytes
}.
Record EncryptResponse := MkEncryptResponse { er_ciphertext : bytes; er_nonce : bytes }.
Record DecryptRequest := MkDecryptRequest {
  dq_key_id : bytes; dq_namespace : string; dq_ciphertext : bytes; dq_nonce : bytes; dq_associated_data : bytes
}.

(** ** Conversions *)

Definition i32_to_string (v : Z) : string := if v <? 0 then "-" +:+ to_decimal (- v) else to_decimal v.
Definition proto_key_type_to_km (proto_kt : Z) : result KeyType Status :=
  if proto_kt =? 1 then Ok Rsa2048 else if proto_kt =? 2 then Ok Rsa4096 else if proto_kt =? 3 then Ok EcdsaP256
  else if proto_kt =? 4 then Ok EcdsaP384 else if proto_kt =? 5 then Ok Ed25519 else if proto_kt =? 6 then Ok KAes256
  else Err (invalid_argument ("Invalid or unsupported key type: " +:+ i32_to_string proto_kt)).
Definition km_key_type_to_proto (t : KeyType) : Z :=
  match t with
  | Rsa2048 => 1 | Rsa4096 => 2 | EcdsaP256 => 3 | EcdsaP384 => 4 | Ed25519 => 5 | KAes256 => 6
  | Rsa3072 => 1 | KAes128 => 6
  | _ => 0
  end.
Definition proto_key_state_to_km (proto_ks : Z) : option KeyState :=
  if proto_ks =? 1 then Some Active else if proto_ks =? 2 then Some Deactivated
  else if proto_ks =? 3 then Some Compromised else if proto_ks =? 4 then Some Destroyed else None.
Definition km_key_state_to_proto (s : KeyState) : Z :=
  match s with Pending => 0 | Active => 1 | Deactivated => 2 | Compromised => 3 | Destroyed => 4 end.

Definition proto_policy_to_km (p : ProtoPolicy) : KeyUsagePolicy :=
  let has := fun u => bool_decide (u ∈ allowed_usages p) in
  let unspecified := bool_decide (allowed_usages p = []) in
  MkKeyUsagePolicy (has 1 || unspecified) (has 3 || unspecified) (has 5 || has 6) (exportable p)
    (if 0 <? max_uses p then Some (max_uses p) else None)
    (** Both branches on [expiry_time] give [None]. *)
    None.

Definition now_timestamp (now : DateTime) : Z := Z.max 0 now / 1000000000.
Definition build_key_metadata (key_id : KeyId) (ns : string) (t : KeyType) (s : KeyState) (version : Z) (now : DateTime)
    : ProtoMetadata :=
  MkProtoMetadata key_id ns (km_key_type_to_proto t) (km_key_state_to_proto s) (now_timestamp now) (now_timestamp now)
    (to_decimal version).

Section handlers.
Context {Cache : Type} {LRU : Lru CompositeKey Key Cache}.
Context {S : Type} {SB : StorageBackend S} {PC : Postcard Key}.
Context {SHA : Sha256} {HEX : Hex} {PK : PublicKeys} {SCH : SignatureSchemes} {AEAD : Aead}.
Context {UUID : Uuid} {ALNUM : Alphanumeric}.
Context {DK : Display Error} {DT : Display KeyType} {DC : Display CryptoError}.

(** ** Engines by key type *)

Definition sign_with_key (t : KeyType) (private_key : KeyMaterial) (data : bytes) : result (bytes * string) string :=
  match t with
  | Ed25519 => let? sig := rmap_err display (ed25519_sign private_key data) in Ok (sig, "ED25519")
  | EcdsaP256 => let? sig := rmap_err display (sign_p256 private_key data) in Ok (sig, "ECDSA_P256")
  | EcdsaP384 => let? sig := rmap_err display (sign_p384 private_key data) in Ok (sig, "ECDSA_P384")
  | Rsa2048 | Rsa3072 | Rsa4096 =>
      let? sig := rmap_err display (sign_pkcs1v15_sha256 private_key data) in Ok (sig, "RSA_PKCS1_V15")
  | _ => Err ("Key type " +:+ display t +:+ " does not support signing")
  end.
Definition unwrap_or_false (r : result bool CryptoError) : bool := match r with Ok b => b | Err _ => false end.
Definition verify_with_key (t : KeyType) (public_key data signature : bytes) : bool :=
  match t with
  | Ed25519 => unwrap_or_false (ed25519_verify public_key data signature)
  | EcdsaP256 => unwrap_or_false (verify_p256 public_key data signature)
  | EcdsaP384 => unwrap_or_false (verify_p384 public_key data signature)
  | Rsa2048 | Rsa3072 | Rsa4096 => unwrap_or_false (verify_pkcs1v15_sha256 public_key data signature)
  | _ => false
  end.
Definition derive_aes_key (t : KeyType) (key_material : KeyMaterial) : KeyMaterial :=
  match t with
  | KAes256 | KAes128 => key_material
  | _ => KeyMaterial_from_bytes (take 32 (key_bytes key_material ++ replicate (32 - length (key_bytes key_material)) Byte.x00))
  end.

(** ** The handler *)

Record SimpleHsmHandler := MkHandler {
  key_manager : @DefaultKeyManager Cache S;
  key_manager_breaker : CircuitBreaker
}.
Definition handler_config : CircuitBreakerConfig := MkBreakerConfig 10 2 (nanos 30) 2.
Definition with_key_manager (m : @DefaultKeyManager Cache S) : SimpleHsmHandler := MkHandler m breaker_new.
Abbreviation handler := (M SimpleHsmHandler Status).

Definition run_km {A} (t : Clock) (op : M (@DefaultKeyManager Cache S) Error A) : handler A := fun h =>
  let '(r, (b, m)) := call handler_config (instant t) op (key_manager_breaker h, key_manager h) in
  (match r with
   | Ok inner => rmap_err (fun e => status_of (api_error_of e)) inner
   | Err CircuitOpen => Err (MkStatus Unavailable "key-manager unavailable (circuit breaker open); retry after backoff")
   | Err TooManyRequests => Err (MkStatus ResourceExhausted "key-manager recovering; too many in-flight requests")
   end, MkHandler m b).
(** A call of the key manager past the breaker, with its result. *)
Definition direct_km {A} (op : M (@DefaultKeyManager Cache S) Error A) : handler (result A Error) := fun h =>
  let '(r, m) := op (key_manager h) in (Ok r, MkHandler m (key_manager_breaker h)).

(** [KeyId::from_string] *)
Definition parse_key_id (s : string) : result KeyId Status :=
  ok_or (invalid_argument "Invalid key ID format") (uuid_parse s).
Definition parse_key_id_bytes (b : bytes) : result KeyId Status :=
  let? s := ok_or (invalid_argument "key_id must be valid UTF-8") (from_utf8 b) in parse_key_id s.
(** Validation and parsing of a [KeyRequest]. *)
Definition accept_key_request (r : KeyRequest) : result KeyId Status :=
  let? _ := validate_key_id (as_bytes (kr_key_id r)) in
  let? _ := validate_namespace (kr_namespace r) in
  parse_key_id (kr_key_id r).

Definition health_check : handler string := ret "Service is healthy".

Definition generate_key (req : GenerateKeyRequest) (generated : result (KeyMaterial * bytes) string) (i : KeyId) (t : Clock)
    : handler GenerateKeyResponse :=
  lift (validate_namespace (gk_namespace req)) ;!
  lift (validate_metadata (gk_metadata req)) ;!
  let! key_type := lift (proto_key_type_to_km (gk_key_type req)) in
  let policy := default KeyUsagePolicy_default (proto_policy_to_km <$> gk_policy req) in
  let spec := MkKeySpec key_type (gk_namespace req) policy (gk_metadata req) in
  let! key_id := run_km t (KeyManager.generate_key spec generated i (wall t)) in
  let! key := run_km t (KeyManager.get_key key_id (gk_namespace req) (wall t)) in
  ret (MkGenerateKeyResponse key_id (default [] (public_material key))
         (build_key_metadata key_id (gk_namespace req) key_type Active (version key) (wall t))).

Definition get_key (req : KeyRequest) (t : Clock) : handler GetKeyResponse :=
  let! key_id := lift (accept_key_request req) in
  let! md := run_km t (get_metadata key_id (kr_namespace req) (wall t)) in
  let! r := direct_km (KeyManager.get_key key_id (kr_namespace req) (wall t)) in
  let public_key := match r with Ok k => default [] (public_material k) | Err _ => [] end in
  ret (MkGetKeyResponse
         (build_key_metadata (m_id md) (m_namespace md) (m_key_type md) (m_state md) (m_version md) (wall t)) public_key).

Definition delete_key (req : KeyRequest) (t : Clock) : handler bool :=
  let! key_id := lift (accept_key_request req) in
  run_km t (KeyManager.delete_key key_id (kr_namespace req)) ;!
  ret true.

Definition rotate_key (req : KeyRequest) (generated : result (KeyMaterial * bytes) string) (i : KeyId) (t : Clock)
    : handler RotateKeyResponse :=
  let! key_id := lift (accept_key_request req) in
  let! new_key_id := run_km t (KeyManager.rotate_key key_id (kr_namespace req) generated i (wall t)) in
  let! new_key := run_km t (KeyManager.get_key new_key_id (kr_namespace req) (wall t)) in
  ret (MkRotateKeyResponse new_key_id
         (build_key_metadata new_key_id (kr_namespace req) (key_type new_key) (state new_key) (version new_key) (wall t))).

Definition list_keys_collected (ns : string) (filter_state max_results : Z) (t : Clock) : handler (list ProtoMetadata) :=
  let! ns := lift (if slen ns =? 0 then Ok "default" else let? _ := validate_namespace ns in Ok ns) in
  let filter := MkKeyFilter None (proto_key_state_to_km filter_state) ∅ in
  let! metadata_list := run_km t (list_keys ns filter (wall t)) in
  let limit := if 0 <? max_results then Z.to_nat max_results else 100%nat in
  ret ((fun m => build_key_metadata (m_id m) (m_namespace m) (m_key_type m) (m_state m) (m_version m) (wall t))
         <$> take limit metadata_list).

Definition sign (req : SignRequest) (t : Clock) : handler SignResponse :=
  lift (validate_key_id (sq_key_id req)) ;!
  lift (validate_namespace (sq_namespace req)) ;!
  lift (validate_data_size (sq_data req) "sign") ;!
  lift (if slen (sq_algorithm req) =? 0 then Ok tt else validate_algorithm (sq_algorithm req)) ;!
  let! key_id := lift (parse_key_id_bytes (sq_key_id req)) in
  let! key := run_km t (KeyManager.get_key key_id (sq_namespace req) (wall t)) in
  let! private_key := lift (ok_or (failed_precondition "Key has no private material for signing") (private_material key)) in
  let! p := lift (rmap_err (fun e => status_of (CryptoFailed e)) (sign_with_key (key_type key) private_key (sq_data req))) in
  direct_km (manager_increment_operations key_id (sq_namespace req)) ;!
  ret (MkSignResponse p.1 p.2).

Definition verify (req : VerifyRequest) (t : Clock) : handler bool :=
  lift (validate_key_id (vq_key_id req)) ;!
  lift (validate_namespace (vq_namespace req)) ;!
  lift (validate_data_size (vq_data req) "verify") ;!
  lift (validate_signature_size (vq_signature req)) ;!
  let! key_id := lift (parse_key_id_bytes (vq_key_id req)) in
  let! key := run_km t (KeyManager.get_key key_id (vq_namespace req) (wall t)) in
  let! public_key := lift (ok_or (failed_precondition "Key has no public material for verification") (public_material key)) in
  ret (verify_with_key (key_type key) public_key (vq_data req) (vq_signature req)).

Definition aad_of (associated_data : bytes) : option bytes :=
  if size associated_data =? 0 then None else Some associated_data.

Definition encrypt (req : EncryptRequest) (fill : fill_result) (t : Clock) : handler EncryptResponse :=
  lift (validate_key_id (eq_key_id req)) ;!
  lift (validate_namespace (eq_namespace req)) ;!
  lift (validate_plaintext_size (eq_plaintext req)) ;!
  let! key_id := lift (parse_key_id_bytes (eq_key_id req)) in
  let! key := run_km t (KeyManager.get_key key_id (eq_namespace req) (wall t)) in
  let! key_material := lift (ok_or (failed_precondition "Key has no material for encryption") (private_material key)) in
  let encryption_key := derive_aes_key (key_type key) key_material in
  let! sealed := lift (rmap_err (fun e => status_of (CryptoFailed (display e)))
                         (encrypt_aes256 encryption_key (eq_plaintext req) (aad_of (eq_associated_data req)) fill)) in
  direct_km (manager_increment_operations key_id (eq_namespace req)) ;!
  ret (MkEncryptResponse (drop 12 sealed) (take 12 sealed)).

Definition decrypt (req : DecryptRequest) (t : Clock) : handler bytes :=
  lift (validate_key_id (dq_key_id req)) ;!
  lift (validate_namespace (dq_namespace req)) ;!
  lift (validate_ciphertext_size (dq_ciphertext req)) ;!
  lift (if size (dq_nonce req) =? 0 then Err (invalid_argument "nonce is required for decryption") else Ok tt) ;!
  let! key_id := lift (parse_key_id_bytes (dq_key_id req)) in
  let! key := run_km t (KeyManager.get_key key_id (dq_namespace req) (wall t)) in
  let! key_material := lift (ok_or (failed_precondition "Key has no material for decryption") (private_material key)) in
  let decryption_key := derive_aes_key (key_type key) key_material in
  let! plaintext := lift (rmap_err (fun e => status_of (CryptoFailed (display e)))
                            (decrypt_aes256 decryption_key (dq_nonce req ++ dq_ciphertext req) (aad_of (dq_associated_data req)))) in
  direct_km (manager_increment_operations key_id (dq_namespace req)) ;!
  ret plaintext.

(** ** Batches *)

(** The loop of the batch handlers: a response and a message for each request. *)
Fixpoint batch {Req Resp} (run : Req -> handler Resp) (empty : Resp) (reqs : list Req) : handler (list Resp * list string) :=
  match reqs with
  | [] => ret ([], [])
  | req :: rest =>
      let! r := attempt (run req) in
      let! p := batch run empty rest in
      ret match r with
          | Ok resp => (resp :: p.1, EmptyString :: p.2)
          | Err status => (empty :: p.1, message status :: p.2)
          end
  end.
Definition batch_sign (reqs : list SignRequest) (t : Clock) : handler (list SignResponse * list string) :=
  lift (validate_batch_size (Z.of_nat (length reqs)) "sign") ;!
  batch (fun req => sign req t) (MkSignResponse [] EmptyString) reqs.
Definition batch_verify (reqs : list VerifyRequest) (t : Clock) : handler (list bool * list string) :=
  lift (validate_batch_size (Z.of_nat (length reqs)) "verify") ;!
  batch (fun req => verify req t) false reqs.
Definition batch_encrypt (reqs : list (EncryptRequest * fill_result)) (t : Clock) : handler (list EncryptResponse * list string) :=
  lift (validate_batch_size (Z.of_nat (length reqs)) "encrypt") ;!
  batch (fun req => encrypt req.1 req.2 t) (MkEncryptResponse [] []) reqs.
Definition batch_decrypt (reqs : list DecryptRequest) (t : Clock) : handler (list bytes * list string) :=
  lift (validate_batch_size (Z.of_nat (length reqs)) "decrypt") ;!
  batch (fun req => decrypt req t) [] reqs.

(** The log is not connected: the answer has no entries. *)
Definition get_audit_log (ns : string) : handler (list string * string * Z) :=
  lift (if slen ns =? 0 then Ok tt else validate_namespace ns) ;!
  ret ([], EmptyString, 0).
End handlers.

(** ** Authentication and authorization *)

Record AuthService := MkAuthService {
  rbac : RbacPolicy;
  namespaces : NamespaceManager;
  service_sessions : SessionManager;
  acls : AclManager
}.
Definition set_service_sessions (m : SessionManager) (s : AuthService) : AuthService :=
  MkAuthService (rbac s) (namespaces s) m (acls s).
Definition set_namespaces (m : NamespaceManager) (s : AuthService) : AuthService :=
  MkAuthService (rbac s) m (service_sessions s) (acls s).
Definition set_acls (m : AclManager) (s : AuthService) : AuthService :=
  MkAuthService (rbac s) (namespaces s) (service_sessions s) m.

Section service.
Context {SHA : Sha256} {HEX : Hex} {CR : ChronoRange}.

Definition auth_service_new (session_ttl_seconds : Z) : AuthService :=
  MkAuthService RbacPolicy_new ∅ (SessionManager_new session_ttl_seconds) ∅.

Definition authenticate_and_create_session (authenticated : result ClientIdentity AuthError)
    (id_random token_random : bytes) (now : DateTime) (s : AuthService)
    : option (result SessionCreationResult AuthError * AuthService) :=
  match authenticated with
  | Err e => Some (Err e, s)
  | Ok identity =>
      p ← create_session identity id_random token_random now (service_sessions s);
      Some (Ok p.1, set_service_sessions p.2 s)
  end.
(** By its id alone. *)
Definition service_validate_session (session_id : SessionId) (now : DateTime) : M AuthService AuthError ClientIdentity := fun s =>
  let '(r, m) := validate_session session_id now (service_sessions s) in
  (let? session := r in Ok (identity session), set_service_sessions m s).
Definition authorize_key_access (s : AuthService) (i : ClientIdentity) (key_id ns : string) (p : Permission)
    : result unit AuthError :=
  let? _ := require_access (namespaces s) i ns in
  let? _ := require_any (rbac s) (roles i) p in
  require_key_access (acls s) key_id i.
Definition authorize_session (session_id : SessionId) (key_id ns : string) (p : Permission) (now : DateTime)
    : M AuthService AuthError ClientIdentity :=
  let! i := service_validate_session session_id now in
  (fun s => (authorize_key_access s i key_id ns p, s)) ;!
  ret i.
Definition service_create_namespace (ns : string) (now : DateTime) : M AuthService AuthError unit := fun s =>
  let '(r, m) := create_namespace ns now (namespaces s) in (r, set_namespaces m s).
Definition grant_namespace_access (ns client_cn : string) (now : DateTime) : M AuthService AuthError unit := fun s =>
  let '(r, m) := grant_access ns client_cn now (namespaces s) in (r, set_namespaces m s).
Definition create_key_acl (key_id : string) (restricted : bool) (s : AuthService) : KeyAcl * AuthService :=
  let '(a, m) := create_acl key_id restricted (acls s) in (a, set_acls m s).
Definition allow_key_access (key_id client_cn : string) : M AuthService AuthError unit := fun s =>
  let '(r, m) := allow_client key_id client_cn (acls s) in (r, set_acls m s).
Definition cleanup_expired_sessions (now : DateTime) (s : AuthService) : Z * AuthService :=
  let '(n, m) := cleanup_expired now (service_sessions s) in (n, set_service_sessions m s).

(** ** The interceptor *)

(** [debug_assertions] is set in development builds; [None] is an interceptor
    without a service. *)
Section interceptor.
Context (debug_assertions : bool).
Abbreviation Interceptor := (option AuthService).

Definition authenticate (session_header : option string) (now : DateTime) : M Interceptor ApiError ClientIdentity := fun a =>
  match session_header with
  | None => (Err (AuthenticationFailed "Missing session-id header"), a)
  | Some session_id =>
      match a with
      | Some s =>
          let '(r, s) := service_validate_session session_id now s in
          (rmap_err (fun e => AuthenticationFailed ("Invalid session: " +:+ AuthError_to_string e)) r, Some s)
      | None =>
          (if debug_assertions then Ok (MkIdentity session_id None "default" [Admin] "dev-serial")
           else Err (AuthenticationFailed "Authentication service not configured"), a)
      end
  end.
Definition unconfigured : result unit ApiError :=
  if debug_assertions then Ok tt else Err (AuthorizationFailed "Authorization service not configured").
Definition authorize (i : ClientIdentity) (ns : string) (p : Permission) (a : Interceptor) : result unit ApiError :=
  match a with
  | Some s =>
      let? _ := rmap_err (fun e => AuthorizationFailed ("Namespace access denied: " +:+ AuthError_to_string e))
                  (require_access (namespaces s) i ns) in
      rmap_err (fun e => AuthorizationFailed ("Permission denied: " +:+ AuthError_to_string e))
        (require_any (rbac s) (roles i) p)
  | None => unconfigured
  end.
Definition interceptor_authorize_key_access (i : ClientIdentity) (key_id ns : string) (p : Permission) (a : Interceptor)
    : result unit ApiError :=
  match a with
  | Some s =>
      rmap_err (fun e => AuthorizationFailed ("Key access denied: " +:+ AuthError_to_string e))
        (authorize_key_access s i key_id ns p)
  | None => unconfigured
  end.
Definition authenticate_and_authorize (session_header : option string) (ns : string) (p : Permission) (now : DateTime)
    : M Interceptor ApiError ClientIdentity :=
  let! i := authenticate session_header now in
  (fun a => (authorize i ns p a, a)) ;!
  ret i.
End interceptor.

(** ** What is checked *)

Lemma service_validate_session_Ok session_id now s i s' :
  service_validate_session session_id now s = (Ok i, s') <->
  exists session, sessions (service_sessions s) !! session_id = Some session /\ session_is_expired now session = false /\
    i = identity session /\ s' = set_service_sessions (set_sessions <[session_id := touch now session]> (service_sessions s)) s.
Proof.
  unfold service_validate_session, validate_session, with_session.
  destruct (sessions (service_sessions s) !! session_id) as [se|]; [|split; [done|intros (? & [=] & _)]].
  destruct (session_is_expired now se) eqn:He.
  - split; [done|]. intros (se' & [= <-] & Hf & _). congruence.
  - cbn. split; [|intros (se' & [= <-] & _ & -> & ->); done]. intros [= <- <-]. by exists se.
Qed.

Lemma authorize_key_access_Ok s i key_id ns p :
  authorize_key_access s i key_id ns p = Ok tt <->
  has_access (namespaces s) i ns = true /\ can_any (rbac s) (roles i) p = true /\ can_access (acls s) key_id i = true.
Proof.
  unfold authorize_key_access, require_access, require_any, require_key_access.
  destruct (has_access _ _ _), (can_any _ _ _), (can_access _ _ _); cbn; naive_solver.
Qed.
End service.

(** What a session id is good for.  [authorize_session] lets a session id
    through to a key exactly when the session exists and has not expired, its
    client has access to the namespace, one of its roles has the permission, and
    the access list of the key does not exclude the client.  The only trace is
    the time of the last access. *)
Theorem authorize_session_iff session_id key_id ns p now s i s' :
  authorize_session session_id key_id ns p now s = (Ok i, s') <->
  exists session, sessions (service_sessions s) !! session_id = Some session /\ session_is_expired now session = false /\
    i = identity session /\ has_access (namespaces s) i ns = true /\ can_any (rbac s) (roles i) p = true /\
    can_access (acls s) key_id i = true /\
    s' = set_service_sessions (set_sessions <[session_id := touch now session]> (service_sessions s)) s.
Proof.
  unfold authorize_session. split.
  - intros (j & s1 & (se & Hs & He & -> & ->)%service_validate_session_Ok & H)%bind_inv_Ok.
    apply bind_inv_Ok in H as ([] & s2 & [= Ha <-] & [= <- <-]). apply authorize_key_access_Ok in Ha as (? & ? & ?). by exists se.
  - intros (se & Hs & He & -> & H1 & H2 & H3 & ->).
    erewrite bind_Ok; [|apply service_validate_session_Ok; by exists se].
    unfold bind. rewrite (proj2 (authorize_key_access_Ok _ _ _ _ _)); [done|]. done.
Qed.

(** The token of a session, its scope and the permissions that the access list
    requires are not looked at. *)
Lemma token_and_scope_ignored session_id key_id ns p now s session session' :
  sessions (service_sessions s) !! session_id = Some session ->
  identity session' = identity session -> s_expires_at session' = s_expires_at session ->
  (authorize_session session_id key_id ns p now
     (set_service_sessions (set_sessions <[session_id := session']> (service_sessions s)) s)).1 =
  (authorize_session session_id key_id ns p now s).1.
Proof.
  intros Hs Hi He. unfold authorize_session, service_validate_session, validate_session, with_session, bind.
  cbn. rewrite lookup_insert_eq, Hs. unfold session_is_expired. rewrite He.
  destruct (s_expires_at session <? now); [done|]. cbn. rewrite Hi. unfold authorize_key_access. cbn.
  by destruct (let? _ := require_access _ _ _ in _).
Qed.
