(* ===== verification/GrpcCorrect.v ===== *)
(** * Correctness of the gRPC interface

    Round trips of signing and encryption through the handlers; namespaces that
    pass the validation are names the file storage accepts; and what becomes of
    the service when its breaker has opened once.  Requests for unknown keys
    are failures of the key manager to the breaker.  Ten of them open it for
    everyone; the first request that succeeds after the timeout leaves it
    locked, and from then on no request that needs the key manager is served. *)

From Stdlib Require Import ZArith Lia Strings.Byte Ascii.
From stdpp Require Import base gmap strings list.
From S2P Require Import Prelude External Platform AesGcm FileSystem EncryptedFs KeyTypes KeyStore KeyManager.
From S2P Require Import Signing CircuitBreaker GrpcApi.

#[local] Abbreviation list := Datatypes.list.

(** ** Namespaces and paths *)

Lemma in_range_true lo hi b : in_range lo hi b = true <-> lo <= byte_to_Z b <= hi.
Proof. unfold in_range. rewrite andb_true_iff, !Z.leb_le. done. Qed.

(** The bytes of multi-byte characters are not ASCII. *)
Lemma chars_ascii b bs : byte_to_Z b < 128 -> utf8_valid bs = true -> b ∈ bs -> byte_to_Z b ∈ chars bs.
Proof.
  intros Hb. induction bs as [bs IH] using (well_founded_induction (well_founded_ltof _ length)). unfold ltof in IH.
  destruct bs as [|b0 r0]; [intros _ []%not_elem_of_nil|]. cbn [utf8_valid chars].
  destruct (in_range 0 0x7F b0) eqn:H0; [apply in_range_true in H0|apply not_true_iff_false in H0; rewrite in_range_true in H0].
  { rewrite (proj2 (Z.ltb_lt _ 0x80)) by lia. intros Hv [->|Hin]%elem_of_cons; [by left|]. right. apply IH; cbn; auto. }
  pose proof (byte_to_Z_range b0). rewrite (proj2 (Z.ltb_ge _ 0x80)) by lia. destruct r0 as [|b1 r1]; [done|].
  destruct (in_range 0xC2 0xDF b0) eqn:H1; [apply in_range_true in H1|apply not_true_iff_false in H1; rewrite in_range_true in H1].
  { rewrite (proj2 (Z.ltb_lt _ 0xE0)) by lia. intros [Hr1%in_range_true Hv]%andb_true_iff Hin.
    apply elem_of_cons in Hin as [->|[->|Hin]%elem_of_cons]; [lia..|]. right. apply IH; cbn; auto with lia. }
  destruct r1 as [|b2 r2]; [done|].
  destruct (in_range 0xE0 0xEF b0) eqn:H2; [apply in_range_true in H2|apply not_true_iff_false in H2; rewrite in_range_true in H2].
  { rewrite (proj2 (Z.ltb_ge _ 0xE0)), (proj2 (Z.ltb_lt _ 0xF0)) by lia.
    intros [[Hr1%in_range_true Hr2%in_range_true]%andb_true_iff Hv]%andb_true_iff Hin.
    assert (0x80 <= byte_to_Z b1) by (destruct (in_range 0xE0 0xE0 b0); lia).
    apply elem_of_cons in Hin as [->|[->|[->|Hin]%elem_of_cons]%elem_of_cons]; [lia..|]. right. apply IH; cbn; auto with lia. }
  destruct r2 as [|b3 r3]; [done|].
  intros [[[[Hr0%in_range_true Hr1%in_range_true]%andb_true_iff Hr2%in_range_true]%andb_true_iff Hr3%in_range_true]%andb_true_iff Hv]%andb_true_iff Hin.
  assert (0x80 <= byte_to_Z b1) by (destruct (in_range 0xF0 0xF0 b0); lia).
  rewrite (proj2 (Z.ltb_ge _ 0xE0)), (proj2 (Z.ltb_ge _ 0xF0)) by lia.
  apply elem_of_cons in Hin as [->|[->|[->|[->|Hin]%elem_of_cons]%elem_of_cons]%elem_of_cons]; [lia..|].
  right. apply IH; cbn; auto with lia.
Qed.

Lemma contains_char c p s : contains (String c p) s = true -> byte_of_ascii c ∈ as_bytes s.
Proof.
  unfold contains. induction s as [|a s IH]; [done|]. cbn [String.index as_bytes]. destruct (String.prefix (String c p) (String a s)) eqn:Hp.
  - cbn in Hp. destruct (ascii_dec c a) as [->|]; [|done]. intros _. by left.
  - intros Hi. right. apply IH. by destruct (String.index 0 (String c p) s).
Qed.

(** What the gRPC interface accepts as a namespace, the file storage accepts
    as the name of a directory: it contains no slash, no backslash, no pair of
    dots and no zero byte, whatever further letters Unicode has. *)
Theorem namespace_is_directory_name `{Alphanumeric} ns label :
  utf8_valid (as_bytes ns) = true -> validate_namespace ns = Ok tt -> validate_path_component ns label = Ok tt.
Proof.
  intros Hu Hv. unfold validate_namespace in Hv. destruct (slen ns =? 0); [done|]. destruct (MAX_NAMESPACE_SIZE <? slen ns); [done|].
  destruct (forallb _ _) eqn:Hall; [|done]. rewrite forallb_forall in Hall.
  assert (Hno : forall c p, byte_to_Z (byte_of_ascii c) < 128 ->
    ascii_alphanumeric (byte_to_Z (byte_of_ascii c)) || (byte_to_Z (byte_of_ascii c) =? 45) || (byte_to_Z (byte_of_ascii c) =? 95) = false ->
    contains (String c p) ns = false).
  { intros c p Hc Hbad. apply not_true_iff_false. intros Hin%contains_char. apply chars_ascii in Hin; [|done..].
    apply list_elem_of_In in Hin. apply Hall in Hin. unfold is_alphanumeric in Hin.
    rewrite (proj2 (Z.ltb_lt _ _) Hc) in Hin. congruence. }
  unfold validate_path_component, nul. by rewrite !Hno by (vm_compute; done).
Qed.

Section handlers.
Context {Cache : Type} {LRU : Lru CompositeKey Key Cache}.
Context {S : Type} {SB : StorageBackend S} {PC : Postcard Key}.
Context {SHA : Sha256} {HEX : Hex} {PK : PublicKeys} {SCH : SignatureSchemes} {AEAD : Aead}.
Context {UUID : Uuid} {ALNUM : Alphanumeric}.
Context {DK : Display Error} {DT : Display KeyType} {DC : Display CryptoError}.
Abbreviation manager := (@DefaultKeyManager Cache S).
Abbreviation Handler := (@SimpleHsmHandler Cache S).
Implicit Types (h : Handler) (m : manager).

(** ** Calls of the key manager *)

(** A closed breaker passes the call on and stays closed on success. *)
Lemma run_km_Ok {A} t (op : M manager Error A) h a h' :
  cb_state (key_manager_breaker h) = Closed -> run_km t op h = (Ok a, h') ->
  op (key_manager h) = (Ok a, key_manager h') /\ cb_state (key_manager_breaker h') = Closed.
Proof.
  intros Hc. unfold run_km, call, check_state. rewrite Hc. destruct (op (key_manager h)) as [[a'|e] m]; [|done].
  intros [= -> <-]. cbn. split; [done|]. unfold on_success, on_success_read. by rewrite Hc.
Qed.

Lemma run_km_run {A} t (op : M manager Error A) h a m :
  cb_state (key_manager_breaker h) = Closed -> op (key_manager h) = (Ok a, m) ->
  exists b, run_km t op h = (Ok a, MkHandler m b) /\ cb_state b = Closed.
Proof.
  intros Hc Ho. unfold run_km, call, check_state. rewrite Hc, Ho. eexists. split; [done|].
  unfold on_success, on_success_read. by rewrite Hc.
Qed.

Lemma lift_inv {A} (r : result A Status) h a h' : lift r h = (Ok a, h') -> r = Ok a /\ h' = h.
Proof. unfold lift. by intros [= -> ->]. Qed.

(** The guards of a handler that has answered. *)
Ltac passed H :=
  repeat (let a := fresh "a" in let x := fresh "x" in let E := fresh "E" in
          apply bind_inv_Ok in H as (a & x & [E ->]%lift_inv & H)).

(** ** Signatures *)

Lemma sign_with_key_verifies ty sk pk data sig alg :
  import_public ty (key_bytes sk) = Ok pk -> sign_with_key ty sk data = Ok (sig, alg) ->
  verify_with_key ty pk data sig = true.
Proof.
  unfold sign_with_key, verify_with_key. intros Hp. pose proof Hp as Hp'.
  destruct ty; try done; cbn in Hp'; intros (sig' & Hs%rmap_err_Ok & [= -> _])%rbind_Ok.
  1-3: apply rbind_Ok in Hp' as ([n q] & Hq%rmap_err_Ok & Hp'); cbn in Hp'; case_match; [|done];
    apply rmap_err_Ok in Hp' as ->; by rewrite (rsa_sign_verify sk n pk data sig).
  - apply rbind_Ok in Hp' as (_ & _ & Hp'%rmap_err_Ok). unfold verify_p256. by rewrite (ecdsa_sign_verify P256 sk pk data sig).
  - apply rbind_Ok in Hp' as (_ & _ & Hp'%rmap_err_Ok). unfold verify_p384. by rewrite (ecdsa_sign_verify P384 sk pk data sig).
  - by rewrite (ed25519_sign_verify sk pk data sig).
Qed.

(** What [sign] has done. *)
Lemma sign_handler_Ok req t h resp h' :
  cb_state (key_manager_breaker h) = Closed -> coherent (store (key_manager h)) -> sign req t h = (Ok resp, h') ->
  exists k key sk,
    validate_key_id (sq_key_id req) = Ok tt /\ validate_namespace (sq_namespace req) = Ok tt /\
    validate_data_size (sq_data req) "sign" = Ok tt /\ parse_key_id_bytes (sq_key_id req) = Ok k /\
    keys (store (key_manager h)) !! (sq_namespace req, k) = Some key /\ private_material key = Some sk /\
    sign_with_key (key_type key) sk (sq_data req) = Ok (sr_signature resp, sr_algorithm resp) /\
    cb_state (key_manager_breaker h') = Closed /\ coherent (store (key_manager h')) /\
    keys (store (key_manager h')) !! (sq_namespace req, k) = Some (increment_operations key).
Proof.
  intros Hc Hco H. unfold sign in H. passed H. repeat match goal with u : () |- _ => destruct u end.
  apply bind_inv_Ok in H as (key & h1 & Hg & H). apply run_km_Ok in Hg as [Hg Hc1]; [|done].
  apply get_key_Ok in Hg as (Hk & Hu & Hco1 & Hks1); [|done]. passed H.
  apply bind_inv_Ok in H as (u & h2 & Hi & [= <- <-]). unfold direct_km in Hi. revert Hi.
  match goal with Hp : parse_key_id_bytes _ = Ok ?k |- _ => destruct (increment_store (sq_namespace req) k (key_manager h1) key Hco1) as [Hco2 Hk2]; [by rewrite Hks1|] end.
  destruct (manager_increment_operations _ _ _) as [ri m2]. intros [= <- <-]. cbn in *.
  match goal with Hs : ok_or _ (private_material key) = Ok ?sk |- _ => destruct (private_material key) as [sk'|] eqn:Hsk; [injection Hs as ->|done] end.
  match goal with Hs : rmap_err _ (sign_with_key _ _ _) = Ok ?p |- _ => apply rmap_err_Ok in Hs; destruct p end.
  eauto 15.
Qed.

(** Looking up a key that can be used. *)
Lemma run_get_key t k ns h key :
  cb_state (key_manager_breaker h) = Closed -> coherent (store (key_manager h)) ->
  keys (store (key_manager h)) !! (ns, k) = Some key -> usable (wall t) key = true ->
  exists h', run_km t (KeyManager.get_key k ns (wall t)) h = (Ok key, h') /\
    cb_state (key_manager_breaker h') = Closed /\ coherent (store (key_manager h')) /\
    keys (store (key_manager h')) = keys (store (key_manager h)).
Proof.
  intros Hc Hco Hk Hu. destruct (get_key_usable ns k (wall t) (key_manager h) key Hco Hk Hu) as (m & Hg & Hco' & Hks).
  destruct (run_km_run t _ h key m Hc Hg) as (b & Hr & Hb). by exists (MkHandler m b).
Qed.

Lemma validate_data_size_op data op op' : validate_data_size data op = Ok tt -> validate_data_size data op' = Ok tt.
Proof. unfold validate_data_size. destruct (size data =? 0); [done|]. by destruct (MAX_MESSAGE_SIZE <? size data). Qed.

Lemma validate_data_size_Ok data op :
  0 < size data <= MAX_MESSAGE_SIZE -> validate_data_size data op = Ok tt.
Proof.
  intros [H1 H2]. unfold validate_data_size. by rewrite (proj2 (Z.eqb_neq _ _)), (proj2 (Z.ltb_ge _ _)) by lia.
Qed.

(** ** Encryption *)

(** What [encrypt] has done. *)
Lemma encrypt_handler_Ok req nonce t h resp h' :
  length nonce = 12%nat ->
  cb_state (key_manager_breaker h) = Closed -> coherent (store (key_manager h)) ->
  encrypt req (Ok nonce) t h = (Ok resp, h') ->
  exists k key sk,
    validate_key_id (eq_key_id req) = Ok tt /\ validate_namespace (eq_namespace req) = Ok tt /\
    parse_key_id_bytes (eq_key_id req) = Ok k /\
    keys (store (key_manager h)) !! (eq_namespace req, k) = Some key /\ private_material key = Some sk /\
    encrypt_aes256 (derive_aes_key (key_type key) sk) (eq_plaintext req) (aad_of (eq_associated_data req)) (Ok nonce) =
      Ok (er_nonce resp ++ er_ciphertext resp) /\
    length (er_nonce resp) = 12%nat /\ length (er_ciphertext resp) = (length (eq_plaintext req) + 16)%nat /\
    cb_state (key_manager_breaker h') = Closed /\ coherent (store (key_manager h')) /\
    keys (store (key_manager h')) !! (eq_namespace req, k) = Some (increment_operations key).
Proof.
  intros Hn Hc Hco H. unfold encrypt in H. passed H. repeat match goal with u : () |- _ => destruct u end.
  apply bind_inv_Ok in H as (key & h1 & Hg & H). apply run_km_Ok in Hg as [Hg Hc1]; [|done].
  apply get_key_Ok in Hg as (Hk & Hu & Hco1 & Hks1); [|done]. passed H.
  apply bind_inv_Ok in H as (u & h2 & Hi & [= <- <-]). unfold direct_km in Hi. revert Hi.
  match goal with Hp : parse_key_id_bytes _ = Ok ?k |- _ => destruct (increment_store (eq_namespace req) k (key_manager h1) key Hco1) as [Hco2 Hk2]; [by rewrite Hks1|] end.
  destruct (manager_increment_operations _ _ _) as [ri m2]. intros [= <- <-]. cbn [er_nonce er_ciphertext key_manager key_manager_breaker] in *.
  match goal with Hs : ok_or _ (private_material key) = Ok ?sk |- _ => destruct (private_material key) as [sk'|] eqn:Hsk; [injection Hs as ->|done] end.
  match goal with Hs : rmap_err _ (encrypt_aes256 _ _ _ _) = Ok _ |- _ => apply rmap_err_Ok in Hs as He end.
  pose proof He as (_ & _ & cipher & _ & Hw)%encrypt_Ok. apply length_encrypt_with in Hw; [|done].
  rewrite take_drop, length_take, length_drop, Hw. eauto 20 with lia.
Qed.
End handlers.

Section theorems.
Context {Cache : Type} {LRU : Lru CompositeKey Key Cache}.
Context {S : Type} {SB : StorageBackend S} {PC : Postcard Key}.
Context {SHA : Sha256} {HEX : Hex} {PK : PublicKeys} {SCH : SignatureSchemes} {AEAD : Aead}.
Context {UUID : Uuid} {ALNUM : Alphanumeric}.
Context {DK : Display Error} {DT : Display KeyType} {DC : Display CryptoError}.
Abbreviation Handler := (@SimpleHsmHandler Cache S).
Implicit Types h : Handler.

(** Signing and verifying round-trip through gRPC.  When [sign] returns a
    signature under a key whose public part belongs to its private part, then a
    later [verify] of the same data with it answers that it is valid, as long
    as the key can still be used and the breaker is closed. *)
Theorem grpc_signed_verifies req t t' h resp h' k key :
  cb_state (key_manager_breaker h) = Closed -> coherent (store (key_manager h)) ->
  parse_key_id_bytes (sq_key_id req) = Ok k ->
  keys (store (key_manager h)) !! (sq_namespace req, k) = Some key -> paired key ->
  sign req t h = (Ok resp, h') ->
  usable (wall t') (increment_operations key) = true -> validate_signature_size (sr_signature resp) = Ok tt ->
  exists h'', verify (MkVerifyRequest (sq_key_id req) (sq_namespace req) (sq_data req) (sr_signature resp)) t' h' = (Ok true, h'').
Proof.
  intros Hc Hco Hpk Hkey (sk & pk & Hsk & Hpub & Himp) H Hu Hsz.
  apply sign_handler_Ok in H as (k0 & key0 & sk0 & V1 & V2 & V3 & Hp & Hk0 & Hsk0 & Hs & Hc' & Hco' & Hk'); [|done..].
  assert (k0 = k) as -> by congruence. assert (key0 = key) as -> by congruence. assert (sk0 = sk) as -> by congruence.
  destruct (run_get_key t' k (sq_namespace req) h' _ Hc' Hco' Hk' Hu) as (h2 & Hg & _).
  exists h2. unfold verify, lift, bind. cbn. rewrite V1, V2, (validate_data_size_op _ _ "verify" V3), Hsz, Hp, Hg.
  cbn. rewrite Hpub. cbn. by rewrite (sign_with_key_verifies _ sk pk _ _ (sr_algorithm resp)).
Qed.

(** Encryption and decryption round-trip through gRPC.  What [encrypt]
    returns, [decrypt] turns back into the plaintext under the same key and
    associated data, as long as the key can still be used, the breaker is
    closed and the ciphertext is within the size limit of messages; a
    ciphertext beyond the limit is refused. *)
Theorem grpc_encrypted_decrypts req nonce t t' h resp h' k key :
  length nonce = 12%nat -> cb_state (key_manager_breaker h) = Closed -> coherent (store (key_manager h)) ->
  parse_key_id_bytes (eq_key_id req) = Ok k ->
  keys (store (key_manager h)) !! (eq_namespace req, k) = Some key ->
  encrypt req (Ok nonce) t h = (Ok resp, h') -> usable (wall t') (increment_operations key) = true ->
  let dq := MkDecryptRequest (eq_key_id req) (eq_namespace req) (er_ciphertext resp) (er_nonce resp) (eq_associated_data req) in
  if size (eq_plaintext req) + 16 <=? MAX_MESSAGE_SIZE
  then exists h'', decrypt dq t' h' = (Ok (eq_plaintext req), h'')
  else exists e, decrypt dq t' h' = (Err e, h').
Proof.
  intros Hn Hc Hco Hpk Hkey H Hu dq.
  apply encrypt_handler_Ok in H as (k0 & key0 & sk & V1 & V2 & Hp & Hk0 & Hsk & He & L1 & L2 & Hc' & Hco' & Hk'); [|done..].
  assert (k0 = k) as -> by congruence. assert (key0 = key) as -> by congruence.
  unfold size. destruct (Z.leb_spec (Z.of_nat (length (eq_plaintext req)) + 16) MAX_MESSAGE_SIZE) as [Hle|Hgt].
  - destruct (run_get_key t' k (eq_namespace req) h' _ Hc' Hco' Hk' Hu) as (h2 & Hg & _).
    unfold decrypt, validate_ciphertext_size, lift, bind. cbn. rewrite V1, V2. cbn.
    rewrite validate_data_size_Ok by (unfold size; rewrite L2; lia). unfold size. rewrite L1. cbn. rewrite Hp. cbn. rewrite Hg. cbn.
    rewrite Hsk. cbn. unfold decrypt_aes256. rewrite (encrypt_decrypts Aes256 _ _ _ nonce _ Hn He). cbn.
    unfold direct_km. destruct (manager_increment_operations _ _ _). by eexists.
  - unfold decrypt, validate_ciphertext_size, validate_data_size, lift, bind. cbn. rewrite V1, V2. unfold size. cbn.
    rewrite L2, (proj2 (Z.eqb_neq _ _)), (proj2 (Z.ltb_lt _ _)) by lia. by eexists.
Qed.
End theorems.


(** ** A breaker that has opened *)

(** The requests that need the key manager, with the effects they draw on. *)
Inductive key_request :=
| GGenerate (req : GenerateKeyRequest) (generated : result (KeyMaterial * bytes) string) (i : KeyId)
| GGet (req : KeyRequest)
| GDelete (req : KeyRequest)
| GRotate (req : KeyRequest) (generated : result (KeyMaterial * bytes) string) (i : KeyId)
| GList (ns : string) (filter_state max_results : Z)
| GSign (req : SignRequest)
| GVerify (req : VerifyRequest)
| GEncrypt (req : EncryptRequest) (fill : fill_result)
| GDecrypt (req : DecryptRequest).

Section lockout.
Context {Cache : Type} {LRU : Lru CompositeKey Key Cache}.
Context {S : Type} {SB : StorageBackend S} {PC : Postcard Key}.
Context {SHA : Sha256} {HEX : Hex} {PK : PublicKeys} {SCH : SignatureSchemes} {AEAD : Aead}.
Context {UUID : Uuid} {ALNUM : Alphanumeric}.
Context {DK : Display Error} {DT : Display KeyType} {DC : Display CryptoError}.
Abbreviation manager := (@DefaultKeyManager Cache S).
Abbreviation Handler := (@SimpleHsmHandler Cache S).
Implicit Types (h : Handler) (m : manager).

Definition serve (r : key_request) (t : Clock) : M Handler Status unit :=
  match r with
  | GGenerate req generated i => generate_key req generated i t ;! ret tt
  | GGet req => get_key req t ;! ret tt
  | GDelete req => delete_key req t ;! ret tt
  | GRotate req generated i => rotate_key req generated i t ;! ret tt
  | GList ns filter_state max_results => list_keys_collected ns filter_state max_results t ;! ret tt
  | GSign req => sign req t ;! ret tt
  | GVerify req => verify req t ;! ret tt
  | GEncrypt req fill => encrypt req fill t ;! ret tt
  | GDecrypt req => decrypt req t ;! ret tt
  end.

(** ** A locked breaker *)

Definition breaker_locked (b : CircuitBreaker) : Prop :=
  cb_state b = HalfOpen /\ half_open_max_requests handler_config <= half_open_requests b.

(** A computation that fails and leaves the state alone. *)
Definition refuses {A} (c : M Handler Status A) : Prop :=
  forall h, breaker_locked (key_manager_breaker h) -> exists e, c h = (Err e, h).

Lemma run_km_refuses {A} t (op : M manager Error A) : refuses (run_km t op).
Proof.
  intros [m b] [Hs Hh]. unfold run_km, call, check_state. cbn in *. rewrite Hs, (proj2 (Z.leb_le _ _) Hh). by eexists.
Qed.

Lemma bind_refuses {A B} (c : M Handler Status A) (k : A -> M Handler Status B) : refuses c -> refuses (bind c k).
Proof. intros Hc h Hh. destruct (Hc h Hh) as [e He]. unfold bind. rewrite He. by eexists. Qed.

Lemma lift_refuses {A B} (r : result A Status) (k : A -> M Handler Status B) :
  (forall a, refuses (k a)) -> refuses (bind (lift r) k).
Proof. intros Hk h Hh. unfold bind, lift. destruct r as [a|e]; [by apply Hk|by eexists]. Qed.

Ltac refuse :=
  repeat first [apply run_km_refuses | apply lift_refuses; intros ? | apply bind_refuses].

Lemma serve_refuses r t : refuses (serve r t).
Proof.
  destruct r; cbn [serve]; apply bind_refuses;
    unfold generate_key, get_key, delete_key, rotate_key, list_keys_collected, sign, verify, encrypt, decrypt; refuse.
Qed.

(** ** How a breaker gets there *)

(** A request for metadata of a key that does not exist. *)
Lemma probe_fails req t h k n :
  accept_key_request req = Ok k -> coherent (store (key_manager h)) ->
  keys (store (key_manager h)) !! (kr_namespace req, k) = None ->
  cb_state (key_manager_breaker h) = Closed -> failure_count (key_manager_breaker h) = n -> 0 <= n < 10 ->
  let h' := (get_key req t h).2 in
  coherent (store (key_manager h')) /\ keys (store (key_manager h')) = keys (store (key_manager h)) /\
  failure_count (key_manager_breaker h') = n + 1 /\
  if n =? 9 then cb_state (key_manager_breaker h') = Open /\ last_failure_time (key_manager_breaker h') = Some (instant t)
  else cb_state (key_manager_breaker h') = Closed.
Proof.
  intros Hk Hco Hnone Hc Hf Hn.
  assert (exists m e, get_metadata k (kr_namespace req) (wall t) (key_manager h) = (Err e, m) /\
    coherent (store m) /\ keys (store m) = keys (store (key_manager h))) as (m & e & Hg & Hco' & Hks').
  { unfold get_metadata, bind, on_store. destruct (get_spec (kr_namespace req) k (store (key_manager h)) Hco) as (Hr & Hks & Hco').
    rewrite Hnone in Hr. destruct (get _ _ _) as [r st]. cbn in *. subst r. by eexists _, _. }
  assert (get_key req t h =
    (Err (status_of (api_error_of e)), MkHandler m (on_failure handler_config (instant t) (key_manager_breaker h)))) as ->.
  { unfold get_key, lift, bind, run_km, call, check_state. by rewrite Hk, Hc, Hg. }
  cbn [snd key_manager key_manager_breaker]. split; [done|]. split; [done|].
  unfold on_failure, on_failure_read. rewrite Hc, Hf.
  assert (wrap 64 (n + 1) = n + 1) as -> by (unfold wrap; apply Z.mod_small; lia). cbn [failure_threshold handler_config].
  destruct (Z.eqb_spec n 9) as [->|Hne]; [done|]. rewrite (proj2 (Z.leb_gt _ _)) by lia. done.
Qed.

Definition probes (n : nat) (req : KeyRequest) (t : Clock) (h : Handler) : Handler :=
  Nat.iter n (fun h => (get_key req t h).2) h.

Lemma probes_count req t h k n :
  accept_key_request req = Ok k -> coherent (store (key_manager h)) ->
  keys (store (key_manager h)) !! (kr_namespace req, k) = None ->
  cb_state (key_manager_breaker h) = Closed -> failure_count (key_manager_breaker h) = 0 -> (n < 10)%nat ->
  let h' := probes n req t h in
  coherent (store (key_manager h')) /\ keys (store (key_manager h')) = keys (store (key_manager h)) /\
  failure_count (key_manager_breaker h') = Z.of_nat n /\ cb_state (key_manager_breaker h') = Closed.
Proof.
  intros Hk Hco Hnone Hc Hf. induction n as [|n IH]; intros Hn; cbn [probes Nat.iter]; [split_and!; done|].
  destruct IH as (I1 & I2 & I3 & I4); [lia|]. fold (probes n req t h).
  destruct (probe_fails req t (probes n req t h) k (Z.of_nat n)) as (J1 & J2 & J3 & J4); [done..| |done|done|lia|].
  { by rewrite I2. }
  change (probes (Datatypes.S n) req t h) with (get_key req t (probes n req t h)).2.
  rewrite (proj2 (Z.eqb_neq _ _)) in J4 by lia. split; [done|]. split; [by etrans|]. split; [lia|done].
Qed.

Lemma probes_open req t h k :
  accept_key_request req = Ok k -> coherent (store (key_manager h)) ->
  keys (store (key_manager h)) !! (kr_namespace req, k) = None ->
  cb_state (key_manager_breaker h) = Closed -> failure_count (key_manager_breaker h) = 0 ->
  cb_state (key_manager_breaker (probes 10 req t h)) = Open /\
  last_failure_time (key_manager_breaker (probes 10 req t h)) = Some (instant t).
Proof.
  intros Hk Hco Hnone Hc Hf. destruct (probes_count req t h k 9) as (I1 & I2 & I3 & I4); [done..|lia|].
  destruct (probe_fails req t (probes 9 req t h) k 9) as (_ & _ & _ & J4); [done..|by rewrite I2|done|done|lia|].
  exact J4.
Qed.

(** The call that half-opens the circuit and succeeds. *)
Lemma run_km_locks {A} t (op : M manager Error A) h a h' last :
  cb_state (key_manager_breaker h) = Open -> last_failure_time (key_manager_breaker h) = Some last ->
  run_km t op h = (Ok a, h') -> breaker_locked (key_manager_breaker h').
Proof.
  intros Ho Hl. unfold run_km, call, check_state. rewrite Ho, Hl. destruct (_ <=? _); [|done].
  destruct (op (key_manager h)) as [[a'|e] m]; [|done]. intros [= _ <-]. done.
Qed.

Lemma sign_locks req t h resp h' last :
  cb_state (key_manager_breaker h) = Open -> last_failure_time (key_manager_breaker h) = Some last ->
  sign req t h = (Ok resp, h') -> breaker_locked (key_manager_breaker h').
Proof.
  intros Ho Hl H. unfold sign in H.
  do 5 (apply bind_inv_Ok in H as (? & h0 & [= E <-] & H); clear E).
  apply bind_inv_Ok in H as (key & h1 & Hg & H). apply (run_km_locks _ _ _ _ _ last) in Hg; [|done..].
  do 2 (apply bind_inv_Ok in H as (? & h0 & [= E <-] & H); clear E).
  apply bind_inv_Ok in H as (u & h2 & Hi & [= _ <-]). unfold direct_km in Hi.
  destruct (manager_increment_operations _ _ _). by injection Hi as _ <-.
Qed.
End lockout.

(** Ten requests for a key that does not exist take the service down.  A
    client asks ten times for an unknown key of a working service; a later
    request to sign, of any client, succeeds.  From then on every request that
    needs the key manager is refused and changes nothing, whatever it is and
    however much time passes. *)
Theorem unknown_keys_lock_service {Cache : Type} {LRU : Lru CompositeKey Key Cache} {S : Type} {SB : StorageBackend S}
    {PC : Postcard Key} {SHA : Sha256} {HEX : Hex} {PK : PublicKeys} {SCH : SignatureSchemes} {AEAD : Aead}
    {UUID : Uuid} {ALNUM : Alphanumeric} {DK : Display Error} {DT : Display KeyType} {DC : Display CryptoError}
    (h : @SimpleHsmHandler Cache S) probe k t0 req t resp h' :
  accept_key_request probe = Ok k -> coherent (store (key_manager h)) ->
  keys (store (key_manager h)) !! (kr_namespace probe, k) = None ->
  cb_state (key_manager_breaker h) = Closed -> failure_count (key_manager_breaker h) = 0 ->
  sign req t (probes 10 probe t0 h) = (Ok resp, h') ->
  forall r t', exists e, serve r t' h' = (Err e, h').
Proof.
  intros Hk Hco Hnone Hc Hf H r t'. destruct (probes_open probe t0 h k) as [Ho Hl]; [done..|].
  apply serve_refuses. eapply sign_locks; [exact Ho|exact Hl|exact H].
Qed.
