(* ===== verification/ApiWitness.v ===== *)
(** * Concrete requests to the REST and gRPC interfaces, and webhooks

    A client generates a key, signs, has the signature verified by another
    client, rotates and deletes the key, on a state with a logger and a
    backend in memory; the batches of the asynchronous logger.  The same
    operations over gRPC; the breaker opens after requests for an unknown key
    and locks; a breaker with calls that overlap.  Webhooks are registered,
    deliveries fail and succeed. *)

From Stdlib Require Import ZArith Lia Strings.Byte.
From stdpp Require Import base gmap strings list.
From S2P Require Import Prelude External Platform AesGcm Signing AuditEvent HashChain.
From S2P Require Import AuditStorage AuditLogger AsyncAudit AuditWitness AccessControl Sessions.
From S2P Require Import SessionManager RestApi KeyTypes KeyStore KeyManager KeyWitness.
From S2P Require Import RestSafety RestAudit RestKeys.
Import Concrete Concrete2.

#[local] Abbreviation list := Datatypes.list.
#[local] Existing Instance key_postcard.
#[local] Existing Instance mem_backend.
#[local] Existing Instance toy_public_keys.

(** ** Packages *)

(** A signature repeats the key and a checksum of the message. *)
Definition toy_ec_sign (c : curve) (sk m : bytes) : bytes :=
  sk ++ take (scalar_size c) (checksum m ++ checksum m).

#[local] Instance toy_schemes : SignatureSchemes.
Proof.
  refine {| EdVk := bytes; ed_sign := fun sk m => sk ++ checksum m; ed_from_bytes := Ok;
    ed_verify := fun vk m s => bool_decide (s = vk ++ checksum m);
    EcSk := fun _ => bytes; EcVk := fun _ => bytes; EcSig := fun _ => bytes;
    ec_from_bytes := fun _ => Ok; ec_sign := toy_ec_sign; ec_from_sec1_bytes := fun _ => Ok;
    ec_from_slice := fun _ => Ok; ec_verify := fun c vk m s => bool_decide (s = toy_ec_sign c vk m);
    RsaSk := bytes; RsaVk := bytes; RsaSig := bytes; rsa_from_pkcs8_der := Ok;
    rsa_sign := fun sk m => sk ++ checksum m; rsa_from_pkcs1_der := Ok; rsa_try_from := Ok;
    rsa_verify := fun vk m s => bool_decide (s = vk ++ checksum m) |}.
  - intros sk m Hl. split; [by rewrite length_app, Hl|]. split; [done|].
    exists sk. split; [done|]. by apply bool_decide_eq_true.
  - intros c b pk sk m Hl Hp [= <-]. assert (pk = b) as -> by (by destruct c; injection Hp).
    split.
    + unfold toy_ec_sign. rewrite length_app, length_take, length_app, Hl. by destruct c.
    + exists b, (toy_ec_sign c b m). split; [done|]. split; [done|]. by apply bool_decide_eq_true.
  - intros b n pk sk m [= <- <-] [= <-]. exists b, (b ++ checksum m). split; [done|]. split; [done|].
    by apply bool_decide_eq_true.
Defined.

#[local] Instance toy_base64 : Base64 :=
  {| b64_encode := hex_encode; b64_decode := hex_decode; b64_decode_encode := hex_decode_encode |}.
#[local] Instance toy_uuid : Uuid := {| uuid_parse := fun s => if decide (s = EmptyString) then None else Some s |}.
#[local] Instance toy_rfc3339 : Rfc3339 := {| parse_from_rfc3339 := parse_uint 64 |}.
#[local] Instance toy_display E : Display E := {| display := fun _ => "error" |}.

(** ** A service *)

Definition root : ClientIdentity := MkIdentity "root" None "prod" [Admin] "01".
Definition bob : ClientIdentity := MkIdentity "bob" None "prod" [User] "02".
Definition logger : AsyncAuditLogger unit := MkAsync AsyncAuditConfig_default true logger0.
Abbreviation app := (@AppState cache mem_storage unit).

Definition app0 : app :=
  with_audit_logger logger (with_key_manager (SessionManager_new 3600) (with_storage empty_storage)).
Definition sk1 : KeyMaterial := MkKeyMaterial (zeros 32).
Definition generate1 : request :=
  ReqGenerateKey (MkGenerateKeyRequest None AEd25519 PurposeSign "prod" ∅) (Ok (sk1, zeros 32)) "k1".
Definition app1 : app := (route generate1 root 10 app0).2.
Definition key_k1 : Key :=
  new_key "k1" (MkKeySpec Ed25519 "prod" (to_usage_policy PurposeSign) ∅) sk1 (zeros 32) 10.

Lemma app1_coherent : coherent (store (key_manager app1)).
Proof.
  assert (store (key_manager app1) = (KeyStore.get "prod" "k1" (KeyStore.insert "prod" key_k1 KeyStore_new).2).2)
    as -> by (vm_compute; reflexivity).
  apply get_spec. apply (exec_spec (OpInsert "prod" key_k1) KeyStore_new); [apply new_coherent|done].
Qed.

Lemma app1_route : exists a, route generate1 root 10 app0 = (Ok a, app1).
Proof.
  assert (is_ok (route generate1 root 10 app0).1 = true) as H by (vm_compute; reflexivity).
  unfold app1. destruct (route generate1 root 10 app0) as [[a|e] s]; [by exists a|done].
Qed.

(** ** The theorems *)

Lemma tenant_isolation_witness :
  keys (store (key_manager (route (ReqDeleteKey "k1") (MkIdentity "eve" None "test" [Admin] "03") 20 app1).2))
    !! ("prod", "k1") = Some key_k1.
Proof. rewrite tenant_isolation; [vm_compute; reflexivity|discriminate]. Defined.


Definition message1 : SignRequest := MkSignRequest (hex_encode (as_bytes "pay 5")) None.
Definition signed : result SignResponse ApiError * app := sign_data root "k1" message1 20 app1.

Lemma signed_verifies_witness : exists resp s', sign_data root "k1" message1 20 app1 = (Ok resp, s') /\
  exists s'', verify_signature bob "k1" (MkVerifyRequest (sg_data message1) (sg_signature resp)) 30 s'
    = (Ok (MkVerifyResponse true), s'').
Proof.
  destruct (sign_data root "k1" message1 20 app1) as [[resp|e] s'] eqn:H.
  - exists resp, s'. split; [reflexivity|].
    refine (signed_verifies root bob "k1" message1 20 30 app1 s' resp "k1" key_k1 app1_coherent eq_refl _ _ H eq_refl _ _);
      [vm_compute; reflexivity| |vm_compute; reflexivity|vm_compute; reflexivity].
    exists sk1, (zeros 32). split; [reflexivity|]. split; reflexivity.
  - exfalso. apply (f_equal (fun p => is_ok p.1)) in H. vm_compute in H. discriminate H.
Defined.

Definition app1_closed : app := set_audit (Some (MkAsync AsyncAuditConfig_default false logger0)) app1.

Lemma unrecorded_deletion_witness :
  exists e s', rest_delete_key root "k1" 20 app1_closed = (Err e, s') /\
    keys (store (key_manager s')) !! ("prod", "k1") = None /\ audit s' = audit app1_closed.
Proof.
  refine (unrecorded_deletion root "k1" "k1" key_k1 20 app1_closed (MkAsync AsyncAuditConfig_default false logger0)
    app1_coherent eq_refl _ _ eq_refl eq_refl); vm_compute; reflexivity.
Defined.

(** [bob] is denied on the key, but not on its successor. *)
Definition app1_denied : app := set_acls (AccessControl.deny_client "k1" "bob" (acls app1)).2 app1.

Lemma rotation_drops_rules_witness :
  authorized app1_denied bob (ReqSign "k1" message1) = false /\
  exists resp s', rest_rotate_key root "k1" (Ok (sk1, zeros 32)) "k2" 20 app1_denied = (Ok resp, s') /\
    can_access_with_permission (acls s') "k2" bob PSign = true.
Proof.
  split; [vm_compute; reflexivity|].
  destruct (rest_rotate_key root "k1" (Ok (sk1, zeros 32)) "k2" 20 app1_denied) as [[resp|e] s'] eqn:H.
  - exists resp, s'. split; [reflexivity|]. exact (proj2 (rotation_drops_rules root bob _ _ _ _ _ _ _ PSign H)).
  - exfalso. apply (f_equal (fun p => is_ok p.1)) in H. vm_compute in H. discriminate H.
Defined.

Lemma batch_is_sequential_witness :
  process_batch [(1, AuditWitness.request "a"); (2, AuditWitness.request "b")] logger0 =
    ([Ok 1; Ok 2], (logger_flush logger2).2).
Proof.
  rewrite batch_is_sequential by (vm_compute; reflexivity). vm_compute. reflexivity.
Defined.

(** ** Webhooks *)

From S2P Require Import Webhooks WebhookCorrect.

(** Events without data, or with two fields that are texts, are serialized. *)
Abbreviation event_fields := (string * string * Z * string * option (string * string * string * string))%type.
Definition event_tuple (e : WebhookEvent) : option event_fields :=
  match we_data e with
  | JNull => Some (we_id e, event_as_str (we_type e), we_timestamp e, we_namespace e, None)
  | JObject [(k1, JString v1); (k2, JString v2)] =>
      Some (we_id e, event_as_str (we_type e), we_timestamp e, we_namespace e, Some (k1, v1, k2, v2))
  | _ => None
  end.
Definition tuple_event (p : event_fields) : option WebhookEvent :=
  let '(id, t, at_, ns, d) := p in
  t ← event_parse t;
  Some (MkWebhookEvent id t at_ ns
    match d with Some (k1, v1, k2, v2) => JObject [(k1, JString v1); (k2, JString v2)] | None => JNull end).
#[local] Instance event_codec : SerdeCodec WebhookEvent := {|
  to_vec e := match event_tuple e with Some p => @to_vec _ countable_codec p | None => Err "data" end;
  from_slice b := match @from_slice _ countable_codec b with
      | Ok p => ok_or "event" (tuple_event p) | Err e => Err e end |}.
#[local] Instance toy_urls : UrlParser := {| url_parse := fun s =>
  if decide (s = "https://169.254.169.254/") then Ok ("https", Some (Ipv4Host 169 254 169 254))
  else if decide (s = "https://[::1]/") then Ok ("https", Some (Ipv6Host [0; 0; 0; 0; 0; 0; 0; 1] "::1"))
  else Err "relative URL without a base" |}.

Definition event1 : WebhookEvent := webhook_event_new "e1" KeyCreated "prod" JNull 0.
Definition text1 : bytes := match to_vec event1 with Ok b => b | Err _ => [] end.
Lemma text1_ok : to_vec event1 = Ok text1.
Proof. reflexivity. Defined.
(** An endpoint that is down until its [n]-th request; one request a second. *)
Definition up_from (n : Z) (k : Z) : Exchange :=
  MkExchange (nanos k) (if k <? n then Ok (503, Some "busy") else Ok (204, None)) 0 (nanos k) 7.

Lemma delivery_outcome_witness : exists r cb' sent pauses,
  deliver_with_retries "u" event1 "secret" [] 3 (nanos 1) (up_from 3) 0 ∅ = Some (r, cb', sent, pauses) /\
  1 <= dr_attempt r <= 3 /\ dr_status r = (if accepted (up_from 3 (dr_attempt r)) then Success else Failed).
Proof.
  destruct (delivery_outcome "u" event1 "secret" [] text1 text1_ok 3 (nanos 1) (up_from 3) 0 ∅)
    as (r & cb' & sent & pauses & H & H1 & H2 & _); [split; [discriminate|reflexivity]|].
  exists r, cb', sent, pauses. split; [exact H|]. split; [exact H1|exact H2].
Defined.

Lemma no_circuits_wf : circuits_wf ∅.
Proof. apply map_Forall_empty. Qed.
(** Eight attempts are allowed; five are made, and then none for a minute. *)
Definition down8 : option delivery := deliver_with_retries "u" event1 "secret" [] 8 (nanos 1) (up_from 100) 0 ∅.
Lemma down8_fails : match down8 with Some (r, _, _, _) => dr_attempt r = 5 /\ dr_status r = Failed | None => False end.
Proof. vm_compute. split; reflexivity. Qed.
Lemma breaker_limits_attempts_witness : exists r cb' sent pauses,
  down8 = Some (r, cb', sent, pauses) /\ dr_attempt r = 5 /\
  exists r2, deliver_with_retries "u" event1 "secret" [] 8 (nanos 1) (up_from 0) (nanos 64) cb' = Some (r2, cb', [], []).
Proof.
  pose proof down8_fails as F. destruct down8 as [[[[r cb'] sent] pauses]|] eqn:H; [|destruct F]. destruct F as [Ha Hs].
  exists r, cb', sent, pauses. split; [reflexivity|]. split; [exact Ha|].
  destruct (breaker_limits_attempts "u" event1 "secret" [] text1 text1_ok 8 (nanos 1) (up_from 100) 0 ∅ r cb' sent pauses
    no_circuits_wf H) as (_ & _ & Hq).
  apply Hq; [exact Hs|rewrite Ha; split; [discriminate|reflexivity]|rewrite Ha; reflexivity].
Defined.

Lemma requests_authentic_witness : exists rq timestamp signature,
  ("X-Webhook-Timestamp", to_signed_decimal timestamp) ∈ hr_headers rq /\
  ("X-Webhook-Signature", signature) ∈ hr_headers rq /\
  verify_fresh "secret" (of_bytes (hr_body rq)) timestamp signature 300 (timestamp + 10) = true.
Proof.
  pose proof down8_fails as F. destruct down8 as [[[[r cb'] [|rq sent]] pauses]|] eqn:H; [|exists rq|destruct F].
  - exfalso. apply (f_equal (fun o => match o with Some (_, _, [], _) => true | _ => false end)) in H.
    vm_compute in H. discriminate H.
  - destruct (requests_authentic "u" event1 "secret" [] text1 text1_ok 8 (nanos 1) (up_from 100) 0 ∅ r cb' (rq :: sent) pauses rq
      H ltac:(left)) as (t & sg & _ & _ & Ht & Hsg & Hv).
    exists t, sg. split; [exact Ht|]. split; [exact Hsg|]. apply Hv. lia.
Defined.

Definition hook1 : Webhook := webhook_new "w1" "n" (webhook_config_new "u" "secret") "root" 0.
Definition hook2 : Webhook := with_filter (filter_events [KeyDeleted]) (webhook_new "w2" "n" (webhook_config_new "u" "secret") "root" 0).
Definition hooks : WebhookRegistry := {[ "w1" := hook1; "w2" := hook2 ]}.
Lemma hooks_wf : registry_wf hooks.
Proof.
  apply map_Forall_insert_2; [split; [done|split; [discriminate|reflexivity]]|].
  apply map_Forall_singleton. split; [done|split; [discriminate|reflexivity]].
Qed.
Lemma event_recorded_once_witness : exists d' success,
  delivery_task (fun _ => up_from 2) (fun _ => (0, 5)) (MkDispatcher hooks ∅ [event1] 10) = Some d' /\
  wd_registry d' !! "w1" = Some (count_delivery success 5 hook1) /\ wd_registry d' !! "w2" = Some hook2.
Proof.
  destruct (event_recorded_once (fun _ => up_from 2) (fun _ => (0, 5)) (MkDispatcher hooks ∅ [event1] 10) event1 [] text1
    hooks_wf eq_refl text1_ok) as (d' & H & _ & _ & Hw).
  destruct (Hw "w1" hook1 eq_refl) as [b Hb]. exists d', b. split; [exact H|]. split; [exact Hb|].
  exact (Hw "w2" hook2 eq_refl).
Defined.

Lemma webhooks_need_permission_witness :
  exists e, webhook_route (WDeleteWebhook "w1") bob 10 (app0, hooks) = (Err e, (app0, hooks)).
Proof. apply (webhooks_need_permission (WDeleteWebhook "w1") bob 10 (app0, hooks)). vm_compute. reflexivity. Defined.

Definition history1 : list (WebhookRequest * ClientIdentity * DateTime) :=
  [(WCreateWebhook (MkWebhookCreateRequest "u" [] (Some "s")) "w1", root, 10); (WDeleteWebhook "w1", bob, 11)].
Definition unregistered : app * WebhookRegistry := (app0, ∅).
Lemma registrations_well_formed_witness :
  let s' := foldl (fun s '(q, i, now) => (webhook_route q i now s).2) unregistered history1 in
  registry_wf s'.2 /\ map_Forall (fun _ => counts_agree) s'.2.
Proof. exact (registrations_well_formed history1 unregistered (map_Forall_empty _) (map_Forall_empty _)). Defined.

(** A webhook for an address that [validate_url] refuses is registered, and
    the test of the webhook sends a request there. *)
Definition metadata_hook : WebhookCreateRequest := MkWebhookCreateRequest "https://169.254.169.254/" [] (Some "s").
Definition metadata_state : app * WebhookRegistry := (create_webhook root metadata_hook "w1" 10 (app0, ∅)).2.
Example metadata_service_reached :
  validate_url (wr_url metadata_hook) = Err "URL hostname resolves to private IP range: 169.254.169.254" /\
  match (test_webhook root "w1" "e1" (up_from 0 1) 20 metadata_state).1 with
  | Ok (Some (rq, true)) => hr_url rq = wr_url metadata_hook
  | _ => False
  end.
Proof. split; vm_compute; reflexivity. Qed.
(** The check itself lets the IPv6 loopback address pass. *)
Example ipv6_loopback_valid :
  is_private_ip (V6 [0; 0; 0; 0; 0; 0; 0; 1]) = true /\ validate_url "https://[::1]/" = Ok tt.
Proof. split; vm_compute; reflexivity. Qed.

(** ** The gRPC interface *)

From S2P Require Import Prelude External Platform AesGcm Signing KeyTypes KeyStore KeyManager KeyWitness.
From S2P Require Import EncryptedFs CircuitBreaker GrpcApi GrpcCorrect.
Import Concrete Concrete2.

#[local] Existing Instance key_postcard.
#[local] Existing Instance mem_backend.
#[local] Existing Instance toy_public_keys.
#[local] Existing Instance toy_schemes.
#[local] Existing Instance toy_uuid.
#[local] Existing Instance toy_display.
(** The accented letters of Latin-1. *)
#[local] Instance latin1 : Alphanumeric := {| non_ascii_alphanumeric c := (0xC0 <=? c) && (c <=? 0xFF) |}.

Abbreviation grpc := (@SimpleHsmHandler cache mem_storage).

(** ** The breaker *)

Lemma breaker_refines_witness :
  let calls := replicate 10 (nanos 1, false) ++ [(nanos 2, true); (nanos 31, true); (nanos 32, true); (nanos 9999, true)] in
  attempt_calls handler_config calls breaker_new = spec_calls handler_config calls (SClosed 0) /\
  spec_calls handler_config calls (SClosed 0) =
    replicate 10 None ++ [Some CircuitOpen; None; Some TooManyRequests; Some TooManyRequests].
Proof. cbv zeta. split; [apply breaker_refines; split; cbn; lia|reflexivity]. Defined.

(** Two failures overlap, and each opens the circuit. *)
Definition sensitive : CircuitBreakerConfig := MkBreakerConfig 1 1 (nanos 30) 1.
Definition overlapped : overlap := MkOverlap (MkBreaker Open 2 0 (Some 8) 0) 0 0 [].

Lemma overlapped_reachable : overlap_reachable sensitive overlapped.
Proof.
  assert (H1 : overlap_reachable sensitive (MkOverlap breaker_new 1 0 [])).
  { eapply overlap_next; [apply overlap_new|]. by apply (step_admit _ 0). }
  assert (H2 : overlap_reachable sensitive (MkOverlap breaker_new 2 0 [])).
  { eapply overlap_next; [exact H1|]. by apply (step_admit _ 0). }
  assert (H3 : overlap_reachable sensitive (MkOverlap (MkBreaker Closed 1 0 None 0) 1 0 [FromClosed])).
  { eapply overlap_next; [exact H2|]. by apply (step_failure _ 5). }
  assert (H4 : overlap_reachable sensitive (MkOverlap (MkBreaker Closed 2 0 None 0) 0 0 [FromClosed; FromClosed])).
  { eapply overlap_next; [exact H3|]. by apply (step_failure _ 6). }
  assert (H5 : overlap_reachable sensitive (MkOverlap (MkBreaker Open 2 0 (Some 7) 0) 0 0 [FromClosed])).
  { eapply overlap_next; [exact H4|]. exact (step_open sensitive 7 (MkBreaker Closed 2 0 None 0) FromClosed 0 0 [] [FromClosed]). }
  eapply overlap_next; [exact H5|]. exact (step_open sensitive 8 (MkBreaker Open 2 0 (Some 7) 0) FromClosed 0 0 [] []).
Qed.

Lemma open_until_timeout_witness :
  exists last, last_failure_time (shared overlapped) = Some last /\
    forall now, check_state sensitive now (shared overlapped) =
      if timeout sensitive <=? elapsed now last
      then (Ok tt, MkBreaker HalfOpen 0 0 (Some last) 0) else (Err CircuitOpen, shared overlapped).
Proof. apply open_until_timeout; [apply overlapped_reachable|reflexivity]. Defined.

(** A half-open breaker that no call can leave. *)
Example locked_state_reachable :
  exists x, overlap_reachable handler_config x /\ locked handler_config x.
Proof.
  set (b n := MkBreaker Closed n 0 None 0).
  assert (H : forall n : nat, (n < 10)%nat -> overlap_reachable handler_config (MkOverlap (b (Z.of_nat n)) 0 0 (replicate n NoOpening))).
  { induction n as [|n IH]; intros Hn; [apply overlap_new|].
    eapply overlap_next; [eapply overlap_next; [apply IH; lia|by apply (step_admit _ 0)]|]. cbn [replicate].
    apply (step_failure _ 0). unfold on_failure_read. subst b. cbn.
    assert (wrap 64 (Z.of_nat n + 1) = Z.of_nat (Datatypes.S n)) as -> by (unfold wrap; rewrite Z.mod_small; lia).
    by rewrite (proj2 (Z.leb_gt _ _)) by lia. }
  specialize (H 9%nat ltac:(lia)).
  assert (D : forall n bb, overlap_reachable handler_config (MkOverlap bb 0 0 (replicate n NoOpening)) ->
    overlap_reachable handler_config (MkOverlap bb 0 0 [])).
  { induction n as [|n IH]; intros bb Hb; [done|]. apply IH.
    eapply overlap_next; [exact Hb|]. exact (step_open handler_config 0 bb NoOpening 0 0 [] (replicate n NoOpening)). }
  apply D in H. subst b.
  assert (H1 : overlap_reachable handler_config (MkOverlap (MkBreaker Closed 10 0 None 0) 0 0 [FromClosed])).
  { eapply overlap_next; [eapply overlap_next; [exact H|by apply (step_admit _ 0)]|]. by apply (step_failure _ 0). }
  assert (H2 : overlap_reachable handler_config (MkOverlap (MkBreaker Open 10 0 (Some 0) 0) 0 0 [])).
  { eapply overlap_next; [exact H1|]. exact (step_open handler_config 0 (MkBreaker Closed 10 0 None 0) FromClosed 0 0 [] []). }
  exists (MkOverlap (MkBreaker HalfOpen 0 1 (Some 0) (2 ^ 64 - 1)) 0 0 []). split; [|by split_and!].
  eapply overlap_next; [eapply overlap_next; [exact H2|by apply (step_admit _ (nanos 31))]|].
  by apply (step_success _ _ _ false).
Qed.

(** ** A service *)

Definition now0 : Clock := MkClock 10 (nanos 1).
Definition grpc0 : grpc := GrpcApi.with_key_manager (with_storage empty_storage).
Definition generate_ed25519 : GenerateKeyRequest := MkGenerateKeyRequest "prod" 5 None ∅.
Definition grpc1 : grpc := (GrpcApi.generate_key generate_ed25519 (Ok (sk1, zeros 32)) "k1" now0 grpc0).2.
Definition grpc_key : Key := new_key "k1" (MkKeySpec Ed25519 "prod" KeyUsagePolicy_default ∅) sk1 (zeros 32) 10.

Lemma grpc1_coherent : coherent (store (key_manager grpc1)).
Proof.
  assert (store (key_manager grpc1) = (KeyStore.get "prod" "k1" (KeyStore.insert "prod" grpc_key KeyStore_new).2).2)
    as -> by (vm_compute; reflexivity).
  apply get_spec. apply (exec_spec (OpInsert "prod" grpc_key) KeyStore_new); [apply new_coherent|done].
Qed.

Definition to_sign : SignRequest := MkSignRequest (as_bytes "k1") "prod" (as_bytes "pay 5") EmptyString.
Definition to_encrypt : EncryptRequest := MkEncryptRequest (as_bytes "k1") "prod" (as_bytes "secret") [].

Lemma grpc_signed_verifies_witness : exists resp h', sign to_sign now0 grpc1 = (Ok resp, h') /\
  exists h'', verify (MkVerifyRequest (as_bytes "k1") "prod" (as_bytes "pay 5") (sr_signature resp)) (MkClock 20 (nanos 2)) h'
    = (Ok true, h'').
Proof.
  destruct (sign to_sign now0 grpc1) as [[resp|e] h'] eqn:H.
  - exists resp, h'. split; [reflexivity|].
    assert (validate_signature_size (sr_signature resp) = Ok tt) as Hs.
    { assert (resp = MkSignResponse (key_bytes sk1 ++ Concrete.checksum (as_bytes "pay 5")) "ED25519") as ->.
      { apply (f_equal fst) in H. vm_compute in H. injection H as <-. vm_compute. reflexivity. }
      vm_compute. reflexivity. }
    refine (grpc_signed_verifies to_sign now0 (MkClock 20 (nanos 2)) grpc1 resp h' "k1" grpc_key _ grpc1_coherent _ _ _ H _ Hs);
      try (vm_compute; reflexivity).
    exists sk1, (zeros 32). split; [reflexivity|]. split; reflexivity.
  - exfalso. apply (f_equal (fun p => is_ok p.1)) in H. vm_compute in H. discriminate H.
Defined.

Lemma grpc_encrypted_decrypts_witness : exists resp h', encrypt to_encrypt (Ok nonce0) now0 grpc1 = (Ok resp, h') /\
  exists h'', decrypt (MkDecryptRequest (as_bytes "k1") "prod" (er_ciphertext resp) (er_nonce resp) []) (MkClock 20 (nanos 2)) h'
    = (Ok (as_bytes "secret"), h'').
Proof.
  destruct (encrypt to_encrypt (Ok nonce0) now0 grpc1) as [[resp|e] h'] eqn:H.
  - exists resp, h'. split; [reflexivity|].
    refine (grpc_encrypted_decrypts to_encrypt nonce0 now0 (MkClock 20 (nanos 2)) grpc1 resp h' "k1" grpc_key _ _ grpc1_coherent _ _ H _);
      vm_compute; reflexivity.
  - exfalso. apply (f_equal (fun p => is_ok p.1)) in H. vm_compute in H. discriminate H.
Defined.

Lemma unknown_keys_lock_service_witness :
  exists resp h', sign to_sign (MkClock 20 (nanos 40)) (probes 10 (MkKeyRequest "nope" "prod") now0 grpc1) = (Ok resp, h') /\
    forall r t', exists e, serve r t' h' = (Err e, h').
Proof.
  destruct (sign to_sign (MkClock 20 (nanos 40)) (probes 10 (MkKeyRequest "nope" "prod") now0 grpc1)) as [[resp|e] h'] eqn:H.
  - exists resp, h'. split; [reflexivity|].
    refine (unknown_keys_lock_service grpc1 (MkKeyRequest "nope" "prod") "nope" now0 to_sign (MkClock 20 (nanos 40)) resp h'
      _ grpc1_coherent _ _ _ H); vm_compute; reflexivity.
  - exfalso. apply (f_equal (fun p => is_ok p.1)) in H. vm_compute in H. discriminate H.
Defined.

Lemma namespace_is_directory_name_witness :
  utf8_valid (as_bytes "prod-été_2") = true /\ validate_namespace "prod-été_2" = Ok tt /\
  validate_path_component "prod-été_2" "namespace" = Ok tt.
Proof.
  split; [vm_compute; reflexivity|]. split; [vm_compute; reflexivity|].
  apply namespace_is_directory_name; vm_compute; reflexivity.
Defined.

(** A key whose policy allows encryption only, with an expiry in the past, signs. *)
Example usage_policy_not_enforced :
  let req := MkGenerateKeyRequest "prod" 5 (Some (MkProtoPolicy [3] false 0 1)) ∅ in
  let h := (GrpcApi.generate_key req (Ok (sk1, zeros 32)) "k1" (MkClock (nanos 1000) 0) grpc0).2 in
  is_ok (sign to_sign (MkClock (nanos 1000) 0) h).1 = true.
Proof. vm_compute. reflexivity. Qed.

(** Two RSA keys that begin alike, as all PKCS#8 encodings of one size do,
    encrypt under the same key. *)
Example encodings_share_cipher :
  derive_aes_key Rsa2048 (MkKeyMaterial (zeros 32 ++ as_bytes "first")) =
  derive_aes_key Rsa2048 (MkKeyMaterial (zeros 32 ++ as_bytes "second")).
Proof. vm_compute. reflexivity. Qed.
