(* ===== verification/RaftLog.v ===== *)
(** * The Raft log of the cluster

    [crates/cluster/src/consensus/log.rs], with the commands of
    [crates/cluster/src/node.rs] and the errors of [error.rs].  Entries are in
    memory and, when the log has a storage, in the default tree of [sled] under
    the keys [log:<index>].  [now] is the time of a new entry; indices stay
    below 2^64. *)

From Stdlib Require Import ZArith Lia Strings.Byte Sorted.
From stdpp Require Import base gmap strings list sorting.
From S2P Require Import Prelude External.

Inductive Command :=
| StoreKey (key_id : string) (data : bytes)
| DeleteKey (key_id : string)
| RecordSigningAttempt (key_id : string) (message_hash : bytes)
| CreateSession (session_id : string) (data : bytes)
| DeleteSession (session_id : string).
Record LogEntry := MkLogEntry { le_index : Z; le_term : Z; le_command : Command; le_timestamp : Z }.

(** The errors the modelled operations return. *)
Inductive ClusterError :=
| NotLeader (leader : option string)
| NoLeader
| QuorumNotReached (needed have : nat)
| NodeNotFound (node_id : string)
| NodeAlreadyExists (node_id : string)
| ClusterStorage (message : string)
| Encryption (message : string)
| Configuration (message : string)
| DoubleSigningAttempt (key_id : string)
| ClusterInternal (message : string)
| ClusterSerialization (message : string).

(** [Tree::remove]. *)
Class SledRemove (db : Type) `{Sled db} := {
  sled_remove : string -> bytes -> M db string (option bytes);
  sled_remove_law t k d r d' :
    sled_remove t k d = (r, d') ->
    sled_settles d d' /\
    ((forall t', sled_view d' t' = if decide (t' = t) then delete k (sled_view d t) else sled_view d t') \/
     (is_ok r = false /\ forall t', sled_view d' t' = sled_view d t'))
}.
Definition DEFAULT_TREE : string := "__sled__default".

Record RaftLog {db : Type} := MkRaftLog {
  entries : list LogEntry;
  first_index : Z;
  last_applied : Z;
  commit_index : Z;
  storage : option db
}.
Arguments RaftLog : clear implicits.

Section log.
Context {db : Type} {SLED : Sled db} {REMOVE : SledRemove db} {SERDE : Serde LogEntry}.
Abbreviation Log := (RaftLog db).

Definition raft_log_new : Log := MkRaftLog _ [] 1 0 0 None.
Definition set_entries (es : list LogEntry) (l : Log) : Log :=
  MkRaftLog _ es (first_index l) (last_applied l) (commit_index l) (storage l).
Definition set_first_index (i : Z) (l : Log) : Log :=
  MkRaftLog _ (entries l) i (last_applied l) (commit_index l) (storage l).

Definition last_index (l : Log) : Z :=
  match entries l with
  | [] => Z.max 0 (first_index l - 1)
  | es => first_index l + Z.of_nat (length es) - 1
  end.
Definition last_term (l : Log) : Z := default 0 (le_term <$> last (entries l)).
Definition get (index : Z) (l : Log) : option LogEntry :=
  if index <? first_index l then None else entries l !! Z.to_nat (index - first_index l).

(** A call of the storage, if the log has one. *)
Definition stored {A} (c : M db ClusterError A) : M Log ClusterError unit := fun l =>
  match storage l with
  | None => (Ok tt, l)
  | Some d =>
      let '(r, d') := c d in
      (match r with Ok _ => Ok tt | Err e => Err e end,
       MkRaftLog _ (entries l) (first_index l) (last_applied l) (commit_index l) (Some d'))
  end.
Definition log_key (index : Z) : bytes := as_bytes ("log:" +:+ to_decimal index).
Definition insert_entry (e : LogEntry) : M db ClusterError unit :=
  let! value := lift (rmap_err ClusterSerialization (to_vec e)) in
  map_err ClusterStorage (sled_insert DEFAULT_TREE (log_key (le_index e)) value).
Definition remove_entry (e : LogEntry) : M db ClusterError unit :=
  map_err ClusterStorage (sled_remove DEFAULT_TREE (log_key (le_index e))) ;! ret tt.
Definition flush_log : M db ClusterError unit := map_err ClusterStorage sled_flush.

Definition append (term : Z) (command : Command) (now : Z) : M Log ClusterError Z := fun l =>
  let index := last_index l + 1 in
  let entry := MkLogEntry index term command now in
  (stored (insert_entry entry ;! flush_log) ;!
   modify (fun l => set_entries (entries l ++ [entry]) l) ;!
   ret index) l.

(** [fuel] bounds the entries that are taken off. *)
Fixpoint truncate_loop (fuel : nat) (index : Z) : M Log ClusterError unit := fun l =>
  match fuel with
  | O => (Ok tt, l)
  | S fuel' =>
      if index <? last_index l then
        match last (entries l) with
        | Some entry =>
            (modify (fun l => set_entries (removelast (entries l)) l) ;!
             stored (remove_entry entry) ;!
             truncate_loop fuel' index) l
        | None => truncate_loop fuel' index l
        end
      else (Ok tt, l)
  end.
Definition truncate_after (index : Z) : M Log ClusterError unit := fun l => truncate_loop (length (entries l)) index l.

Definition push_entry (entry : LogEntry) : M Log ClusterError unit :=
  stored (insert_entry entry) ;! modify (fun l => set_entries (entries l ++ [entry]) l).
(** One round of the loop over the new entries. *)
Definition append_one (entry : LogEntry) : M Log ClusterError unit := fun l =>
  if le_index entry <=? last_index l then
    match get (le_index entry) l with
    | Some existing =>
        if le_term existing =? le_term entry then (Ok tt, l)
        else (truncate_after (le_index entry) ;! push_entry entry) l
    | None => push_entry entry l
    end
  else push_entry entry l.
Fixpoint append_all (es : list LogEntry) : M Log ClusterError unit :=
  match es with
  | [] => ret tt
  | entry :: es' => append_one entry ;! append_all es'
  end.
Definition append_entries (prev_index prev_term : Z) (es : list LogEntry) : M Log ClusterError bool := fun l =>
  let accept := append_all es ;! stored flush_log ;! ret true in
  if 0 <? prev_index then
    match get prev_index l with
    | Some prev_entry =>
        if negb (le_term prev_entry =? prev_term) then (truncate_after prev_index ;! ret false) l
        else accept l
    | None => if first_index l <=? prev_index then (Ok false, l) else accept l
    end
  else accept l.

Definition commit (index : Z) (l : Log) : Log :=
  if commit_index l <? index
  then MkRaftLog _ (entries l) (first_index l) (last_applied l) index (storage l) else l.
Definition mark_applied (index : Z) (l : Log) : Log :=
  if last_applied l <? index
  then MkRaftLog _ (entries l) (first_index l) index (commit_index l) (storage l) else l.
(** The entries at the indices from [lo] to [hi]. *)
Definition entries_between (lo hi : Z) (l : Log) : list LogEntry := omap (fun i => get i l) (seqZ lo (hi - lo + 1)).
Definition entries_to_apply (l : Log) : list LogEntry := entries_between (last_applied l + 1) (commit_index l) l.
Definition entries_from (start_index : Z) (l : Log) : list LogEntry := entries_between start_index (last_index l) l.

(** [fuel]: the number of rounds. *)
Fixpoint compact_loop (fuel : nat) : M Log ClusterError unit := fun l =>
  match fuel with
  | O => (Ok tt, l)
  | S fuel' =>
      (match entries l with
       | entry :: rest => modify (set_entries rest) ;! stored (remove_entry entry)
       | [] => ret tt
       end ;!
       modify (fun l => set_first_index (first_index l + 1) l) ;!
       compact_loop fuel') l
  end.
Definition compact (index : Z) : M Log ClusterError unit := fun l =>
  if index <? first_index l then (Ok tt, l)
  else (compact_loop (Z.to_nat (index - first_index l + 1)) ;! stored flush_log) l.

Fixpoint decode_items (items : list (result (bytes * bytes) string)) : result (list LogEntry) ClusterError :=
  match items with
  | [] => Ok []
  | item :: items' =>
      let? kv := rmap_err ClusterStorage item in
      let? entry := rmap_err ClusterSerialization (from_slice kv.2) in
      let? rest := decode_items items' in
      Ok (entry :: rest)
  end.
Definition load_from_storage : M Log ClusterError unit := fun l =>
  match storage l with
  | None => (Ok tt, l)
  | Some d =>
      let '(items, d') := sled_scan_prefix DEFAULT_TREE (as_bytes "log:") d in
      let l := MkRaftLog _ (entries l) (first_index l) (last_applied l) (commit_index l) (Some d') in
      match decode_items items with
      | Err e => (Err e, l)
      | Ok loaded =>
          let es := sort_desc (fun e => - le_index e) (entries l ++ loaded) in
          (Ok tt, set_first_index (match es with [] => first_index l | e :: _ => le_index e end) (set_entries es l))
      end
  end.
(** [opened] is the outcome of opening the database. *)
Definition with_storage (opened : result db string) : result Log ClusterError :=
  let? d := rmap_err ClusterStorage opened in
  match load_from_storage (MkRaftLog _ [] 1 0 0 (Some d)) with
  | (Ok _, l) => Ok l
  | (Err e, _) => Err e
  end.
End log.

(** ** Logs in memory

    A node keeps its log without a storage ([RaftState::new]); the operations
    then never fail. *)

Section memory.
Context {db : Type} {SLED : Sled db} {REMOVE : SledRemove db} {SERDE : Serde LogEntry}.
Abbreviation Log := (RaftLog db).
Implicit Types (l : Log) (es : list LogEntry) (e : LogEntry).

(** Entries are numbered consecutively from [first_index]. *)
Definition log_wf (l : Log) : Prop :=
  1 <= first_index l /\ forall k e, entries l !! k = Some e -> le_index e = first_index l + Z.of_nat k.

Lemma last_index_eq l : 1 <= first_index l -> last_index l = first_index l + Z.of_nat (length (entries l)) - 1.
Proof. unfold last_index. destruct (entries l); simpl; lia. Qed.
Lemma get_Some i l e : get i l = Some e <-> first_index l <= i /\ entries l !! Z.to_nat (i - first_index l) = Some e.
Proof. unfold get. destruct (Z.ltb_spec i (first_index l)); split; [done|lia|done|tauto]. Qed.
Lemma get_offset i l : first_index l <= i -> get i l = entries l !! Z.to_nat (i - first_index l).
Proof. intros. unfold get. by destruct (Z.ltb_spec i (first_index l)); [lia|]. Qed.
Lemma get_index i l e : log_wf l -> get i l = Some e -> le_index e = i.
Proof. intros [_ Hwf] (Hi & He)%get_Some. apply Hwf in He. lia. Qed.
Lemma get_is_Some i l : 1 <= first_index l -> is_Some (get i l) <-> first_index l <= i <= last_index l.
Proof.
  intros Hf. rewrite last_index_eq by done. unfold get. destruct (Z.ltb_spec i (first_index l)).
  - split; [by intros []|lia].
  - rewrite lookup_lt_is_Some. lia.
Qed.

Lemma stored_memory {A} (c : M db ClusterError A) l : storage l = None -> stored c l = (Ok tt, l).
Proof. intros H. unfold stored. by rewrite H. Qed.
Lemma push_memory e l : storage l = None -> push_entry e l = (Ok tt, set_entries (entries l ++ [e]) l).
Proof. intros H. unfold push_entry, bind. by rewrite stored_memory. Qed.

(** The new entries of a request lie on the leader's suffix [D] of the log, of
    which the follower already has the first [n]. *)
Lemma append_all_agrees es (D : list LogEntry) (p n : nat) l :
  storage l = None -> 1 <= first_index l -> entries l = take n D -> (p <= n <= length D)%nat ->
  es `prefix_of` drop p D -> (forall k e, D !! k = Some e -> le_index e = first_index l + Z.of_nat k) ->
  append_all es l = (Ok tt, set_entries (take (n `max` (p + length es)) D) l).
Proof.
  revert p n l. induction es as [|e es IH]; intros p n l Hst Hf Hes Hpn [rest Hpre] HD.
  - simpl. rewrite Nat.add_0_r, Nat.max_l, <- Hes by lia. by destruct l.
  - assert (D !! p = Some e) as Hp by (rewrite <- (Nat.add_0_r p), <- lookup_drop, Hpre; done).
    assert (es `prefix_of` drop (S p) D) as Hpre'.
    { exists rest. replace (S p) with (p + 1)%nat by lia. rewrite <- drop_drop, Hpre. done. }
    pose proof (HD _ _ Hp) as Hi. pose proof (last_index_eq l Hf) as Hlast. rewrite Hes, length_take_le in Hlast by lia.
    cbn [append_all]. unfold bind at 1, append_one. destruct (decide (p < n)%nat) as [Hlt|Hge].
    + destruct (Z.leb_spec (le_index e) (last_index l)); [|lia].
      rewrite get_offset, Hes by lia. replace (Z.to_nat (le_index e - first_index l)) with p by lia.
      rewrite lookup_take_lt, Hp, Z.eqb_refl by done. rewrite (IH (S p) n) by (done || lia). simpl. do 3 f_equal. lia.
    + assert (p = n) as -> by lia. destruct (Z.leb_spec (le_index e) (last_index l)); [lia|].
      rewrite push_memory by done. rewrite (IH (S n) (S n)).
      * unfold set_entries. simpl. do 3 f_equal. lia.
      * done.
      * done.
      * simpl. rewrite Hes. by rewrite (take_S_r _ _ _ Hp).
      * apply lookup_lt_Some in Hp. lia.
      * done.
      * done.
Qed.

(** ** Replication *)

(** The follower has a part of the leader's log. *)
Definition follows (fl ld : Log) : Prop :=
  1 <= first_index ld <= first_index fl /\ last_index fl <= last_index ld /\
  forall i, first_index fl <= i <= last_index fl -> get i fl = get i ld.

Lemma follows_suffix fl ld :
  follows fl ld -> first_index fl <= last_index ld + 1 ->
  let D := drop (Z.to_nat (first_index fl - first_index ld)) (entries ld) in
  entries fl = take (length (entries fl)) D /\ (length (entries fl) <= length D)%nat.
Proof.
  intros (Hf & Hl & Hg) Hle D. rewrite !last_index_eq in * by lia.
  assert (length (entries fl) <= length D)%nat as Hlen by (unfold D; rewrite length_drop; lia).
  split; [|done]. apply list_eq_same_length with (length (entries fl)); [by rewrite length_take_le|done|].
  intros k x y Hk Hx Hy. rewrite lookup_take_lt in Hy by done. unfold D in Hy. rewrite lookup_drop in Hy.
  specialize (Hg (first_index fl + Z.of_nat k) ltac:(lia)). rewrite !get_offset in Hg by lia.
  replace (Z.to_nat (first_index fl + Z.of_nat k - first_index fl)) with k in Hg by lia.
  replace (Z.to_nat (first_index fl + Z.of_nat k - first_index ld))
    with (Z.to_nat (first_index fl - first_index ld) + k)%nat in Hg by lia.
  congruence.
Qed.
Lemma omap_get_seqZ (n o : nat) l :
  (o + n = length (entries l))%nat ->
  omap (fun i => get i l) (seqZ (first_index l + Z.of_nat o) (Z.of_nat n)) = drop o (entries l).
Proof.
  revert o. induction n as [|n IH]; intros o Ho.
  - rewrite drop_ge by lia. done.
  - destruct (lookup_lt_is_Some_2 (entries l) o) as [e He]; [lia|].
    rewrite seqZ_cons by lia. cbn [omap list_omap]. rewrite get_offset by lia.
    replace (Z.to_nat (first_index l + Z.of_nat o - first_index l)) with o by lia. rewrite He, (drop_S _ e) by done.
    f_equal. rewrite <- (IH (S o)) by lia. do 2 f_equal; lia.
Qed.
Lemma entries_from_drop i l :
  first_index l <= i <= last_index l + 1 -> 1 <= first_index l ->
  entries_from i l = drop (Z.to_nat (i - first_index l)) (entries l).
Proof.
  intros Hi Hf. unfold entries_from, entries_between. rewrite last_index_eq in * by done.
  rewrite <- (omap_get_seqZ (length (entries l) - Z.to_nat (i - first_index l)) (Z.to_nat (i - first_index l))) by lia.
  f_equal. f_equal; lia.
Qed.
Lemma get_prev_term prev fl ld :
  follows fl ld -> first_index fl <= prev <= last_index fl -> exists e, get prev fl = Some e /\ get prev ld = Some e.
Proof.
  intros (Hf & _ & Hg) Hp. destruct (proj2 (get_is_Some prev fl ltac:(lia)) Hp) as [e He].
  exists e. by rewrite <- Hg.
Qed.

(** C35: a follower whose log is kept in memory, that has a part of the leader's
    log and is sent the rest of it, from any entry it has or the one before
    its first, accepts and then has the leader's log to the end. *)
Theorem replication_converges prev prev_term (fl ld : Log) :
  storage fl = None -> log_wf ld -> follows fl ld ->
  first_index fl - 1 <= prev <= last_index fl -> (forall e, get prev ld = Some e -> le_term e = prev_term) ->
  exists fl', append_entries prev prev_term (entries_from (prev + 1) ld) fl = (Ok true, fl') /\
    follows fl' ld /\ last_index fl' = last_index ld /\ first_index fl' = first_index fl /\ commit_index fl' = commit_index fl.
Proof.
  intros Hst Hwf Hfo Hp Ht. pose proof Hfo as (Hf & Hl & Hg).
  pose proof (last_index_eq fl ltac:(lia)) as Hlf. pose proof (last_index_eq ld ltac:(lia)) as Hld.
  destruct (follows_suffix fl ld Hfo ltac:(lia)) as [Hes Hlen]. set (D := drop _ (entries ld)) in *.
  assert (length D = Z.to_nat (last_index ld - first_index fl + 1)) as HlD by (unfold D; rewrite length_drop; lia).
  set (p := Z.to_nat (prev + 1 - first_index fl)).
  assert (entries_from (prev + 1) ld = drop p D) as Hfrom.
  { rewrite entries_from_drop by lia. unfold D. rewrite drop_drop. f_equal. lia. }
  assert (append_all (drop p D) fl = (Ok tt, set_entries D fl)) as Happ.
  { rewrite (append_all_agrees _ D p (length (entries fl))); [|done|lia|done|lia|done|].
    - rewrite length_drop, take_ge by lia. done.
    - intros k e Hk. unfold D in Hk. rewrite lookup_drop in Hk. apply Hwf in Hk. lia. }
  assert (append_entries prev prev_term (entries_from (prev + 1) ld) fl = (Ok true, set_entries D fl)) as ->.
  { rewrite Hfrom. unfold append_entries. 
    assert ((append_all (drop p D) ;! stored flush_log ;! ret true) fl = (Ok true, set_entries D fl)) as Hacc
      by (unfold bind; by rewrite Happ, stored_memory).
    destruct (Z.ltb_spec 0 prev); [|done]. destruct (decide (first_index fl <= prev)).
    - destruct (get_prev_term prev fl ld Hfo ltac:(lia)) as (e & -> & He). by rewrite (Ht e He), Z.eqb_refl.
    - assert (get prev fl = None) as -> by (unfold get; by destruct (Z.ltb_spec prev (first_index fl)); [|lia]).
      by destruct (Z.leb_spec (first_index fl) prev); [lia|]. }
  eexists. split; [done|].
  assert (last_index (set_entries D fl) = last_index ld) as Hlast by (rewrite last_index_eq by (simpl; lia); simpl; lia).
  split_and!; [|done..]. split_and!; [simpl; lia|simpl; lia|lia|].
  intros i Hi. rewrite !get_offset by (simpl in *; lia). simpl. unfold D. rewrite lookup_drop. f_equal. simpl in Hi. lia.
Qed.

(** ** Conflicts *)

Lemma truncate_loop_memory fuel index l :
  storage l = None -> 1 <= first_index l <= index + 1 -> (length (entries l) <= fuel)%nat ->
  truncate_loop fuel index l = (Ok tt, set_entries (take (Z.to_nat (index + 1 - first_index l)) (entries l)) l).
Proof.
  revert l. induction fuel as [|fuel IH]; intros l Hst Hf Hlen.
  - simpl. rewrite take_ge by lia. by destruct l.
  - cbn [truncate_loop]. pose proof (last_index_eq l ltac:(lia)) as Hl. destruct (Z.ltb_spec index (last_index l)).
    + destruct (entries l) as [|e es _] eqn:Hes using rev_ind; [simpl in Hl; lia|]. rewrite last_snoc.
      unfold bind, modify. rewrite stored_memory by done. rewrite IH; simpl; rewrite ?Hes, ?removelast_last;
        [|done|done|rewrite length_app in Hlen; simpl in Hlen; lia].
      rewrite length_app in Hl. simpl in Hl. by rewrite take_app_le by lia.
    + rewrite take_ge by lia. by destruct l.
Qed.

(** On a conflicting entry the follower keeps its own: when the leader
    sends the entry [e] for an index where the follower has an entry [old] of
    another term, the follower drops what comes after [old], keeps [old] where
    it is and files [e] at the next index, whose number it does not have. *)
Theorem conflict_keeps_old_entry prev_term (l : Log) old e :
  storage l = None -> log_wf l -> get (le_index e) l = Some old -> le_term old <> le_term e ->
  (0 < le_index e - 1 -> forall p, get (le_index e - 1) l = Some p -> le_term p = prev_term) ->
  exists l', append_entries (le_index e - 1) prev_term [e] l = (Ok true, l') /\
    get (le_index e) l' = Some old /\ get (le_index e + 1) l' = Some e /\ last_index l' = le_index e + 1 /\ ~ log_wf l'.
Proof.
  intros Hst Hwf Hg Hne Hp. pose proof Hwf as [Hf _]. set (i := le_index e) in *.
  pose proof (proj1 (get_is_Some i l Hf) ltac:(by eexists)) as Hi. pose proof (last_index_eq l Hf) as Hl.
  set (l' := set_entries (take (Z.to_nat (i + 1 - first_index l)) (entries l) ++ [e]) l).
  assert (append_one e l = (Ok tt, l')) as Hone.
  { unfold append_one. fold i. destruct (Z.leb_spec i (last_index l)); [|lia]. rewrite Hg.
    destruct (Z.eqb_spec (le_term old) (le_term e)); [done|]. unfold bind, truncate_after.
    rewrite truncate_loop_memory by (done || lia). by rewrite push_memory. }
  assert (append_entries (i - 1) prev_term [e] l = (Ok true, l')) as ->.
  { unfold append_entries. assert ((append_all [e] ;! stored flush_log ;! ret true) l = (Ok true, l')) as Hacc
      by (cbn [append_all]; unfold bind; rewrite Hone; unfold ret; cbn iota; by rewrite stored_memory).
    destruct (Z.ltb_spec 0 (i - 1)); [|done]. destruct (get (i - 1) l) as [q|] eqn:Hq.
    - by rewrite (Hp ltac:(lia) q eq_refl), Z.eqb_refl.
    - destruct (Z.leb_spec (first_index l) (i - 1)); [|done].
      destruct (proj2 (get_is_Some (i - 1) l Hf) ltac:(lia)). congruence. }
  assert (length (take (Z.to_nat (i + 1 - first_index l)) (entries l)) = Z.to_nat (i + 1 - first_index l)) as Hlen
    by (rewrite length_take; lia).
  assert (get (i + 1) l' = Some e) as Hnext.
  { rewrite get_offset by (simpl; lia). simpl. rewrite lookup_app_r by lia. rewrite Hlen.
    by replace (_ - _)%nat with 0%nat by lia. }
  exists l'. split_and!; [done| |done| |].
  - rewrite get_offset in Hg |- * by (simpl; lia). simpl. rewrite lookup_app_l by lia. by rewrite lookup_take_lt by lia.
  - rewrite last_index_eq by done. simpl. rewrite length_app, Hlen. simpl. lia.
  - intros Hwf'. pose proof (get_index _ _ _ Hwf' Hnext). unfold i in *. lia.
Qed.
End memory.

(** ** Logs with a storage *)

Section durable.
Context {db : Type} {SLED : Sled db} {LAWS : SledLaws db} {REMOVE : SledRemove db} {SERDE : Serde LogEntry}.
Abbreviation Log := (RaftLog db).

(** The tree holds exactly the given entries. *)
Definition mirrors (es : list LogEntry) (tree : gmap bytes bytes) : Prop :=
  Forall (fun e => is_ok (to_vec e) = true) es /\
  forall k v, tree !! k = Some v <-> exists e, e ∈ es /\ k = log_key (le_index e) /\ to_vec e = Ok v.
Definition persisted (l : Log) (d : db) : Prop :=
  storage l = Some d /\ log_wf l /\ mirrors (entries l) (sled_view d DEFAULT_TREE).

Lemma log_key_inj i j : 0 <= i -> 0 <= j -> log_key i = log_key j -> i = j.
Proof.
  intros Hi Hj H%as_bytes_inj. apply to_decimal_inj; [done..|]. by apply (inj (String.append "log:")) in H.
Qed.
Lemma wf_index_pos (l : Log) e : log_wf l -> e ∈ entries l -> 0 <= le_index e <= last_index l.
Proof.
  intros [Hf Hwf] [k Hk]%list_elem_of_lookup. rewrite last_index_eq by done.
  pose proof (Hwf _ _ Hk). apply lookup_lt_Some in Hk. lia.
Qed.
Lemma wf_snoc (l : Log) e : log_wf l -> le_index e = last_index l + 1 -> log_wf (set_entries (entries l ++ [e]) l).
Proof.
  intros [Hf Hwf] Hi. split; [done|]. simpl. intros k x [Hk|[Hge Hk]]%lookup_app_Some; [by apply Hwf|].
  apply list_lookup_singleton_Some in Hk as [Hk <-]. rewrite last_index_eq in Hi by done. lia.
Qed.

Lemma mirrors_snoc (l : Log) e v tree :
  log_wf l -> le_index e = last_index l + 1 -> to_vec e = Ok v -> mirrors (entries l) tree ->
  mirrors (entries l ++ [e]) (<[log_key (le_index e) := v]> tree).
Proof.
  intros Hwf Hi Hv [Henc Hm]. split; [apply Forall_app; rewrite Forall_singleton, Hv; done|]. intros k w. pose proof Hwf as [Hf _]. pose proof (last_index_eq l Hf) as Hl.
  setoid_rewrite elem_of_app. setoid_rewrite list_elem_of_singleton. destruct (decide (k = log_key (le_index e))) as [->|Hne].
  - rewrite lookup_insert_eq. split; [intros [= <-]; exists e; tauto|]. intros (x & [Hx| ->] & Hk & Hxv); [|congruence].
    pose proof (wf_index_pos l x Hwf Hx). apply log_key_inj in Hk; lia.
  - rewrite lookup_insert_ne by done. rewrite (Hm k w). split; [intros (x & ? & ?); exists x; tauto|].
    intros (x & [Hx| ->] & Hk & Hxv); [by exists x|done].
Qed.

(** An acknowledged entry is on disk with all earlier ones. *)
Lemma append_persisted term c now (l l' : Log) d i :
  persisted l d -> append term c now l = (Ok i, l') ->
  exists d', persisted l' d' /\ mirrors (entries l') (sled_durable d' DEFAULT_TREE) /\
    entries l' = entries l ++ [MkLogEntry i term c now] /\ first_index l' = first_index l.
Proof.
  intros (Hst & Hwf & Hm) H. unfold append in H. set (e := MkLogEntry (last_index l + 1) term c now) in H.
  apply bind_inv_Ok in H as (? & l1 & Hs & H). apply bind_inv_Ok in H as (? & l2 & Hmod & H).
  injection H as <- <-. injection Hmod as <- <-. unfold stored in Hs. rewrite Hst in Hs.
  destruct ((insert_entry e ;! flush_log) d) as [[[]|] d'] eqn:Hc; [|done]. injection Hs as <- <-.
  apply bind_inv_Ok in Hc as ([] & d1 & Hins & Hfl). apply bind_inv_Ok in Hins as (v & d0 & Hv & Hins).
  unfold lift in Hv. injection Hv as Hv <-. apply rmap_err_Ok in Hv.
  apply map_err_inv_Ok in Hins. apply map_err_inv_Ok in Hfl.
  apply sled_insert_law in Hins as (_ & [Hput|[? _]]); [|done]. apply sled_flush_law in Hfl as [[Hq _] Hd].
  specialize (Hput DEFAULT_TREE). rewrite decide_True in Hput by done.
  pose proof (mirrors_snoc l e v _ Hwf eq_refl Hv Hm) as Hm'. rewrite <- Hput in Hm'.
  exists d'. split_and!; [split_and!|..]; try done.
  - by apply wf_snoc.
  - simpl. by rewrite Hq.
  - simpl. by rewrite Hd.
Qed.

(** ** Loading *)

Lemma decode_items_Ok items :
  (forall kv, kv ∈ items -> exists e, from_slice kv.2 = Ok e /\ kv.1 = log_key (le_index e)) ->
  exists loaded, decode_items (Ok <$> items) = Ok loaded /\ (fun e => log_key (le_index e)) <$> loaded = items.*1 /\
    forall e, e ∈ loaded <-> exists kv, kv ∈ items /\ from_slice kv.2 = Ok e.
Proof.
  induction items as [|kv items IH]; intros Hall.
  - exists []. split_and!; [done|done|]. set_solver.
  - destruct (Hall kv) as (e & He & Hk); [left|]. destruct IH as (loaded & Hl & Hks & Hin); [set_solver|].
    exists (e :: loaded). rewrite fmap_cons. cbn [decode_items rmap_err rbind]. rewrite He. cbn [rmap_err rbind].
    rewrite Hl. split_and!; [done|by rewrite !fmap_cons, Hks, Hk|].
    intros x. rewrite elem_of_cons, Hin. setoid_rewrite elem_of_cons. split.
    + intros [->|(y & ? & ?)]; [exists kv|exists y]; tauto.
    + intros (y & [->|?] & Hy); [left; congruence|right; by exists y].
Qed.
Lemma wf_ascending (l : Log) : log_wf l -> descending (fun e => - le_index e) (entries l).
Proof.
  intros [_ Hwf]. revert Hwf. generalize (first_index l). unfold descending.
  induction (entries l) as [|e es IH]; intros f Hwf; constructor.
  - apply (IH (f + 1)). intros k x Hk. rewrite (Hwf (S k) x Hk). lia.
  - apply Forall_forall. intros x [k Hk]%list_elem_of_lookup. pose proof (Hwf (S k) x Hk). pose proof (Hwf 0%nat e eq_refl). lia.
Qed.
Lemma wf_same_index (l : Log) x y : log_wf l -> x ∈ entries l -> y ∈ entries l -> le_index x = le_index y -> x = y.
Proof.
  intros [_ Hwf] [j Hj]%list_elem_of_lookup [k Hk]%list_elem_of_lookup Hi.
  pose proof (Hwf _ _ Hj). pose proof (Hwf _ _ Hk). assert (j = k) as -> by lia. congruence.
Qed.
Lemma sort_recovers (l : Log) loaded :
  log_wf l -> loaded ≡ₚ entries l -> sort_desc (fun e => - le_index e) loaded = entries l.
Proof.
  intros Hwf Hp. eapply (StronglySorted_unique_strong (fun x y => - le_index y <= - le_index x)).
  - intros x y Hx Hy ? ?. rewrite sort_desc_perm, Hp in Hx. apply (wf_same_index l); [done..|lia].
  - apply sort_desc_descending.
  - by apply wf_ascending.
  - by rewrite sort_desc_perm.
Qed.
Lemma load_recovers (l : Log) d items d' :
  log_wf l -> mirrors (entries l) (sled_view d DEFAULT_TREE) ->
  sled_scan_prefix DEFAULT_TREE (as_bytes "log:") d = (Ok <$> items, d') ->
  with_storage (Ok d) =
    Ok (MkRaftLog _ (entries l) (match entries l with [] => 1 | e :: _ => le_index e end) 0 0 (Some d')).
Proof.
  intros Hwf [Henc Hm] Hscan. pose proof (sled_scan_law _ _ _ _ _ Hscan) as [_ Hitems]. specialize (Hitems items eq_refl).
  destruct (decode_items_Ok items) as (loaded & Hload & Hkeys & Hin).
  { intros [k v] Hkv. rewrite Hitems in Hkv. apply elem_of_tree_scan in Hkv as [Hkv _].
    apply Hm in Hkv as (e & _ & -> & Hv). exists e. simpl. by rewrite (from_slice_to_vec e v). }
  assert (loaded ≡ₚ entries l) as Hperm.
  { apply NoDup_Permutation.
    - eapply NoDup_fmap_1. rewrite Hkeys, Hitems. apply tree_scan_NoDup_keys.
    - destruct Hwf as [_ Hwf]. apply NoDup_alt. intros i j x Hi Hj.
      pose proof (Hwf _ _ Hi). pose proof (Hwf _ _ Hj). lia.
    - intros e. rewrite Hin, Hitems. split.
      + intros ([k v] & Hkv & Hf). apply elem_of_tree_scan in Hkv as [Hkv _]. apply Hm in Hkv as (x & Hx & _ & Hv).
        simpl in Hf. rewrite (from_slice_to_vec x v Hv) in Hf. by injection Hf as <-.
      + intros He. rewrite Forall_forall in Henc. specialize (Henc e He). destruct (to_vec e) as [v|] eqn:Hv; [|done].
        exists (log_key (le_index e), v). rewrite elem_of_tree_scan. split; [|by apply from_slice_to_vec].
        split; [apply Hm; by exists e|]. unfold log_key. rewrite as_bytes_app. by eexists. }
  unfold with_storage. simpl. unfold load_from_storage. simpl. rewrite Hscan, Hload. simpl.
  by rewrite (sort_recovers l).
Qed.

(** An entry whose append was acknowledged survives a crash: opening the
    log again, when the scan of the database meets no I/O error, brings back
    all entries up to it under their indices.  The commit index starts from
    zero again. *)
Theorem appended_entry_survives term c now (l l' : Log) d i :
  persisted l d -> append term c now l = (Ok i, l') ->
  exists d', storage l' = Some d' /\ entries l' = entries l ++ [MkLogEntry i term c now] /\
    forall items d'', sled_scan_prefix DEFAULT_TREE (as_bytes "log:") (sled_reopen d') = (Ok <$> items, d'') ->
    exists lr, with_storage (Ok (sled_reopen d')) = Ok lr /\ entries lr = entries l' /\ first_index lr = first_index l' /\
               commit_index lr = 0.
Proof.
  intros Hp Ha. destruct (append_persisted _ _ _ _ _ _ _ Hp Ha) as (d' & (Hst & Hwf & _) & Hm & Hes & _).
  exists d'. split_and!; [done..|]. intros items d'' Hscan.
  assert (mirrors (entries l') (sled_view (sled_reopen d') DEFAULT_TREE)) as Hm' by (by rewrite (proj1 (sled_reopen_law _ _))).
  eexists. split; [by apply (load_recovers l' _ items d'')|]. simpl. split_and!; [done| |done].
  destruct (entries l') as [|e es] eqn:He; [by destruct (entries l)|].
  destruct Hwf as [_ Hwf]. rewrite (Hwf 0%nat e) by (by rewrite He). lia.
Qed.
End durable.
