(* ===== verification/ClusterNode.v ===== *)
(** * Cluster nodes

    [crates/cluster/src]: [node.rs] with [consensus/state.rs], [membership/],
    [replication/], [routing/] and [transport.rs].  A node is one state with
    one function per method; the timers that the source spawns only log.
    Arguments that stand for effects: [now], the clock; [random], the bytes of
    a nonce.  The order of the entries of a [DashMap] is that of
    [map_to_list]. *)

From Stdlib Require Import ZArith Lia Strings.Byte.
From stdpp Require Import base gmap strings list.
From S2P Require Import Prelude External Platform RaftLog.

(** ** Configuration and membership *)

Record PeerConfig := MkPeerConfig { pc_node_id : string; pc_addr : string; voting : bool }.
Record RaftConfig := MkRaftConfig {
  election_timeout_min_ms : Z;
  election_timeout_max_ms : Z;
  heartbeat_interval_ms : Z;
  snapshot_threshold : Z;
  max_entries_per_append : Z;
  pre_vote : bool;
  leader_lease_ms : Z
}.
Definition raft_config_default : RaftConfig := MkRaftConfig 150 300 50 10000 100 true 100.
Record ClusterConfig := MkClusterConfig { node_id : string; peers : list PeerConfig; raft : RaftConfig }.

Inductive PeerHealth := Healthy | Unhealthy | Unknown.
#[export] Instance PeerHealth_eq_dec : EqDecision PeerHealth.
Proof. solve_decision. Defined.
Record PeerState := MkPeerState {
  ps_config : PeerConfig;
  health : PeerHealth;
  last_heartbeat : option DateTime;
  failed_heartbeats : Z;
  ps_match_index : Z;
  ps_next_index : Z
}.
Definition peer_new (c : PeerConfig) : PeerState := MkPeerState c Unknown None 0 0 1.
Definition peer_heartbeat (now : DateTime) (p : PeerState) : PeerState :=
  MkPeerState (ps_config p) Healthy (Some now) 0 (ps_match_index p) (ps_next_index p).
Definition peer_failure (threshold : Z) (p : PeerState) : PeerState :=
  let failed := wrap 32 (failed_heartbeats p + 1) in
  MkPeerState (ps_config p) (if threshold <=? failed then Unhealthy else health p) (last_heartbeat p) failed
    (ps_match_index p) (ps_next_index p).

Record MembershipManager := MkMembership {
  mm_config : ClusterConfig;
  mm_peers : gmap string PeerState;
  connected_count : Z;
  running : bool
}.
Definition membership_new (c : ClusterConfig) : MembershipManager :=
  MkMembership c (foldl (fun m p => <[pc_node_id p := peer_new p]> m) ∅ (peers c)) 0 false.
Definition set_running (b : bool) (m : MembershipManager) : MembershipManager :=
  MkMembership (mm_config m) (mm_peers m) (connected_count m) b.
Definition set_mm_peers (ps : gmap string PeerState) (m : MembershipManager) : MembershipManager :=
  MkMembership (mm_config m) ps (connected_count m) (running m).
Definition failure_threshold (m : MembershipManager) : Z :=
  let heartbeat := Z.max 1 (heartbeat_interval_ms (raft (mm_config m))) in
  Z.max 1 (wrap 32 (election_timeout_max_ms (raft (mm_config m)) / heartbeat)).
Definition is_healthy (p : PeerState) : bool := bool_decide (health p = Healthy).
(** The number of peers with a property. *)
Definition count_peers (P : PeerState -> bool) (ps : gmap string PeerState) : nat :=
  length (filter (fun ip => P ip.2 = true) (map_to_list ps)).
Definition update_connected_count (m : MembershipManager) : MembershipManager :=
  MkMembership (mm_config m) (mm_peers m) (wrap 32 (Z.of_nat (count_peers is_healthy (mm_peers m)))) (running m).
Definition get_peer (id : string) (m : MembershipManager) : option PeerState := mm_peers m !! id.
Definition update_peer (id : string) (f : PeerState -> PeerState) (m : MembershipManager) : MembershipManager :=
  set_mm_peers (alter f id (mm_peers m)) m.
Definition record_heartbeat (id : string) (now : DateTime) (m : MembershipManager) : MembershipManager :=
  update_connected_count (update_peer id (peer_heartbeat now) m).
Definition record_failure (id : string) (m : MembershipManager) : MembershipManager :=
  update_connected_count (update_peer id (peer_failure (failure_threshold m)) m).
Definition peer_ids (m : MembershipManager) : list string := (map_to_list (mm_peers m)).*1.
Definition voting_peers (m : MembershipManager) : list string :=
  (filter (fun ip => voting (ps_config ip.2) = true) (map_to_list (mm_peers m))).*1.
Definition healthy_peers (m : MembershipManager) : list string :=
  (filter (fun ip => is_healthy ip.2 = true) (map_to_list (mm_peers m))).*1.
Definition div_ceil (a b : nat) : nat := (a / b + (if a mod b =? 0 then 0 else 1))%nat.
Definition has_quorum (m : MembershipManager) : bool :=
  let voting_count := count_peers (fun p => voting (ps_config p)) (mm_peers m) in
  let healthy_voting := count_peers (fun p => voting (ps_config p) && is_healthy p) (mm_peers m) in
  (div_ceil voting_count 2 + 1 <=? healthy_voting + 1)%nat.
Definition add_peer (c : PeerConfig) : M MembershipManager ClusterError unit := fun m =>
  if bool_decide (is_Some (mm_peers m !! pc_node_id c)) then (Err (NodeAlreadyExists (pc_node_id c)), m)
  else (Ok tt, set_mm_peers (<[pc_node_id c := peer_new c]> (mm_peers m)) m).
Definition remove_peer (id : string) : M MembershipManager ClusterError unit := fun m =>
  if bool_decide (mm_peers m !! id = None) then (Err (NodeNotFound id), m)
  else (Ok tt, update_connected_count (set_mm_peers (delete id (mm_peers m)) m)).

(** ** The node *)

Inductive ClusterState := Starting | Follower | Candidate | Leader | Partitioned | ShuttingDown.
#[export] Instance ClusterState_eq_dec : EqDecision ClusterState.
Proof. solve_decision. Defined.
Inductive CommandResult := Success | Failed (reason : string).
Record StateMachine := MkStateMachine {
  sm_keys : gmap string bytes;
  sm_sessions : gmap string bytes;
  signing_records : gmap string (list bytes)
}.
Definition is_double_signing (sm : StateMachine) (key_id : string) (message_hash : bytes) : bool :=
  match signing_records sm !! key_id with Some hashes => bool_decide (message_hash ∈ hashes) | None => false end.
Definition apply_command (command : Command) : M StateMachine ClusterError CommandResult := fun sm =>
  match command with
  | StoreKey key_id data =>
      (Ok Success, MkStateMachine (<[key_id := data]> (sm_keys sm)) (sm_sessions sm) (signing_records sm))
  | DeleteKey key_id => (Ok Success, MkStateMachine (delete key_id (sm_keys sm)) (sm_sessions sm) (signing_records sm))
  | RecordSigningAttempt key_id message_hash =>
      if is_double_signing sm key_id message_hash then (Err (DoubleSigningAttempt key_id), sm)
      else
        let hashes := default [] (signing_records sm !! key_id) in
        (Ok Success,
         MkStateMachine (sm_keys sm) (sm_sessions sm) (<[key_id := hashes ++ [message_hash]]> (signing_records sm)))
  | CreateSession session_id data =>
      (Ok Success, MkStateMachine (sm_keys sm) (<[session_id := data]> (sm_sessions sm)) (signing_records sm))
  | DeleteSession session_id =>
      (Ok Success, MkStateMachine (sm_keys sm) (delete session_id (sm_sessions sm)) (signing_records sm))
  end.

Section node.
Context {db : Type} {SLED : Sled db} {REMOVE : SledRemove db} {SERDE : Serde LogEntry}.

Record RaftState := MkRaftState { log : RaftLog db; rs_current_term : Z; rs_voted_for : option string }.
Definition raft_state_new : RaftState := MkRaftState raft_log_new 0 None.
Definition update_term (term : Z) (s : RaftState) : RaftState :=
  if rs_current_term s <? term then MkRaftState (log s) term None else s.
Definition vote_for (candidate_id : string) (s : RaftState) : RaftState :=
  MkRaftState (log s) (rs_current_term s) (Some candidate_id).
Definition append_entry (command : Command) (now : Z) : M RaftState ClusterError Z := fun s =>
  let '(r, l) := append (rs_current_term s) command now (log s) in
  (r, MkRaftState l (rs_current_term s) (rs_voted_for s)).

Record ClusterNode := MkClusterNode {
  cn_config : ClusterConfig;
  state : ClusterState;
  raft_state : RaftState;
  membership : MembershipManager;
  current_term : Z;
  voted_for : option string;
  leader_id : option string;
  state_machine : StateMachine
}.
Definition node_new (c : ClusterConfig) : ClusterNode :=
  MkClusterNode c Starting raft_state_new (membership_new c) 0 None None (MkStateMachine ∅ ∅ ∅).
Definition set_state (s : ClusterState) (m : MembershipManager) (n : ClusterNode) : ClusterNode :=
  MkClusterNode (cn_config n) s (raft_state n) m (current_term n) (voted_for n) (leader_id n) (state_machine n).
Definition node_start (n : ClusterNode) : ClusterNode := set_state Follower (set_running true (membership n)) n.
Definition node_stop (n : ClusterNode) : ClusterNode := set_state ShuttingDown (set_running false (membership n)) n.
Definition quorum_size (n : ClusterNode) : nat := ((length (peers (cn_config n)) + 1) / 2 + 1)%nat.
Definition is_leader (n : ClusterNode) : bool := bool_decide (state n = Leader).
(** [replicate_entry] sends nothing and answers [true]. *)
Definition replicate_entry (index : Z) : result bool ClusterError := Ok true.
Definition propose (command : Command) (now : Z) : M ClusterNode ClusterError CommandResult := fun n =>
  if negb (is_leader n) then (Err (NotLeader (leader_id n)), n)
  else
    let '(appended, rs) := append_entry command now (raft_state n) in
    let n := MkClusterNode (cn_config n) (state n) rs (membership n) (current_term n) (voted_for n) (leader_id n)
               (state_machine n) in
    match (let? index := appended in replicate_entry index) with
    | Err e => (Err e, n)
    | Ok replicated =>
        if negb replicated then (Err (QuorumNotReached (quorum_size n) 1), n)
        else
          let '(r, sm) := apply_command command (state_machine n) in
          (r, MkClusterNode (cn_config n) (state n) (raft_state n) (membership n) (current_term n) (voted_for n)
                (leader_id n) sm)
    end.

(** The index and the term of the candidate's log are not used. *)
Definition handle_request_vote (term : Z) (candidate_id : string) (last_log_index last_log_term : Z) (n : ClusterNode)
    : bool * ClusterNode :=
  if term <? current_term n then (false, n)
  else
    let n :=
      if current_term n <? term
      then MkClusterNode (cn_config n) (state n) (raft_state n) (membership n) term None None (state_machine n)
      else n in
    match voted_for n with
    | Some existing => (bool_decide (existing = candidate_id), n)
    | None =>
        (true, MkClusterNode (cn_config n) (state n) (raft_state n) (membership n) (current_term n) (Some candidate_id)
                 (leader_id n) (state_machine n))
    end.
Record ClusterHealth := MkClusterHealth {
  ch_state : ClusterState;
  has_leader : bool;
  ch_is_healthy : bool;
  connected_peers : Z;
  total_peers : nat;
  ch_leader_id : option string
}.
Definition health_status (n : ClusterNode) : ClusterHealth :=
  let has_leader := bool_decide (is_Some (leader_id n)) in
  MkClusterHealth (state n) has_leader
    ((bool_decide (state n = Follower) || bool_decide (state n = Leader)) && has_leader)
    (connected_count (membership n)) (length (peers (cn_config n))) (leader_id n).
End node.
Arguments ClusterNode : clear implicits.
Arguments RaftState : clear implicits.

(** ** Replication targets *)

Inductive EntryType := EntryKey | EntrySession | EntryAudit | EntrySigningRecord | EntryConfig.
Record ReplicationEntry := MkReplicationEntry { re_index : Z; entry_type : EntryType; re_data : bytes }.
Record ReplicationTarget := MkTarget { rt_node_id : string; rt_address : string; match_index : Z; next_index : Z }.
Record ReplicationManager := MkReplication { targets : gmap string ReplicationTarget; pending : list ReplicationEntry }.
Definition replication_new : ReplicationManager := MkReplication ∅ [].
Definition add_target (id address : string) (m : ReplicationManager) : ReplicationManager :=
  MkReplication (<[id := MkTarget id address 0 1]> (targets m)) (pending m).
Definition remove_target (id : string) (m : ReplicationManager) : ReplicationManager :=
  MkReplication (delete id (targets m)) (pending m).
Definition queue (e : ReplicationEntry) (m : ReplicationManager) : ReplicationManager :=
  MkReplication (targets m) (pending m ++ [e]).
Definition entries_for (id : string) (m : ReplicationManager) : list ReplicationEntry :=
  match targets m !! id with
  | Some target => filter (fun e => next_index target <= re_index e) (pending m)
  | None => []
  end.
Definition mark_replicated (id : string) (index : Z) (m : ReplicationManager) : ReplicationManager :=
  MkReplication
    (alter (fun t => MkTarget (rt_node_id t) (rt_address t) index (wrap 64 (index + 1))) id (targets m)) (pending m).
Definition is_replicated (index : Z) (quorum : nat) (m : ReplicationManager) : bool :=
  (quorum <=? length (filter (fun it => index <= match_index it.2)%Z (map_to_list (targets m))) + 1)%nat.

(** ** Routing *)

Inductive RoutingStrategy := RouteLeader | RouteAny | RouteLocal | RouteSpecific.
Inductive RequestType := Read | Write | StrongRead.
Definition default_strategy (r : RequestType) : RoutingStrategy :=
  match r with Read => RouteAny | Write => RouteLeader | StrongRead => RouteLocal end.
Record Router := MkRouter { leader : option string; local_node : string; leader_lease_expiry : option DateTime }.
Definition router_new (local : string) : Router := MkRouter None local None.
Definition set_leader (l : option string) (r : Router) : Router := MkRouter l (local_node r) (leader_lease_expiry r).
Definition router_is_leader (r : Router) : bool := bool_decide (leader r = Some (local_node r)).
Definition update_lease (duration : Duration) (now : DateTime) (r : Router) : Router :=
  MkRouter (leader r) (local_node r) (Some (now + duration)).
Definition lease_valid (now : DateTime) (r : Router) : bool :=
  match leader_lease_expiry r with Some expiry => now <? expiry | None => false end.
Definition route (strategy : RoutingStrategy) (now : DateTime) (r : Router) : result string ClusterError :=
  match strategy with
  | RouteLeader => ok_or NoLeader (leader r)
  | RouteAny => Ok (local_node r)
  | RouteLocal =>
      if router_is_leader r || lease_valid now r then Ok (local_node r) else ok_or NoLeader (leader r)
  | RouteSpecific => Err (Configuration "Specific routing requires node ID")
  end.
(** [f] is the request that is forwarded. *)
Definition forward_to_leader {A} (f : string -> result A ClusterError) (r : Router) : result A ClusterError :=
  let? l := ok_or NoLeader (leader r) in
  if bool_decide (l = local_node r) then Err (ClusterInternal "Cannot forward to self") else f l.

(** ** Transport encryption *)

(** [Hkdf::<Sha256>::new(None, key)] with [expand]: fails only for more than
    255 blocks of output. *)
Class HkdfSha256 := {
  hkdf_expand : bytes -> bytes -> nat -> result bytes string;
  hkdf_expand_length key info n : (n <= 255 * 32)%nat -> exists k, hkdf_expand key info n = Ok k /\ length k = n
}.

Section transport.
Context {AEAD : Aead} {HKDF : HkdfSha256}.

Record TransportKeyManager := MkTransport { master_key : bytes; epoch : Z; encryption_key : bytes }.
Definition derive_encryption_key (m : TransportKeyManager) : result TransportKeyManager ClusterError :=
  let? key := rmap_err (fun _ => Encryption "HKDF expansion failed")
                (hkdf_expand (master_key m) (as_bytes ("hsm-cluster-transport-" +:+ to_decimal (epoch m))) 32) in
  Ok (MkTransport (master_key m) (epoch m) key).
Definition transport_new (master : bytes) : result TransportKeyManager ClusterError :=
  derive_encryption_key (MkTransport master 0 (zeros 32)).
Definition rotate_epoch (m : TransportKeyManager) : result TransportKeyManager ClusterError :=
  derive_encryption_key (MkTransport (master_key m) (wrap 64 (epoch m + 1)) (encryption_key m)).

Record EncryptedMessage := MkMessage { em_epoch : Z; em_nonce : bytes; em_ciphertext : bytes }.
(** [random]: the twelve bytes of the nonce. *)
Definition transport_encrypt (plaintext : bytes) (random : result bytes string) (m : TransportKeyManager)
    : result EncryptedMessage ClusterError :=
  let? cipher := rmap_err Encryption (new_from_slice Aes256 (encryption_key m)) in
  let? nonce := rmap_err Encryption random in
  let? ciphertext := rmap_err Encryption (aead_encrypt cipher nonce [] plaintext) in
  Ok (MkMessage (epoch m) nonce ciphertext).
(** [None]: [Nonce::from_slice] panics unless there are twelve bytes. *)
Definition transport_decrypt (msg : EncryptedMessage) (m : TransportKeyManager) : option (result bytes ClusterError) :=
  if negb (em_epoch msg =? epoch m) then
    Some (Err (Encryption ("Epoch mismatch: expected " +:+ to_decimal (epoch m) +:+ ", got " +:+ to_decimal (em_epoch msg))))
  else
    match new_from_slice Aes256 (encryption_key m) with
    | Err e => Some (Err (Encryption e))
    | Ok cipher =>
        if (length (em_nonce msg) =? 12)%nat
        then Some (rmap_err Encryption (aead_decrypt cipher (em_nonce msg) [] (em_ciphertext msg)))
        else None
    end.
Definition message_to_bytes (msg : EncryptedMessage) : bytes :=
  be_bytes 8 (em_epoch msg) ++ [byte_of_Z (Z.of_nat (length (em_nonce msg)))] ++ em_nonce msg ++ em_ciphertext msg.
Definition message_from_bytes (bs : bytes) : result EncryptedMessage ClusterError :=
  if (length bs <? 9)%nat then Err (Encryption "Message too short")
  else
    let nonce_len := match bs !! 8%nat with Some b => Z.to_nat (byte_to_Z b) | None => 0%nat end in
    if (length bs <? 9 + nonce_len)%nat then Err (Encryption "Invalid nonce length")
    else Ok (MkMessage (from_be_bytes (take 8 bs)) (take nonce_len (drop 9 bs)) (drop (9 + nonce_len) bs)).
End transport.

(** ** Elections *)

Section elections.
Context {db : Type} {SLED : Sled db} {REMOVE : SledRemove db} {SERDE : Serde LogEntry}.
Abbreviation Node := (ClusterNode db).

Inductive node_op :=
| NStart | NStop
| NRequestVote (term : Z) (candidate : string) (last_log_index last_log_term : Z)
| NPropose (command : Command) (now : Z).
Definition node_step (op : node_op) (n : Node) : Node :=
  match op with
  | NStart => node_start n
  | NStop => node_stop n
  | NRequestVote term c i t => (handle_request_vote term c i t n).2
  | NPropose command now => (propose command now n).2
  end.
(** The vote a call grants: a term and a candidate. *)
Definition vote_granted (op : node_op) (n : Node) : option (Z * string) :=
  match op with
  | NRequestVote term c i t => if (handle_request_vote term c i t n).1 then Some (term, c) else None
  | _ => None
  end.
Fixpoint votes (ops : list node_op) (n : Node) : list (Z * string) :=
  match ops with
  | [] => []
  | op :: ops' =>
      match vote_granted op n with
      | Some v => v :: votes ops' (node_step op n)
      | None => votes ops' (node_step op n)
      end
  end.
Lemma elem_of_votes v op ops (n : Node) :
  v ∈ votes (op :: ops) n <-> vote_granted op n = Some v \/ v ∈ votes ops (node_step op n).
Proof. cbn [votes]. destruct (vote_granted op n) as [w|]; [rewrite elem_of_cons|]; naive_solver. Qed.

(** What a vote of a later call can be. *)
Definition compatible (t : Z) (c : string) (n : Node) : Prop :=
  current_term n <= t /\ (t = current_term n -> forall c', voted_for n = Some c' -> c' = c).

Lemma propose_keeps_vote command now (n : Node) :
  current_term (propose command now n).2 = current_term n /\ voted_for (propose command now n).2 = voted_for n.
Proof. unfold propose. repeat case_match; done. Qed.
Lemma request_vote_step term c i t (n : Node) :
  let n' := (handle_request_vote term c i t n).2 in
  current_term n' = Z.max (current_term n) term /\
  (term <= current_term n -> forall x, voted_for n = Some x -> voted_for n' = Some x) /\
  ((handle_request_vote term c i t n).1 = true ->
   current_term n <= term /\ voted_for n' = Some c /\ (term = current_term n -> voted_for n = None \/ voted_for n = Some c)).
Proof.
  unfold handle_request_vote. destruct (Z.ltb_spec term (current_term n)); simpl; [split_and!; [lia|done|done]|].
  destruct (Z.ltb_spec (current_term n) term); simpl.
  - split_and!; [lia|lia|]. intros _. split_and!; [lia|done|lia].
  - destruct (voted_for n) as [x|] eqn:Hv; simpl; rewrite ?Hv.
    + split_and!; [lia|done|]. intros ->%bool_decide_eq_true. split_and!; [lia|done|by right].
    + split_and!; [lia|done|]. intros _. split_and!; [lia|done|by left].
Qed.
Lemma node_step_votes op (n : Node) :
  current_term n <= current_term (node_step op n) /\
  (current_term (node_step op n) = current_term n -> forall x, voted_for n = Some x -> voted_for (node_step op n) = Some x).
Proof.
  destruct op as [| |term c i t|command now]; cbn [node_step]; [done|done| |].
  - destruct (request_vote_step term c i t n) as (-> & Hk & _). split; [lia|]. intros ?. apply Hk. lia.
  - destruct (propose_keeps_vote command now n) as [-> ->]. done.
Qed.
Lemma vote_granted_step op (n : Node) t c :
  vote_granted op n = Some (t, c) ->
  compatible t c n /\ current_term (node_step op n) = t /\ voted_for (node_step op n) = Some c.
Proof.
  destruct op as [| |term cand i lt|]; try done. unfold vote_granted. cbn [node_step].
  destruct (request_vote_step term cand i lt n) as (Hcur & _ & Hg). destruct (handle_request_vote term cand i lt n).1; [|done].
  intros [= <- <-]. destruct (Hg eq_refl) as (Hle & Hv & Hold). split_and!; [|lia|done]. split; [done|].
  intros Heq x Hx. destruct (Hold Heq); congruence.
Qed.
Lemma votes_compatible ops (n : Node) t c : (t, c) ∈ votes ops n -> compatible t c n.
Proof.
  revert n. induction ops as [|op ops IH]; intros n Hin; [by apply not_elem_of_nil in Hin|].
  apply elem_of_votes in Hin as [Hin|Hin].
  - by apply vote_granted_step in Hin as [? _].
  - destruct (IH _ Hin) as [Hle Hc], (node_step_votes op n) as [Hm Hk]. split; [lia|].
    intros Heq x Hx. apply Hc; [lia|]. apply Hk; [lia|done].
Qed.

Lemma one_vote_per_term ops (n : Node) t c c' : (t, c) ∈ votes ops n -> (t, c') ∈ votes ops n -> c = c'.
Proof.
  revert n. induction ops as [|op ops IH]; intros n Hc Hc'; [by apply not_elem_of_nil in Hc|].
  apply elem_of_votes in Hc as [Hc|Hc], Hc' as [Hc'|Hc']; [congruence| | |by eapply IH].
  - apply vote_granted_step in Hc as (_ & Ht & Hv). apply votes_compatible in Hc' as [_ Hcc]. by apply Hcc.
  - apply vote_granted_step in Hc' as (_ & Ht & Hv). apply votes_compatible in Hc as [_ Hcc]. symmetry. by apply Hcc.
Qed.

(** A cluster: the calls each node has served since it was created.  A quorum,
    as the candidate computes its size, has granted it the vote.  (The code
    does not count votes itself.) *)
Definition granted_quorum (cfg : string -> ClusterConfig) (runs : gmap string (list node_op)) (t : Z) (c : string) : Prop :=
  exists voters : gset string, (quorum_size (node_new (db := db) (cfg c)) <= size voters)%nat /\
    forall id, id ∈ voters -> exists ops, runs !! id = Some ops /\ (t, c) ∈ votes ops (node_new (cfg id)).

Lemma quorums_intersect (X Y Z : gset string) :
  X ⊆ Z -> Y ⊆ Z -> (size Z < size X + size Y)%nat -> exists id, id ∈ X /\ id ∈ Y.
Proof.
  intros HX HY Hs. destruct (decide (X ∩ Y = ∅)) as [He|He]; [|apply set_choose_L in He as [id Hid]; set_solver].
  assert (size (X ∪ Y) = size X + size Y)%nat as Hu by (apply size_union; set_solver).
  assert (size (X ∪ Y) <= size Z)%nat by (apply subseteq_size; set_solver). lia.
Qed.

(** C34: votes are safe while nodes keep running.  A node grants its vote in a
    term to one candidate only, whatever requests it has served since it was
    created and in whatever order.  So, if every node is configured with the
    true number of nodes, at most one candidate is granted the votes of a
    quorum in a term.  (Term and vote are not stored: a restarted node may
    vote again, [restarted_node_votes_again]; and it is left to the
    replication engine to count the votes.) *)
Theorem vote_safety cfg runs t c c' :
  (forall id ops, runs !! id = Some ops ->
     (t, c) ∈ votes ops (node_new (db := db) (cfg id)) -> (t, c') ∈ votes ops (node_new (db := db) (cfg id)) -> c = c') /\
  ((forall id, (length (peers (cfg id)) + 1 = size runs)%nat) ->
   granted_quorum cfg runs t c -> granted_quorum cfg runs t c' -> c = c').
Proof.
  split; [intros id ops _; apply one_vote_per_term|].
  intros Hn (X & HX & HvX) (Y & HY & HvY). unfold quorum_size in HX, HY. cbn [cn_config node_new] in HX, HY. rewrite Hn in HX, HY.
  destruct (quorums_intersect X Y (dom runs)) as (id & HidX & HidY).
  - intros id Hid. destruct (HvX id Hid) as (ops & Hr & _). by apply elem_of_dom_2 in Hr.
  - intros id Hid. destruct (HvY id Hid) as (ops & Hr & _). by apply elem_of_dom_2 in Hr.
  - rewrite size_dom. pose proof (Nat.div_mod_eq (size runs) 2). pose proof (Nat.mod_upper_bound (size runs) 2 ltac:(lia)). lia.
  - destruct (HvX id HidX) as (ops & Hr & Hv), (HvY id HidY) as (ops' & Hr' & Hv').
    assert (ops' = ops) as -> by congruence. by eapply one_vote_per_term.
Qed.

(** ** No node leads *)

(** Nothing makes a node a leader: every proposal is refused. *)
Theorem proposals_refused ops cfg command now :
  exists l, (propose command now (foldl (flip node_step) (node_new (db := db) cfg) ops)).1 = Err (NotLeader l).
Proof.
  assert (forall (n : Node), state n <> Leader -> state (foldl (flip node_step) n ops) <> Leader) as Hrun.
  { induction ops as [|op ops IH]; intros n Hn; [done|]. apply IH. destruct op as [| |term c i t|cmd w]; cbn; [done|done| |].
    - unfold handle_request_vote. by repeat case_match.
    - unfold propose, is_leader. by rewrite bool_decide_eq_false_2. }
  eexists. unfold propose, is_leader. rewrite bool_decide_eq_false_2 by (by apply Hrun). done.
Qed.
End elections.

(** ** The applied state *)

(** The signing attempts that a sequence of commands gets accepted. *)
Fixpoint accepted_attempts (cs : list Command) (sm : StateMachine) : list (string * bytes) :=
  match cs with
  | [] => []
  | c :: cs' =>
      let '(r, sm') := apply_command c sm in
      match c, r with
      | RecordSigningAttempt k h, Ok _ => (k, h) :: accepted_attempts cs' sm'
      | _, _ => accepted_attempts cs' sm'
      end
  end.
Definition recorded (sm : StateMachine) (kh : string * bytes) : Prop := is_double_signing sm kh.1 kh.2 = true.
Lemma recorded_iff sm k h : recorded sm (k, h) <-> exists hs, signing_records sm !! k = Some hs /\ h ∈ hs.
Proof.
  unfold recorded, is_double_signing. simpl. destruct (signing_records sm !! k) as [hs|]; [rewrite bool_decide_eq_true|]; naive_solver.
Qed.
Lemma apply_command_records c sm kh : recorded sm kh -> recorded (apply_command c sm).2 kh.
Proof.
  destruct kh as [k h], c as [| |k' h'| |]; try done. simpl. destruct (is_double_signing sm k' h'); [done|].
  rewrite !recorded_iff. simpl. intros (hs & Hk & Hin). destruct (decide (k' = k)) as [->|].
  - rewrite lookup_insert_eq, Hk. eexists. split; [done|]. simpl. set_solver.
  - rewrite lookup_insert_ne by done. by exists hs.
Qed.
Lemma accepted_new cs sm kh : kh ∈ accepted_attempts cs sm -> ~ recorded sm kh.
Proof.
  revert sm. induction cs as [|c cs IH]; intros sm Hin; cbn [accepted_attempts] in Hin; [by apply not_elem_of_nil in Hin|].
  pose proof (apply_command_records c sm kh) as Hmono. destruct (apply_command c sm) as [r sm'] eqn:Hc. simpl in Hmono.
  destruct c as [| |k h| |]; try (specialize (IH _ Hin); tauto). simpl in Hc.
  destruct (is_double_signing sm k h) eqn:Hd; injection Hc as <- <-; [by apply IH|].
  apply elem_of_cons in Hin as [->|Hin]; [unfold recorded; simpl; congruence|]. specialize (IH _ Hin). tauto.
Qed.

(** No signing attempt, a key with a message hash, is accepted twice by
    the replicated state machine, whatever commands come in between. *)
Theorem attempts_accepted_once cs sm : NoDup (accepted_attempts cs sm).
Proof.
  revert sm. induction cs as [|c cs IH]; intros sm; cbn [accepted_attempts]; [constructor|].
  destruct (apply_command c sm) as [r sm'] eqn:Hc. destruct c as [| |k h| |]; [apply IH|apply IH| |apply IH|apply IH].
  simpl in Hc. destruct (is_double_signing sm k h) eqn:Hd; injection Hc as <- <-; [apply IH|].
  constructor; [|apply IH]. intros Hin%accepted_new. apply Hin, recorded_iff. simpl. rewrite lookup_insert_eq.
  eexists. split; [done|]. set_solver.
Qed.

(** ** Membership *)

Inductive member_op :=
| MHeartbeat (id : string) (now : DateTime) | MFailure (id : string) | MAdd (c : PeerConfig) | MRemove (id : string).
Definition member_step (m : MembershipManager) (op : member_op) : MembershipManager :=
  match op with
  | MHeartbeat id now => record_heartbeat id now m
  | MFailure id => record_failure id m
  | MAdd c => (add_peer c m).2
  | MRemove id => (remove_peer id m).2
  end.
Definition counted (m : MembershipManager) : Prop :=
  connected_count m = wrap 32 (Z.of_nat (count_peers is_healthy (mm_peers m))).

Lemma count_peers_zero P ps : map_Forall (fun _ p => P p = false) ps -> count_peers P ps = 0%nat.
Proof.
  intros H%map_Forall_to_list. unfold count_peers. induction H as [|[id p] l Hp _ IH]; [done|].
  rewrite filter_cons_False; [done|]. simpl in *. congruence.
Qed.
Lemma count_peers_insert P id p ps :
  ps !! id = None -> count_peers P (<[id := p]> ps) = ((if P p then 1 else 0) + count_peers P ps)%nat.
Proof.
  intros H. unfold count_peers. rewrite (map_to_list_insert ps id p H), filter_cons. simpl.
  destruct (P p); case_decide; done.
Qed.

(** The number of connected peers that a node reports is the number of
    healthy ones, whatever the membership has gone through. *)
Theorem connected_count_exact c ops : counted (foldl member_step (membership_new c) ops).
Proof.
  assert (counted (membership_new c)) as H0.
  { unfold counted, membership_new. cbn [connected_count mm_peers]. rewrite count_peers_zero; [done|].
    assert (map_Forall (fun (_ : string) p => is_healthy p = false) (∅ : gmap string PeerState)) as He by apply map_Forall_empty.
    revert He. generalize (∅ : gmap string PeerState). induction (peers c) as [|p ps IH]; intros m Hm; [done|].
    simpl. apply IH. by apply map_Forall_insert_2. }
  revert H0. generalize (membership_new c). induction ops as [|op ops IH]; intros m Hm; [done|]. simpl. apply IH.
  destruct op as [id now|id|pc|id]; [done|done| |]; simpl.
  - unfold add_peer. case_bool_decide as Hs; [done|]. unfold counted. simpl.
    rewrite count_peers_insert by (by apply eq_None_not_Some). exact Hm.
  - unfold remove_peer. by case_bool_decide.
Qed.

(** Quorum is a majority of the voting members, the node itself included. *)
Theorem has_quorum_majority m :
  has_quorum m = true <->
  (count_peers (fun p => voting (ps_config p)) (mm_peers m) + 1 <
   2 * (count_peers (fun p => voting (ps_config p) && is_healthy p) (mm_peers m) + 1))%nat.
Proof.
  unfold has_quorum, div_ceil. rewrite Nat.leb_le. set (v := count_peers _ _). set (h := count_peers _ _).
  pose proof (Nat.div_mod_eq v 2). pose proof (Nat.mod_upper_bound v 2 ltac:(lia)).
  destruct (Nat.eqb_spec (v mod 2) 0); lia.
Qed.

(** ** Transport *)

Section transport_correct.
Context {AEAD : Aead} {HKDF : HkdfSha256}.

Lemma message_roundtrip msg :
  in_u 64 (em_epoch msg) -> (length (em_nonce msg) <= 255)%nat -> message_from_bytes (message_to_bytes msg) = Ok msg.
Proof.
  intros He Hn. destruct msg as [ep nonce ct]. simpl in *. unfold message_from_bytes, message_to_bytes. cbn [em_epoch em_nonce em_ciphertext].
  set (len := byte_of_Z (Z.of_nat (length nonce))).
  assert (byte_to_Z len = Z.of_nat (length nonce)) as Hlen by (unfold len; rewrite byte_to_of, Z.mod_small; lia).
  pose proof (length_be_bytes 8 ep) as Hb.
  assert ((be_bytes 8 ep ++ [len] ++ nonce ++ ct) !! 8%nat = Some len) as ->
    by (rewrite lookup_app_r by lia; by rewrite Hb).
  rewrite Hlen, Nat2Z.id. rewrite !length_app, Hb. simpl length.
  rewrite !(proj2 (Nat.ltb_ge _ _)) by lia. f_equal. f_equal.
  - rewrite (take_app_length' _ _ 8) by done. rewrite from_be_be_bytes. apply Z.mod_small. exact He.
  - rewrite app_assoc, (drop_app_length' _ _ 9) by (by rewrite length_app, Hb). apply take_app_length.
  - replace (be_bytes 8 ep ++ [len] ++ nonce ++ ct) with ((be_bytes 8 ep ++ [len] ++ nonce) ++ ct) by (by rewrite <- !app_assoc).
    apply drop_app_length'. rewrite !length_app, Hb. simpl. lia.
Qed.

Lemma transport_new_Ok master : exists m, transport_new master = Ok m /\ length (encryption_key m) = 32%nat /\ in_u 64 (epoch m).
Proof.
  unfold transport_new, derive_encryption_key. simpl.
  edestruct (hkdf_expand_length master) as (k & -> & Hk); [|simpl; eexists; split_and!; [done|done|split; by vm_compute]]. lia.
Qed.
Lemma rotate_epoch_Ok m : exists m', rotate_epoch m = Ok m' /\ length (encryption_key m') = 32%nat /\ in_u 64 (epoch m').
Proof.
  unfold rotate_epoch, derive_encryption_key. cbn [master_key epoch].
  edestruct (hkdf_expand_length (master_key m)) as (k & -> & Hk); [|simpl; eexists; split_and!; [done|done|by apply wrap_range]]. lia.
Qed.
(** The keys of a node after a number of rotations. *)
Fixpoint at_epoch (rotations : nat) (master : bytes) : result TransportKeyManager ClusterError :=
  match rotations with O => transport_new master | S r => let? m := at_epoch r master in rotate_epoch m end.
Lemma at_epoch_Ok r master : exists m, at_epoch r master = Ok m /\ length (encryption_key m) = 32%nat /\ in_u 64 (epoch m).
Proof.
  induction r as [|r IH]; simpl; [apply transport_new_Ok|]. destruct IH as (m & -> & _). apply rotate_epoch_Ok.
Qed.

(** What a node encrypts, another node with the same master key and the
    same number of rotations decrypts to the same text, through the wire
    format. *)
Theorem transport_roundtrip r master plaintext nonce :
  length nonce = 12%nat ->
  exists sender, at_epoch r master = Ok sender /\
    forall msg, transport_encrypt plaintext (Ok nonce) sender = Ok msg ->
    exists received, message_from_bytes (message_to_bytes msg) = Ok received /\
      transport_decrypt received sender = Some (Ok plaintext).
Proof.
  intros Hn. destruct (at_epoch_Ok r master) as (m & Hm & Hk & He). exists m. split; [done|]. intros msg Henc.
  unfold transport_encrypt in Henc. apply rbind_Ok in Henc as (c & Hc & Henc). apply rmap_err_Ok in Hc. simpl in Henc.
  apply rbind_Ok in Henc as (ct & Hct & Henc). apply rmap_err_Ok in Hct. injection Henc as <-.
  eexists. split; [apply message_roundtrip; simpl; [done|lia]|]. unfold transport_decrypt. cbn [em_epoch em_nonce em_ciphertext].
  rewrite Z.eqb_refl, Hc, Hn. cbn. by rewrite (aead_decrypt_encrypt c nonce [] plaintext ct).
Qed.
End transport_correct.
