(* ===== verification/ClusterWitness.v ===== *)
(** * The cluster on examples

    Removal for the in-memory database, a codec of log entries and a toy key
    derivation; the theorems of [RaftLog] and [ClusterNode] at concrete logs
    and votes; and runs that show a vote given twice, numbers given twice after
    a compaction, old entries filed as new ones, and a message that makes a
    node panic. *)

From Stdlib Require Import ZArith Lia Strings.Byte.
From stdpp Require Import base gmap strings list countable.
From S2P Require Import Prelude External Platform RaftLog ClusterNode.
Import Concrete Concrete2.

#[export] Program Instance mem_sled_remove : SledRemove mem_sled := {|
  sled_remove t k := ms_faulty (fun d =>
    (ms_tree (ms_vol d) t !! k,
     MemSled (<[t := delete k (ms_tree (ms_vol d) t)]> (ms_vol d)) (ms_dur d) (ms_faults d)))
|}.
Next Obligation.
  intros t k d r d' (d0 & Hv & Hd & [(a & -> & E)|(e & -> & ->)])%ms_faulty_inv; simplify_eq/=.
  - split; [intros t' k'; left; simpl; by rewrite Hd|]. left. intros t'. simpl. unfold ms_tree at 1. rewrite lookup_insert.
    destruct (decide (t = t')), (decide (t' = t)); simplify_eq/=; rewrite ?Hv; done.
  - split; [by apply ms_quiet|]. right. split; [done|]. intros t'. simpl. by rewrite Hv.
Qed.

#[export] Instance Command_eq_dec : EqDecision Command.
Proof. solve_decision. Defined.
#[export] Instance Command_countable : Countable Command.
Proof.
  refine (inj_countable'
    (fun c => match c with
              | StoreKey k b => (0%nat, k, b) | DeleteKey k => (1%nat, k, []) | RecordSigningAttempt k b => (2%nat, k, b)
              | CreateSession k b => (3%nat, k, b) | DeleteSession k => (4%nat, k, [])
              end)
    (fun '(n, k, b) => match n with
                       | 0%nat => StoreKey k b | 1%nat => DeleteKey k | 2%nat => RecordSigningAttempt k b
                       | 3%nat => CreateSession k b | _ => DeleteSession k
                       end) _).
  by intros [].
Defined.
#[export] Instance LogEntry_eq_dec : EqDecision LogEntry.
Proof. solve_decision. Defined.
#[export] Instance LogEntry_countable : Countable LogEntry.
Proof.
  refine (inj_countable' (fun e => (le_index e, le_term e, le_command e, le_timestamp e)) (fun '(i, t, c, n) => MkLogEntry i t c n) _).
  by intros [].
Defined.
#[local] Existing Instance countable_serde.

(** ** Logs *)

Abbreviation Log := (RaftLog mem_sled).
Definition entry (i t : Z) : LogEntry := MkLogEntry i t (DeleteKey "k") 0.
Definition memory_log (es : list LogEntry) : Log := MkRaftLog _ es 1 0 0 None.
Definition leader_log : Log := memory_log [entry 1 1; entry 2 1; entry 3 2; entry 4 3].
Definition follower_log : Log := memory_log [entry 1 1; entry 2 1].

Lemma leader_log_wf : log_wf leader_log.
Proof. split; [done|]. intros k e Hk. do 4 (destruct k as [|k]; [by injection Hk as <-|]). done. Defined.

Lemma replication_converges_witness :
  exists fl', append_entries 1 1 (entries_from 2 leader_log) follower_log = (Ok true, fl') /\
              entries fl' = entries leader_log /\ last_index fl' = last_index leader_log.
Proof.
  destruct (replication_converges 1 1 follower_log leader_log) as (fl' & Ha & _ & Hl & _).
  - reflexivity.
  - exact leader_log_wf.
  - split_and!; [done|done|done|]. intros i Hi. assert (i = 1 \/ i = 2) as [-> | ->] by (cbn in Hi; lia); reflexivity.
  - done.
  - by intros e [= <-].
  - exists fl'. split_and!; [exact Ha| |exact Hl]. cbn in Ha. injection Ha as <-. reflexivity.
Defined.

Lemma conflict_keeps_old_entry_witness :
  exists l', append_entries 1 1 [entry 2 5] follower_log = (Ok true, l') /\ get 2 l' = Some (entry 2 1).
Proof.
  destruct (conflict_keeps_old_entry 1 follower_log (entry 2 1) (entry 2 5)) as (l' & Ha & Hg & _).
  - reflexivity.
  - split; [done|]. intros k e Hk. do 2 (destruct k as [|k]; [by injection Hk as <-|]). done.
  - reflexivity.
  - done.
  - intros _ p [= <-]. reflexivity.
  - by exists l'.
Defined.

Lemma mem_scan (d : mem_sled) t p :
  ms_faults d = [] -> sled_scan_prefix t p d = (Ok <$> tree_scan p (ms_tree (ms_vol d) t), d).
Proof. intros H. simpl. unfold ms_faulty. by rewrite H. Defined.
Definition stored_log : Log := MkRaftLog _ [] 1 0 0 (Some (ms_empty [])).
Definition stored_log1 : Log := (append 1 (DeleteKey "a") 7 stored_log).2.
Lemma appended_entry_survives_witness :
  exists d', storage stored_log1 = Some d' /\
    exists lr, with_storage (Ok (sled_reopen d')) = Ok lr /\ entries lr = entries stored_log1.
Proof.
  destruct (appended_entry_survives 1 (DeleteKey "a") 7 stored_log stored_log1 (ms_empty []) 1) as (d' & Hst & _ & Hload).
  - split; [done|split; [split; [done|by intros []]|]]. split; [constructor|]. intros k v. split; [done|]. intros (e & He & _). by apply not_elem_of_nil in He.
  - vm_compute. reflexivity.
  - assert (ms_faults <$> storage stored_log1 = Some []) as Hf by (by vm_compute).
    rewrite Hst in Hf. injection Hf as Hf. exists d'. split; [exact Hst|].
    destruct (Hload _ _ (mem_scan (sled_reopen d') DEFAULT_TREE (as_bytes "log:") ltac:(destruct d'; exact Hf))) as (lr & Hlr & Hes & _).
    exists lr. by split.
Defined.

(** Two entries, both compacted away; after a restart the next entry is number
    one again. *)
Definition compacted_restart : result Z ClusterError :=
  match (append 1 (DeleteKey "a") 7 ;! append 1 (DeleteKey "b") 8 ;! compact 2) stored_log with
  | (Ok _, l) =>
      let? l := with_storage (ok_or EmptyString (sled_reopen <$> storage l)) in
      (append 1 (DeleteKey "c") 9 l).1
  | (Err e, _) => Err e
  end.
Example numbers_restart : compacted_restart = Ok 1.
Proof. by vm_compute. Qed.
(** A request that is repeated after the follower compacted its log is filed
    again behind the newest entry. *)
Example compacted_entry_filed_again :
  let l := (compact 1 follower_log).2 in
  (fun e => le_index e) <$> entries (append_entries 0 0 [entry 1 1] l).2 = [2; 1].
Proof. by vm_compute. Qed.

(** ** Votes *)

Definition three (id : string) : ClusterConfig :=
  MkClusterConfig id [MkPeerConfig "p" EmptyString true; MkPeerConfig "q" EmptyString true] raft_config_default.
Definition ask (t : Z) (c : string) : node_op := NRequestVote t c 0 0.
Definition cluster_runs : gmap string (list node_op) :=
  {[ "a" := [NStart; ask 1 "a"]; "b" := [NStart; ask 1 "a"; ask 1 "c"]; "c" := [ask 1 "c"; ask 1 "a"; ask 2 "c"] ]}.
Lemma vote_safety_witness :
  granted_quorum (db := mem_sled) three cluster_runs 1 "a" /\ ~ granted_quorum (db := mem_sled) three cluster_runs 1 "c".
Proof.
  assert (granted_quorum (db := mem_sled) three cluster_runs 1 "a") as Ha.
  { exists {["a"; "b"]}. split; [by vm_compute|]. intros id [Hid|Hid]%elem_of_union; apply elem_of_singleton in Hid as ->.
    - exists [NStart; ask 1 "a"]. split; [reflexivity|]. vm_compute. left.
    - exists [NStart; ask 1 "a"; ask 1 "c"]. split; [reflexivity|]. vm_compute. left. }
  split; [exact Ha|]. intros Hc. discriminate (proj2 (vote_safety (db := mem_sled) three cluster_runs 1 "a" "c") (fun _ => eq_refl) Ha Hc).
Defined.
(** Votes are not on disk: a node that is started again votes again in the
    same term. *)
Example restarted_node_votes_again :
  votes (db := mem_sled) [ask 5 "a"] (node_new (three "b")) = [(5, "a")] /\
  votes (db := mem_sled) [ask 5 "c"] (node_new (three "b")) = [(5, "c")].
Proof. split; by vm_compute. Qed.

(** ** Transport *)

#[export] Program Instance toy_hkdf : HkdfSha256 := {|
  hkdf_expand key info n := Ok (take n (key ++ info ++ zeros n))
|}.
Next Obligation. intros. eexists. split; [done|]. unfold zeros. rewrite length_take, !length_app, length_replicate. lia. Qed.

Lemma transport_roundtrip_witness :
  exists sender, at_epoch 2 (zeros 32) = Ok sender /\ epoch sender = 2 /\
    exists msg, transport_encrypt [x2a] (Ok (zeros 12)) sender = Ok msg /\
      exists received, message_from_bytes (message_to_bytes msg) = Ok received /\
        transport_decrypt received sender = Some (Ok [x2a]).
Proof.
  destruct (transport_roundtrip 2 (zeros 32) [x2a] (zeros 12)) as (sender & Hs & Hall); [reflexivity|].
  exists sender. split; [exact Hs|]. vm_compute in Hs. injection Hs as <-. split; [reflexivity|].
  eexists. split; [vm_compute; reflexivity|]. apply Hall. vm_compute. reflexivity.
Defined.
(** Nine zero bytes are a message of the first epoch with an empty nonce. *)
Example short_nonce_panics :
  exists m msg, transport_new (zeros 32) = Ok m /\ message_from_bytes (zeros 9) = Ok msg /\ transport_decrypt msg m = None.
Proof. do 2 eexists. split_and!; vm_compute; reflexivity. Qed.
